(* ===== verification/_CoqProject ===== *)
-Q . S2P
Prelude.v
Cxx.v
SpinLock.v
StringView.v
OrderedMap.v
KvProperties.v
TraceState.v
Hex.v
Ids.v
Baggage.v
Context.v
Propagation.v
HttpTraceContext.v
OtherPropagators.v
HttpParse.v
Preload.v
PreloadSpans.v
PreloadHooks.v
PreloadCode.v
PreloadOwnership.v
PreloadThreads.v
PreloadLoad.v
RefCount.v
NostdPtr.v
GlobalProvider.v
RuntimeContext.v
ActiveSpan.v
Dice.v
Ads.v
SimplePreload.v
DockerPreload.v
UrlParser.v
HttpClient.v
DistributedTrace.v
CircularBuffer.v
Timestamp.v
HttpDate.v
HttpServer.v
HttpSegments.v
SocketTools.v
ServerLoop.v
ServerThread.v
FileServer.v
Attributes.v
Scopes.v
ApiCalls.v
SdkDefaults.v
Logger.v
EventLogger.v
Noop.v
Printing.v
SpanData.v
Plugin.v
Registry.v
SpanProcessors.v
SpanExport.v
Instruments.v
DefaultAggregation.v
MetricStorage.v
Exemplar.v
HistogramData.v
AsyncStorage.v
ExpHistogram.v
