(* ===== verification/Prelude.v ===== *)
(** * Verification library for the OpenTelemetry C++ APM demo

    The repository is a demo - a dice server and an advertisement server, traced by libraries that
    are preloaded and replace [accept], [read], [write] and [close] - with the headers of the
    OpenTelemetry C++ SDK it is built on (src/otel-cpp/install/include/opentelemetry, written OT
    below).  The programs and the code in the headers are modelled; what lives in shared libraries
    (tracer and meter providers, exporters, aggregations), in the kernel, in the C library or in the
    web framework is an argument of the model, with its documented behaviour as named laws.

    ** The parts and where they are

    Foundations.  [Prelude] (characters, searching, slices, tactics, hint databases), [Cxx] (the C
    and C++ library functions used), [OrderedMap] (std::map), [StringView] (OT/nostd/string_view.h),
    [SpinLock] (OT/common/spin_lock_mutex.h, and threads running sections under the lock).

    The preloaded tracer, src/roll-dice/preload_tracer.cpp.  [HttpParse] has its parsing of requests
    and responses; [Preload] its globals as a record, its hooks and helpers one by one in a state
    monad with exceptions and exit, each call on a span recorded in a log; [PreloadHooks] what each
    hook does on every branch; [PreloadSpans] the interleaving of the hooks of any number of threads
    and the life of every span.  [PreloadCode] writes the hooks again as programs whose steps are the
    single accesses to the globals, the mutex and the API, and shows that alone they are those of
    Preload; [PreloadOwnership] has what a thread owns between its steps, [PreloadThreads] the
    interleaving of these steps with SIGINT arriving anywhere, [PreloadLoad] what loading and unloading
    the library runs and in which order.  [SimplePreload] and [DockerPreload] are the two smaller tracers,
    src/libotel_preload.cpp and src/docker/src/ads_server/libotel_preload.cpp.

    The demo programs.  [Dice] is src/roll-dice/main.cpp, handlers and routes; [Ads] is the
    advertisement server, with its threads, and both clients.

    Trace context propagation.  [KvProperties] (OT/common/string_util.h, kv_properties.h), [Hex]
    (trace/propagation/detail), [Ids] (identifiers, flags, span contexts), [TraceState], [Baggage],
    [Context] (contexts as lists and, in Module Heap, as the linked nodes they are),
    [RuntimeContext] (the stack of a thread), [ActiveSpan] (scopes and the current span), [Propagation] (carriers and propagators as interfaces,
    the composite, the global one), [HttpTraceContext] (W3C), [OtherPropagators] (B3, Jaeger, baggage,
    and the composition of all).  A tracer that extracts (PreloadHooks) uses these definitions;
    [DistributedTrace] puts a client that injects, the bytes of its request and the hooks that read them together.

    The embedded HTTP server.  [HttpServer] (OT/ext/http/server/http_server.h: header parser, limits,
    state machine of a connection, callbacks), [SocketTools] (addresses; the registry of the
    reactor), [HttpSegments] (requests that arrive in pieces), [HttpDate] (the date of a response and the
    calendar behind it), [ServerLoop] (the thread of the reactor driving the server), [ServerThread] (ports, start,
    stop and destruction, the owner's thread and the reactor's interleaved), [FileServer] (a handler).

    Ownership and loading of code.  [RefCount] (lists of owners and their counts), [NostdPtr]
    (OT/nostd/shared_ptr.h, unique_ptr.h: wrappers living in the pointers' buffers), [GlobalProvider]
    (the global tracer, meter and logger providers), [Plugin] (OT/plugin: tracers from libraries loaded
    at run time), [Registry] (the builders of exporters).

    Clients and utilities.  [UrlParser], [HttpClient] (headers, requests, the synchronous client),
    [Timestamp], [SdkDefaults] (samplers, the internal log, timeouts), [CircularBuffer] (the lock-free buffer behind batch processors and the in-memory
    exporter, every atomic access a step).

    Recording logs, spans and metrics.  [ApiCalls] (spans of memory, views of attributes and links, the forms of a
    call), [Noop] (the API without an SDK: the span all no-op tracers share), [Attributes] (values, maps, hashes), [Scopes] (instrumentation scopes and their configurators), [Logger] and [EventLogger] (OT/logs), [Printing] (values on a
    stream), [SpanData], [SpanProcessors]
    (the linked list of processors on a heap), [SpanExport] (simple processor, in-memory exporter),
    [Instruments] (descriptors, selectors, views, registry), [DefaultAggregation] (which aggregation
    an instrument gets), [MetricStorage] (attributes of metrics, the limited map, synchronous storage,
    concurrent recording), [ExpHistogram] (points of exponential histograms and the counters they own), [AsyncStorage] (asynchronous storage, several storages), [Exemplar] (the
    reservoirs of measurements kept with their spans), [HistogramData] (points, merging, differences
    and the search for a bucket, with sums of doubles computed bit by bit).

    ** Conventions

    A C++ string, view or buffer is a list of characters, with what follows it in memory written out
    where the code reads on; a fixed-width integer is an integer with its wrap-around, a double its
    64 bits; a position out of range, an exception out of a [noexcept] function, a null or dangling
    pointer is an error value ([None], a fault, an exception outcome), never a default.  Shared
    objects live on explicit heaps (Context.Heap, SpanProcessors) and atomics are steps of a relation
    (CircularBuffer, SpinLock, GlobalProvider), as are the accesses to what threads share (PreloadSpans,
    PreloadThreads, Ads, ServerThread).  Definitions run: every witness
    evaluates them.

    ** What the theorems show

    - Transparency and lifetime: the hooks answer what the real calls answer; under any interleaving
      every call on a span is legal and no span is leaked (hooks_transparent, span_lifecycle,
      request_response_span).  Cut at every access the hooks alone do the same (alone_hooks), nothing
      crashes and at rest the running spans are those of the table (fine_lifecycle), some thread can
      always go on and hooks end once no new ones come (hooks_make_progress), and only the pointers to the real functions are written
      while they can be read (races_only_on_symbols).
    - Round trips: W3C, B3, composite propagation, trace state, baggage (but for commas and last blanks in
      metadata, metadata_splits), request headers, URLs without their credentials, socket addresses; parsers never read out of range and always return.
    - The server: every iteration of the connection loop ends within a computed bound
      (handleConnection_terminates), requests respect the limits, responses are conserved, the
      reactor's registry is a finite map and no assertion fails with any clients; a printed request
      is answered by the exact bytes of its response (http_exchange, file_exchange, where a directory opened as a
      file ends the thread with an exception).  Started, stopped
      and destroyed in this order its thread ends, is joined, and never races with its owner
      (server_thread_lifecycle).
    - From end to end: what a client injects is, read through the hooks of a traced server, the parent of its span
      (distributed_trace); a request cut into pieces anywhere is answered as if it had come whole (segmented_request); every
      form of a call of the API is one call of the virtual method with the attributes as written (start_span_forms,
      add_event_forms); an event is the same in whatever order its arguments are set (event_order); without an SDK all
      tracers share one span that injects nothing (noop_span_shared); a date can be read back (calendar, date_roundtrip).
    - Structures: the circular buffer is a queue under all interleavings, context nodes and the
      context stack refine lists, the list of processors is followed without a bad pointer by spans that may
      overlap (multi_processor_lifetime, spans_reach_memory).
    - Ownership: shared and unique pointers, also those that are members of the objects pointed to, count their
      owners and delete each object once (pointers_accounted; p = p->next faults, own_member_faults), providers are replaced atomically (providers_atomic), no code of a plugin
      runs after its library is closed (plugin_lifetime) unless a span's context is kept longer
      (context_outlives_library), the current span is that of the innermost
      scope (active_span_spec), points of exponential histograms are values (points_are_values), builders are deleted once
      (builders_accounted).
    - Metrics: one series per set of attributes up to the limit, nothing lost or counted twice, also
      from several threads (storage_series, concurrent_records); differences add up to totals below
      the limit, in what copying and merging respect, and do not above it (async_deltas_add_up,
      async_overflow_restarts); aggregations are
      created and copied at the right type; reservoirs stay within their cells (reservoir_safe); the
      bucket found by halving is the one a linear search finds (bucket_search_spec), and histograms
      merge while their difference loses the sum and the extremes (histogram_merge_diff).
    - Failures are theorems too: a response lost when sending would block, a connection that starves
      after a partial 100 Continue, a producer that blocks the lock-free buffer, a flush that always
      answers true, a null pointer followed for an event given by its number, a signal handler that
      waits for the mutex its own thread holds (sigint_in_section_hangs), a tracer that is
      used before its constructor has run while the library is loaded (load_outcome), a server that hears nothing when
      it is started again (restarted_server_is_deaf).

    ** Bounds and fuel

    Loops that are not structural take fuel, and a theorem shows that the amount given is enough: in
    Hex, KvProperties, TraceState and Baggage the length of the text, in Context.Heap, RuntimeContext
    and SpanProcessors the number of nodes or slots, in NostdPtr the number of variables, in HttpParse and HttpServer a measure of the
    bytes received and of the state of the connection.  Spin loops are not bounded: they are steps of
    a relation.

    ** Not modelled

    - Code that is not in the repository: tracer, meter and logger providers, batch processors,
      aggregations, temporal storage, the increments of the counters of exponential histograms, the HTTP client
      over curl and the exporters are declared here and defined in shared libraries.
    - The nostd types that only stand for standard ones (variant, function_ref) and the vendored Abseil, protobuf, gRPC
      and CURL headers: third-party or stand-ins for the standard library.
    - Semantic conventions (constants), abstract interfaces, methods with empty bodies, scripts, containers
      and configuration, and the dashboards.
    - The freeing of context nodes, and members of objects behind the global providers.
    - Weak memory: atomics are sequentially consistent.
    - The Windows and Mac branches.
    - The logic of the headers that remains is in the overloads that only convert an argument, the wrappers that only fix a
      severity, and accessors. *)

From stdpp Require Export base tactics list numbers gmap strings option.
From Stdlib Require Export Ascii Lia.

(** ** Bytes

    C++ strings, string views and buffers are lists of 8-bit characters. *)
Abbreviation bytes := (list ascii).

Declare Scope bytes_scope.
Delimit Scope bytes_scope with bytes.

(** A C string literal as a list of characters. *)
Definition B (s : string) : bytes := String.list_ascii_of_string s.

(** The value of a character as [unsigned char], and as the signed [char] of
    the x86-64 and aarch64-with-signed-char ABIs the images are built for. *)
Definition code (c : ascii) : Z := Z.of_N (N_of_ascii c).
Definition schar (c : ascii) : Z := if (code c <? 128)%Z then code c else (code c - 256)%Z.
Definition chr (z : Z) : ascii := ascii_of_N (Z.to_N (z `mod` 256)).

Definition ceq (a b : ascii) : bool := Ascii.eqb a b.
Definition beq (s t : bytes) : bool := bool_decide (s = t).

Abbreviation NUL := "000"%char.

#[global] Arguments ceq : simpl never.
#[global] Arguments beq : simpl never.

(** ** Characters *)

Lemma ceq_true a b : ceq a b = true ↔ a = b.
Proof. apply Ascii.eqb_eq. Qed.

Lemma ceq_false a b : ceq a b = false ↔ a ≠ b.
Proof. apply Ascii.eqb_neq. Qed.

Lemma ceq_refl a : ceq a a = true.
Proof. apply Ascii.eqb_refl. Qed.

Lemma beq_true s t : beq s t = true ↔ s = t.
Proof. unfold beq. apply bool_decide_eq_true. Qed.

Lemma beq_false s t : beq s t = false ↔ s ≠ t.
Proof. unfold beq. apply bool_decide_eq_false. Qed.

(** A statement about every character is checked on the 256 of them. *)
Definition all_ascii : list ascii := ascii_of_N ∘ N.of_nat <$> seq 0 256.

Lemma all_ascii_complete c : c ∈ all_ascii.
Proof.
  unfold all_ascii. apply list_elem_of_fmap. exists (N.to_nat (N_of_ascii c)).
  split.
  - simpl. by rewrite N2Nat.id, ascii_N_embedding.
  - apply elem_of_seq. pose proof (N_ascii_bounded c). lia.
Qed.

Lemma forall_ascii (P : ascii → bool) : forallb P all_ascii = true → ∀ c, P c = true.
Proof.
  intros H c. rewrite forallb_forall in H. apply H.
  apply list_elem_of_In, all_ascii_complete.
Qed.

(** A statement about the integers of a small range is checked on each of them. *)
Lemma forall_seqZ (P : Z → bool) m n :
  forallb P (seqZ m n) = true → ∀ z, (m ≤ z < m + n)%Z → P z = true.
Proof.
  intros H z Hz. rewrite forallb_forall in H. apply H, list_elem_of_In, elem_of_seqZ. lia.
Qed.

Lemma code_range c : (0 ≤ code c < 256)%Z.
Proof. unfold code. pose proof (N_ascii_bounded c). lia. Qed.

Lemma chr_code c : chr (code c) = c.
Proof.
  unfold chr. rewrite Z.mod_small by apply code_range.
  unfold code. by rewrite N2Z.id, ascii_N_embedding.
Qed.

Lemma code_chr z : (0 ≤ z < 256)%Z → code (chr z) = z.
Proof.
  intros H. unfold chr, code. rewrite Z.mod_small by done.
  rewrite N_ascii_embedding by lia. lia.
Qed.

Lemma code_inj a b : code a = code b → a = b.
Proof. intros H. by rewrite <-(chr_code a), <-(chr_code b), H. Qed.

(** ** Searching lists *)

Section search.
Context {A : Type}.
Implicit Types (p : A → bool) (l : list A).

(** Index of the first element satisfying [p]. *)
Fixpoint index_of p l : option nat :=
  match l with
  | [] => None
  | x :: l' => if p x then Some 0 else S <$> index_of p l'
  end.

Lemma index_of_Some p l i :
  index_of p l = Some i ↔
  ∃ l1 x l2, l = l1 ++ x :: l2 ∧ length l1 = i ∧ p x = true ∧ Forall (λ y, p y = false) l1.
Proof.
  revert i. induction l as [|y l IH]; intros i; simpl.
  - split; [done|]. intros (l1&x&l2&?&_). by destruct l1.
  - destruct (p y) eqn:Hy.
    + split.
      * intros [= <-]. exists [], y, l. eauto.
      * intros (l1&x&l2&Heq&Hlen&Hx&Hl). destruct l1 as [|z l1]; simplify_eq/=; [done|].
        inversion Hl. congruence.
    + rewrite fmap_Some. split.
      * intros (j & (l1&x&l2&->&<-&Hx&Hl)%IH & ->).
        exists (y :: l1), x, l2. eauto.
      * intros (l1&x&l2&Heq&Hlen&Hx&Hl). destruct l1 as [|z l1]; simplify_eq/=; [congruence|].
        inversion Hl. exists (length l1). split; [|done].
        apply IH. eauto 10.
Qed.

Lemma index_of_None p l : index_of p l = None ↔ Forall (λ y, p y = false) l.
Proof.
  induction l as [|y l IH]; simpl; [done|].
  rewrite list.Forall_cons. destruct (p y); [naive_solver|].
  rewrite fmap_None, IH. naive_solver.
Qed.

Lemma index_of_app_l p l1 l2 :
  Forall (λ y, p y = false) l1 →
  index_of p (l1 ++ l2) = (λ i, length l1 + i) <$> index_of p l2.
Proof.
  induction 1 as [|y l1 Hy _ IH]; simpl; [by destruct (index_of p l2)|].
  rewrite Hy, IH. by destruct (index_of p l2).
Qed.

Lemma index_of_hit p l1 x l2 :
  Forall (λ y, p y = false) l1 → p x = true →
  index_of p (l1 ++ x :: l2) = Some (length l1).
Proof. intros. apply index_of_Some. eauto 10. Qed.

Lemma index_of_lt p l i : index_of p l = Some i → i < length l.
Proof.
  intros (l1&x&l2&->&<-&_)%index_of_Some. rewrite length_app. simpl. lia.
Qed.

(** Longest prefix whose elements satisfy [p]. *)
Fixpoint take_while p l : list A :=
  match l with
  | [] => []
  | x :: l' => if p x then x :: take_while p l' else []
  end.

Fixpoint drop_while p l : list A :=
  match l with
  | [] => []
  | x :: l' => if p x then drop_while p l' else l
  end.

Lemma take_drop_while p l : take_while p l ++ drop_while p l = l.
Proof. induction l as [|x l IH]; simpl; [done|]. destruct (p x); simpl; by f_equal. Qed.

Lemma drop_length_take_while p l : drop (length (take_while p l)) l = drop_while p l.
Proof. induction l as [|x l IH]; simpl; [done|]. by destruct (p x). Qed.

Lemma take_while_length_le p l : length (take_while p l) ≤ length l.
Proof. induction l as [|x l IH]; simpl; [done|]. destruct (p x); simpl; lia. Qed.

Lemma take_while_all p l : Forall (λ y, p y = true) (take_while p l).
Proof. induction l as [|x l IH]; simpl; [done|]. destruct (p x) eqn:?; auto. Qed.

Lemma take_while_id p l : Forall (λ y, p y = true) l → take_while p l = l.
Proof. induction 1 as [|x l Hx _ IH]; simpl; [done|]. by rewrite Hx, IH. Qed.

Lemma take_while_app p l1 l2 :
  Forall (λ y, p y = true) l1 → take_while p (l1 ++ l2) = l1 ++ take_while p l2.
Proof. induction 1 as [|x l Hx _ IH]; simpl; [done|]. by rewrite Hx, IH. Qed.

Lemma drop_while_app p l1 l2 :
  Forall (λ y, p y = true) l1 → drop_while p (l1 ++ l2) = drop_while p l2.
Proof. induction 1 as [|x l Hx _ IH]; simpl; [done|]. by rewrite Hx, IH. Qed.

Lemma drop_while_nil p l : drop_while p l = [] ↔ Forall (λ y, p y = true) l.
Proof.
  induction l as [|x l IH]; simpl; [done|]. rewrite list.Forall_cons.
  destruct (p x); naive_solver.
Qed.

Lemma drop_while_head p l x l' : drop_while p l = x :: l' → p x = false.
Proof.
  induction l as [|y l IH]; simpl; [done|].
  destruct (p y) eqn:?; [done|]. by intros [= -> ->].
Qed.

Lemma drop_while_id p l : (∀ x l', l = x :: l' → p x = false) → drop_while p l = l.
Proof. intros H. destruct l as [|x l]; simpl; [done|]. by rewrite (H x l). Qed.

(** Boolean and propositional universal quantification agree. *)
Lemma forallb_Forall p l : forallb p l = true ↔ Forall (λ y, p y = true) l.
Proof.
  induction l as [|x l IH]; simpl; [done|].
  rewrite andb_true_iff, list.Forall_cons. by rewrite IH.
Qed.
End search.

(** ** Slices *)

(** [sub s i j] is the half-open slice of positions [i .. j-1]. *)
Definition slice {A} (s : list A) (i j : nat) : list A := take (j - i) (drop i s).

Lemma slice_app {A} (l1 l2 l3 : list A) :
  slice (l1 ++ l2 ++ l3) (length l1) (length l1 + length l2) = l2.
Proof.
  unfold slice. rewrite drop_app_length.
  replace (length l1 + length l2 - length l1) with (length l2) by lia.
  apply take_app_length.
Qed.

Lemma length_slice {A} (s : list A) i j :
  i ≤ j → j ≤ length s → length (slice s i j) = j - i.
Proof. intros. unfold slice. rewrite length_take, length_drop. lia. Qed.

Lemma omap_cons_eq {A C} (f : A → option C) x l :
  omap f (x :: l) = match f x with Some y => y :: omap f l | None => omap f l end.
Proof. done. Qed.

Lemma length_omap_le {A C} (f : A → option C) l : length (omap f l) ≤ length l.
Proof.
  induction l as [|x l IH]; [done|]. rewrite omap_cons_eq. destruct (f x); simpl; lia.
Qed.

(** ** Automation *)

Create HintDb otel.
Create Rewrite HintDb otel_len.
Create Rewrite HintDb otel_ctx.

#[export] Hint Rewrite @length_app @length_take @length_drop @length_cons @length_fmap
  @length_replicate : otel_len.

#[export] Hint Resolve code_range : otel.

(** Split boolean conjunctions and comparisons in the context into propositions. *)
Ltac bprop :=
  repeat match goal with
  | H : _ && _ = true |- _ => apply andb_true_iff in H as [? ?]
  | H : _ || _ = false |- _ => apply orb_false_iff in H as [? ?]
  | H : negb _ = true |- _ => apply negb_true_iff in H
  | H : negb _ = false |- _ => apply negb_false_iff in H
  | H : ceq _ _ = true |- _ => apply ceq_true in H
  | H : ceq _ _ = false |- _ => apply ceq_false in H
  | H : beq _ _ = true |- _ => apply beq_true in H
  | H : beq _ _ = false |- _ => apply beq_false in H
  | H : bool_decide _ = true |- _ => apply bool_decide_eq_true in H
  | H : bool_decide _ = false |- _ => apply bool_decide_eq_false in H
  | H : (_ <=? _) = true |- _ => apply Nat.leb_le in H
  | H : (_ <=? _) = false |- _ => apply Nat.leb_gt in H
  | H : (_ <? _) = true |- _ => apply Nat.ltb_lt in H
  | H : (_ <? _) = false |- _ => apply Nat.ltb_ge in H
  | H : (_ =? _) = true |- _ => apply Nat.eqb_eq in H
  | H : (_ =? _) = false |- _ => apply Nat.eqb_neq in H
  | H : (_ <=? _)%Z = true |- _ => apply Z.leb_le in H
  | H : (_ <=? _)%Z = false |- _ => apply Z.leb_gt in H
  | H : (_ <? _)%Z = true |- _ => apply Z.ltb_lt in H
  | H : (_ <? _)%Z = false |- _ => apply Z.ltb_ge in H
  | H : (_ =? _)%Z = true |- _ => apply Z.eqb_eq in H
  | H : (_ =? _)%Z = false |- _ => apply Z.eqb_neq in H
  end.

(** Prove a property of one character by running it on all of them. *)
Ltac ascii_cases c :=
  repeat match goal with H : context [c] |- _ => clear H end;
  revert c;
  match goal with
  | |- ∀ c : ascii, @?P c = true => apply (forall_ascii P); vm_compute; reflexivity
  end.

(** A run that meets an element outside the predicate does not look further. *)
Lemma take_while_stop {A} (p : A → bool) a c r : p c = false → take_while p (a ++ c :: r) = take_while p a.
Proof.
  intros Hc. induction a as [|x a IH]; simpl; [by rewrite Hc|]. destruct (p x); [|done]. by rewrite IH.
Qed.
