(* ===== verification/Cxx.v ===== *)
(** * The parts of the C and C++ standard libraries the program uses

    Character classes in the "C" locale (the bytes above 127 belong to no class, as in
    glibc), [strtol] and the functions built on it, decimal printing, and the [std::string]
    searches.  These are library code: they have no counterpart under src/. *)
From S2P Require Export Prelude.

(** ** <cctype> *)

Definition in_range (lo hi c : ascii) : bool := (code lo <=? code c)%Z && (code c <=? code hi)%Z.

Definition isdigit (c : ascii) : bool := in_range "0" "9" c.
Definition islower (c : ascii) : bool := in_range "a" "z" c.
Definition isupper (c : ascii) : bool := in_range "A" "Z" c.
Definition isalnum (c : ascii) : bool := isdigit c || islower c || isupper c.
Definition isspace (c : ascii) : bool := ceq c " " || in_range "009" "013" c.
Definition toupper (c : ascii) : ascii := if islower c then chr (code c - 32) else c.
Definition tolower (c : ascii) : ascii := if isupper c then chr (code c + 32) else c.

(** ** <cstring> *)

(** What a NUL-terminated read of a buffer sees: the characters before the first NUL. *)
Definition cstr (s : bytes) : bytes := take_while (λ c, negb (ceq c NUL)) s.

Definition no_nul (s : bytes) : Prop := Forall (λ c, c ≠ NUL) s.

Lemma cstr_id s : no_nul s → cstr s = s.
Proof.
  intros H. apply take_while_id. eapply list.Forall_impl; [exact H|].
  intros c Hc. simpl. by apply negb_true_iff, ceq_false.
Qed.

Lemma cstr_no_nul s : no_nul (cstr s).
Proof.
  eapply list.Forall_impl; [apply take_while_all|]. simpl. intros c Hc. by bprop.
Qed.

Lemma cstr_idemp s : cstr (cstr s) = cstr s.
Proof. apply cstr_id, cstr_no_nul. Qed.

(** A literal of the source holds no NUL. *)
Definition no_nulb (s : bytes) : bool := forallb (λ c, negb (ceq c NUL)) s.

Lemma no_nulb_spec s : no_nulb s = true → no_nul s.
Proof.
  intros H%forallb_Forall. eapply list.Forall_impl; [exact H|]. simpl. intros c Hc. by bprop.
Qed.

(** ** std::string searches; [None] is [npos] *)

Definition find_if_from (p : ascii → bool) (s : bytes) (pos : nat) : option nat :=
  (λ i, pos + i) <$> index_of p (drop pos s).

Definition find_char (c : ascii) (s : bytes) (pos : nat) : option nat := find_if_from (ceq c) s pos.

Fixpoint is_prefix (n s : bytes) : bool :=
  match n, s with
  | [], _ => true
  | _, [] => false
  | a :: n', b :: s' => ceq a b && is_prefix n' s'
  end.

Fixpoint find_sub_at (n s : bytes) (pos : nat) : option nat :=
  if is_prefix n s then Some pos
  else match s with
       | [] => None
       | _ :: s' => find_sub_at n s' (S pos)
       end.

(** [s.find(n, pos)] for a non-empty needle. *)
Definition find_sub (n s : bytes) (pos : nat) : option nat :=
  if length s <? pos then None else find_sub_at n (drop pos s) pos.

(** [s.substr(pos, n)]: throws [out_of_range] past the end. *)
Definition substr (s : bytes) (pos : nat) (n : option nat) : option bytes :=
  if length s <? pos then None
  else Some match n with None => drop pos s | Some k => take k (drop pos s) end.

Lemma is_prefix_spec n s : is_prefix n s = true ↔ ∃ r, s = n ++ r.
Proof.
  revert s. induction n as [|a n IH]; intros s; simpl; [naive_solver|].
  destruct s as [|b s]; [split; [done|by intros [? ?]]|].
  rewrite andb_true_iff, ceq_true, IH. split.
  - intros [-> [r ->]]. by exists r.
  - intros [r [= -> ->]]. eauto.
Qed.

Lemma find_sub_end n s pos i : n ≠ [] → find_sub n s pos = Some i → pos ≤ i ∧ i + length n ≤ length s.
Proof.
  intros Hn. unfold find_sub. destruct (length s <? pos) eqn:Hp; [done|]. bprop.
  assert (H : ∀ t k, find_sub_at n t k = Some i → k ≤ i ∧ i + length n ≤ k + length t).
  { induction t as [|c t IH]; intros k; cbn [find_sub_at]; destruct (is_prefix n _) eqn:E; try done.
    - by destruct n.
    - intros [= <-]. apply is_prefix_spec in E as [r Hr]. rewrite Hr, length_app. lia.
    - intros H%IH. cbn [length]. lia. }
  intros H'%H. rewrite length_drop in H'. lia.
Qed.

Lemma find_if_from_lt p s pos i : find_if_from p s pos = Some i → pos ≤ i < length s.
Proof.
  unfold find_if_from. intros (j & Hj%index_of_lt & ->)%fmap_Some.
  rewrite length_drop in Hj. lia.
Qed.

Lemma substr_spec s pos n :
  pos ≤ length s → substr s pos n = Some match n with None => drop pos s | Some k => take k (drop pos s) end.
Proof. intros H. unfold substr. by rewrite (proj2 (Nat.ltb_ge _ _)) by lia. Qed.

Lemma substr_slice s i j :
  i ≤ length s → substr s i (Some (j - i)) = Some (slice s i j).
Proof. intros. by rewrite substr_spec by lia. Qed.

(** ** Decimal conversions *)

Definition digit_val (c : ascii) : Z := code c - 48.
Definition digit_chr (d : Z) : ascii := chr (48 + d).

Definition dec_step (a : Z) (c : ascii) : Z := (a * 10 + digit_val c)%Z.
Definition dec_value (s : bytes) : Z := fold_left dec_step s 0%Z.

(** Decimal digits of a non-negative integer, most significant first. *)
Fixpoint dec_digits (fuel : nat) (n : Z) (acc : bytes) : bytes :=
  match fuel with
  | O => acc
  | S f =>
      let acc' := digit_chr (n `mod` 10) :: acc in
      if (n `div` 10 =? 0)%Z then acc' else dec_digits f (n `div` 10) acc'
  end.

Definition dec_fuel (n : Z) : nat := S (Z.to_nat (Z.log2 n)).

Definition to_string (n : Z) : bytes :=
  if (n <? 0)%Z then "-"%char :: dec_digits (dec_fuel (- n)) (- n) []
  else dec_digits (dec_fuel n) n [].

Definition INT_MIN : Z := (- 2 ^ 31)%Z.
Definition INT_MAX : Z := (2 ^ 31 - 1)%Z.
Definition LONG_MIN : Z := (- 2 ^ 63)%Z.
Definition LONG_MAX : Z := (2 ^ 63 - 1)%Z.

(** [strtol(s, &end, 10)] on a 64-bit [long]: the value, clamped with [errno = ERANGE], and
    how far the end pointer moved. *)
Record strtol_result := StrtolResult {
  st_value : Z;
  st_end : nat;
  st_erange : bool;
}.

Definition sign_of (s : bytes) : bool * nat :=
  match s with
  | c :: _ => if ceq c "-" then (true, 1) else if ceq c "+" then (false, 1) else (false, 0)
  | [] => (false, 0)
  end.

Definition strtol10 (s : bytes) : strtol_result :=
  let sp := length (take_while isspace s) in
  let '(neg, sg) := sign_of (drop sp s) in
  let ds := take_while isdigit (drop (sp + sg) s) in
  match ds with
  | [] => StrtolResult 0 0 false
  | _ :: _ =>
      let v := if neg then (- dec_value ds)%Z else dec_value ds in
      let e := sp + sg + length ds in
      if (LONG_MAX <? v)%Z then StrtolResult LONG_MAX e true
      else if (v <? LONG_MIN)%Z then StrtolResult LONG_MIN e true
      else StrtolResult v e false
  end.

(** [std::stol] and [std::stoi]: [None] when they throw [invalid_argument] or [out_of_range]. *)
Definition stol (s : bytes) : option Z :=
  let r := strtol10 s in
  if (st_end r =? 0) || st_erange r then None else Some (st_value r).

Definition stoi (s : bytes) : option Z :=
  v ← stol s; if (INT_MIN <=? v)%Z && (v <=? INT_MAX)%Z then Some v else None.

(** [atoi], as glibc has it: the low 32 bits of [strtol]. *)
Definition atoi (s : bytes) : Z :=
  let v := (st_value (strtol10 s) mod 2 ^ 32)%Z in if (v <? 2 ^ 31)%Z then v else (v - 2 ^ 32)%Z.

(** ** Properties of the decimal conversions *)

Lemma digit_chr_val d : (0 ≤ d < 10)%Z → digit_val (digit_chr d) = d.
Proof. intros. unfold digit_val, digit_chr. rewrite code_chr by lia. lia. Qed.

Lemma isdigit_digit_chr d : (0 ≤ d < 10)%Z → isdigit (digit_chr d) = true.
Proof.
  intros. unfold isdigit, in_range, digit_chr. rewrite code_chr by lia.
  apply andb_true_iff. split; apply Z.leb_le; vm_compute code; lia.
Qed.

Lemma digit_val_range c : isdigit c = true → (0 ≤ digit_val c ≤ 9)%Z.
Proof.
  unfold isdigit, in_range, digit_val. intros. bprop.
  change (code "0") with 48%Z in *. change (code "9") with 57%Z in *. lia.
Qed.

Lemma dec_value_app a s t :
  fold_left dec_step (s ++ t) a = fold_left dec_step t (fold_left dec_step s a).
Proof. apply fold_left_app. Qed.

Lemma dec_value_nonneg s a :
  (0 ≤ a)%Z → Forall (λ c, isdigit c = true) s → (0 ≤ fold_left dec_step s a)%Z.
Proof.
  intros Ha H. revert a Ha. induction H as [|c s Hc _ IH]; intros a Ha; simpl; [done|].
  apply IH. unfold dec_step. apply digit_val_range in Hc. lia.
Qed.

Lemma dec_digits_acc f n acc : dec_digits f n acc = dec_digits f n [] ++ acc.
Proof.
  revert n acc. induction f as [|f IH]; intros n acc; simpl; [done|].
  case_match; [done|]. rewrite (IH _ (_ :: acc)), (IH _ [_]), <-(assoc_L (++)). done.
Qed.

Lemma log2_div10 n : (0 < n `div` 10)%Z → (Z.log2 (n `div` 10) < Z.log2 n)%Z.
Proof.
  intros H. assert (10 ≤ n)%Z.
  { destruct (Z.lt_ge_cases n 10) as [Hlt|]; [|lia].
    destruct (Z.lt_ge_cases n 0); [|rewrite Z.div_small in H; lia].
    assert (n `div` 10 < 0)%Z by (apply Z.div_lt_upper_bound; lia). lia. }
  apply Z.log2_lt_pow2; [done|].
  pose proof (Z.log2_spec n ltac:(lia)) as [Hlo Hhi].
  apply Z.div_lt_upper_bound; [lia|].
  rewrite Z.pow_succ_r in Hhi by apply Z.log2_nonneg.
  pose proof (Z.pow_pos_nonneg 2 (Z.log2 n) ltac:(lia) (Z.log2_nonneg n)). lia.
Qed.

Lemma dec_digits_spec f n :
  (0 ≤ n)%Z → Z.to_nat (Z.log2 n) < f →
  dec_value (dec_digits f n []) = n
  ∧ Forall (λ c, isdigit c = true) (dec_digits f n [])
  ∧ dec_digits f n [] ≠ [].
Proof.
  revert n. induction f as [|f IH]; intros n Hn Hf; [lia|]. simpl.
  pose proof (Z.mod_pos_bound n 10 ltac:(lia)) as Hm.
  destruct (n `div` 10 =? 0)%Z eqn:Hd; bprop.
  - assert (n `mod` 10 = n)%Z by (apply Z.div_small_iff in Hd; [rewrite Z.mod_small; lia|lia]).
    split_and!; [|by repeat constructor; apply isdigit_digit_chr; lia|done].
    unfold dec_value. simpl. unfold dec_step. rewrite digit_chr_val; lia.
  - assert (0 < n `div` 10)%Z by (pose proof (Z.div_pos n 10 Hn ltac:(lia)); lia).
    pose proof (log2_div10 n ltac:(lia)).
    destruct (IH (n `div` 10)%Z) as (Hv & Hall & _); [lia|pose proof (Z.log2_nonneg (n `div` 10)); lia|].
    rewrite dec_digits_acc. split_and!.
    + unfold dec_value in *. rewrite dec_value_app, Hv. simpl. unfold dec_step.
      rewrite digit_chr_val by lia. pose proof (Z.div_mod n 10). lia.
    + apply list.Forall_app. split; [done|]. repeat constructor. by apply isdigit_digit_chr.
    + by destruct (dec_digits f _ []).
Qed.

Lemma to_string_nonneg n :
  (0 ≤ n)%Z →
  dec_value (to_string n) = n ∧ Forall (λ c, isdigit c = true) (to_string n) ∧ to_string n ≠ [].
Proof.
  intros. unfold to_string. rewrite (proj2 (Z.ltb_ge _ _)) by done.
  apply dec_digits_spec; [done|]. unfold dec_fuel. lia.
Qed.

Lemma digit_not_space c : isdigit c = true → isspace c = false.
Proof.
  intros H. enough (Hc : (negb (isdigit c) || negb (isspace c)) = true).
  { rewrite H in Hc. by apply negb_true_iff. }
  ascii_cases c.
Qed.

Lemma digit_not_sign c : isdigit c = true → ceq c "-" = false ∧ ceq c "+" = false.
Proof.
  intros H. enough (Hc : (negb (isdigit c) || (negb (ceq c "-") && negb (ceq c "+"))) = true).
  { rewrite H in Hc. by apply andb_true_iff in Hc as [?%negb_true_iff ?%negb_true_iff]. }
  ascii_cases c.
Qed.

(** [strtol] on a run of digits followed by something else. *)
Lemma strtol10_digits ds r :
  ds ≠ [] → Forall (λ c, isdigit c = true) ds → take_while isdigit r = [] →
  (dec_value ds ≤ LONG_MAX)%Z →
  strtol10 (ds ++ r) = StrtolResult (dec_value ds) (length ds) false.
Proof.
  intros Hne Hall Hr Hmax. pose proof (dec_value_nonneg ds 0 ltac:(lia) Hall) as Hnn.
  destruct ds as [|c ds]; [done|]. pose proof Hall as [Hc Hds]%list.Forall_cons.
  unfold strtol10. simpl. rewrite digit_not_space by done. simpl.
  destruct (digit_not_sign c Hc) as [-> ->]. simpl. rewrite Hc.
  rewrite take_while_app, Hr, app_nil_r by done.
  change (fold_left dec_step (c :: ds) 0%Z) with (dec_value (c :: ds)) in Hnn.
  rewrite (proj2 (Z.ltb_ge _ _)) by done.
  rewrite (proj2 (Z.ltb_ge _ _)) by (unfold LONG_MIN; lia). done.
Qed.

Lemma stol_to_string n : (0 ≤ n ≤ LONG_MAX)%Z → stol (to_string n) = Some n.
Proof.
  intros [H0 H1]. destruct (to_string_nonneg n H0) as (Hv & Hall & Hne).
  unfold stol. rewrite <-(app_nil_r (to_string n)).
  rewrite strtol10_digits by (rewrite ?Hv; done). simpl.
  destruct (to_string n) eqn:E; [done|]. simpl. by rewrite Hv.
Qed.

Lemma stoi_to_string n : (0 ≤ n ≤ INT_MAX)%Z → stoi (to_string n) = Some n.
Proof.
  intros H. unfold stoi. rewrite stol_to_string; [|unfold INT_MAX, LONG_MAX in *; lia]. simpl.
  rewrite (proj2 (Z.leb_le _ _)), (proj2 (Z.leb_le _ _)); [done|lia|unfold INT_MIN; lia].
Qed.

Lemma digit_no_nul c : isdigit c = true → c ≠ NUL.
Proof. intros H ->. vm_compute in H. done. Qed.

Lemma to_string_no_nul n : (0 ≤ n)%Z → no_nul (to_string n).
Proof.
  intros (_ & H & _)%to_string_nonneg. eapply list.Forall_impl; [exact H|]. apply digit_no_nul.
Qed.

Lemma stoi_range s v : stoi s = Some v → (INT_MIN ≤ v ≤ INT_MAX)%Z.
Proof.
  unfold stoi. intros (w & _ & H)%bind_Some. case_match; simplify_eq. bprop. lia.
Qed.
