(* ===== verification/SpinLock.v ===== *)
(** * The spin lock and what it protects

    common/spin_lock_mutex.h: every access to the atomic flag is one step, and the steps of any number
    of threads interleave.  Memory is sequentially consistent; pauses, yields and sleeps do nothing to
    the state.

    A client of the lock runs sections of two steps on a shared object, so that a lock that let two
    threads in would show. *)
From S2P Require Export Prelude.

(** ** The lock *)

Definition SPINLOCK_FAST_ITERATIONS : nat := 100.

(** [flag_.exchange(true)] and [flag_.load()] *)
Definition flag_exchange (flag_ : bool) : bool * bool := (true, flag_).
Definition flag_load (flag_ : bool) : bool * bool := (flag_, flag_).
Definition unlock (flag_ : bool) : bool := false.

(** Where a thread is in [lock]: at the exchange it starts with, at the load or the exchange of the
    [try_lock] of the i-th fast iteration, or at those of the [try_lock] after the yield. *)
Inductive lock_pc :=
  | AtExchange
  | FastLoad (i : nat)
  | FastExchange (i : nat)
  | YieldLoad
  | YieldExchange.

(** The fast loop: its next iteration, or what follows it. *)
Definition fast (i : nat) : lock_pc := if i <? SPINLOCK_FAST_ITERATIONS then FastLoad i else YieldLoad.

(** One atomic access; [None] is the return from [lock]. *)
Definition lock_step (flag_ : bool) (pc : lock_pc) : bool * option lock_pc :=
  match pc with
  | AtExchange => let '(flag_, was) := flag_exchange flag_ in (flag_, if was then Some (fast 0) else None)
  | FastLoad i => let '(flag_, is_) := flag_load flag_ in (flag_, Some (if is_ then fast (S i) else FastExchange i))
  | FastExchange i => let '(flag_, was) := flag_exchange flag_ in (flag_, if was then Some (fast (S i)) else None)
  | YieldLoad => let '(flag_, is_) := flag_load flag_ in (flag_, Some (if is_ then AtExchange else YieldExchange))
  | YieldExchange => let '(flag_, was) := flag_exchange flag_ in (flag_, if was then Some AtExchange else None)
  end.

(** [try_lock] with nobody in between. *)
Definition try_lock (flag_ : bool) : bool * bool :=
  let '(flag_, is_) := flag_load flag_ in
  if negb is_ then let '(flag_, was) := flag_exchange flag_ in (flag_, negb was) else (flag_, false).

(** A thread alone at the lock. *)
Fixpoint lock_alone (fuel : nat) (flag_ : bool) (pc : lock_pc) : bool * option lock_pc :=
  match fuel with
  | 0 => (flag_, Some pc)
  | S fuel => match lock_step flag_ pc with (flag_, Some pc) => lock_alone fuel flag_ pc | (flag_, None) => (flag_, None) end
  end.

(** A free lock is taken within two steps, wherever the thread is in its loops. *)
Lemma lock_free_returns pc : lock_alone 2 false pc = (true, None).
Proof. by destruct pc. Qed.

(** While the lock is held a thread comes back to the exchange every hundred and two steps: one
    exchange, the loads of the fast loop and the one after the yield. *)
Lemma lock_held_cycle : lock_alone 102 true AtExchange = (true, Some AtExchange).
Proof. vm_compute. reflexivity. Qed.

Lemma try_lock_spec flag_ : try_lock flag_ = (true, negb flag_).
Proof. by destruct flag_. Qed.

(** A step of [lock] leaves a held lock held, and returns only from a free one, which it takes. *)
Lemma lock_step_held pc : ∃ pc', lock_step true pc = (true, Some pc').
Proof. destruct pc; by eexists. Qed.

Lemma lock_step_free pc : lock_step false pc = (true, None) ∨ ∃ pc', lock_step false pc = (false, Some pc').
Proof. destruct pc; cbn; eauto. Qed.

(** ** Threads *)

Section clients.
Context {X O P : Type}.

(** A section reads and changes the object, remembers something, and changes it again. *)
Context (first_half : O → X → X * P) (second_half : O → P → X → X).

Definition whole (x : X) (o : O) : X := let '(x', p) := first_half o x in second_half o p x'.

(** What a thread still has to do, and where it is. *)
Inductive thread :=
  | Outside (todo : list O)
  | Locking (pc : lock_pc) (o : O) (todo : list O)
  | Inside (o : O) (todo : list O)
  | Between (p : P) (o : O) (todo : list O)
  | Leaving (todo : list O).

(** [history] records the sections in the order of their ends. *)
Record World := MkWorld {
  flag : bool;
  object : X;
  threads : gmap nat thread;
  history : list (nat * O);
}.

Definition set_thread (w : World) (f : bool) (x : X) (t : nat) (th : thread) : World :=
  MkWorld f x (<[t := th]> (threads w)) (history w).

Inductive client_step : World → World → Prop :=
  | call_lock w t o todo :
      threads w !! t = Some (Outside (o :: todo)) →
      client_step w (set_thread w (flag w) (object w) t (Locking AtExchange o todo))
  | locking w t pc o todo f pc' :
      threads w !! t = Some (Locking pc o todo) → lock_step (flag w) pc = (f, Some pc') →
      client_step w (set_thread w f (object w) t (Locking pc' o todo))
  | locked w t pc o todo f :
      threads w !! t = Some (Locking pc o todo) → lock_step (flag w) pc = (f, None) →
      client_step w (set_thread w f (object w) t (Inside o todo))
  | section_first w t o todo x p :
      threads w !! t = Some (Inside o todo) → first_half o (object w) = (x, p) →
      client_step w (set_thread w (flag w) x t (Between p o todo))
  | section_second w t p o todo :
      threads w !! t = Some (Between p o todo) →
      client_step w (MkWorld (flag w) (second_half o p (object w)) (<[t := Leaving todo]> (threads w)) (history w ++ [(t, o)]))
  | call_unlock w t todo :
      threads w !! t = Some (Leaving todo) →
      client_step w (set_thread w (unlock (flag w)) (object w) t (Outside todo)).

Definition start (x : X) (programs : gmap nat (list O)) : World := MkWorld false x (Outside <$> programs) [].

Definition remaining (th : thread) : list O :=
  match th with
  | Outside todo | Leaving todo => todo
  | Locking _ o todo | Inside o todo | Between _ o todo => o :: todo
  end.

Definition holds (th : thread) : bool :=
  match th with Inside _ _ | Between _ _ _ | Leaving _ => true | _ => false end.

Definition finished (w : World) : Prop := ∀ t th, threads w !! t = Some th → th = Outside [].

(** ** The invariant *)

(** The object as the sections so far left it. *)
Definition settled (x0 : X) (w : World) : X := foldl whole x0 (history w).*2.

(** What the object is while a thread holds the lock. *)
Definition holder_ok (x0 : X) (w : World) (th : thread) : Prop :=
  match th with
  | Between p o _ => first_half o (settled x0 w) = (object w, p)
  | _ => object w = settled x0 w
  end.

Definition of_thread (t : nat) (h : list (nat * O)) : list O := (List.filter (λ e, e.1 =? t) h).*2.

Record lock_inv (x0 : X) (programs : gmap nat (list O)) (w : World) : Prop := MkLockInv {
  inv_object :
    if flag w then ∃ t th, threads w !! t = Some th ∧ holds th = true ∧ holder_ok x0 w th ∧
                     ∀ t' th', threads w !! t' = Some th' → holds th' = true → t' = t
    else object w = settled x0 w ∧ ∀ t th, threads w !! t = Some th → holds th = false;
  inv_history : ∀ t, (λ th, of_thread t (history w) ++ remaining th) <$> threads w !! t = programs !! t;
  inv_of_thread : ∀ t, threads w !! t = None → of_thread t (history w) = [];
}.

Lemma of_thread_snoc t h t' o : of_thread t (h ++ [(t', o)]) = of_thread t h ++ (if t' =? t then [o] else []).
Proof. unfold of_thread. rewrite List.filter_app, fmap_app. cbn [List.filter fst]. by destruct (t' =? t). Qed.

Lemma start_inv x0 programs : lock_inv x0 programs (start x0 programs).
Proof.
  split; cbn [start flag object threads history].
  - split; [done|]. intros t th. rewrite lookup_fmap. by intros (? & _ & ->)%fmap_Some.
  - intros t. rewrite lookup_fmap. by destruct (programs !! t).
  - done.
Qed.

(** A step that changes neither the history nor the rest of a thread's work. *)
Lemma quiet_history x0 programs w t th th' :
  lock_inv x0 programs w → threads w !! t = Some th → remaining th' = remaining th →
  (∀ t', (λ th, of_thread t' (history w) ++ remaining th) <$> <[t := th']> (threads w) !! t' = programs !! t') ∧
  (∀ t', <[t := th']> (threads w) !! t' = None → of_thread t' (history w) = []).
Proof.
  intros [_ Hh Hn] Ht Hr. split; intros t'; destruct (decide (t' = t)) as [->|Hne].
  - rewrite lookup_insert_eq, <-Hh, Ht. cbn [fmap option_fmap option_map]. by rewrite Hr.
  - by rewrite lookup_insert_ne.
  - by rewrite lookup_insert_eq.
  - rewrite lookup_insert_ne by done. apply Hn.
Qed.

(** The thread that is said to hold the lock is the one that does. *)
Lemma holder_unique x0 programs w t th :
  lock_inv x0 programs w → threads w !! t = Some th → holds th = true →
  flag w = true ∧ holder_ok x0 w th ∧ ∀ t' th', threads w !! t' = Some th' → holds th' = true → t' = t.
Proof.
  intros [Ho _ _] Ht Hh. destruct (flag w).
  - destruct Ho as (t0 & th0 & Ht0 & Hh0 & Hok & Hu). assert (t = t0) as -> by by apply (Hu t th).
    rewrite Ht in Ht0. injection Ht0 as ->. done.
  - destruct Ho as [_ Ho]. specialize (Ho t th Ht). congruence.
Qed.

Lemma lock_step_waits f f' pc pc' : lock_step f pc = (f', Some pc') → f' = f.
Proof. destruct f, pc; cbn; try destruct (_ <? _); naive_solver. Qed.

Lemma lock_step_takes f f' pc : lock_step f pc = (f', None) → f = false ∧ f' = true.
Proof. destruct f, pc; cbn; try destruct (_ <? _); naive_solver. Qed.

(** A thread that does not hold the lock and goes on not holding it. *)
Lemma outside_step x0 programs w t th th' :
  lock_inv x0 programs w → threads w !! t = Some th → holds th = false → holds th' = false →
  remaining th' = remaining th → lock_inv x0 programs (set_thread w (flag w) (object w) t th').
Proof.
  intros Hinv Ht Hh Hh' Hr. destruct (quiet_history x0 programs w t th th' Hinv Ht Hr) as [Hhist Hn].
  split; [|exact Hhist|exact Hn]. destruct Hinv as [Ho _ _]. cbn [set_thread flag object threads].
  assert (Hother : ∀ t' th'', <[t := th']> (threads w) !! t' = Some th'' → holds th'' = true → t' ≠ t ∧ threads w !! t' = Some th'').
  { intros t' th'' Hl Hx. destruct (decide (t' = t)) as [->|]; [rewrite lookup_insert_eq in Hl; congruence|].
    by rewrite lookup_insert_ne in Hl. }
  destruct (flag w).
  - destruct Ho as (t0 & th0 & Ht0 & Hh0 & Hok & Hu). exists t0, th0. split_and!; [|done|by destruct th0|].
    + rewrite lookup_insert_ne; [done|]. intros ->. congruence.
    + intros t' th'' Hl Hx. destruct (Hother t' th'' Hl Hx) as [_ Hl']. by apply (Hu t' th'').
  - destruct Ho as [Hobj Ho]. split; [done|]. intros t' th'' Hl. destruct (holds th'') eqn:Hx; [|done].
    destruct (Hother t' th'' Hl Hx) as [_ Hl']. by rewrite <-(Ho t' th'' Hl').
Qed.

(** A thread that holds the lock afterwards, when no other did before. *)
Lemma inside_step x0 programs w t th th' x :
  lock_inv x0 programs w → threads w !! t = Some th → holds th' = true → remaining th' = remaining th →
  holder_ok x0 (set_thread w true x t th') th' →
  (∀ t' th'', threads w !! t' = Some th'' → holds th'' = true → t' = t) →
  lock_inv x0 programs (set_thread w true x t th').
Proof.
  intros Hinv Ht Hh Hr Hok Hu. destruct (quiet_history x0 programs w t th th' Hinv Ht Hr) as [Hhist Hn].
  split; [|exact Hhist|exact Hn]. cbn [set_thread flag object threads]. exists t, th'. rewrite lookup_insert_eq.
  split_and!; [done..|]. intros t' th'' Hl Hx. destruct (decide (t' = t)) as [|Hne]; [done|].
  rewrite lookup_insert_ne in Hl by done. by apply (Hu t' th'').
Qed.

Lemma step_inv x0 programs w w' : lock_inv x0 programs w → client_step w w' → lock_inv x0 programs w'.
Proof.
  intros Hinv Hstep. destruct Hstep as [w t o todo Ht|w t pc o todo f pc' Ht Hl|w t pc o todo f Ht Hl|w t o todo x p Ht Hx
    |w t p o todo Ht|w t todo Ht].
  - by apply (outside_step x0 programs w t _ _ Hinv Ht).
  - apply lock_step_waits in Hl as ->. by apply (outside_step x0 programs w t _ _ Hinv Ht).
  - apply lock_step_takes in Hl as [Hf ->]. pose proof (inv_object _ _ _ Hinv) as Ho. rewrite Hf in Ho. destruct Ho as [Hobj Ho].
    apply (inside_step x0 programs w t _ _ _ Hinv Ht); [done..|]. intros t' th' Ht' Hh. rewrite (Ho t' th' Ht') in Hh. done.
  - destruct (holder_unique x0 programs w t _ Hinv Ht eq_refl) as (Hf & Hok & Hu). rewrite Hf.
    apply (inside_step x0 programs w t _ _ _ Hinv Ht); [done..| |done].
    change (first_half o (settled x0 w) = (x, p)). cbn in Hok. by rewrite <-Hok.
  - destruct (holder_unique x0 programs w t _ Hinv Ht eq_refl) as (Hf & Hok & Hu).
    destruct Hinv as [_ Hh Hn]. split; cbn [flag object threads history].
    + rewrite Hf. exists t, (Leaving todo). rewrite lookup_insert_eq. split_and!; [done..| |].
      * cbn [holder_ok object] in *. unfold settled in *. cbn [history]. rewrite fmap_app, foldl_app.
        cbn [fmap list_fmap snd foldl]. unfold whole at 1. by rewrite Hok.
      * intros t' th' Hl Hx. destruct (decide (t' = t)) as [|Hne]; [done|]. rewrite lookup_insert_ne in Hl by done.
        by apply (Hu t' th').
    + intros t'. specialize (Hh t'). rewrite of_thread_snoc. destruct (decide (t' = t)) as [->|Hne].
      * rewrite lookup_insert_eq, <-Hh, Ht, Nat.eqb_refl. cbn. by rewrite <-app_assoc.
      * rewrite lookup_insert_ne by done. destruct (Nat.eqb_spec t t'); [congruence|]. by rewrite app_nil_r.
    + intros t'. rewrite of_thread_snoc. destruct (decide (t' = t)) as [->|Hne]; [by rewrite lookup_insert_eq|].
      rewrite lookup_insert_ne by done. intros Hl. destruct (Nat.eqb_spec t t'); [congruence|]. by rewrite Hn.
  - destruct (holder_unique x0 programs w t _ Hinv Ht eq_refl) as (Hf & Hok & Hu).
    destruct (quiet_history x0 programs w t (Leaving todo) (Outside todo) Hinv Ht eq_refl) as [Hhist Hn].
    split; [|exact Hhist|exact Hn]. cbn [set_thread flag object threads unlock]. split; [exact Hok|].
    intros t' th' Hl. destruct (decide (t' = t)) as [->|Hne]; [rewrite lookup_insert_eq in Hl; by injection Hl as <-|].
    rewrite lookup_insert_ne in Hl by done. destruct (holds th') eqn:Hx; [|done]. by destruct Hne; apply (Hu t' th').
Qed.

Lemma client_reachable_inv x0 programs w : rtc client_step (start x0 programs) w → lock_inv x0 programs w.
Proof.
  intros H. remember (start x0 programs) as w0 eqn:E. assert (Hinv : lock_inv x0 programs w0) by (subst; apply start_inv).
  clear E. induction H as [|w1 w2 w3 Hstep _ IH]; [done|]. by apply IH, (step_inv _ _ w1).
Qed.

(** Two threads never are inside the lock at the same time, under any interleaving of their
    atomic accesses. *)
Theorem spin_lock_excludes x0 programs w t t' th th' :
  rtc client_step (start x0 programs) w → threads w !! t = Some th → threads w !! t' = Some th' →
  holds th = true → holds th' = true → t = t'.
Proof.
  intros H%client_reachable_inv Ht Ht' Hh Hh'. destruct (holder_unique _ _ _ _ _ H Ht' Hh') as (_ & _ & Hu). by apply (Hu t th).
Qed.

(** When all threads are done the object is what the sections make of it one after the other, in an
    order that respects every thread's own. *)
Lemma sections_atomic x0 programs w :
  rtc client_step (start x0 programs) w → finished w →
  object w = foldl whole x0 (history w).*2 ∧
  ∀ t, of_thread t (history w) = default [] (programs !! t).
Proof.
  intros H%client_reachable_inv Hfin. split.
  - pose proof (inv_object _ _ _ H) as Ho. destruct (flag w); [|apply Ho].
    destruct Ho as (t & th & Ht & Hh & _). apply Hfin in Ht. by subst.
  - intros t. pose proof (inv_history _ _ _ H t) as Hh. pose proof (inv_of_thread _ _ _ H t) as Hn.
    destruct (threads w !! t) as [th|] eqn:Ht.
    + rewrite <-Hh. apply Hfin in Ht as ->. cbn. by rewrite app_nil_r.
    + rewrite <-Hh. by apply Hn.
Qed.

(** ** Running a schedule *)

(** The next step of a thread, if it has one. *)
Definition step_of (w : World) (t : nat) : option World :=
  th ← threads w !! t;
  match th with
  | Outside [] => None
  | Outside (o :: todo) => Some (set_thread w (flag w) (object w) t (Locking AtExchange o todo))
  | Locking pc o todo =>
      match lock_step (flag w) pc with
      | (f, Some pc') => Some (set_thread w f (object w) t (Locking pc' o todo))
      | (f, None) => Some (set_thread w f (object w) t (Inside o todo))
      end
  | Inside o todo => let '(x, p) := first_half o (object w) in Some (set_thread w (flag w) x t (Between p o todo))
  | Between p o todo =>
      Some (MkWorld (flag w) (second_half o p (object w)) (<[t := Leaving todo]> (threads w)) (history w ++ [(t, o)]))
  | Leaving todo => Some (set_thread w (unlock (flag w)) (object w) t (Outside todo))
  end.

Lemma step_of_spec w w' : client_step w w' ↔ ∃ t, step_of w t = Some w'.
Proof.
  unfold step_of. split.
  - intros [w0 t o todo Ht|w0 t pc o todo f pc' Ht Hl|w0 t pc o todo f Ht Hl|w0 t o todo x p Ht Hx|w0 t p o todo Ht|w0 t todo Ht];
      exists t; rewrite Ht; cbn [mbind option_bind]; by rewrite ?Hl, ?Hx.
  - intros (t & H). destruct (threads w !! t) as [th|] eqn:Ht; [|done]. cbn [mbind option_bind] in H.
    destruct th as [[|o todo]|pc o todo|o todo|p o todo|todo]; [done| | | | |].
    + injection H as <-. by apply call_lock.
    + destruct (lock_step (flag w) pc) as [f [pc'|]] eqn:Hl; injection H as <-; [by eapply locking|by eapply locked].
    + destruct (first_half o (object w)) as [x p] eqn:Hx. injection H as <-. by apply section_first.
    + injection H as <-. by apply section_second.
    + injection H as <-. by apply call_unlock.
Qed.

Fixpoint run_schedule (w : World) (ts : list nat) : option World :=
  match ts with
  | [] => Some w
  | t :: ts => w ← step_of w t; run_schedule w ts
  end.

Lemma run_schedule_rtc w ts w' : run_schedule w ts = Some w' → rtc client_step w w'.
Proof.
  revert w. induction ts as [|t ts IH]; intros w; cbn [run_schedule]; [by intros [= <-]|].
  destruct (step_of w t) as [w1|] eqn:Hs; [|done]. intros H. eapply rtc_l; [|by apply IH].
  apply step_of_spec. by exists t.
Qed.

(** A thread that has something to do can always take a step. *)
Lemma step_of_progress w t th : threads w !! t = Some th → th ≠ Outside [] → ∃ w', step_of w t = Some w'.
Proof.
  unfold step_of. intros -> Hne. cbn [mbind option_bind]. destruct th as [[|o todo]|pc o todo|o todo|p o todo|todo]; [done| | | | |]; eauto.
  - destruct (lock_step (flag w) pc) as [f [pc'|]]; eauto.
  - destruct (first_half o (object w)); eauto.
Qed.
End clients.
