(* ===== verification/StringView.v ===== *)
(** * nostd::string_view

    The header-only [string_view] every other component reads its input through
    (otel-cpp/install/include/opentelemetry/nostd/string_view.h).  A view is the list of the
    characters it covers; a position past the end is an error ([None]), and [npos] is the
    [None] of a search result. *)
From S2P Require Export Cxx.

(** ** Operations *)

Definition sv_empty (v : bytes) : bool := length v =? 0.

(** [substr(pos, n)]: throws past the end, otherwise at most the rest of the view. *)
Definition sv_substr (v : bytes) (pos : nat) (n : option nat) : option bytes :=
  if length v <? pos then None
  else
    let k := match n with None => length v - pos | Some n => n `min` (length v - pos) end in
    Some (take k (drop pos v)).

(** [Traits::compare] on the first [len] characters of both. *)
Fixpoint traits_compare (v w : bytes) (len : nat) : Z :=
  match len, v, w with
  | S len', a :: v', b :: w' =>
      if (code a <? code b)%Z then (-1)%Z
      else if (code b <? code a)%Z then 1%Z
      else traits_compare v' w' len'
  | _, _, _ => 0%Z
  end.

Definition sv_compare (v w : bytes) : Z :=
  let len := length v `min` length w in
  let result := traits_compare v w len in
  if (result =? 0)%Z
  then if length v =? length w then 0%Z else if length v <? length w then (-1)%Z else 1%Z
  else result.

Definition sv_find (v : bytes) (ch : ascii) (pos : nat) : option nat :=
  if pos <? length v
  then (λ i, pos + i) <$> index_of (ceq ch) (drop pos v)
  else None.

Definition sv_lt (v w : bytes) : bool := (sv_compare v w <? 0)%Z.
Definition sv_gt (v w : bytes) : bool := (0 <? sv_compare v w)%Z.

(** [operator==]: equal lengths and [std::equal] over the characters. *)
Definition sv_eq (v w : bytes) : bool :=
  (length v =? length w) && forallb (λ p, ceq p.1 p.2) (zip v w).

#[global] Arguments sv_substr : simpl never.
#[global] Arguments sv_find : simpl never.
#[global] Arguments sv_compare : simpl never.

(** ** Equality and ordering *)

Lemma sv_eq_spec v w : sv_eq v w = true ↔ v = w.
Proof.
  unfold sv_eq. revert w. induction v as [|a v IH]; intros [|b w]; simpl; try done.
  rewrite andb_true_iff, (andb_true_iff (ceq a b)), ceq_true.
  specialize (IH w). rewrite andb_true_iff in IH. naive_solver.
Qed.

Lemma sv_eq_refl v : sv_eq v v = true.
Proof. by apply sv_eq_spec. Qed.

(** The comparison by structural recursion, without lengths. *)
Fixpoint lex_compare (v w : bytes) : Z :=
  match v, w with
  | [], [] => 0%Z
  | [], _ => (-1)%Z
  | _, [] => 1%Z
  | a :: v', b :: w' =>
      if (code a <? code b)%Z then (-1)%Z
      else if (code b <? code a)%Z then 1%Z
      else lex_compare v' w'
  end.

Lemma sv_compare_lex v w : sv_compare v w = lex_compare v w.
Proof.
  revert w. induction v as [|a v IH]; intros [|b w]; [done..|].
  unfold sv_compare. simpl.
  destruct (code a <? code b)%Z; [done|]. destruct (code b <? code a)%Z; [done|].
  rewrite <-IH. unfold sv_compare.
  destruct (traits_compare v w _ =? 0)%Z; [|done].
  by repeat case_match; bprop; try lia.
Qed.

Lemma lex_compare_range v w : lex_compare v w = (-1)%Z ∨ lex_compare v w = 0%Z ∨ lex_compare v w = 1%Z.
Proof. revert w. induction v as [|a v IH]; intros [|b w]; simpl; repeat case_match; auto. Qed.

Lemma lex_compare_eq v w : lex_compare v w = 0%Z ↔ v = w.
Proof.
  revert w. induction v as [|a v IH]; intros [|b w]; simpl; try done.
  destruct (code a <? code b)%Z eqn:?; [bprop; split; [done|]; intros [= -> ->]; lia|].
  destruct (code b <? code a)%Z eqn:?; [bprop; split; [done|]; intros [= -> ->]; lia|].
  bprop. rewrite IH. split; [intros ->|by intros [= -> ->]].
  f_equal. apply code_inj. lia.
Qed.

Lemma lex_compare_sym v w : lex_compare v w = (- lex_compare w v)%Z.
Proof.
  revert w. induction v as [|a v IH]; intros [|b w]; simpl; try done.
  repeat case_match; bprop; try lia. apply IH.
Qed.

Lemma lex_compare_trans u v w :
  (lex_compare u v < 0)%Z → (lex_compare v w < 0)%Z → (lex_compare u w < 0)%Z.
Proof.
  revert u w. induction v as [|b v IH]; intros [|a u] [|c w]; simpl; try lia.
  repeat case_match; bprop; try lia. apply IH.
Qed.

(** [find] returns the first occurrence at or after [pos]. *)
Lemma sv_find_index v ch pos :
  sv_find v ch pos = (λ i, pos + i) <$> index_of (ceq ch) (drop pos v).
Proof.
  unfold sv_find. destruct (pos <? length v) eqn:H; [done|]. bprop.
  by rewrite drop_ge by lia.
Qed.

Lemma sv_find_lt v ch pos i : sv_find v ch pos = Some i → pos ≤ i < length v.
Proof.
  rewrite sv_find_index. intros (j & Hj%index_of_lt & ->)%fmap_Some.
  rewrite length_drop in Hj. lia.
Qed.

Lemma sv_substr_total v pos n : pos ≤ length v → is_Some (sv_substr v pos n).
Proof. intros. unfold sv_substr. rewrite (proj2 (Nat.ltb_ge _ _)) by done. eauto. Qed.

Lemma sv_substr_slice v i j :
  i ≤ length v → sv_substr v i (Some (j - i)) = Some (slice v i j).
Proof.
  intros. unfold sv_substr, slice. rewrite (proj2 (Nat.ltb_ge _ _)) by done.
  f_equal. destruct (decide (j - i ≤ length v - i)) as [?|?].
  - by rewrite Nat.min_l by lia.
  - rewrite Nat.min_r by lia. rewrite !take_ge; rewrite ?length_drop; try lia. done.
Qed.

Lemma sv_substr_npos v i : i ≤ length v → sv_substr v i None = Some (drop i v).
Proof.
  intros. unfold sv_substr. rewrite (proj2 (Nat.ltb_ge _ _)) by done.
  by rewrite take_ge by (rewrite length_drop; lia).
Qed.

Lemma sv_substr_head v n : sv_substr v 0 (Some n) = Some (take n v).
Proof.
  replace n with (n - 0) at 1 by lia. rewrite sv_substr_slice by lia.
  unfold slice. by rewrite drop_0, Nat.sub_0_r.
Qed.

(** C: the comparison is a strict total order on views that [operator==] decides. *)
Theorem sv_compare_total_order u v w :
  (sv_compare u v = 0%Z ↔ sv_eq u v = true)
  ∧ sv_compare u v = (- sv_compare v u)%Z
  ∧ (sv_lt u v = true → sv_lt v w = true → sv_lt u w = true)
  ∧ sv_gt u v = sv_lt v u.
Proof.
  unfold sv_lt, sv_gt. rewrite !sv_compare_lex, sv_eq_spec. split_and!.
  - apply lex_compare_eq.
  - apply lex_compare_sym.
  - rewrite !Z.ltb_lt. apply lex_compare_trans.
  - rewrite (lex_compare_sym u v).
    destruct (lex_compare_range v u) as [->|[->| ->]]; done.
Qed.
