(* ===== verification/OrderedMap.v ===== *)
(** * Ordered maps

    [std::map<std::string, A>]: an association list in the order of its keys, which shows when it is
    iterated. *)
From S2P Require Export StringView.

Section ordered_map.
Context {A : Type}.
Implicit Types (m : list (bytes * A)) (k : bytes) (v : A).

(** [find] *)
Fixpoint om_find k m : option A :=
  match m with
  | [] => None
  | (k', v) :: m => if beq k k' then Some v else om_find k m
  end.

(** [m[k] = v] *)
Fixpoint om_set k v m : list (bytes * A) :=
  match m with
  | [] => [(k, v)]
  | (k', v') :: m' =>
      if beq k k' then (k, v) :: m'
      else if (lex_compare k k' <? 0)%Z then (k, v) :: m
      else (k', v') :: om_set k v m'
  end.

(** [erase] by key *)
Fixpoint om_erase k m : list (bytes * A) :=
  match m with
  | [] => []
  | (k', v') :: m => if beq k k' then m else (k', v') :: om_erase k m
  end.

(** Keys in order, so each at most once. *)
Fixpoint om_wf m : Prop :=
  match m with
  | [] => True
  | (k, _) :: m => Forall (λ kv, lex_compare k kv.1 < 0)%Z m ∧ om_wf m
  end.

Lemma beq_refl k : beq k k = true.
Proof. by apply beq_true. Qed.

Lemma om_find_set k k' v m : om_find k (om_set k' v m) = if beq k k' then Some v else om_find k m.
Proof.
  induction m as [|[k1 v1] m IH]; [done|]. cbn [om_set]. destruct (beq k' k1) eqn:E1.
  - apply beq_true in E1 as ->. cbn [om_find]. by destruct (beq k k1).
  - destruct (_ <? 0)%Z; [done|]. cbn [om_find]. destruct (beq k k1) eqn:E2; [|done].
    apply beq_true in E2 as ->. destruct (beq k1 k') eqn:E3; [|done]. apply beq_true in E3 as ->. by rewrite beq_refl in E1.
Qed.

Lemma lex_lt_ne k k' : (lex_compare k k' < 0)%Z → beq k k' = false.
Proof. intros H. apply beq_false. intros ->. by rewrite (proj2 (lex_compare_eq k' k')) in H. Qed.

Lemma lex_total k k' : beq k k' = false → ¬ (lex_compare k k' < 0)%Z → (lex_compare k' k < 0)%Z.
Proof.
  intros Hne%beq_false Hlt. rewrite lex_compare_sym. destruct (lex_compare_range k k') as [H|[H|H]]; [lia| |lia].
  by apply lex_compare_eq in H.
Qed.

Lemma om_bound_find k m : Forall (λ kv, lex_compare k kv.1 < 0)%Z m → om_find k m = None.
Proof.
  induction 1 as [|[k' v] m Hk _ IH]; [done|]. cbn [om_find]. by rewrite lex_lt_ne.
Qed.

Lemma om_bound_set k k' v m :
  (lex_compare k k' < 0)%Z → Forall (λ kv, lex_compare k kv.1 < 0)%Z m → Forall (λ kv, lex_compare k kv.1 < 0)%Z (om_set k' v m).
Proof.
  intros Hk. induction 1 as [|[k1 v1] m H1 Hm IH]; cbn [om_set]; [by apply list.Forall_singleton|].
  destruct (beq _ _); [by apply list.Forall_cons|]. destruct (_ <? 0)%Z; repeat (apply list.Forall_cons; split); done.
Qed.

Lemma om_set_wf k v m : om_wf m → om_wf (om_set k v m).
Proof.
  induction m as [|[k1 v1] m IH]; [done|]. intros [H1 Hm]. cbn [om_set]. destruct (beq k k1) eqn:E.
  - apply beq_true in E as ->. done.
  - destruct (Z.ltb_spec (lex_compare k k1) 0) as [Hlt|Hge].
    + cbn [om_wf]. split_and!; [|done|done]. apply list.Forall_cons. split; [done|].
      eapply list.Forall_impl; [exact H1|]. intros kv. by apply lex_compare_trans.
    + cbn [om_wf]. split; [|by apply IH]. apply om_bound_set; [|done]. apply lex_total; [done|lia].
Qed.

Lemma om_bound_erase k k' m : Forall (λ kv, lex_compare k kv.1 < 0)%Z m → Forall (λ kv, lex_compare k kv.1 < 0)%Z (om_erase k' m).
Proof.
  induction 1 as [|[k1 v1] m H1 Hm IH]; [done|]. cbn [om_erase]. destruct (beq _ _); [done|]. by apply list.Forall_cons.
Qed.

Lemma om_erase_wf k m : om_wf m → om_wf (om_erase k m).
Proof.
  induction m as [|[k1 v1] m IH]; [done|]. intros [H1 Hm]. cbn [om_erase]. destruct (beq _ _); [done|].
  split; [by apply om_bound_erase|by apply IH].
Qed.

Lemma om_find_erase k k' m : om_wf m → om_find k (om_erase k' m) = if beq k k' then None else om_find k m.
Proof.
  induction m as [|[k1 v1] m IH]; [by destruct (beq k k')|]. intros [H1 Hm]. cbn [om_erase]. destruct (beq k' k1) eqn:E.
  - apply beq_true in E as ->. cbn [om_find]. destruct (beq k k1) eqn:E2; [|done]. apply beq_true in E2 as ->.
    by apply om_bound_find.
  - cbn [om_find]. destruct (beq k k1) eqn:E2; [|by apply IH]. apply beq_true in E2 as ->.
    destruct (beq k1 k') eqn:E3; [|done]. apply beq_true in E3 as ->. by rewrite beq_refl in E.
Qed.

(** An ordered map is known by its lookups. *)
Lemma om_ext m m' : om_wf m → om_wf m' → (∀ k, om_find k m = om_find k m') → m = m'.
Proof.
  revert m'. induction m as [|[k v] m IH]; intros [|[k' v'] m'] Hm Hm' H.
  - done.
  - specialize (H k'). cbn [om_find] in H. by rewrite beq_refl in H.
  - specialize (H k). cbn [om_find] in H. by rewrite beq_refl in H.
  - destruct Hm as [H1 Hm], Hm' as [H1' Hm'].
    assert (k = k') as ->.
    { pose proof (H k) as Hk. pose proof (H k') as Hk'. cbn [om_find] in Hk, Hk'. rewrite beq_refl in Hk, Hk'.
      destruct (beq k k') eqn:E; [by apply beq_true in E|].
      destruct (beq k' k) eqn:E'; [by apply beq_true in E'|].
      destruct (Z.lt_ge_cases (lex_compare k k') 0) as [Hlt|Hge].
      - rewrite om_bound_find in Hk; [done|]. eapply list.Forall_impl; [exact H1'|]. intros kv. by apply lex_compare_trans.
      - assert (Hlt : (lex_compare k' k < 0)%Z) by (apply lex_total; [done|lia]).
        rewrite (om_bound_find k') in Hk'; [done|]. eapply list.Forall_impl; [exact H1|]. intros kv. by apply lex_compare_trans. }
    pose proof (H k') as Hk. cbn [om_find] in Hk. rewrite beq_refl in Hk. injection Hk as ->. f_equal. apply IH; [done|done|].
    intros k. specialize (H k). cbn [om_find] in H. destruct (beq k k') eqn:E; [|done].
    apply beq_true in E as ->. by rewrite !om_bound_find.
Qed.
End ordered_map.
