(* ===== verification/KvProperties.v ===== *)
(** * Trimming, the key-value tokenizer and the fixed-size property list

    [common::StringUtil] (common/string_util.h) and the three classes of
    common/kv_properties.h: [KeyValueStringTokenizer], [KeyValueProperties::Entry] and
    [KeyValueProperties].  A read past the end of the view and an exception leaving a
    [noexcept] function are both the error [None]; the totality lemmas show they do not
    happen. *)
From S2P Require Export StringView.

(** ** StringUtil::Trim *)

(** [while (left <= right && isspace(str[left])) left++;] *)
Fixpoint trim_left (fuel : nat) (str : bytes) (left right : nat) : option nat :=
  match fuel with
  | O => None
  | S f =>
      if left <=? right then
        c ← str !! left;
        if isspace c then trim_left f str (S left) right else Some left
      else Some left
  end.

(** [while (left <= right && isspace(str[right])) right--;]  Decrementing a zero [right]
    wraps to [SIZE_MAX], and the next test reads [str[SIZE_MAX]]: an error. *)
Fixpoint trim_right (fuel : nat) (str : bytes) (left right : nat) : option nat :=
  match fuel with
  | O => None
  | S f =>
      if left <=? right then
        c ← str !! right;
        if isspace c
        then match right with O => None | S right' => trim_right f str left right' end
        else Some right
      else Some right
  end.

(** [Trim(str, left, right)], [right] inclusive; [1 + right - left] wraps to a huge count
    (the rest of the view) when [left > right + 1]. *)
Definition Trim3 (str : bytes) (left right : nat) : option bytes :=
  let fuel := S (S (length str)) in
  l ← trim_left fuel str left right;
  r ← trim_right fuel str l right;
  sv_substr str l (if l <=? S r then Some (S r - l) else None).

Definition Trim (str : bytes) : option bytes :=
  if sv_empty str then Some str else Trim3 str 0 (length str - 1).

(** The mathematical trim: drop the blanks of both ends. *)
Definition ltrim (s : bytes) : bytes := drop_while isspace s.
Definition rtrim (s : bytes) : bytes := reverse (drop_while isspace (reverse s)).
Definition trim (s : bytes) : bytes := rtrim (ltrim s).

Lemma trim_left_spec pre s post fuel :
  length s < fuel →
  trim_left fuel (pre ++ s ++ post) (length pre) (length pre + length s - 1) =
    if decide (pre = [] ∧ s = [])
    then trim_left fuel post 0 0
    else Some (length pre + length (take_while isspace s)).
Proof.
  revert pre fuel. induction s as [|c s IH]; intros pre fuel Hf.
  - destruct fuel as [|f]; [simpl in Hf; lia|].
    destruct pre as [|p pre]; [by rewrite decide_True by done|].
    rewrite decide_False by naive_solver. cbn [trim_left length].
    rewrite (proj2 (Nat.leb_gt _ _)) by lia. f_equal. simpl. lia.
  - destruct fuel as [|f]; [lia|]. rewrite decide_False by naive_solver.
    cbn [trim_left]. rewrite (proj2 (Nat.leb_le _ _)) by (simpl; lia).
    change ((c :: s) ++ post) with (c :: s ++ post).
    rewrite list_lookup_middle by done. simpl.
    destruct (isspace c) eqn:Hc; simpl; [|f_equal; lia].
    specialize (IH (pre ++ [c]) f ltac:(simpl in Hf; lia)).
    rewrite <-(assoc_L (++)) in IH. simpl in IH. rewrite length_app in IH. simpl in IH.
    replace (S (length pre)) with (length pre + 1) by lia.
    replace (length pre + S (length s) - 1) with (length pre + 1 + length s - 1) by lia.
    rewrite IH, decide_False by (intros [? _]; by destruct pre). f_equal. lia.
Qed.

Lemma trim_right_spec pre s post fuel :
  length s < fuel → (pre = [] → s ≠ [] ∧ Exists (λ c, isspace c = false) s) →
  trim_right fuel (pre ++ s ++ post) (length pre) (length pre + length s - 1) =
    Some (length pre + length (rtrim s) - 1).
Proof.
  revert post fuel. induction s as [|c s IH] using rev_ind; intros post fuel Hf Hpre.
  - destruct fuel as [|f]; [simpl in Hf; lia|].
    destruct pre as [|p pre]; [by destruct Hpre|].
    cbn [trim_right length]. by rewrite (proj2 (Nat.leb_gt _ _)) by lia.
  - destruct fuel as [|f]; [lia|]. rewrite length_app in *. cbn [trim_right length] in *.
    rewrite (proj2 (Nat.leb_le _ _)) by lia.
    replace (length pre + (length s + 1) - 1) with (length pre + length s) by lia.
    replace ((pre ++ (s ++ [c]) ++ post) !! (length pre + length s)) with (Some c).
    2:{ rewrite (assoc_L (++)), lookup_app_l by (rewrite !length_app; simpl; lia).
        rewrite lookup_app_r, lookup_app_r by lia.
        by replace (length pre + length s - length pre - length s) with 0 by lia. }
    simpl. unfold rtrim. rewrite reverse_snoc. simpl.
    destruct (isspace c) eqn:Hc.
    + assert (Hs : pre = [] → s ≠ [] ∧ Exists (λ c, isspace c = false) s).
      { intros [_ Hex]%Hpre. apply list.Exists_app in Hex as [Hex|Hex].
        - split; [intros ->; by inversion Hex|done].
        - inversion Hex as [? ? ?|? ? Hn]; [congruence|by inversion Hn]. }
      rewrite <-(assoc_L (++)). specialize (IH ([c] ++ post) f ltac:(lia) Hs).
      replace (length pre + length s - 1) with (pred (length pre + length s)) in IH by lia.
      destruct (length pre + length s) eqn:Hz; [|exact IH].
      assert (pre = []) by (apply length_zero_iff_nil; lia).
      destruct Hs as [? _]; [done|]. destruct s; [done|simpl in *; lia].
    + rewrite reverse_cons, reverse_involutive, length_app. f_equal. simpl. lia.
Qed.

Lemma rtrim_prefix s : ∃ w, s = rtrim s ++ w ∧ Forall (λ c, isspace c = true) w.
Proof.
  unfold rtrim. exists (reverse (take_while isspace (reverse s))). split.
  - rewrite <-reverse_app, take_drop_while. by rewrite reverse_involutive.
  - apply Forall_reverse, take_while_all.
Qed.

#[local] Arguments trim_left : simpl never.
#[local] Arguments trim_right : simpl never.

(** Trimming the slice [left .. right] of a view; the slice may be empty except at 0. *)
Lemma Trim3_spec pre s post :
  (pre ≠ [] ∨ s ≠ []) →
  Trim3 (pre ++ s ++ post) (length pre) (length pre + length s - 1) = Some (trim s).
Proof.
  intros Hne. unfold Trim3. rewrite trim_left_spec by (rewrite !length_app; lia).
  rewrite decide_False by naive_solver. simpl.
  destruct (decide (Forall (λ c, isspace c = true) s)) as [Hall|Hex].
  - (* nothing but blanks *)
    rewrite take_while_id by done. unfold trim, ltrim.
    rewrite (proj2 (drop_while_nil isspace s)) by done. unfold rtrim. simpl.
    unfold trim_right. cbn [length].
    rewrite (proj2 (Nat.leb_gt _ _)) by (destruct pre, s; simpl in *; naive_solver lia).
    simpl. rewrite (proj2 (Nat.leb_le _ _)) by lia.
    replace (S (length pre + length s - 1) - (length pre + length s)) with 0
      by (destruct pre, s; simpl in *; naive_solver lia).
    unfold sv_substr. rewrite (proj2 (Nat.ltb_ge _ _)); [done|rewrite !length_app; lia].
  - apply not_Forall_Exists in Hex; [|solve_decision]. unfold trim.
    pose proof (take_while_all isspace s) as Hw. pose proof (take_drop_while isspace s) as Hs.
    fold (ltrim s) in Hs. set (w := take_while isspace s) in *. set (t := ltrim s) in *.
    clearbody w t. subst s.
    assert (Exists (λ c, isspace c = false) t) as Hex'.
    { apply list.Exists_app in Hex as [Hx|Hx].
      - exfalso. apply list.Exists_exists in Hx as (c & Hin & Hc).
        apply Hc. by eapply (proj1 (list.Forall_forall _ _) Hw).
      - eapply list.Exists_impl; [exact Hx|]. intros c Hc. simpl in Hc.
        destruct (isspace c); [by destruct Hc|done]. }
    replace (length pre + length (w ++ t) - 1)
      with (length (pre ++ w) + length t - 1) by (rewrite !length_app; lia).
    replace (pre ++ (w ++ t) ++ post) with ((pre ++ w) ++ t ++ post)
      by (rewrite <-!app_assoc; done).
    replace (length pre + length w) with (length (pre ++ w)) by (rewrite length_app; done).
    rewrite trim_right_spec.
    2:{ rewrite !length_app. lia. }
    2:{ intros _. split; [|done]. intros E. rewrite E in Hex'. inversion Hex'. }
    simpl. destruct (rtrim_prefix t) as (v & Hv & Hall).
    assert (rtrim t ≠ []) as Hrne.
    { intros E. rewrite E in Hv. simpl in Hv. subst v.
      apply list.Exists_exists in Hex' as (c & Hin & Hc).
      rewrite list.Forall_forall in Hall. specialize (Hall c Hin). congruence. }
    assert (length (rtrim t) ≠ 0) by by rewrite length_zero_iff_nil.
    rewrite (proj2 (Nat.leb_le _ _)) by lia.
    replace (S (length (pre ++ w) + length (rtrim t) - 1))
      with (length (pre ++ w) + length (rtrim t)) by lia.
    rewrite sv_substr_slice by (rewrite !length_app; lia). f_equal.
    replace (t ++ post) with (rtrim t ++ v ++ post) by (rewrite app_assoc, <-Hv; done).
    apply slice_app.
Qed.

Lemma Trim_spec s : Trim s = Some (trim s).
Proof.
  unfold Trim, sv_empty. destruct s as [|c s]; [done|].
  pose proof (Trim3_spec [] (c :: s) [] ltac:(by right)) as H. by rewrite app_nil_r in H.
Qed.

(** ** KeyValueStringTokenizer *)

Record KeyValueStringTokenizerOptions := TokOpts {
  member_separator : ascii;
  key_value_separator : ascii;
  ignore_empty_members : bool;
}.

Definition default_tok_opts : KeyValueStringTokenizerOptions := TokOpts "," "=" true.

Record KeyValueStringTokenizer := Tokenizer {
  tk_str : bytes;
  tk_opts : KeyValueStringTokenizerOptions;
  tk_index : nat;
}.

Definition tok_new (str : bytes) (opts : KeyValueStringTokenizerOptions) : KeyValueStringTokenizer :=
  Tokenizer str opts 0.

Definition tok_at (t : KeyValueStringTokenizer) (i : nat) : KeyValueStringTokenizer :=
  Tokenizer (tk_str t) (tk_opts t) i.

Definition GetDefaultKeyOrValue : bytes := [].

(** What one call of [next] leaves behind: whether a pair was found, and the out-parameters,
    which an invalid member leaves as they were. *)
Record next_result := NextResult {
  nx_found : bool;
  nx_valid : bool;
  nx_key : bytes;
  nx_value : bytes;
  nx_tok : KeyValueStringTokenizer;
}.

Fixpoint tok_next_loop (fuel : nat) (t : KeyValueStringTokenizer) (key value : bytes) :
    option next_result :=
  match fuel with
  | O => None
  | S f =>
      let index := tk_index t in
      if index <? length (tk_str t) then
        let '(is_empty_pair, e) :=
          match sv_find (tk_str t) (member_separator (tk_opts t)) index with
          | None => (false, length (tk_str t) - 1)
          | Some e => if e =? index then (true, e) else (false, e - 1)
          end in
        list_member ← Trim3 (tk_str t) index e;
        if (length list_member =? 0) || is_empty_pair then
          let t' := tok_at t (e + 2 - (if is_empty_pair then 1 else 0)) in
          if ignore_empty_members (tk_opts t) then tok_next_loop f t' key value
          else Some (NextResult true true GetDefaultKeyOrValue GetDefaultKeyOrValue t')
        else
          let t' := tok_at t (e + 2) in
          match sv_find list_member (key_value_separator (tk_opts t)) 0 with
          | None => Some (NextResult true false key value t')
          | Some key_end_pos =>
              k ← sv_substr list_member 0 (Some key_end_pos);
              v ← sv_substr list_member (key_end_pos + 1) None;
              Some (NextResult true true k v t')
          end
      else Some (NextResult false true key value t)
  end.

Definition tok_next (t : KeyValueStringTokenizer) (key value : bytes) : option next_result :=
  tok_next_loop (S (length (tk_str t))) t key value.

Fixpoint NumTokens_loop (fuel : nat) (str : bytes) (sep : ascii) (cnt begin : nat) : option nat :=
  match fuel with
  | O => None
  | S f =>
      if begin <? length str then
        match sv_find str sep begin with
        | None => Some (S cnt)
        | Some e => NumTokens_loop f str sep (S cnt) (S e)
        end
      else Some cnt
  end.

Definition NumTokens (t : KeyValueStringTokenizer) : option nat :=
  NumTokens_loop (S (length (tk_str t))) (tk_str t) (member_separator (tk_opts t)) 0 0.

Definition tok_reset (t : KeyValueStringTokenizer) : KeyValueStringTokenizer := tok_at t 0.

(** ** The tokenizer's specification: split, trim, drop the blanks, cut at the first '=' *)

Section spec.
Context (opts : KeyValueStringTokenizerOptions).
Let sep := member_separator opts.
Let kvs := key_value_separator opts.

Definition not_sep (c : ascii) : bool := negb (ceq sep c).

(** A member: [None] when it has no key-value separator. *)
Definition member_of (m : bytes) : option (bytes * bytes) :=
  i ← index_of (ceq kvs) m; Some (take i m, drop (S i) m).

(** What one segment between separators contributes. *)
Definition seg_tokens (seg : bytes) : list (option (bytes * bytes)) :=
  match trim seg with
  | [] => if ignore_empty_members opts then [] else [Some ([], [])]
  | _ :: _ => [member_of (trim seg)]
  end.

(** The segments of the input; nothing follows a trailing separator. *)
Fixpoint segments_fuel (fuel : nat) (s : bytes) : list bytes :=
  match fuel, s with
  | S f, _ :: _ =>
      let seg := take_while not_sep s in
      seg :: segments_fuel f (drop (S (length seg)) s)
  | _, _ => []
  end.

Definition segments (s : bytes) : list bytes := segments_fuel (length s) s.

Definition tokens (s : bytes) : list (option (bytes * bytes)) := segments s ≫= seg_tokens.
End spec.

Lemma index_of_not_sep sep (s : bytes) :
  let seg := take_while (λ c, negb (ceq sep c)) s in
  index_of (ceq sep) s = if length seg =? length s then None else Some (length seg).
Proof.
  simpl. induction s as [|c s IH]; [done|]. simpl.
  destruct (ceq sep c); simpl; [done|]. rewrite IH. by case_match.
Qed.

(** The last lines of the loop body: cutting a member at its key-value separator. *)
Lemma cut_member opts (m key value : bytes) t' :
  match sv_find m (key_value_separator opts) 0 with
  | None => Some (NextResult true false key value t')
  | Some i => k ← sv_substr m 0 (Some i); v ← sv_substr m (i + 1) None;
              Some (NextResult true true k v t')
  end =
  match member_of opts m with
  | None => Some (NextResult true false key value t')
  | Some (k, v) => Some (NextResult true true k v t')
  end.
Proof.
  rewrite sv_find_index, drop_0. unfold member_of.
  destruct (index_of _ m) as [i|] eqn:E; [|done].
  cbn [fmap option_fmap option_map Nat.add].
  apply index_of_lt in E. rewrite sv_substr_head, sv_substr_npos by lia.
  by rewrite Nat.add_1_r.
Qed.

(** One iteration of [next]'s loop, in terms of the segment up to the next separator. *)
Lemma tok_next_loop_step f t key value :
  tk_index t < length (tk_str t) →
  let seg := take_while (not_sep (tk_opts t)) (drop (tk_index t) (tk_str t)) in
  let t' := tok_at t (tk_index t + S (length seg)) in
  tok_next_loop (S f) t key value =
    match trim seg with
    | [] =>
        if ignore_empty_members (tk_opts t) then tok_next_loop f t' key value
        else Some (NextResult true true [] [] t')
    | _ :: _ =>
        match member_of (tk_opts t) (trim seg) with
        | None => Some (NextResult true false key value t')
        | Some (k, v) => Some (NextResult true true k v t')
        end
    end.
Proof.
  destruct t as [str opts index]. intros Hi seg t'.
  cbn [tk_index tk_str tk_opts] in Hi, seg, t' |- *.
  assert (Hd : drop index str ≠ []).
  { intros E. apply (f_equal length) in E. rewrite length_drop in E. simpl in E. lia. }
  assert (Hstr : str = take index str ++ seg ++ drop (index + length seg) str).
  { rewrite <-drop_drop. unfold seg. generalize (drop index str) (take_drop index str).
    intros r Hr. rewrite <-Hr at 1. f_equal.
    by rewrite drop_length_take_while, take_drop_while. }
  assert (Hpre : length (take index str) = index) by (rewrite length_take; lia).
  assert (Hsl : length seg ≤ length str - index).
  { pose proof (take_while_length_le (not_sep opts) (drop index str)) as H.
    by rewrite length_drop in H. }
  assert (Hne : take index str ≠ [] ∨ seg ≠ [] → Trim3 str index (index + length seg - 1) = Some (trim seg)).
  { intros H.
    pose proof (Trim3_spec (take index str) seg (drop (index + length seg) str) H) as E.
    by rewrite <-Hstr, Hpre in E. }
  cbn [tok_next_loop]. cbn [tk_index tk_str tk_opts].
  rewrite (proj2 (Nat.ltb_lt _ _)) by done. rewrite sv_find_index.
  rewrite index_of_not_sep. fold (not_sep opts). fold seg. rewrite length_drop.
  destruct (length seg =? length str - index) eqn:Heq; bprop; cbn [fmap option_fmap option_map].
  - (* the last member *)
    replace (length str - 1) with (index + length seg - 1) by lia.
    rewrite Hne by (right; intros E; rewrite E in Heq; simpl in Heq; lia). cbn [mbind option_bind].
    rewrite orb_false_r. replace (index + length seg - 1 + 2) with (index + S (length seg)) by lia.
    rewrite Nat.sub_0_r. fold t'.
    rewrite <-cut_member. by destruct (trim seg).
  - destruct (index + length seg =? index) eqn:He; bprop.
    + (* an empty member *)
      assert (Hnil : seg = []) by (apply length_zero_iff_nil; lia).
      assert (Htr : is_Some (Trim3 str index (index + length seg))).
      { destruct (drop index str) as [|c r] eqn:Ed; [done|].
        rewrite <-(take_drop index str), Ed. rewrite Hnil. simpl.
        pose proof (Trim3_spec (take index str) [c] r ltac:(by right)) as H.
        rewrite Hpre in H. simpl in H. rewrite Nat.add_sub in H.
        rewrite Nat.add_0_r. by rewrite H. }
      destruct Htr as [x ->]. cbn [mbind option_bind]. rewrite orb_true_r.
      rewrite Hnil. simpl. rewrite Nat.add_0_r.
      replace (index + 2 - 1) with (index + 1) by lia. unfold t'. rewrite Hnil. done.
    + rewrite Hne by (right; intros E; rewrite E in He; simpl in He; lia). cbn [mbind option_bind].
      rewrite orb_false_r.
      replace (index + length seg - 1 + 2) with (index + S (length seg)) by lia.
      rewrite Nat.sub_0_r. fold t'.
    rewrite <-cut_member. by destruct (trim seg).
Qed.

(** ** The tokenizer implements its specification *)

Section tokens.
Context (opts : KeyValueStringTokenizerOptions).

Lemma segments_fuel_enough n s : length s ≤ n → segments_fuel opts n s = segments opts s.
Proof.
  unfold segments. revert s. induction n as [n IH] using lt_wf_ind. intros s Hn.
  destruct s as [|c s]; [by destruct n|]. destruct n as [|n]; [simpl in Hn; lia|].
  cbn [length segments_fuel]. f_equal.
  rewrite (IH n), (IH (length s)); [done|simpl in Hn|..]; rewrite ?length_drop; simpl in *; lia.
Qed.

Lemma segments_unfold s :
  s ≠ [] →
  let seg := take_while (not_sep opts) s in
  segments opts s = seg :: segments opts (drop (S (length seg)) s).
Proof.
  intros Hs seg. unfold segments at 1. destruct s as [|c s]; [done|].
  cbn [length segments_fuel]. f_equal. apply segments_fuel_enough.
  rewrite length_drop. simpl. lia.
Qed.

Lemma tokens_nil : tokens opts [] = [].
Proof. done. Qed.

Lemma tokens_unfold s :
  s ≠ [] →
  let seg := take_while (not_sep opts) s in
  tokens opts s = seg_tokens opts seg ++ tokens opts (drop (S (length seg)) s).
Proof. intros Hs seg. unfold tokens. by rewrite segments_unfold. Qed.

(** The segments of a joined list. *)
Lemma segments_cons_seg seg rest :
  Forall (λ c, not_sep opts c = true) seg →
  segments opts (seg ++ member_separator opts :: rest) = seg :: segments opts rest.
Proof.
  intros Hs. rewrite segments_unfold by (by destruct seg).
  assert (E : take_while (not_sep opts) (seg ++ member_separator opts :: rest) = seg).
  { rewrite take_while_app by done. simpl. unfold not_sep at 1. rewrite ceq_refl. simpl.
    apply app_nil_r. }
  rewrite E. f_equal. f_equal.
  replace (S (length seg)) with (length seg + 1) by lia.
  by rewrite <-drop_drop, drop_app_length.
Qed.

Lemma segments_last_seg seg :
  Forall (λ c, not_sep opts c = true) seg → seg ≠ [] → segments opts seg = [seg].
Proof.
  intros Hs Hne. rewrite segments_unfold by done. rewrite take_while_id by done.
  by rewrite drop_ge by lia.
Qed.

(** Joining members with the separator, as the [ToHeader] functions do. *)
Definition join (ms : list bytes) : bytes :=
  match ms with
  | [] => []
  | m :: ms' => m ++ (ms' ≫= λ m, member_separator opts :: m)
  end.

Lemma join_snoc ms m :
  join (ms ++ [m]) = match ms with [] => m | _ => join ms ++ member_separator opts :: m end.
Proof.
  destruct ms as [|m0 ms]; simpl; [by rewrite app_nil_r|].
  rewrite bind_app, <-app_assoc. do 2 f_equal. simpl. by rewrite app_nil_r.
Qed.

Lemma segments_join ms :
  Forall (λ m, m ≠ [] ∧ Forall (λ c, not_sep opts c = true) m) ms → segments opts (join ms) = ms.
Proof.
  induction 1 as [|m ms [Hne Hm] Hms IH]; [done|]. simpl. destruct ms as [|m' ms]; simpl.
  - rewrite app_nil_r. by apply segments_last_seg.
  - rewrite segments_cons_seg by done. f_equal. exact IH.
Qed.

Lemma trim_id s :
  (∀ c s', s = c :: s' → isspace c = false) → (∀ s' c, s = s' ++ [c] → isspace c = false) →
  trim s = s.
Proof.
  intros Hh Hl. unfold trim, ltrim. rewrite drop_while_id by eauto. unfold rtrim.
  rewrite drop_while_id; [by rewrite reverse_involutive|].
  intros c s' E. apply (Hl (reverse s') c). rewrite <-(reverse_involutive s), E.
  apply reverse_cons.
Qed.

(** A member "k=v" that needs no trimming is cut back into [k] and [v]. *)
Lemma seg_tokens_pair k v :
  Forall (λ c, ceq (key_value_separator opts) c = false) k →
  trim (k ++ key_value_separator opts :: v) = k ++ key_value_separator opts :: v →
  seg_tokens opts (k ++ key_value_separator opts :: v) = [Some (k, v)].
Proof.
  intros Hk Ht. unfold seg_tokens. rewrite Ht. unfold member_of.
  rewrite index_of_hit by (done || apply ceq_refl). cbn [mbind option_bind].
  replace (take _ _) with k by (by rewrite take_app_length).
  replace (S (length k)) with (length k + 1) by lia.
  rewrite <-drop_drop, drop_app_length. by destruct k.
Qed.

(** What [next] must report for the first pending token. *)
Definition next_reports (m : option (bytes * bytes)) (key value : bytes) (r : next_result) : Prop :=
  nx_found r = true ∧
  match m with
  | Some (k, v) => nx_valid r = true ∧ nx_key r = k ∧ nx_value r = v
  | None => nx_valid r = false ∧ nx_key r = key ∧ nx_value r = value
  end.

Lemma tok_next_loop_tokens f t key value :
  tk_opts t = opts → length (tk_str t) - tk_index t < f →
  ∃ r, tok_next_loop f t key value = Some r ∧
    tk_str (nx_tok r) = tk_str t ∧ tk_opts (nx_tok r) = opts ∧
    match tokens opts (drop (tk_index t) (tk_str t)) with
    | [] => nx_found r = false
    | m :: ms => next_reports m key value r ∧ tk_index t < tk_index (nx_tok r) ∧
                 tokens opts (drop (tk_index (nx_tok r)) (tk_str t)) = ms
    end.
Proof.
  revert t. induction f as [|f IH]; intros t Ho Hf; [lia|].
  destruct (decide (tk_index t < length (tk_str t))) as [Hi|Hi].
  2:{ rewrite drop_ge by lia. cbn [tok_next_loop]. rewrite (proj2 (Nat.ltb_ge _ _)) by lia.
      eexists. split; [done|]. by rewrite tokens_nil. }
  rewrite tok_next_loop_step by done. rewrite Ho.
  rewrite tokens_unfold.
  2:{ intros E. apply (f_equal length) in E. rewrite length_drop in E. simpl in E. lia. }
  set (seg := take_while _ _). rewrite drop_drop.
  set (t' := tok_at t (tk_index t + S (length seg))). unfold seg_tokens.
  destruct (trim seg) as [|c m] eqn:Et.
  - destruct (ignore_empty_members opts) eqn:Eo; simpl.
    + destruct (IH t') as (r & Hr & Hs & Hro & Hm); [done|simpl; lia|].
      exists r. split_and!; [done..|]. simpl in Hm. destruct (tokens _ _); [done|].
      destruct Hm as (? & ? & ?). split_and!; [done|lia|done].
    + eexists. split; [done|]. split_and!; try done. simpl. lia.
  - destruct (member_of opts (c :: m)) as [[k v]|] eqn:Em; simpl;
      (eexists; split; [done|]; split_and!; try done; simpl; lia).
Qed.
End tokens.

(** The loop every client writes around [next], collecting what it reports. *)
Fixpoint tok_collect (fuel : nat) (t : KeyValueStringTokenizer) (key value : bytes) :
    option (list (option (bytes * bytes))) :=
  match fuel with
  | O => None
  | S f =>
      r ← tok_next t key value;
      if nx_found r then
        rest ← tok_collect f (nx_tok r) (nx_key r) (nx_value r);
        Some ((if nx_valid r then Some (nx_key r, nx_value r) else None) :: rest)
      else Some []
  end.

Lemma tok_collect_from fuel t key value :
  length (tk_str t) - tk_index t < fuel →
  tok_collect fuel t key value = Some (tokens (tk_opts t) (drop (tk_index t) (tk_str t))).
Proof.
  revert t key value. induction fuel as [|f IH]; intros t key value Hf; [lia|].
  cbn [tok_collect]. unfold tok_next.
  destruct (tok_next_loop_tokens (tk_opts t) (S (length (tk_str t))) t key value)
    as (r & -> & Hs & Ho & Hm); [done|lia|]. cbn [mbind option_bind].
  destruct (tokens (tk_opts t) (drop (tk_index t) (tk_str t))) as [|m ms] eqn:E.
  - by rewrite Hm.
  - destruct Hm as ((Hf' & Hv) & Hlt & Hms). rewrite Hf'.
    destruct (decide (tk_index t < length (tk_str t))) as [Hi|Hi].
    2:{ rewrite drop_ge in E by lia. done. }
    rewrite IH by (rewrite Hs; lia). rewrite Hs, Ho, Hms. cbn [mbind option_bind].
    destruct m as [[k v]|]; destruct Hv as (-> & Hk & Hval); congruence.
Qed.

(** Every header is tokenized without a failing read, and the pairs [next] reports are
    exactly those of the specification. *)
Theorem tokenizer_refines_tokens str opts :
  tok_collect (S (length str)) (tok_new str opts) [] [] = Some (tokens opts str).
Proof. rewrite tok_collect_from; [by rewrite drop_0|simpl; lia]. Qed.

(** *** NumTokens *)

Lemma tokens_length_seg opts seg : length (seg_tokens opts seg) ≤ 1.
Proof. unfold seg_tokens. by repeat case_match; simpl; lia. Qed.

Lemma NumTokens_loop_spec opts fuel str cnt begin :
  length str - begin < fuel →
  NumTokens_loop fuel str (member_separator opts) cnt begin =
    Some (cnt + length (segments opts (drop begin str))).
Proof.
  revert cnt begin. induction fuel as [|f IH]; intros cnt begin Hf; [lia|].
  cbn [NumTokens_loop]. destruct (begin <? length str) eqn:Hb; bprop.
  2:{ rewrite drop_ge by lia. f_equal. simpl. lia. }
  rewrite segments_unfold.
  2:{ intros E. apply (f_equal length) in E. rewrite length_drop in E. simpl in E. lia. }
  rewrite sv_find_index, index_of_not_sep. fold (not_sep opts).
  set (seg := take_while _ _). rewrite drop_drop.
  pose proof (take_while_length_le (not_sep opts) (drop begin str)) as Hle.
  fold seg in Hle. rewrite length_drop in *.
  destruct (length seg =? length str - begin) eqn:Hl; bprop; cbn [fmap option_fmap option_map].
  - rewrite drop_ge by lia. f_equal. simpl. lia.
  - rewrite IH by lia. f_equal. cbn [length].
    replace (begin + S (length seg)) with (S (begin + length seg)) by lia. lia.
Qed.

(** [NumTokens] counts the segments, so it bounds the number of members: a property list of
    that capacity drops none of them. *)
Lemma NumTokens_segments str opts :
  NumTokens (tok_new str opts) = Some (length (segments opts str)).
Proof.
  unfold NumTokens, tok_new. cbn [tk_str tk_opts].
  rewrite NumTokens_loop_spec by lia. by rewrite drop_0.
Qed.

Lemma tokens_le_segments str opts : length (tokens opts str) ≤ length (segments opts str).
Proof.
  unfold tokens. induction (segments opts str) as [|seg l IH]; [done|].
  rewrite bind_cons, length_app. cbn [length]. pose proof (tokens_length_seg opts seg). lia.
Qed.

(** ** KeyValueProperties *)

(** An entry holds two NUL-terminated copies; reading one back stops at its first NUL. *)
Record Entry := MkEntry {
  key_ : bytes;
  value_ : bytes;
}.

(** [CopyStringToPointer]: the characters and a terminating NUL. *)
Definition CopyStringToPointer (str : bytes) : bytes := str ++ [NUL].

Definition Entry_new (key value : bytes) : Entry :=
  MkEntry (CopyStringToPointer key) (CopyStringToPointer value).

(** A view made from a [char*] extends to the first NUL. *)
Definition GetKey (e : Entry) : bytes := cstr (key_ e).
Definition Entry_GetValue (e : Entry) : bytes := cstr (value_ e).

(** The copy constructor re-reads the buffers through a view. *)
Definition Entry_copy (e : Entry) : Entry := Entry_new (GetKey e) (Entry_GetValue e).

Definition SetValue (e : Entry) (value : bytes) : Entry :=
  MkEntry (key_ e) (CopyStringToPointer value).

(** [num_entries_] is the length of the list; [max_num_entries_] the size of the array. *)
Record KeyValueProperties := MkKvp {
  entries_ : list Entry;
  max_num_entries_ : nat;
}.

Definition num_entries_ (p : KeyValueProperties) : nat := length (entries_ p).

Definition kvp_sized (size : nat) : KeyValueProperties := MkKvp [] size.
Definition kvp_empty : KeyValueProperties := MkKvp [] 0.

(** Construction from an iterable of pairs: one slot per pair. *)
Definition kvp_from (keys_and_values : list (bytes * bytes)) : KeyValueProperties :=
  foldl (λ p e, MkKvp (entries_ p ++ [Entry_new e.1 e.2]) (max_num_entries_ p))
    (kvp_sized (length keys_and_values)) keys_and_values.

Definition AddEntry (p : KeyValueProperties) (key value : bytes) : KeyValueProperties :=
  if num_entries_ p <? max_num_entries_ p
  then MkKvp (entries_ p ++ [Entry_new key value]) (max_num_entries_ p)
  else p.

(** [GetAllEntries]: the callback threads its captured state and stops the loop by
    returning false. *)
Fixpoint kvp_iter {S} (es : list Entry) (callback : S → bytes → bytes → S * bool) (s : S) : S * bool :=
  match es with
  | [] => (s, true)
  | e :: es' =>
      let '(s', go_on) := callback s (GetKey e) (Entry_GetValue e) in
      if go_on then kvp_iter es' callback s' else (s', false)
  end.

Definition GetAllEntries {S} (p : KeyValueProperties) (callback : S → bytes → bytes → S * bool) (s : S) :
    S * bool :=
  kvp_iter (entries_ p) callback s.

Fixpoint kvp_find (es : list Entry) (key : bytes) : option bytes :=
  match es with
  | [] => None
  | e :: es' => if sv_eq (GetKey e) key then Some (Entry_GetValue e) else kvp_find es' key
  end.

Definition kvp_GetValue (p : KeyValueProperties) (key : bytes) : option bytes :=
  kvp_find (entries_ p) key.

Definition Size (p : KeyValueProperties) : nat := num_entries_ p.

(** *** The list of pairs a property list denotes *)

Definition kvp_pairs (p : KeyValueProperties) : list (bytes * bytes) :=
  (λ e, (GetKey e, Entry_GetValue e)) <$> entries_ p.

(** The array is never overrun. *)
Definition kvp_wf (p : KeyValueProperties) : Prop := num_entries_ p ≤ max_num_entries_ p.

(** First pair with a given key. *)
Definition pairs_get (l : list (bytes * bytes)) (k : bytes) : option bytes :=
  (λ iv : nat * (bytes * bytes), iv.2.2) <$> list_find (λ kv, kv.1 = k) l.

Lemma cstr_copy s : cstr (CopyStringToPointer s) = cstr s.
Proof.
  unfold cstr, CopyStringToPointer. induction s as [|c s IH]; [done|]. simpl.
  destruct (ceq c NUL); simpl; congruence.
Qed.

Lemma GetKey_new k v : GetKey (Entry_new k v) = cstr k.
Proof. apply cstr_copy. Qed.

Lemma Entry_GetValue_new k v : Entry_GetValue (Entry_new k v) = cstr v.
Proof. apply cstr_copy. Qed.

(** Copying an entry keeps what its getters see. *)
Lemma Entry_copy_getters e :
  GetKey (Entry_copy e) = GetKey e ∧ Entry_GetValue (Entry_copy e) = Entry_GetValue e.
Proof.
  unfold Entry_copy. rewrite GetKey_new, Entry_GetValue_new.
  unfold GetKey, Entry_GetValue. by rewrite !cstr_idemp.
Qed.

Lemma Size_pairs p : Size p = length (kvp_pairs p).
Proof. unfold kvp_pairs. by rewrite length_fmap. Qed.

Lemma AddEntry_pairs p k v :
  kvp_pairs (AddEntry p k v) =
    if Size p <? max_num_entries_ p then kvp_pairs p ++ [(cstr k, cstr v)] else kvp_pairs p.
Proof.
  unfold AddEntry, Size. case_match; [|done].
  unfold kvp_pairs. cbn [entries_]. rewrite fmap_app. cbn [fmap list_fmap].
  by rewrite GetKey_new, Entry_GetValue_new.
Qed.

Lemma AddEntry_max p k v : max_num_entries_ (AddEntry p k v) = max_num_entries_ p.
Proof. unfold AddEntry. by case_match. Qed.

(** A loop over the entries whose callback always goes on is a fold over the pairs. *)
Lemma GetAllEntries_fold {S} p (f : S → bytes → bytes → S) s :
  GetAllEntries p (λ s k v, (f s k v, true)) s =
    (foldl (λ s kv, f s kv.1 kv.2) s (kvp_pairs p), true).
Proof.
  unfold GetAllEntries, kvp_pairs. revert s.
  induction (entries_ p) as [|e es IH]; intros s; [done|]. apply IH.
Qed.

Lemma pairs_get_cons k v l key :
  pairs_get ((k, v) :: l) key = if decide (k = key) then Some v else pairs_get l key.
Proof.
  unfold pairs_get. cbn [list_find fst]. case_decide; [done|].
  by destruct (list_find _ _) as [[? ?]|].
Qed.

Lemma kvp_GetValue_pairs p k : kvp_GetValue p k = pairs_get (kvp_pairs p) k.
Proof.
  unfold kvp_GetValue, kvp_pairs. induction (entries_ p) as [|e es IH]; [done|].
  cbn [kvp_find fmap list_fmap]. rewrite pairs_get_cons, <-IH.
  destruct (sv_eq (GetKey e) k) eqn:E.
  - apply sv_eq_spec in E. by rewrite decide_True.
  - by rewrite decide_False by (rewrite <-sv_eq_spec; congruence).
Qed.

Lemma kvp_from_pairs l : kvp_pairs (kvp_from l) = (λ kv, (cstr kv.1, cstr kv.2)) <$> l.
Proof.
  unfold kvp_from. enough (∀ p, kvp_pairs (foldl (λ p e, MkKvp (entries_ p ++ [Entry_new e.1 e.2])
    (max_num_entries_ p)) p l) = kvp_pairs p ++ ((λ kv, (cstr kv.1, cstr kv.2)) <$> l)) as H
    by apply H.
  induction l as [|[k v] l IH]; intros p; simpl; [by rewrite app_nil_r|].
  rewrite IH. unfold kvp_pairs at 1. cbn [entries_]. rewrite fmap_app. simpl.
  rewrite GetKey_new, Entry_GetValue_new. by rewrite <-app_assoc.
Qed.

(** Filling a fresh list of sufficient capacity keeps every pair, in order. *)
Lemma AddEntry_fill l p :
  Size p + length l ≤ max_num_entries_ p →
  kvp_pairs (foldl (λ p kv, AddEntry p kv.1 kv.2) p l) =
    kvp_pairs p ++ ((λ kv, (cstr kv.1, cstr kv.2)) <$> l).
Proof.
  revert p. induction l as [|[k v] l IH]; intros p Hcap; [by rewrite app_nil_r|].
  cbn [foldl fst snd length fmap list_fmap] in *.
  assert (Hp : kvp_pairs (AddEntry p k v) = kvp_pairs p ++ [(cstr k, cstr v)]).
  { rewrite AddEntry_pairs. by rewrite (proj2 (Nat.ltb_lt _ _)) by lia. }
  rewrite IH.
  - rewrite Hp. by rewrite <-app_assoc.
  - rewrite AddEntry_max, Size_pairs, Hp, length_app. rewrite Size_pairs in Hcap. simpl. lia.
Qed.

Lemma AddEntry_fill_max l p :
  max_num_entries_ (foldl (λ p kv, AddEntry p kv.1 kv.2) p l) = max_num_entries_ p.
Proof.
  revert p. induction l as [|[k v] l IH]; intros p; [done|]. simpl. by rewrite IH, AddEntry_max.
Qed.

(** What is read back has no NUL, and no sequence of additions overruns the array. *)
Lemma kvp_pairs_no_nul p : Forall (λ kv, no_nul kv.1 ∧ no_nul kv.2) (kvp_pairs p).
Proof.
  unfold kvp_pairs. apply Forall_fmap, list.Forall_forall. intros e _.
  split; apply cstr_no_nul.
Qed.

Lemma AddEntry_wf p k v : kvp_wf p → kvp_wf (AddEntry p k v).
Proof.
  unfold kvp_wf, AddEntry. intros H. destruct (_ <? _) eqn:E; [|done]. bprop.
  unfold num_entries_ in *. simpl. rewrite length_app. simpl. lia.
Qed.

Lemma kvp_sized_wf n : kvp_wf (kvp_sized n).
Proof. unfold kvp_wf, num_entries_. simpl. lia. Qed.

#[export] Hint Resolve AddEntry_wf kvp_sized_wf : otel.

(** *** Printing: the fold both [ToHeader] functions perform *)

Lemma ToHeader_join_fold opts p (step : bytes * bool → bytes → bytes → bytes * bool)
    (text : bytes * bytes → bytes) :
  (∀ h first k v, step (h, first) k v =
     ((if negb first then h ++ [member_separator opts] else h) ++ text (k, v), false)) →
  fst (fst (GetAllEntries p (λ s k v, (step s k v, true)) ([], true))) =
    join opts (text <$> kvp_pairs p).
Proof.
  intros Hstep. rewrite GetAllEntries_fold. cbn [fst].
  enough (foldl (λ s kv, step s kv.1 kv.2) ([], true) (kvp_pairs p) =
    (join opts (text <$> kvp_pairs p), match kvp_pairs p with [] => true | _ => false end)) as -> by done.
  induction (kvp_pairs p) as [|[k v] l IH] using rev_ind; [done|].
  replace (text <$> l ++ [(k, v)]) with ((text <$> l) ++ [text (k, v)]) by (by rewrite fmap_app).
  rewrite foldl_snoc, IH, join_snoc. cbn [fst snd]. rewrite Hstep.
  destruct l as [|kv l]; simpl; [done|]. by rewrite <-!app_assoc.
Qed.

(** ** Copying entries into a fresh list *)

Lemma pairs_cstr_id p : (λ kv, (cstr kv.1, cstr kv.2)) <$> kvp_pairs p = kvp_pairs p.
Proof.
  transitivity (id <$> kvp_pairs p); [|apply list_fmap_id].
  apply list_fmap_ext. intros i [k v] Hi.
  pose proof (kvp_pairs_no_nul p) as H. rewrite Forall_lookup in H.
  destruct (H i _ Hi). simpl in *. by rewrite !cstr_id.
Qed.

(** Copying all entries into a list with enough room. *)
Lemma copy_pairs src p :
  Size p + Size src ≤ max_num_entries_ p →
  kvp_pairs (fst (GetAllEntries src (λ p k v, (AddEntry p k v, true)) p)) = kvp_pairs p ++ kvp_pairs src.
Proof.
  intros H. rewrite GetAllEntries_fold. cbn [fst].
  rewrite AddEntry_fill by (by rewrite <-Size_pairs). by rewrite pairs_cstr_id.
Qed.

Lemma filter_short (l : list (bytes * bytes)) (k v : bytes) :
  pairs_get l k = Some v → length (filter (λ kv, kv.1 ≠ k) l) ≤ length l - 1.
Proof.
  induction l as [|[k' v'] l IH]; [done|]. rewrite pairs_get_cons, filter_cons. simpl.
  destruct (decide (k' = k)) as [->|Hne].
  - intros _. rewrite decide_False by naive_solver.
    pose proof (length_filter (λ kv : bytes * bytes, kv.1 ≠ k) l). lia.
  - intros H. rewrite decide_True by done. simpl. specialize (IH H).
    destruct l; [done|simpl in *; lia].
Qed.

(** Copying the entries that differ from a key. *)
Lemma copy_others src k p :
  Size p + length (filter (λ kv, kv.1 ≠ k) (kvp_pairs src)) ≤ max_num_entries_ p →
  kvp_pairs (fst (GetAllEntries src (λ p e_key e_value,
    ((if negb (sv_eq k e_key) then AddEntry p e_key e_value else p), true)) p)) =
  kvp_pairs p ++ filter (λ kv, kv.1 ≠ k) (kvp_pairs src).
Proof.
  rewrite GetAllEntries_fold. cbn [fst]. intros H.
  transitivity (kvp_pairs (foldl (λ p kv, AddEntry p kv.1 kv.2) p (filter (λ kv, kv.1 ≠ k) (kvp_pairs src)))).
  - clear H. f_equal. revert p. induction (kvp_pairs src) as [|[k' v'] l IH]; intros p; [done|].
    rewrite filter_cons. cbn [foldl fst snd]. rewrite IH.
    destruct (sv_eq k k') eqn:E; simpl.
    + apply sv_eq_spec in E as ->. by rewrite decide_False by naive_solver.
    + rewrite decide_True; [done|]. intros ->. by rewrite sv_eq_refl in E.
  - rewrite AddEntry_fill by done. f_equal.
    pose proof (pairs_cstr_id src) as Hid.
    pose proof (kvp_pairs_no_nul src) as Hn. clear H Hid.
    induction (kvp_pairs src) as [|[k' v'] l IH]; [done|]. inversion Hn as [|? ? [? ?] ?]; subst.
    rewrite filter_cons. case_decide; [|by apply IH]. rewrite fmap_cons, IH by done.
    simpl in *. by rewrite !cstr_id.
Qed.

Lemma pairs_get_filter (l : list (bytes * bytes)) k : pairs_get (filter (λ kv, kv.1 ≠ k) l) k = None.
Proof.
  induction l as [|[k' v'] l IH]; [done|]. rewrite filter_cons. case_decide as E; [|done].
  rewrite pairs_get_cons. by rewrite decide_False by naive_solver.
Qed.

Lemma pairs_get_filter_ne (l : list (bytes * bytes)) k k' :
  k' ≠ k → pairs_get (filter (λ kv, kv.1 ≠ k) l) k' = pairs_get l k'.
Proof.
  intros Hne. induction l as [|[a v] l IH]; [done|]. rewrite filter_cons, pairs_get_cons.
  case_decide as E; [by rewrite pairs_get_cons, IH|]. cbn [fst] in E.
  rewrite IH. rewrite decide_False; [done|]. naive_solver.
Qed.
