(* ===== verification/TraceState.v ===== *)
(** * trace::TraceState

    The W3C tracestate list of trace/trace_state.h: parsing and printing of the header, the
    copy-on-write updates, and the two implementations of the key and value checks (with
    std::regex and without).  A [shared_ptr<TraceState>] is the value it points to: no
    operation changes a TraceState once it is returned. *)
From S2P Require Export KvProperties.

(** ** Regular expressions of the kind std::regex is given here *)

Inductive regex :=
| REps
| RChar (p : ascii → bool)
| RSeq (r1 r2 : regex)
| RRep (p : ascii → bool) (hi : nat).   (**r [p]{0,hi} *)

Fixpoint re_nullable (r : regex) : bool :=
  match r with
  | REps => true
  | RChar _ => false
  | RSeq r1 r2 => re_nullable r1 && re_nullable r2
  | RRep _ _ => true
  end.

(** The remainders a regex can have after one character. *)
Fixpoint re_step (c : ascii) (r : regex) : list regex :=
  match r with
  | REps => []
  | RChar p => if p c then [REps] else []
  | RSeq r1 r2 =>
      ((λ r1', RSeq r1' r2) <$> re_step c r1) ++ (if re_nullable r1 then re_step c r2 else [])
  | RRep p (S n) => if p c then [RRep p n] else []
  | RRep p O => []
  end.

(** [std::regex_match]: the whole string is matched. *)
Fixpoint regex_match_any (s : bytes) (rs : list regex) : bool :=
  match s with
  | [] => existsb re_nullable rs
  | c :: s' => regex_match_any s' (rs ≫= re_step c)
  end.

Definition regex_match (s : bytes) (r : regex) : bool := regex_match_any s [r].

(** ** Limits *)

Definition kKeyMaxSize : nat := 256.
Definition kValueMaxSize : nat := 256.
Definition kMaxKeyValuePairs : nat := 32.
Definition kKeyValueSeparator : ascii := "=".
Definition kMembersSeparator : ascii := ",".

(** ** Key and value checks *)

Definition IsLowerCaseAlphaOrDigit (c : ascii) : bool := isdigit c || islower c.

(** [a-z0-9] and [a-z0-9*_\-/] *)
Definition key_first (c : ascii) : bool := in_range "a" "z" c || in_range "0" "9" c.
Definition key_rest (c : ascii) : bool :=
  in_range "a" "z" c || in_range "0" "9" c || ceq c "*" || ceq c "_" || ceq c "-" || ceq c "/".

Definition reg_key : regex := RSeq (RChar key_first) (RRep key_rest 255).

Definition reg_key_multitenant : regex :=
  RSeq (RChar key_first) (RSeq (RRep key_rest 240) (RSeq (RChar (ceq "@"))
    (RSeq (RChar key_first) (RRep key_rest 13)))).

Definition IsValidKeyRegEx (key : bytes) : bool :=
  regex_match key reg_key || regex_match key reg_key_multitenant.

(** [\x20-\x2B\x2D-\x3C\x3E-\x7E] and the same without the blank. *)
Definition value_char (c : ascii) : bool :=
  in_range " " "+" c || in_range "-" "<" c || in_range ">" "~" c.
Definition value_last (c : ascii) : bool :=
  in_range "!" "+" c || in_range "-" "<" c || in_range ">" "~" c.

Definition reg_value : regex := RSeq (RRep value_char 255) (RChar value_last).

Definition IsValidValueRegEx (value : bytes) : bool := regex_match value reg_value.

(** The loop over the characters of a key, counting '@'. *)
Fixpoint key_chars_ok (ats : nat) (key : bytes) : bool :=
  match key with
  | [] => true
  | c :: key' =>
      if negb (IsLowerCaseAlphaOrDigit c) && negb (ceq c "_") && negb (ceq c "-")
         && negb (ceq c "@") && negb (ceq c "*") && negb (ceq c "/")
      then false
      else if ceq c "@"
           then if 1 <? S ats then false else key_chars_ok (S ats) key'
           else key_chars_ok ats key'
  end.

Definition IsValidKeyNonRegEx (key : bytes) : bool :=
  match key with
  | [] => false
  | c0 :: _ =>
      if (kKeyMaxSize <? length key) || negb (IsLowerCaseAlphaOrDigit c0) then false
      else key_chars_ok 0 key
  end.

Definition IsValidValueNonRegEx (value : bytes) : bool :=
  if sv_empty value || (kValueMaxSize <? length value) then false
  else forallb (λ c, negb ((schar c <? schar " ")%Z || (schar "~" <? schar c)%Z
                           || ceq c "," || ceq c "=")) value.

(** OPENTELEMETRY_HAVE_WORKING_REGEX: 1 except for GCC 4.8 and 4.9 (common/macros.h). *)
Definition HAVE_WORKING_REGEX : bool := true.

Definition IsValidKey (key : bytes) : bool :=
  if HAVE_WORKING_REGEX then IsValidKeyRegEx key else IsValidKeyNonRegEx key.

Definition IsValidValue (value : bytes) : bool :=
  if HAVE_WORKING_REGEX then IsValidValueRegEx value else IsValidValueNonRegEx value.

(** ** The class *)

Record TraceState := MkTraceState { kv_properties_ : KeyValueProperties }.

Definition ts_sized (size : nat) : TraceState := MkTraceState (kvp_sized size).
Definition GetDefault : TraceState := MkTraceState kvp_empty.

(** The loop of [FromHeader]. *)
Fixpoint FromHeader_loop (fuel : nat) (t : KeyValueStringTokenizer) (key value : bytes)
    (cnt : nat) (ts : TraceState) : option TraceState :=
  match fuel with
  | O => None
  | S f =>
      r ← tok_next t key value;
      if nx_found r && (Size (kv_properties_ ts) <? cnt) then
        if negb (nx_valid r) then Some GetDefault
        else if negb (IsValidKey (nx_key r)) || negb (IsValidValue (nx_value r))
        then Some (MkTraceState kvp_empty)
        else FromHeader_loop f (nx_tok r) (nx_key r) (nx_value r) cnt
               (MkTraceState (AddEntry (kv_properties_ ts) (nx_key r) (nx_value r)))
      else Some ts
  end.

Definition FromHeader (header : bytes) : option TraceState :=
  let tok := tok_new header default_tok_opts in
  cnt ← NumTokens tok;
  if kMaxKeyValuePairs <? cnt then Some GetDefault
  else FromHeader_loop (S (length header)) tok [] [] cnt (ts_sized cnt).

(** The callback of [ToHeader] on its captured [header_s] and [first]. *)
Definition ToHeader_step '((header_s, first) : bytes * bool) (key value : bytes) : bytes * bool :=
  let '(header_s, first) :=
    if negb first then (header_s ++ [kMembersSeparator], first) else (header_s, false) in
  let header_s := header_s ++ key in
  let header_s := header_s ++ [kKeyValueSeparator] in
  let header_s := header_s ++ value in
  (header_s, first).

Definition ToHeader (ts : TraceState) : bytes :=
  fst (fst (GetAllEntries (kv_properties_ ts) (λ s k v, (ToHeader_step s k v, true)) ([], true))).

Definition ts_Get (ts : TraceState) (key : bytes) : option bytes :=
  if negb (IsValidKey key) then None else kvp_GetValue (kv_properties_ ts) key.

Definition ts_Set (ts : TraceState) (key value : bytes) : TraceState :=
  let curr_size := Size (kv_properties_ ts) in
  if negb (IsValidKey key) || negb (IsValidValue value) then GetDefault
  else
    let allocate_size := if curr_size <? kMaxKeyValuePairs then curr_size + 1 else curr_size in
    let p := kvp_sized allocate_size in
    let p := if curr_size <? kMaxKeyValuePairs then AddEntry p key value else p in
    MkTraceState (fst (GetAllEntries (kv_properties_ ts) (λ p k v, (AddEntry p k v, true)) p)).

Definition ts_Delete (ts : TraceState) (key : bytes) : TraceState :=
  if negb (IsValidKey key) then GetDefault
  else
    let curr_size := Size (kv_properties_ ts) in
    let allocate_size :=
      match kvp_GetValue (kv_properties_ ts) key with
      | Some _ => curr_size - 1
      | None => curr_size
      end in
    MkTraceState (fst (GetAllEntries (kv_properties_ ts)
      (λ p e_key e_value, ((if negb (sv_eq key e_key) then AddEntry p e_key e_value else p), true))
      (kvp_sized allocate_size))).

Definition ts_Empty (ts : TraceState) : bool := Size (kv_properties_ ts) =? 0.

(** [TrimString(str, left, right)]: reads first, tests the bounds after. *)
Fixpoint TrimString_right (fuel : nat) (str : bytes) (left right : nat) : option nat :=
  match fuel with
  | O => None
  | S f =>
      c ← str !! right;
      if ceq c " " && (left <? right) then TrimString_right f str left (right - 1) else Some right
  end.

Fixpoint TrimString_left (fuel : nat) (str : bytes) (left right : nat) : option nat :=
  match fuel with
  | O => None
  | S f =>
      c ← str !! left;
      if ceq c " " && (left <? right) then TrimString_left f str (S left) right else Some left
  end.

Definition TrimString (str : bytes) (left right : nat) : option bytes :=
  right ← TrimString_right (S (length str)) str left right;
  left ← TrimString_left (S (length str)) str left right;
  sv_substr str left (Some (right - left + 1)).

Abbreviation ts_pairs ts := (kvp_pairs (kv_properties_ ts)).

(** ** The regular expressions denote what they say *)

Fixpoint re_lang (r : regex) (s : bytes) : Prop :=
  match r with
  | REps => s = []
  | RChar p => ∃ c, s = [c] ∧ p c = true
  | RSeq r1 r2 => ∃ s1 s2, s = s1 ++ s2 ∧ re_lang r1 s1 ∧ re_lang r2 s2
  | RRep p hi => length s ≤ hi ∧ Forall (λ c, p c = true) s
  end.

Lemma re_nullable_lang r : re_nullable r = true ↔ re_lang r [].
Proof.
  induction r as [|p|r1 IH1 r2 IH2|p hi]; simpl.
  - done.
  - split; [done|]. by intros (c & [=] & _).
  - rewrite andb_true_iff, IH1, IH2. split.
    + intros [? ?]. by exists [], [].
    + intros (s1 & s2 & E & ? & ?). symmetry in E. apply app_eq_nil in E as [-> ->]. done.
  - split; [|done]. intros _. split; [lia|done].
Qed.

Lemma re_step_lang c r s : (∃ r', r' ∈ re_step c r ∧ re_lang r' s) ↔ re_lang r (c :: s).
Proof.
  revert s. induction r as [|p|r1 IH1 r2 IH2|p hi]; intros s; simpl.
  - set_solver.
  - destruct (p c) eqn:E.
    + split.
      * intros (r' & ->%list_elem_of_singleton & ->). eauto.
      * intros (c' & [= -> ->] & ?). exists REps. set_solver.
    + split; [set_solver|]. intros (c' & [= -> ->] & ?). congruence.
  - split.
    + intros (r' & Hin & Hl). apply elem_of_app in Hin as [Hin|Hin].
      * apply list_elem_of_fmap in Hin as (q & -> & Hq).
        destruct Hl as (s1 & s2 & -> & H1 & H2). exists (c :: s1), s2.
        split_and!; [done| |done]. apply IH1. eauto.
      * destruct (re_nullable r1) eqn:Hn; [|set_solver]. exists [], (c :: s).
        split_and!; [done|by apply re_nullable_lang|]. apply IH2. eauto.
    + intros ([|c' s1] & s2 & E & H1 & H2).
      * simpl in E. subst s2. apply re_nullable_lang in H1. rewrite H1.
        apply IH2 in H2 as (r' & ? & ?). exists r'. set_solver.
      * injection E as -> ->. apply IH1 in H1 as (q & Hq & Hl).
        exists (RSeq q r2). split; [|simpl; eauto 10].
        apply elem_of_app. left. apply list_elem_of_fmap. eauto.
  - destruct hi as [|n]; [split; [set_solver|simpl; lia]|]. rewrite list.Forall_cons.
    destruct (p c) eqn:E; [|split; [set_solver|naive_solver]].
    split.
    + intros (r' & ->%list_elem_of_singleton & ? & ?). simpl. split; [lia|done].
    + intros (? & _ & ?). exists (RRep p n). split; [set_solver|]. simpl in *. split; [lia|done].
Qed.

Lemma regex_match_any_lang s rs :
  regex_match_any s rs = true ↔ ∃ r, r ∈ rs ∧ re_lang r s.
Proof.
  revert rs. induction s as [|c s IH]; intros rs; simpl.
  - rewrite existsb_exists. by setoid_rewrite list_elem_of_In; setoid_rewrite re_nullable_lang.
  - rewrite IH. setoid_rewrite list_elem_of_bind. split.
    + intros (r' & (r & Hin & Hr) & Hl). exists r. split; [done|]. apply re_step_lang. eauto.
    + intros (r & Hr & (r' & ? & ?)%re_step_lang). exists r'. eauto.
Qed.

Lemma regex_match_lang s r : regex_match s r = true ↔ re_lang r s.
Proof.
  unfold regex_match. rewrite regex_match_any_lang. split.
  - by intros (? & ->%list_elem_of_singleton & ?).
  - intros. exists r. set_solver.
Qed.

(** ** Characterisation of the checks *)

Lemma value_char_spec c :
  value_char c = negb ((schar c <? schar " ")%Z || (schar "~" <? schar c)%Z || ceq c "," || ceq c "=").
Proof.
  apply eqb_prop. ascii_cases c.
Qed.

Lemma value_last_spec c : value_last c = value_char c && negb (ceq c " ").
Proof. apply eqb_prop. ascii_cases c. Qed.

Lemma key_first_spec c : key_first c = IsLowerCaseAlphaOrDigit c.
Proof. apply eqb_prop. ascii_cases c. Qed.

(** A valid value: 1 to 256 allowed characters, the last of which is not a blank. *)
Lemma IsValidValueRegEx_spec v :
  IsValidValueRegEx v = true ↔
  ∃ l c, v = l ++ [c] ∧ length l ≤ 255 ∧ Forall (λ c, value_char c = true) l ∧ value_last c = true.
Proof.
  unfold IsValidValueRegEx, reg_value. rewrite regex_match_lang. simpl. split.
  - intros (s1 & s2 & -> & [? ?] & (c & -> & ?)). eauto 10.
  - intros (l & c & -> & ? & ? & ?). eauto 10.
Qed.

Lemma IsValidKeyRegEx_spec k :
  IsValidKeyRegEx k = true ↔
  ∃ c r, k = c :: r ∧ key_first c = true ∧
    ((length r ≤ 255 ∧ Forall (λ c, key_rest c = true) r) ∨
     ∃ r1 d r2, r = r1 ++ "@"%char :: d :: r2 ∧ key_first d = true ∧
       length r1 ≤ 240 ∧ length r2 ≤ 13 ∧
       Forall (λ c, key_rest c = true) (r1 ++ r2)).
Proof.
  unfold IsValidKeyRegEx, reg_key, reg_key_multitenant.
  rewrite orb_true_iff, !regex_match_lang. cbn [re_lang]. split.
  - intros [(? & r & -> & (c & -> & ?) & ? & ?)|(? & ? & -> & (c & -> & ?) & r1 & ? & -> & [? ?] &
      ? & ? & -> & (a & -> & Ha) & ? & r2 & -> & (d & -> & ?) & ? & ?)].
    + exists c, r. eauto 10.
    + apply ceq_true in Ha as <-. exists c, (r1 ++ "@"%char :: d :: r2). split_and!; [done..|].
      right. exists r1, d, r2. split_and!; try done. by apply list.Forall_app.
  - intros (c & r & -> & Hc & [[? ?]|(r1 & d & r2 & -> & Hd & ? & ? & [? ?]%list.Forall_app)]).
    + left. exists [c], r. eauto 10.
    + right. exists [c], (r1 ++ "@"%char :: d :: r2). split; [done|]. split; [by eauto|].
      exists r1, ("@"%char :: d :: r2). split_and!; [done..|].
      exists ["@"%char], (d :: r2). split_and!; [done|by eexists|].
      exists [d], r2. split_and!; [done|eauto|done|done].
Qed.

(** No key or value that passes the checks has a NUL, a separator, or a blank where the
    header parser would trim it. *)
Lemma key_char_ok c : key_rest c || key_first c || ceq "@" c = true →
  c ≠ NUL ∧ ceq kMembersSeparator c = false ∧ ceq kKeyValueSeparator c = false ∧ isspace c = false.
Proof.
  intros H. enough (E : negb (key_rest c || key_first c || ceq "@" c) ||
    (negb (ceq c NUL) && negb (ceq kMembersSeparator c) && negb (ceq kKeyValueSeparator c)
     && negb (isspace c)) = true).
  { rewrite H in E. simpl in E. rewrite !andb_true_iff, !negb_true_iff, ceq_false in E. tauto. }
  ascii_cases c.
Qed.

Lemma value_char_ok c : value_char c = true →
  c ≠ NUL ∧ ceq kMembersSeparator c = false ∧ (isspace c = true → c = " "%char).
Proof.
  intros H. enough (E : negb (value_char c) ||
    (negb (ceq c NUL) && negb (ceq kMembersSeparator c) && (negb (isspace c) || ceq c " ")) = true).
  { rewrite H in E. simpl in E. rewrite !andb_true_iff, !negb_true_iff, ceq_false in E.
    split_and!; [tauto..|]. intros Hs. rewrite Hs in E. simpl in E. apply ceq_true. tauto. }
  ascii_cases c.
Qed.

Lemma IsValidKey_chars k :
  IsValidKey k = true → k ≠ [] ∧ Forall (λ c, key_rest c || key_first c || ceq "@" c = true) k.
Proof.
  intros (c & r & -> & Hc & Hr)%IsValidKeyRegEx_spec. split; [done|].
  assert (Hrest : ∀ l, Forall (λ c, key_rest c = true) l →
    Forall (λ c, key_rest c || key_first c || ceq "@" c = true) l).
  { intros l Hl. eapply list.Forall_impl; [exact Hl|]. by intros d ->. }
  apply list.Forall_cons. split; [by rewrite Hc, orb_true_r|].
  destruct Hr as [[_ Hr]|(r1 & d & r2 & -> & Hd & _ & _ & [H1 H2]%list.Forall_app)]; [auto|].
  rewrite list.Forall_app, !list.Forall_cons. split_and!; [auto| |by rewrite Hd, orb_true_r|auto].
  by rewrite orb_true_r.
Qed.

Lemma IsValidValue_chars v :
  IsValidValue v = true → v ≠ [] ∧ Forall (λ c, value_char c = true) v ∧
    (∀ l c, v = l ++ [c] → isspace c = false).
Proof.
  intros (l & c & -> & _ & Hl & Hc)%IsValidValueRegEx_spec.
  rewrite value_last_spec in Hc. apply andb_true_iff in Hc as [Hc Hs].
  split_and!; [by destruct l|by apply list.Forall_app; repeat constructor|].
  intros l' c' [-> ->]%app_inj_tail. apply not_true_is_false. intros Hsp.
  apply value_char_ok in Hc as (_ & _ & Hc). rewrite (Hc Hsp) in Hs. done.
Qed.

(** ** FromHeader *)

Definition valid_pair (kv : bytes * bytes) : bool := IsValidKey kv.1 && IsValidValue kv.2.

Definition valid_token (m : option (bytes * bytes)) : bool :=
  match m with Some kv => valid_pair kv | None => false end.

(** What a header with these members means: all of them, or nothing. *)
Definition header_pairs (toks : list (option (bytes * bytes))) : list (bytes * bytes) :=
  if forallb valid_token toks then omap id toks else [].

Lemma valid_pair_cstr kv : valid_pair kv = true → (cstr kv.1, cstr kv.2) = kv.
Proof.
  unfold valid_pair. intros [Hk Hv]%andb_true_iff. destruct kv as [k v]. simpl in *.
  apply IsValidKey_chars in Hk as [_ Hk]. apply IsValidValue_chars in Hv as (_ & Hv & _).
  f_equal; apply cstr_id; eapply list.Forall_impl; eauto; simpl; intros c Hc.
  - by apply key_char_ok in Hc as (? & _).
  - by apply value_char_ok in Hc as (? & _).
Qed.

Definition ts_wf (ts : TraceState) : Prop :=
  Size (kv_properties_ ts) ≤ kMaxKeyValuePairs ∧ Forall (λ kv, valid_pair kv = true) (ts_pairs ts).

Lemma ts_empty_wf n : ts_wf (ts_sized n).
Proof. split; [unfold Size, num_entries_; simpl; lia|constructor]. Qed.

Lemma FromHeader_loop_spec fuel t key value cnt ts :
  tk_opts t = default_tok_opts →
  let toks := tokens default_tok_opts (drop (tk_index t) (tk_str t)) in
  length (tk_str t) - tk_index t < fuel →
  Size (kv_properties_ ts) + length toks ≤ cnt →
  cnt ≤ max_num_entries_ (kv_properties_ ts) →
  ∃ ts', FromHeader_loop fuel t key value cnt ts = Some ts' ∧
    ts_pairs ts' = if forallb valid_token toks then ts_pairs ts ++ omap id toks else [].
Proof.
  intros Ho. revert t key value ts Ho. induction fuel as [|f IH]; intros t key value ts Ho toks Hf Hcnt Hmax;
    [lia|]. cbn [FromHeader_loop]. unfold tok_next.
  destruct (tok_next_loop_tokens default_tok_opts (S (length (tk_str t))) t key value)
    as (r & -> & Hs & Hro & Hm); [done|lia|]. cbn [mbind option_bind]. fold toks in Hm.
  destruct (decide (tk_index t < length (tk_str t))) as [Hi|Hi].
  2:{ assert (E : toks = []) by (subst toks; by rewrite drop_ge by lia).
      rewrite E in *. rewrite Hm. simpl. exists ts. by rewrite app_nil_r. }
  destruct toks as [|m ms]; [rewrite Hm; simpl; exists ts; by rewrite app_nil_r|].
  destruct Hm as ((Hf' & Hv) & Hlt & Hms). rewrite Hf'. cbn [length] in Hcnt.
  rewrite (proj2 (Nat.ltb_lt _ _)) by lia. cbn [andb forallb].
  destruct m as [[k v]|]; destruct Hv as (-> & Hk & Hval); cbn [negb valid_token];
    [|by exists GetDefault].
  rewrite Hk, Hval. unfold valid_pair. cbn [fst snd].
  destruct (IsValidKey k) eqn:Ek; [|by eexists]. destruct (IsValidValue v) eqn:Ev; [|by eexists].
  cbn [negb orb andb].
  assert (Hp : kvp_pairs (AddEntry (kv_properties_ ts) k v) = ts_pairs ts ++ [(k, v)]).
  { rewrite AddEntry_pairs. rewrite (proj2 (Nat.ltb_lt _ _)) by lia.
    pose proof (valid_pair_cstr (k, v)) as E. unfold valid_pair in E. simpl in E.
    rewrite Ek, Ev in E. by rewrite E. }
  destruct (IH (nx_tok r) k v (MkTraceState (AddEntry (kv_properties_ ts) k v))) as (ts' & -> & Hts');
    rewrite ?Hs, ?Hms; [done|lia| | |].
  - cbn [kv_properties_]. rewrite Size_pairs, Hp, length_app. rewrite Size_pairs in Hcnt. simpl. lia.
  - cbn [kv_properties_]. by rewrite AddEntry_max.
  - exists ts'. split; [done|]. rewrite Hts', Hs, Hms. cbn [kv_properties_]. rewrite Hp.
    destruct (forallb valid_token ms); [|done]. by rewrite <-app_assoc.
Qed.

(** Parsing never fails, and yields exactly the members of a well-formed header of at most 32
    segments, or the empty list. *)
Lemma FromHeader_pairs header :
  ∃ ts, FromHeader header = Some ts ∧
    ts_pairs ts =
      if kMaxKeyValuePairs <? length (segments default_tok_opts header) then []
      else header_pairs (tokens default_tok_opts header).
Proof.
  unfold FromHeader. rewrite NumTokens_segments. cbn [mbind option_bind].
  destruct (kMaxKeyValuePairs <? _) eqn:E; [by eexists|].
  destruct (FromHeader_loop_spec (S (length header)) (tok_new header default_tok_opts) [] []
    (length (segments default_tok_opts header)) (ts_sized (length (segments default_tok_opts header))))
    as (ts & Hts & Hp).
  - done.
  - cbn. lia.
  - cbn [tk_index tok_new tk_str]. rewrite drop_0. apply tokens_le_segments.
  - done.
  - exists ts. split; [done|]. rewrite Hp. cbn [tk_index tok_new tk_str]. by rewrite drop_0.
Qed.

(** ** ToHeader and the round trip *)

Definition member_text (kv : bytes * bytes) : bytes := kv.1 ++ kKeyValueSeparator :: kv.2.

Lemma ToHeader_join ts : ToHeader ts = join default_tok_opts (member_text <$> ts_pairs ts).
Proof.
  apply ToHeader_join_fold. intros h first k v. unfold ToHeader_step, member_text. cbn [fst snd].
  destruct first; cbn [negb]; by rewrite <-!app_assoc.
Qed.

Lemma member_text_segment kv :
  valid_pair kv = true →
  member_text kv ≠ [] ∧ Forall (λ c, not_sep default_tok_opts c = true) (member_text kv) ∧
  seg_tokens default_tok_opts (member_text kv) = [Some kv].
Proof.
  destruct kv as [k v]. unfold valid_pair, member_text. simpl. intros [Hk Hv]%andb_true_iff.
  apply IsValidKey_chars in Hk as [Hkne Hk]. apply IsValidValue_chars in Hv as (Hvne & Hv & Hvl).
  assert (Hk' : Forall (λ c, ceq "," c = false ∧ ceq "=" c = false ∧ isspace c = false) k).
  { eapply list.Forall_impl; [exact Hk|]. simpl. intros c (_ & ? & ? & ?)%key_char_ok. done. }
  split_and!.
  - by destruct k.
  - rewrite list.Forall_app, list.Forall_cons. unfold not_sep. simpl. split_and!; [|done|].
    + eapply list.Forall_impl; [exact Hk'|]. simpl. by intros c (-> & _).
    + eapply list.Forall_impl; [exact Hv|]. simpl.
      intros c (_ & Hc & _)%value_char_ok. change (negb (ceq kMembersSeparator c) = true). by rewrite Hc.
  - apply seg_tokens_pair; simpl.
    + eapply list.Forall_impl; [exact Hk'|]. simpl. tauto.
    + apply trim_id.
      * intros c s' E. destruct k as [|c' k]; [done|]. injection E as <- _.
        inversion Hk'. tauto.
      * intros s' c E. destruct (exists_last Hvne) as (l & d & ->).
        rewrite app_comm_cons, (app_assoc k) in E. apply app_inj_tail in E as [_ ->].
        by eapply Hvl.
Qed.

Lemma forallb_valid_Some l :
  Forall (λ kv, valid_pair kv = true) l → forallb valid_token (Some <$> l) = true.
Proof. induction 1 as [|kv l Hkv _ IH]; simpl; [done|]. by rewrite Hkv. Qed.

Lemma omap_id_Some {A} (l : list A) : omap id (Some <$> l) = l.
Proof. induction l as [|x l IH]; simpl; [done|]. by f_equal. Qed.

(** The printed header of a well-formed state has one segment and one token per entry. *)
Lemma ToHeader_tokens l :
  Forall (λ kv, valid_pair kv = true) l →
  segments default_tok_opts (join default_tok_opts (member_text <$> l)) = member_text <$> l ∧
  tokens default_tok_opts (join default_tok_opts (member_text <$> l)) = Some <$> l.
Proof.
  intros Hl. assert (Hs : segments default_tok_opts (join default_tok_opts (member_text <$> l))
    = member_text <$> l).
  { apply segments_join, Forall_fmap. eapply list.Forall_impl; [exact Hl|].
    intros kv (? & ? & _)%member_text_segment. done. }
  split; [done|]. unfold tokens. rewrite Hs. clear Hs.
  induction Hl as [|kv l Hkv _ IH]; [done|]. rewrite !fmap_cons, bind_cons, IH.
  by apply member_text_segment in Hkv as (_ & _ & ->).
Qed.

Lemma header_roundtrip_pairs ts :
  ts_wf ts → ∃ ts', FromHeader (ToHeader ts) = Some ts' ∧ ts_pairs ts' = ts_pairs ts.
Proof.
  intros [Hsz Hv]. destruct (FromHeader_pairs (ToHeader ts)) as (ts' & -> & Hp).
  exists ts'. split; [done|]. rewrite Hp, ToHeader_join.
  destruct (ToHeader_tokens _ Hv) as [-> ->]. rewrite length_fmap, <-Size_pairs.
  rewrite (proj2 (Nat.ltb_ge _ _)) by done. unfold header_pairs.
  rewrite forallb_valid_Some by done. apply omap_id_Some.
Qed.

(** C13: Printing a trace state and parsing the header gives a state with the same entries in
    the same order, which prints to the same header and answers every [Get] alike. *)
Theorem TraceState_header_roundtrip ts :
  ts_wf ts →
  ∃ ts', FromHeader (ToHeader ts) = Some ts' ∧ ts_pairs ts' = ts_pairs ts ∧
    ToHeader ts' = ToHeader ts ∧ ∀ k, ts_Get ts' k = ts_Get ts k.
Proof.
  intros Hwf. destruct (header_roundtrip_pairs ts Hwf) as (ts' & -> & Hp). exists ts'.
  split_and!; [done|done|by rewrite !ToHeader_join, Hp|].
  intros k. unfold ts_Get. by rewrite !kvp_GetValue_pairs, Hp.
Qed.

Definition example_state : TraceState :=
  ts_Set (ts_Set GetDefault (B "rojo") (B "00f067aa0ba902b7")) (B "congo@t1") (B "t61rcWkgMzE").

Lemma TraceState_header_roundtrip_witness :
  ts_pairs example_state = [(B "congo@t1", B "t61rcWkgMzE"); (B "rojo", B "00f067aa0ba902b7")] ∧
  ∃ ts', FromHeader (ToHeader example_state) = Some ts' ∧ ts_pairs ts' = ts_pairs example_state ∧
    ToHeader ts' = ToHeader example_state ∧ ∀ k, ts_Get ts' k = ts_Get example_state k.
Proof.
  split; [vm_compute; reflexivity|].
  apply (TraceState_header_roundtrip example_state). split; [vm_compute; lia|].
  apply forallb_Forall. vm_compute. reflexivity.
Defined.

(** ** Copy-on-write updates *)

Lemma ts_Set_pairs ts k v :
  ts_pairs (ts_Set ts k v) =
    if valid_pair (k, v)
    then if Size (kv_properties_ ts) <? kMaxKeyValuePairs then (k, v) :: ts_pairs ts else ts_pairs ts
    else [].
Proof.
  pose proof (valid_pair_cstr (k, v)) as Hc. revert Hc. unfold ts_Set, valid_pair. cbn [fst snd].
  destruct (IsValidKey k); [|done]. destruct (IsValidValue v); [|done]. cbn [negb orb andb].
  intros Hc. destruct (_ <? kMaxKeyValuePairs) eqn:E; cbn [kv_properties_].
  - assert (Hp : kvp_pairs (AddEntry (kvp_sized (Size (kv_properties_ ts) + 1)) k v) = [(k, v)]).
    { rewrite AddEntry_pairs. cbn [max_num_entries_ kvp_sized].
      rewrite (proj2 (Nat.ltb_lt _ _)) by (unfold Size, num_entries_; simpl; lia).
      by rewrite Hc. }
    rewrite copy_pairs; [by rewrite Hp|].
    rewrite AddEntry_max, (Size_pairs (AddEntry _ _ _)), Hp. simpl. lia.
  - rewrite copy_pairs; [done|]. unfold Size, num_entries_. simpl. lia.
Qed.

Lemma ts_Delete_pairs ts k :
  ts_pairs (ts_Delete ts k) =
    if IsValidKey k then filter (λ kv, kv.1 ≠ k) (ts_pairs ts) else [].
Proof.
  unfold ts_Delete. destruct (IsValidKey k); [|done]. cbn [negb kv_properties_].
  assert (H0 : ∀ n, Size (kvp_sized n) = 0) by done.
  rewrite copy_others; [done|]. rewrite H0, kvp_GetValue_pairs, Size_pairs.
  cbn [max_num_entries_ kvp_sized Nat.add].
  destruct (pairs_get (ts_pairs ts) k) as [v|] eqn:E.
  - by apply filter_short in E.
  - apply length_filter.
Qed.

(** [Set] puts the pair in front, whether or not the key is already there: a key that was
    present keeps its old entry behind the new one.  A full state is copied unchanged, and an
    invalid pair yields the empty state; the other keys keep their values in both first cases. *)
Theorem ts_Set_spec ts k v :
  (valid_pair (k, v) = true → Size (kv_properties_ ts) < kMaxKeyValuePairs →
     ts_pairs (ts_Set ts k v) = (k, v) :: ts_pairs ts ∧ ts_Get (ts_Set ts k v) k = Some v ∧
     (∀ k', k' ≠ k → ts_Get (ts_Set ts k v) k' = ts_Get ts k')) ∧
  (valid_pair (k, v) = true → kMaxKeyValuePairs ≤ Size (kv_properties_ ts) →
     ts_pairs (ts_Set ts k v) = ts_pairs ts) ∧
  (valid_pair (k, v) = false → ts_Empty (ts_Set ts k v) = true).
Proof.
  split_and!.
  - intros Hv Hsz. pose proof (ts_Set_pairs ts k v) as Hp.
    rewrite Hv, (proj2 (Nat.ltb_lt _ _)) in Hp by done. split; [done|].
    unfold ts_Get. split.
    + rewrite kvp_GetValue_pairs, Hp, pairs_get_cons, decide_True by done.
      unfold valid_pair in Hv. apply andb_true_iff in Hv as [Hk _]. simpl in Hk. by rewrite Hk.
    + intros k' Hk'. destruct (IsValidKey k'); [|done]. cbn [negb].
      by rewrite !kvp_GetValue_pairs, Hp, pairs_get_cons, decide_False by done.
  - intros Hv Hsz. by rewrite ts_Set_pairs, Hv, (proj2 (Nat.ltb_ge _ _)) by done.
  - intros Hv. unfold ts_Empty. rewrite Size_pairs, ts_Set_pairs, Hv. done.
Qed.

Lemma ts_Set_spec_witness :
  let ts := ts_Set GetDefault (B "rojo") (B "1") in
  (∀ k', k' ≠ B "rojo" → ts_Get (ts_Set ts (B "rojo") (B "2")) k' = ts_Get ts k') ∧
  ts_pairs (ts_Set ts (B "rojo") (B "2")) = [(B "rojo", B "2"); (B "rojo", B "1")].
Proof.
  destruct (ts_Set_spec (ts_Set GetDefault (B "rojo") (B "1")) (B "rojo") (B "2")) as (H1 & _ & _).
  destruct H1 as (Hp & _ & Ho); [vm_compute; reflexivity|vm_compute; lia|].
  split; [exact Ho|]. rewrite Hp. vm_compute. reflexivity.
Defined.

(** [Delete] removes every entry of the key and keeps the order of the others; an invalid key
    yields the empty state. *)
Theorem ts_Delete_spec ts k :
  ts_pairs (ts_Delete ts k) = (if IsValidKey k then filter (λ kv, kv.1 ≠ k) (ts_pairs ts) else [])
  ∧ ts_Get (ts_Delete ts k) k = None.
Proof.
  split; [apply ts_Delete_pairs|]. unfold ts_Get. destruct (IsValidKey k) eqn:E; [|done].
  cbn [negb]. by rewrite kvp_GetValue_pairs, ts_Delete_pairs, E, pairs_get_filter.
Qed.

(** ** The invariant of every state a program can obtain *)

Inductive ts_reachable : TraceState → Prop :=
| reach_default : ts_reachable GetDefault
| reach_header header ts : FromHeader header = Some ts → ts_reachable ts
| reach_set ts k v : ts_reachable ts → ts_reachable (ts_Set ts k v)
| reach_delete ts k : ts_reachable ts → ts_reachable (ts_Delete ts k).

Lemma header_pairs_valid toks : Forall (λ kv, valid_pair kv = true) (header_pairs toks).
Proof.
  unfold header_pairs. destruct (forallb valid_token toks) eqn:E; [|done].
  apply forallb_Forall in E. induction E as [|[kv|] toks Hm _ IH]; simpl in *; auto.
Qed.

Lemma header_pairs_length toks : length (header_pairs toks) ≤ length toks.
Proof.
  unfold header_pairs. destruct (forallb _ _); [apply length_omap_le|simpl; lia].
Qed.

Lemma FromHeader_wf header ts : FromHeader header = Some ts → ts_wf ts.
Proof.
  intros Hts. destruct (FromHeader_pairs header) as (ts' & Hts' & Hp). simplify_eq.
  unfold ts_wf. rewrite Size_pairs, Hp. case_match; bprop; [split; [simpl; lia|constructor]|].
  split; [|apply header_pairs_valid].
  etrans; [apply header_pairs_length|]. etrans; [apply tokens_le_segments|]. lia.
Qed.

(** Parsing never fails.  It keeps every member of a header that has at most 32 segments and
    only valid members, in order, and otherwise nothing at all; the result obeys the limits. *)
Theorem FromHeader_spec header :
  ∃ ts, FromHeader header = Some ts ∧ ts_wf ts ∧
    ts_pairs ts =
      if kMaxKeyValuePairs <? length (segments default_tok_opts header) then []
      else header_pairs (tokens default_tok_opts header).
Proof.
  destruct (FromHeader_pairs header) as (ts & Hts & Hp). exists ts. split_and!; [done| |done].
  by eapply FromHeader_wf.
Qed.

(** C40: Every reachable state has at most 32 entries, all of them valid. *)
Theorem TraceState_reachable_wf ts : ts_reachable ts → ts_wf ts.
Proof.
  induction 1 as [|header ts Hts|ts k v _ [Hsz Hv]|ts k _ [Hsz Hv]].
  - apply ts_empty_wf.
  - by eapply FromHeader_wf.
  - unfold ts_wf. rewrite Size_pairs, ts_Set_pairs.
    destruct (valid_pair (k, v)) eqn:E; [|split; [simpl; lia|constructor]].
    case_match; bprop; rewrite <-?Size_pairs; [|done].
    split; [cbn [length]; rewrite <-Size_pairs; lia|by constructor].
  - unfold ts_wf. rewrite Size_pairs, ts_Delete_pairs.
    destruct (IsValidKey k); [|split; [simpl; lia|constructor]]. split.
    + etrans; [apply length_filter|]. by rewrite <-Size_pairs.
    + rewrite list.Forall_forall in *. intros kv [_ Hin]%list_elem_of_filter. by apply Hv.
Qed.

Lemma TraceState_reachable_wf_witness :
  ∃ ts, FromHeader (B "rojo=00f067aa0ba902b7, congo@t1=t61rcWkgMzE") = Some ts ∧
    ts_Empty ts = false ∧ ts_wf (ts_Delete ts (B "rojo")).
Proof.
  destruct (FromHeader (B "rojo=00f067aa0ba902b7, congo@t1=t61rcWkgMzE")) as [ts|] eqn:E.
  - exists ts. split; [reflexivity|]. split.
    + vm_compute in E. injection E as <-. reflexivity.
    + apply (TraceState_reachable_wf (ts_Delete ts (B "rojo"))). apply reach_delete.
      exact (reach_header _ _ E).
  - vm_compute in E. discriminate E.
Defined.

(** ** The two builds of the checks *)

Definition at_count (k : bytes) : nat := length (filter (λ c, c = "@"%char) k).

Lemma at_count_app k1 k2 : at_count (k1 ++ k2) = at_count k1 + at_count k2.
Proof. unfold at_count. by rewrite list.filter_app, length_app. Qed.

Lemma at_count_rest l : Forall (λ c, key_rest c = true) l → at_count l = 0.
Proof.
  unfold at_count. induction 1 as [|c l Hc _ IH]; [done|].
  rewrite filter_cons_False; [done|]. intros ->. done.
Qed.

Lemma key_char_nonregex c :
  (negb (IsLowerCaseAlphaOrDigit c) && negb (ceq c "_") && negb (ceq c "-")
   && negb (ceq c "@") && negb (ceq c "*") && negb (ceq c "/"))
  = negb (key_rest c || ceq "@" c).
Proof. apply eqb_prop. ascii_cases c. Qed.

Lemma key_chars_ok_spec ats k :
  ats ≤ 1 →
  key_chars_ok ats k = true ↔
  Forall (λ c, key_rest c || ceq "@" c = true) k ∧ ats + at_count k ≤ 1.
Proof.
  revert ats. induction k as [|c k IH]; intros ats Ha; cbn [key_chars_ok].
  - unfold at_count. simpl. split; [split; [constructor|lia]|done].
  - rewrite key_char_nonregex, list.Forall_cons.
    change (c :: k) with ([c] ++ k). rewrite at_count_app.
    destruct (key_rest c || ceq "@" c) eqn:E; simpl; [|naive_solver].
    destruct (ceq c "@") eqn:Ec.
    + apply ceq_true in Ec as ->. change (at_count ["@"%char]) with 1.
      destruct (1 <? S ats) eqn:El; bprop. { split; [done|]. intros [_ ?]. lia. }
      rewrite IH by lia. split; [intros [? ?]|intros [[_ ?] ?]]; split_and!; (done || lia).
    + replace (at_count [c]) with 0.
      2:{ unfold at_count. by rewrite filter_cons_False by (by apply ceq_false). }
      rewrite IH by done. simpl. tauto.
Qed.

Lemma IsValidKeyNonRegEx_spec c r :
  IsValidKeyNonRegEx (c :: r) = true ↔
  length r ≤ 255 ∧ key_first c = true ∧ Forall (λ c, key_rest c || ceq "@" c = true) (c :: r) ∧
  at_count (c :: r) ≤ 1.
Proof.
  unfold IsValidKeyNonRegEx, kKeyMaxSize. rewrite key_first_spec. cbn [length].
  destruct (256 <? S (length r)) eqn:El; bprop; cbn [orb].
  { split; [done|intros [? _]; lia]. }
  destruct (IsLowerCaseAlphaOrDigit c); cbn [negb]; [|naive_solver].
  rewrite key_chars_ok_spec by lia. simpl. intuition lia.
Qed.

Lemma key_first_rest c : key_first c = true → key_rest c = true.
Proof. unfold key_first, key_rest. intros ->. done. Qed.

Lemma key_rest_at l :
  Forall (λ c, key_rest c = true) l → Forall (λ c, key_rest c || ceq "@" c = true) l.
Proof. intros H. eapply list.Forall_impl; [exact H|]. by intros c ->. Qed.

Lemma key_regex_nonregex k : IsValidKeyRegEx k = true → IsValidKeyNonRegEx k = true.
Proof.
  intros (c & r & -> & Hc & Hr)%IsValidKeyRegEx_spec. apply IsValidKeyNonRegEx_spec.
  pose proof (key_first_rest c Hc) as Hcr.
  destruct Hr as [[Hlen Hr]|(r1 & d & r2 & -> & Hd & ? & ? & [H1 H2]%list.Forall_app)].
  - split_and!; [done..| |].
    + apply key_rest_at. by constructor.
    + rewrite at_count_rest; [lia|by constructor].
  - apply key_first_rest in Hd.
    split_and!; [rewrite length_app; simpl; lia|done| |].
    + rewrite list.Forall_cons, list.Forall_app, !list.Forall_cons.
      rewrite Hcr, Hd. split_and!; auto using key_rest_at.
    + change (c :: r1 ++ "@"%char :: d :: r2) with ((c :: r1) ++ ["@"%char] ++ (d :: r2)).
      rewrite !at_count_app, (at_count_rest (c :: r1)), (at_count_rest (d :: r2)) by by constructor.
      done.
Qed.

Lemma key_nonregex_no_at k :
  "@"%char ∉ k → IsValidKeyNonRegEx k = true → IsValidKeyRegEx k = true.
Proof.
  intros Hat H. destruct k as [|c r]; [done|].
  apply IsValidKeyNonRegEx_spec in H as (Hl & Hc & Hall & _). apply IsValidKeyRegEx_spec.
  exists c, r. split_and!; [done..|]. left. split; [done|].
  rewrite list.Forall_forall in *. intros d Hd.
  specialize (Hall d ltac:(by right)). apply orb_true_iff in Hall as [?|He]; [done|].
  apply ceq_true in He as <-. destruct Hat. by right.
Qed.

(** The build without std::regex accepts every key and value the regex build accepts.  It is
    the same check on keys without '@', and on values that do not end in a blank; the regex
    build also bounds the tenant and system parts of a key around '@'. *)
Theorem validity_checks_compare k v :
  (IsValidKeyRegEx k = true → IsValidKeyNonRegEx k = true) ∧
  ("@"%char ∉ k → IsValidKeyRegEx k = IsValidKeyNonRegEx k) ∧
  (IsValidValueRegEx v = true ↔ IsValidValueNonRegEx v = true ∧ list.last v ≠ Some " "%char).
Proof.
  split_and!.
  - apply key_regex_nonregex.
  - intros Hat. apply eq_true_iff_eq. split; [apply key_regex_nonregex|by apply key_nonregex_no_at].
  - rewrite IsValidValueRegEx_spec. unfold IsValidValueNonRegEx, sv_empty, kValueMaxSize.
    assert (Hval : ∀ l, forallb (λ c, negb ((schar c <? schar " ")%Z || (schar "~" <? schar c)%Z
      || ceq c "," || ceq c "=")) l = forallb value_char l).
    { induction l as [|c l IH]; [done|]. simpl. by rewrite IH, value_char_spec. }
    rewrite Hval. split.
    + intros (l & c & -> & Hl & Hall & Hc). rewrite value_last_spec in Hc. bprop.
      rewrite length_app. cbn [length]. rewrite (proj2 (Nat.eqb_neq _ _)) by lia.
      rewrite (proj2 (Nat.ltb_ge _ _)) by lia. simpl. split.
      * apply forallb_Forall, list.Forall_app. by repeat constructor.
      * rewrite list.last_snoc. by intros [= ->].
    + intros [Hv Hlast]. destruct (_ || _) eqn:E; [done|]. bprop.
      apply forallb_Forall in Hv. destruct v as [|c l _] using rev_ind; [done|].
      rewrite length_app in *. cbn [length] in *. rewrite list.last_snoc in Hlast.
      apply list.Forall_app in Hv as [Hl Hc]. apply list.Forall_cons in Hc as [Hc _].
      exists l, c. split_and!; [done|lia|done|]. rewrite value_last_spec, Hc.
      apply negb_true_iff, ceq_false. congruence.
Qed.

(** The inclusion is strict: a key with an empty system part, a value with a trailing blank. *)
Example checks_differ :
  (IsValidKeyNonRegEx (B "tenant@"), IsValidKeyRegEx (B "tenant@"),
   IsValidValueNonRegEx (B "v "), IsValidValueRegEx (B "v ")) = (true, false, true, false).
Proof. vm_compute. reflexivity. Qed.

(** *** TrimString *)

Lemma TrimString_right_total f str left right :
  right - left < f → left ≤ right → right < length str →
  ∃ r, TrimString_right f str left right = Some r ∧ left ≤ r ≤ right.
Proof.
  revert right. induction f as [|f IH]; intros right Hf Hle Hr; [lia|]. simpl.
  destruct (lookup_lt_is_Some_2 str right Hr) as [c ->]. simpl.
  destruct (_ && _) eqn:E; bprop; [|eauto with lia].
  destruct (IH (right - 1)) as (r & -> & ?); [lia..|]. exists r. split; [done|lia].
Qed.

Lemma TrimString_left_total f str left right :
  right - left < f → left ≤ right → right < length str →
  ∃ l, TrimString_left f str left right = Some l ∧ left ≤ l ≤ right.
Proof.
  revert left. induction f as [|f IH]; intros left Hf Hle Hr; [lia|]. simpl.
  destruct (lookup_lt_is_Some_2 str left ltac:(lia)) as [c ->]. simpl.
  destruct (_ && _) eqn:E; bprop; [|eauto with lia].
  destruct (IH (S left)) as (l & -> & ?); [lia..|]. exists l. split; [done|lia].
Qed.

(** Within bounds, [TrimString] reads only inside the view and returns a non-empty part. *)
Lemma TrimString_total str left right :
  left ≤ right → right < length str → ∃ s, TrimString str left right = Some s ∧ s ≠ [].
Proof.
  intros Hle Hr. unfold TrimString.
  destruct (TrimString_right_total (S (length str)) str left right) as (r & -> & ?); [lia..|].
  cbn [mbind option_bind].
  destruct (TrimString_left_total (S (length str)) str left r) as (l & -> & ?); [lia..|].
  cbn [mbind option_bind].
  replace (r - l + 1) with (S r - l) by lia. rewrite sv_substr_slice by lia.
  eexists. split; [done|]. intros E. apply (f_equal length) in E.
  rewrite length_slice in E by lia. simpl in E. lia.
Qed.
