(* ===== verification/Hex.v ===== *)
(** * Hexadecimal and field splitting

    trace/propagation/detail/hex.h and detail/string.h: the digit table, the hex decoder with
    left padding, and [SplitString].  A [uint8_t] is a [Z] between 0 and 255; a write outside
    the buffer is the error [None]. *)
From S2P Require Export StringView.

(** ** detail/hex.h *)

(** The table as written: -1 except for '0'-'9', 'A'-'F' and 'a'-'f'. *)
Definition kHexDigits : list Z :=
  [-1; -1; -1; -1; -1; -1; -1; -1; -1; -1; -1; -1; -1; -1; -1; -1; -1; -1; -1; -1; -1; -1; -1; -1;
   -1; -1; -1; -1; -1; -1; -1; -1; -1; -1; -1; -1; -1; -1; -1; -1; -1; -1; -1; -1; -1; -1; -1; -1;
   0;  1;  2;  3;  4;  5;  6;  7;  8;  9;  -1; -1; -1; -1; -1; -1; -1; 10; 11; 12; 13; 14; 15; -1;
   -1; -1; -1; -1; -1; -1; -1; -1; -1; -1; -1; -1; -1; -1; -1; -1; -1; -1; -1; -1; -1; -1; -1; -1;
   -1; 10; 11; 12; 13; 14; 15; -1; -1; -1; -1; -1; -1; -1; -1; -1; -1; -1; -1; -1; -1; -1; -1; -1;
   -1; -1; -1; -1; -1; -1; -1; -1; -1; -1; -1; -1; -1; -1; -1; -1; -1; -1; -1; -1; -1; -1; -1; -1;
   -1; -1; -1; -1; -1; -1; -1; -1; -1; -1; -1; -1; -1; -1; -1; -1; -1; -1; -1; -1; -1; -1; -1; -1;
   -1; -1; -1; -1; -1; -1; -1; -1; -1; -1; -1; -1; -1; -1; -1; -1; -1; -1; -1; -1; -1; -1; -1; -1;
   -1; -1; -1; -1; -1; -1; -1; -1; -1; -1; -1; -1; -1; -1; -1; -1; -1; -1; -1; -1; -1; -1; -1; -1;
   -1; -1; -1; -1; -1; -1; -1; -1; -1; -1; -1; -1; -1; -1; -1; -1; -1; -1; -1; -1; -1; -1; -1; -1;
   -1; -1; -1; -1; -1; -1; -1; -1; -1; -1; -1; -1; -1; -1; -1; -1]%Z.

Definition HexToInt (c : ascii) : Z := nth (Z.to_nat (code c)) kHexDigits (-1)%Z.

Definition IsValidHex (s : bytes) : bool := forallb (λ c, negb (HexToInt c =? -1)%Z) s.

(** Conversion of an [int] to [uint8_t]. *)
Definition to_u8 (z : Z) : Z := (z `mod` 256)%Z.

(** [buffer[pos] = v]. *)
Definition buf_write (buffer : list Z) (pos : nat) (v : Z) : option (list Z) :=
  if pos <? length buffer then Some (<[pos := v]> buffer) else None.

(** [for (; i < last_hex_pos; i += 2) buffer[buffer_pos++] = ...] *)
Fixpoint HexToBinary_loop (fuel : nat) (hex : bytes) (buffer : list Z) (i buffer_pos : nat)
    (last_hex_pos : Z) : option (list Z) :=
  match fuel with
  | O => None
  | S f =>
      if (Z.of_nat i <? last_hex_pos)%Z then
        hi ← hex !! i; lo ← hex !! S i;
        buffer' ← buf_write buffer buffer_pos
                    (to_u8 (Z.lor (Z.shiftl (HexToInt hi) 4) (HexToInt lo)));
        HexToBinary_loop f hex buffer' (S (S i)) (S buffer_pos) last_hex_pos
      else Some buffer
  end.

(** [HexToBinary(hex, buffer, buffer_size)]: its result and the buffer it leaves. *)
Definition HexToBinary (hex : bytes) (buffer_size : nat) : option (bool * list Z) :=
  let buffer := replicate buffer_size 0%Z in
  if buffer_size * 2 <? length hex then Some (false, buffer)
  else
    let hex_size := length hex in
    let buffer_pos := buffer_size - (hex_size + 1) / 2 in
    let last_hex_pos := (Z.of_nat hex_size - 1)%Z in
    let is_hex_size_odd := (hex_size mod 2 =? 1) in
    '(buffer, i, buffer_pos) ←
      (if is_hex_size_odd then
         c ← hex !! 0; b ← buf_write buffer buffer_pos (to_u8 (HexToInt c));
         Some (b, 1, S buffer_pos)
       else Some (buffer, 0, buffer_pos));
    buffer ← HexToBinary_loop (S hex_size) hex buffer i buffer_pos last_hex_pos;
    Some (true, buffer).

(** ** detail/string.h *)

Fixpoint SplitString_loop (fuel : nat) (s : bytes) (separator : ascii) (results : list bytes)
    (token_start i count : nat) : option (nat * list bytes) :=
  match fuel with
  | O => None
  | S f =>
      if i <? length s then
        c ← s !! i;
        if negb (ceq c separator) then SplitString_loop f s separator results token_start (S i) count
        else
          t ← sv_substr s token_start (Some (i - token_start));
          let results := results ++ [t] in
          if length results =? count then Some (count, results)
          else SplitString_loop f s separator results (S i) (S i) count
      else if length results <? count then
        t ← sv_substr s token_start None;
        Some (S (length results), results ++ [t])
      else Some (length results, results)
  end.

(** [SplitString(s, separator, results, count)]: the count returned and the results filled. *)
Definition SplitString (s : bytes) (separator : ascii) (count : nat) : option (nat * list bytes) :=
  if count =? 0 then Some (0, []) else SplitString_loop (S (length s)) s separator [] 0 0 count.

(** ** The digit table *)

Definition hex_digit_value (c : ascii) : Z :=
  if isdigit c then code c - 48
  else if in_range "A" "F" c then code c - 55
  else if in_range "a" "f" c then code c - 87
  else (-1)%Z.

Lemma HexToInt_value c : HexToInt c = hex_digit_value c.
Proof. apply Z.eqb_eq. ascii_cases c. Qed.

Lemma HexToInt_range c : (negb (HexToInt c =? -1)%Z) = true → (0 ≤ HexToInt c < 16)%Z.
Proof.
  intros H. enough (E : ((HexToInt c =? -1) || ((0 <=? HexToInt c) && (HexToInt c <? 16)))%Z = true).
  { bprop. apply orb_true_iff in E as [E|E]; bprop; [done|lia]. }
  ascii_cases c.
Qed.

(** ** The decoder *)

(** The bytes of an even number of digits. *)
Fixpoint hex_bytes (h : bytes) : list Z :=
  match h with
  | hi :: lo :: r => to_u8 (Z.lor (Z.shiftl (HexToInt hi) 4) (HexToInt lo)) :: hex_bytes r
  | _ => []
  end.

Lemma drop_two {A} (l : list A) i k :
  length l = i + 2 * S k → ∃ a b, l !! i = Some a ∧ l !! S i = Some b ∧ drop i l = a :: b :: drop (S (S i)) l.
Proof.
  intros H. destruct (lookup_lt_is_Some_2 l i) as [a Ha]; [lia|].
  destruct (lookup_lt_is_Some_2 l (S i)) as [b Hb]; [lia|].
  exists a, b. split_and!; [done..|]. by rewrite (drop_S l a i), (drop_S l b (S i)).
Qed.

Lemma HexToBinary_loop_spec k fuel hex buffer i pos :
  length hex = i + 2 * k → length buffer = pos + k → k < fuel →
  HexToBinary_loop fuel hex buffer i pos (Z.of_nat (length hex) - 1) =
    Some (take pos buffer ++ hex_bytes (drop i hex)).
Proof.
  revert fuel buffer i pos. induction k as [|k IH]; intros fuel buffer i pos Hh Hb Hf;
    destruct fuel as [|f]; [lia| |lia|]; cbn [HexToBinary_loop].
  - rewrite (proj2 (Z.ltb_ge _ _)) by lia. rewrite take_ge, drop_ge by lia. simpl.
    by rewrite app_nil_r.
  - rewrite (proj2 (Z.ltb_lt _ _)) by lia.
    destruct (drop_two hex i k Hh) as (a & b & -> & -> & Hd). rewrite Hd. cbn [mbind option_bind].
    unfold buf_write. rewrite (proj2 (Nat.ltb_lt _ _)) by lia. cbn [mbind option_bind].
    rewrite IH; rewrite ?length_insert; [|lia..]. f_equal. cbn [hex_bytes].
    rewrite (take_S_r _ _ (to_u8 (Z.lor (Z.shiftl (HexToInt a) 4) (HexToInt b)))).
    + rewrite take_insert_ge by lia. by rewrite <-app_assoc.
    + apply list_lookup_insert_eq. lia.
Qed.

(** The digits read as bytes, an odd first digit alone. *)
Definition hex_value_bytes (hex : bytes) : list Z :=
  if length hex mod 2 =? 1
  then match hex with c :: r => to_u8 (HexToInt c) :: hex_bytes r | [] => [] end
  else hex_bytes hex.

Lemma HexToBinary_total hex n :
  HexToBinary hex n =
    Some (if n * 2 <? length hex then (false, replicate n 0%Z)
          else (true, replicate (n - (length hex + 1) / 2) 0%Z ++ hex_value_bytes hex)).
Proof.
  unfold HexToBinary, hex_value_bytes. destruct (n * 2 <? length hex) eqn:E; bprop; [done|].
  pose proof (Nat.div_mod_eq (length hex) 2) as Hm.
  pose proof (Nat.div_mod_eq (length hex + 1) 2) as Hm1.
  pose proof (Nat.mod_upper_bound (length hex) 2 ltac:(lia)).
  pose proof (Nat.mod_upper_bound (length hex + 1) 2 ltac:(lia)).
  destruct (length hex mod 2 =? 1) eqn:Eo; bprop.
  - destruct hex as [|c r]; [done|]. cbn [length lookup list_lookup mbind option_bind] in *.
    unfold buf_write. rewrite length_replicate.
    rewrite (proj2 (Nat.ltb_lt _ _)) by lia. cbn [mbind option_bind].
    pose proof (HexToBinary_loop_spec ((length r) / 2) (S (S (length r))) (c :: r)
      (<[n - (S (length r) + 1) / 2 := to_u8 (HexToInt c)]> (replicate n 0%Z)) 1
      (S (n - (S (length r) + 1) / 2))) as Hl.
    pose proof (Nat.div_mod_eq (length r) 2).
    pose proof (Nat.mod_upper_bound (length r) 2 ltac:(lia)).
    rewrite length_insert, length_replicate in Hl. cbn [length] in Hl.
    rewrite Hl by lia. cbn [mbind option_bind drop]. do 2 f_equal.
    rewrite (take_S_r _ _ (to_u8 (HexToInt c))).
    2:{ apply list_lookup_insert_eq. rewrite length_replicate. lia. }
    rewrite take_insert_ge, take_replicate by lia. rewrite Nat.min_l by lia.
    by rewrite <-app_assoc.
  - cbn [mbind option_bind].
    pose proof (HexToBinary_loop_spec ((length hex) / 2) (S (length hex)) hex (replicate n 0%Z) 0
      (n - (length hex + 1) / 2)) as Hl.
    rewrite length_replicate in Hl. rewrite Hl by lia. cbn [mbind option_bind].
    rewrite take_replicate, drop_0, Nat.min_l by lia. done.
Qed.

Lemma length_hex_bytes h : length (hex_bytes h) = length h / 2.
Proof.
  induction h as [h IH] using (induction_ltof1 _ length). destruct h as [|a [|b r]]; [done..|].
  cbn [hex_bytes length]. rewrite IH by (unfold ltof; simpl; lia).
  replace (S (S (length r))) with (length r + 1 * 2) by lia. rewrite Nat.div_add by done. lia.
Qed.

Lemma hex_bytes_range h : Forall (λ z, (0 ≤ z < 256)%Z) (hex_bytes h).
Proof.
  induction h as [h IH] using (induction_ltof1 _ length). destruct h as [|a [|b r]]; [constructor..|].
  cbn [hex_bytes]. constructor; [apply Z.mod_pos_bound; lia|]. apply IH. unfold ltof. simpl. lia.
Qed.

Lemma HexToBinary_exact hex n :
  length hex = n * 2 → HexToBinary hex n = Some (true, hex_bytes hex).
Proof.
  intros H. rewrite HexToBinary_total. unfold hex_value_bytes. rewrite H.
  rewrite (proj2 (Nat.ltb_ge _ _)) by lia. rewrite Nat.Div0.mod_mul. cbn [Nat.eqb].
  replace (n * 2 + 1) with (1 + n * 2) by lia. rewrite Nat.div_add by done.
  by replace (n - (1 / 2 + n)) with 0 by (change (1 / 2) with 0; lia).
Qed.

(** ** Numeric meaning *)

Definition be_value (bs : list Z) : Z := fold_left (λ a b, a * 256 + b)%Z bs 0%Z.
Definition hex_number (h : bytes) : Z := fold_left (λ a c, a * 16 + HexToInt c)%Z h 0%Z.

Lemma nibbles hi lo : (0 ≤ hi < 16)%Z → (0 ≤ lo < 16)%Z → to_u8 (Z.lor (Z.shiftl hi 4) lo) = (hi * 16 + lo)%Z.
Proof.
  intros Hhi Hlo. apply Z.eqb_eq.
  pose proof (forall_seqZ (λ hi, forallb (λ lo, to_u8 (Z.lor (Z.shiftl hi 4) lo) =? hi * 16 + lo)%Z
    (seqZ 0 16)) 0 16 ltac:(vm_compute; reflexivity) hi ltac:(lia)) as H.
  exact (forall_seqZ _ 0 16 H lo ltac:(lia)).
Qed.

Lemma hex_bytes_value h a :
  length h mod 2 = 0 → IsValidHex h = true →
  fold_left (λ a b, a * 256 + b)%Z (hex_bytes h) a = fold_left (λ a c, a * 16 + HexToInt c)%Z h a.
Proof.
  revert a. induction h as [h IH] using (induction_ltof1 _ length). intros acc Hev Hval.
  destruct h as [|a [|b r]]; [done..|]. cbn [hex_bytes fold_left].
  unfold IsValidHex in Hval. cbn [forallb] in Hval. apply andb_true_iff in Hval as [Ha Hval].
  apply andb_true_iff in Hval as [Hb Hval].
  apply HexToInt_range in Ha, Hb. rewrite nibbles by done.
  rewrite IH; [f_equal; lia|unfold ltof; simpl; lia| |done].
  cbn [length] in Hev. replace (S (S (length r))) with (length r + 1 * 2) in Hev by lia.
  by rewrite Nat.Div0.mod_add in Hev.
Qed.

Lemma fold_zeros n : be_value (replicate n 0%Z) = 0%Z.
Proof. unfold be_value. induction n as [|n IH]; [done|]. exact IH. Qed.

(** The decoder never writes outside the buffer; it refuses only what does not fit, and
    otherwise fills the whole buffer with the big-endian value of the digits, padded with
    zeroes on the left. *)
Theorem HexToBinary_value hex n :
  IsValidHex hex = true →
  ∃ ok buffer, HexToBinary hex n = Some (ok, buffer) ∧ length buffer = n ∧
    (ok = true ↔ length hex ≤ 2 * n) ∧
    Forall (λ z, (0 ≤ z < 256)%Z) buffer ∧
    be_value buffer = if ok then hex_number hex else 0%Z.
Proof.
  intros Hv. rewrite HexToBinary_total. destruct (n * 2 <? length hex) eqn:E; bprop.
  - eexists _, _. split; [done|]. rewrite length_replicate. split; [done|].
    split; [split; [done|lia]|]. split; [by apply Forall_replicate|apply fold_zeros].
  - eexists _, _. split; [done|].
    pose proof (Nat.div_mod_eq (length hex) 2). pose proof (Nat.div_mod_eq (length hex + 1) 2).
    pose proof (Nat.mod_upper_bound (length hex) 2 ltac:(lia)).
    pose proof (Nat.mod_upper_bound (length hex + 1) 2 ltac:(lia)).
    split_and!; [| |apply list.Forall_app; split; [by apply Forall_replicate|]|].
    + rewrite length_app, length_replicate. unfold hex_value_bytes.
      destruct (_ =? 1) eqn:Eo; bprop.
      * destruct hex as [|c r]; [done|]. cbn [length] in *. rewrite length_hex_bytes.
        pose proof (Nat.div_mod_eq (length r) 2).
        pose proof (Nat.mod_upper_bound (length r) 2 ltac:(lia)). lia.
      * rewrite length_hex_bytes. lia.
    + split; [lia|done].
    + unfold hex_value_bytes. destruct (_ =? 1); [|apply hex_bytes_range].
      destruct hex; [constructor|]. constructor; [apply Z.mod_pos_bound; lia|apply hex_bytes_range].
    + unfold be_value, hex_number. rewrite fold_left_app. fold (be_value (replicate (n - (length hex + 1) / 2) 0%Z)).
      rewrite fold_zeros. unfold hex_value_bytes. destruct (_ =? 1) eqn:Eo; bprop.
      * destruct hex as [|c r]; [done|]. cbn [fold_left]. unfold IsValidHex in Hv. simpl in Hv.
        apply andb_true_iff in Hv as [Hc Hr]. apply HexToInt_range in Hc.
        unfold to_u8. rewrite Z.mod_small by lia. rewrite hex_bytes_value; [done| |done].
        cbn [length] in *. pose proof (Nat.div_mod_eq (length r) 2).
        pose proof (Nat.mod_upper_bound (length r) 2 ltac:(lia)). lia.
      * apply hex_bytes_value; [lia|done].
Qed.

Lemma HexToBinary_value_witness :
  HexToBinary (B "abc") 4 = Some (true, [0; 0; 10; 188]%Z) ∧
  ∃ ok buffer, HexToBinary (B "abc") 4 = Some (ok, buffer) ∧ length buffer = 4 ∧
    (ok = true ↔ length (B "abc") ≤ 2 * 4) ∧ Forall (λ z, (0 ≤ z < 256)%Z) buffer ∧
    be_value buffer = if ok then hex_number (B "abc") else 0%Z.
Proof.
  split; [vm_compute; reflexivity|]. apply (HexToBinary_value (B "abc") 4). vm_compute. reflexivity.
Defined.

(** ** SplitString *)

(** All the fields of a string: [split_on '-' "a-b"] is ["a"; "b"]. *)
Fixpoint split_acc (separator : ascii) (cur s : bytes) : list bytes :=
  match s with
  | [] => [cur]
  | c :: s' => if ceq c separator then cur :: split_acc separator [] s'
               else split_acc separator (cur ++ [c]) s'
  end.

Definition split_on (separator : ascii) (s : bytes) : list bytes := split_acc separator [] s.

Lemma SplitString_loop_spec sep count pre cur rest results fuel :
  length rest < fuel → length results < count →
  let s := pre ++ cur ++ rest in
  let all := results ++ split_acc sep cur rest in
  SplitString_loop fuel s sep results (length pre) (length pre + length cur) count =
    Some (count `min` length all, take count all).
Proof.
  revert pre cur results fuel. induction rest as [|c rest IH]; intros pre cur results fuel Hf Hc s all;
    destruct fuel as [|f]; [lia|..|lia|]; cbn [SplitString_loop]; subst s all.
  - rewrite app_nil_r. rewrite (proj2 (Nat.ltb_ge _ _)) by (rewrite length_app; lia).
    rewrite (proj2 (Nat.ltb_lt _ _)) by done.
    rewrite sv_substr_npos by (rewrite length_app; lia). rewrite drop_app_length.
    cbn [mbind option_bind split_acc]. rewrite length_app. simpl.
    rewrite take_ge by (rewrite length_app; simpl; lia). do 2 f_equal. lia.
  - rewrite (proj2 (Nat.ltb_lt _ _)) by (rewrite !length_app; simpl; lia).
    rewrite (assoc_L (++)). replace (length pre + length cur) with (length (pre ++ cur))
      by (by rewrite length_app).
    rewrite list_lookup_middle by done. cbn [mbind option_bind split_acc].
    destruct (ceq c sep); cbn [negb].
    + rewrite sv_substr_slice by (rewrite length_app, length_app; lia).
      rewrite <-(assoc_L (++)), length_app, slice_app. cbn [mbind option_bind].
      rewrite length_app. cbn [length]. destruct (_ =? count) eqn:E; bprop.
      * rewrite length_app. cbn [length].
        assert (Hsp : 1 ≤ length (split_acc sep [] rest)).
        { clear. generalize ([] : bytes). induction rest as [|d rest IH]; intros cur; simpl; [lia|].
          case_match; simpl; [lia|apply IH]. }
        replace (results ++ cur :: split_acc sep [] rest)
          with ((results ++ [cur]) ++ split_acc sep [] rest) by (by rewrite <-app_assoc).
        rewrite take_app_le by (rewrite length_app; simpl; lia).
        rewrite take_ge by (rewrite length_app; simpl; lia). do 2 f_equal. lia.
      * specialize (IH (pre ++ cur ++ [c]) [] (results ++ [cur]) f).
        rewrite <-!(assoc_L (++)) in IH. cbn [app length] in IH. rewrite !length_app in IH.
        cbn [length] in IH. rewrite Nat.add_0_r in IH.
        replace (S (length pre + length cur)) with (length pre + (length cur + 1)) by lia.
        rewrite IH by (simpl in *; lia). by rewrite length_app.
    + specialize (IH pre (cur ++ [c]) results f). rewrite !length_app in IH. cbn [length] in IH.
      rewrite <-!(assoc_L (++)) in IH. cbn [app] in IH.
      rewrite <-(assoc_L (++)), length_app.
      replace (S (length pre + length cur)) with (length pre + (length cur + 1)) by lia.
      rewrite IH by (simpl in *; lia). done.
Qed.

(** The splitter returns the first [count] fields; it never reads or writes out of range. *)
Lemma SplitString_total s sep count :
  SplitString s sep count =
    Some (count `min` length (split_on sep s), take count (split_on sep s)).
Proof.
  unfold SplitString. destruct (count =? 0) eqn:E; bprop; [by subst|].
  apply (SplitString_loop_spec sep count [] [] s []); simpl; lia.
Qed.

(** Fields without separators, joined, split back. *)
Lemma split_acc_field sep cur f :
  Forall (λ c, ceq c sep = false) f → split_acc sep cur f = [cur ++ f].
Proof.
  intros H. revert cur. induction H as [|c f Hc _ IH]; intros cur; simpl; [by rewrite app_nil_r|].
  rewrite Hc, IH. by rewrite <-(assoc_L (++)).
Qed.

Lemma split_acc_field_cons sep cur f r :
  Forall (λ c, ceq c sep = false) f →
  split_acc sep cur (f ++ sep :: r) = (cur ++ f) :: split_on sep r.
Proof.
  intros H. revert cur. induction H as [|c f Hc _ IH]; intros cur; simpl.
  - by rewrite ceq_refl, app_nil_r.
  - rewrite Hc, IH. by rewrite <-(assoc_L (++)).
Qed.

Lemma split_on_last sep f : Forall (λ c, ceq c sep = false) f → split_on sep f = [f].
Proof. apply split_acc_field. Qed.

Lemma split_on_cons sep f r :
  Forall (λ c, ceq c sep = false) f → split_on sep (f ++ sep :: r) = f :: split_on sep r.
Proof. apply split_acc_field_cons. Qed.

(** The fields of a string: the first one ends at the first separator. *)
Lemma split_acc_inv sep cur s f fs :
  split_acc sep cur s = f :: fs →
  ∃ f', f = cur ++ f' ∧ Forall (λ c, ceq c sep = false) f' ∧
    ((fs = [] ∧ s = f') ∨ ∃ r, s = f' ++ sep :: r ∧ split_on sep r = fs).
Proof.
  revert cur. induction s as [|c s IH]; intros cur; simpl.
  - intros [= <- <-]. exists []. rewrite app_nil_r. eauto.
  - destruct (ceq c sep) eqn:E.
    + intros [= <- <-]. apply ceq_true in E as ->. exists []. rewrite app_nil_r. split_and!; [done..|].
      right. by exists s.
    + intros (f' & -> & Hf' & Hs)%IH. exists (c :: f'). rewrite <-(assoc_L (++)). split; [done|].
      split; [by constructor|]. destruct Hs as [[-> ->]|(r & -> & Hr)]; [by left|right; eauto].
Qed.

Lemma split_on_inv sep s f fs :
  split_on sep s = f :: fs →
  Forall (λ c, ceq c sep = false) f ∧
  ((fs = [] ∧ s = f) ∨ ∃ r, s = f ++ sep :: r ∧ split_on sep r = fs).
Proof. intros (f' & -> & H)%split_acc_inv. exact H. Qed.

(** Hexadecimal digits are neither separators nor blanks. *)
Lemma hex_digit_plain c :
  (negb (HexToInt c =? -1)%Z) = true → ceq c "-" = false ∧ ceq c ":" = false ∧ isspace c = false.
Proof.
  intros H. enough (E : (HexToInt c =? -1)%Z || (negb (ceq c "-") && (negb (ceq c ":") && negb (isspace c))) = true).
  { apply negb_true_iff in H. rewrite H in E. simpl in E. by rewrite !andb_true_iff, !negb_true_iff in E. }
  clear H. ascii_cases c.
Qed.

Lemma IsValidHex_Forall s : IsValidHex s = true ↔ Forall (λ c, negb (HexToInt c =? -1)%Z = true) s.
Proof. apply forallb_Forall. Qed.

Lemma IsValidHex_app s t : IsValidHex (s ++ t) = IsValidHex s && IsValidHex t.
Proof. apply forallb_app. Qed.

Lemma IsValidHex_no_dash s : IsValidHex s = true → Forall (λ c, ceq c "-" = false) s.
Proof.
  rewrite IsValidHex_Forall. intros H. eapply list.Forall_impl; [exact H|].
  intros c (? & ? & ?)%hex_digit_plain. done.
Qed.

Lemma IsValidHex_no_colon s : IsValidHex s = true → Forall (λ c, ceq c ":" = false) s.
Proof.
  rewrite IsValidHex_Forall. intros H. eapply list.Forall_impl; [exact H|].
  intros c (? & ? & ?)%hex_digit_plain. done.
Qed.

(** A byte string is worth zero exactly when all its bytes are zero. *)
Lemma be_value_from_zero bs a :
  (0 ≤ a)%Z → Forall (λ z, (0 ≤ z < 256)%Z) bs →
  (0 ≤ fold_left (λ a b, a * 256 + b) bs a)%Z ∧
  (fold_left (λ a b, a * 256 + b) bs a = 0 ↔ a = 0 ∧ Forall (λ z, z = 0) bs)%Z.
Proof.
  intros Ha H. revert a Ha. induction H as [|b bs Hb _ IH]; intros a Ha; simpl.
  - split; [done|]. naive_solver.
  - destruct (IH (a * 256 + b)%Z ltac:(lia)) as [H0 Hz]. split; [done|].
    rewrite Hz, list.Forall_cons. split; [intros [? ?]; split_and!; [lia|lia|done]|intros (-> & -> & ?); done].
Qed.

Lemma be_value_zero bs :
  Forall (λ z, (0 ≤ z < 256)%Z) bs → be_value bs = 0%Z ↔ Forall (λ z, z = 0%Z) bs.
Proof. intros H. unfold be_value. rewrite (proj2 (be_value_from_zero bs 0 ltac:(lia) H)). naive_solver. Qed.

Lemma hex_bytes_number h :
  length h mod 2 = 0 → IsValidHex h = true → be_value (hex_bytes h) = hex_number h.
Proof. intros. by apply hex_bytes_value. Qed.

(** One byte read from two digits. *)
Lemma hex_bytes_two h :
  length h = 2 → IsValidHex h = true → hex_bytes h = [hex_number h] ∧ (0 ≤ hex_number h < 256)%Z.
Proof.
  intros Hl Hv. pose proof (hex_bytes_number h ltac:(by rewrite Hl) Hv) as Hn.
  pose proof (hex_bytes_range h) as Hr.
  destruct h as [|a [|b [|? ?]]]; try done. cbn [hex_bytes] in *. inversion Hr; subst.
  unfold be_value in Hn. cbn [fold_left] in Hn. split; [f_equal; lia|lia].
Qed.
