(* ===== verification/Ids.v ===== *)
(** * Trace and span identifiers, trace flags, span contexts

    trace/trace_id.h, trace/span_id.h, trace/trace_flags.h and trace/span_context.h.  The
    [uint8_t rep_[kSize]] arrays are lists of integers; the well-formedness predicates say
    that they have the declared length and hold bytes. *)
From S2P Require Export Hex TraceState.

Definition u8 (z : Z) : Prop := (0 ≤ z < 256)%Z.

(** [memcmp(a, b, n) == 0] on the first [n] bytes of both. *)
Fixpoint memcmp_eq (a b : list Z) (n : nat) : bool :=
  match n, a, b with
  | O, _, _ => true
  | S n', x :: a', y :: b' => (x =? y)%Z && memcmp_eq a' b' n'
  | S _, _, _ => false
  end.

(** [buffer[2i] = kHex[(rep_[i] >> 4) & 0xF]; buffer[2i+1] = kHex[(rep_[i] >> 0) & 0xF]] *)
Definition kHex_lower : bytes := B "0123456789abcdef".
Definition kHex_upper : bytes := B "0123456789ABCDEF".

Definition nibble_chr (kHex : bytes) (b : Z) (shift : Z) : ascii :=
  nth (Z.to_nat (Z.land (Z.shiftr b shift) 15)) kHex NUL.

Fixpoint base16 (kHex : bytes) (rep : list Z) : bytes :=
  match rep with
  | [] => []
  | b :: r => nibble_chr kHex b 4 :: nibble_chr kHex b 0 :: base16 kHex r
  end.

(** ** TraceId *)

Definition TraceId_kSize : nat := 16.

Record TraceId := MkTraceId { trace_rep_ : list Z }.

Definition TraceId_default : TraceId := MkTraceId (replicate TraceId_kSize 0%Z).

(** The constructor copies [kSize] bytes of the span it is given. *)
Definition TraceId_new (id : list Z) : TraceId := MkTraceId (take TraceId_kSize id).

Definition TraceId_ToLowerBase16 (t : TraceId) : bytes := base16 kHex_lower (trace_rep_ t).

Definition TraceId_eq (t that : TraceId) : bool :=
  memcmp_eq (trace_rep_ t) (trace_rep_ that) TraceId_kSize.

Definition TraceId_IsValid (t : TraceId) : bool := negb (TraceId_eq t TraceId_default).

Definition TraceId_CopyBytesTo (t : TraceId) : list Z := take TraceId_kSize (trace_rep_ t).

Definition TraceId_wf (t : TraceId) : Prop :=
  length (trace_rep_ t) = TraceId_kSize ∧ Forall u8 (trace_rep_ t).

(** ** SpanId *)

Definition SpanId_kSize : nat := 8.

Record SpanId := MkSpanId { span_rep_ : list Z }.

Definition SpanId_default : SpanId := MkSpanId (replicate SpanId_kSize 0%Z).
Definition SpanId_new (id : list Z) : SpanId := MkSpanId (take SpanId_kSize id).
Definition SpanId_ToLowerBase16 (t : SpanId) : bytes := base16 kHex_lower (span_rep_ t).

Definition SpanId_eq (t that : SpanId) : bool :=
  memcmp_eq (span_rep_ t) (span_rep_ that) SpanId_kSize.

Definition SpanId_IsValid (t : SpanId) : bool :=
  negb (memcmp_eq (span_rep_ t) (replicate SpanId_kSize 0%Z) SpanId_kSize).

Definition SpanId_CopyBytesTo (t : SpanId) : list Z := take SpanId_kSize (span_rep_ t).

Definition SpanId_wf (t : SpanId) : Prop :=
  length (span_rep_ t) = SpanId_kSize ∧ Forall u8 (span_rep_ t).

(** ** TraceFlags *)

Definition kIsSampled : Z := 1.
Definition kIsRandom : Z := 2.

Record TraceFlags := MkTraceFlags { flags_rep_ : Z }.

Definition TraceFlags_new (flags : Z) : TraceFlags := MkTraceFlags (to_u8 flags).
Definition TraceFlags_IsSampled (f : TraceFlags) : bool := negb (Z.land (flags_rep_ f) kIsSampled =? 0)%Z.
Definition TraceFlags_IsRandom (f : TraceFlags) : bool := negb (Z.land (flags_rep_ f) kIsRandom =? 0)%Z.

(** The buffer is filled from the upper-case digits. *)
Definition TraceFlags_ToLowerBase16 (f : TraceFlags) : bytes := base16 kHex_upper [flags_rep_ f].

Definition TraceFlags_eq (f that : TraceFlags) : bool := (flags_rep_ f =? flags_rep_ that)%Z.

Definition TraceFlags_wf (f : TraceFlags) : Prop := u8 (flags_rep_ f).

(** ** SpanContext *)

Record SpanContext := MkSpanContext {
  trace_id_ : TraceId;
  span_id_ : SpanId;
  trace_flags_ : TraceFlags;
  is_remote_ : bool;
  trace_state_ : TraceState;
}.

(** [SpanContext(sampled_flag, is_remote)] *)
Definition SpanContext_invalid (sampled_flag is_remote : bool) : SpanContext :=
  MkSpanContext TraceId_default SpanId_default
    (TraceFlags_new (if sampled_flag then 1 else 0)) is_remote GetDefault.

Definition SpanContext_new (trace_id : TraceId) (span_id : SpanId) (trace_flags : TraceFlags)
    (is_remote : bool) (trace_state : TraceState) : SpanContext :=
  MkSpanContext trace_id span_id trace_flags is_remote trace_state.

Definition GetInvalid : SpanContext := SpanContext_invalid false false.

Definition SpanContext_IsValid (c : SpanContext) : bool :=
  TraceId_IsValid (trace_id_ c) && SpanId_IsValid (span_id_ c).

Definition SpanContext_IsRemote (c : SpanContext) : bool := is_remote_ c.
Definition SpanContext_IsSampled (c : SpanContext) : bool := TraceFlags_IsSampled (trace_flags_ c).

(** [operator==] ignores the trace state and whether the context is remote. *)
Definition SpanContext_eq (c that : SpanContext) : bool :=
  TraceId_eq (trace_id_ c) (trace_id_ that) && SpanId_eq (span_id_ c) (span_id_ that)
  && TraceFlags_eq (trace_flags_ c) (trace_flags_ that).

Definition SpanContext_wf (c : SpanContext) : Prop :=
  TraceId_wf (trace_id_ c) ∧ SpanId_wf (span_id_ c) ∧ TraceFlags_wf (trace_flags_ c)
  ∧ ts_wf (trace_state_ c).

(** ** Span metadata *)

Inductive StatusCode := kUnset | kOk | kError.
Inductive SpanKind := kInternal | kServer | kClient | kProducer | kConsumer.

(** ** Base 16 *)

Lemma nibble_round kHex b :
  (kHex = kHex_lower ∨ kHex = kHex_upper) → u8 b →
  to_u8 (Z.lor (Z.shiftl (HexToInt (nibble_chr kHex b 4)) 4) (HexToInt (nibble_chr kHex b 0))) = b
  ∧ IsValidHex [nibble_chr kHex b 4; nibble_chr kHex b 0] = true
  ∧ ceq (nibble_chr kHex b 4) "-" = false ∧ ceq (nibble_chr kHex b 0) "-" = false
  ∧ ceq (nibble_chr kHex b 4) ":" = false ∧ ceq (nibble_chr kHex b 0) ":" = false.
Proof.
  intros Hk Hb.
  set (P := λ kHex b,
    ((to_u8 (Z.lor (Z.shiftl (HexToInt (nibble_chr kHex b 4)) 4) (HexToInt (nibble_chr kHex b 0))) =? b)%Z
    && IsValidHex [nibble_chr kHex b 4; nibble_chr kHex b 0]
    && negb (ceq (nibble_chr kHex b 4) "-") && negb (ceq (nibble_chr kHex b 0) "-")
    && negb (ceq (nibble_chr kHex b 4) ":") && negb (ceq (nibble_chr kHex b 0) ":"))%bool).
  assert (H : P kHex b = true).
  { destruct Hk as [->| ->]; apply (forall_seqZ (P _) 0 256); try (unfold u8 in Hb; lia);
      vm_compute; reflexivity. }
  unfold P in H. rewrite !andb_true_iff, !negb_true_iff, Z.eqb_eq in H. tauto.
Qed.

Section base16.
Context (kHex : bytes) (Hk : kHex = kHex_lower ∨ kHex = kHex_upper).

Lemma length_base16 rep : length (base16 kHex rep) = length rep * 2.
Proof using. clear Hk. induction rep as [|b r IH]; simpl; lia. Qed.

Lemma hex_bytes_base16 rep : Forall u8 rep → hex_bytes (base16 kHex rep) = rep.
Proof using Hk.
  induction 1 as [|b r Hb _ IH]; [done|]. cbn [base16 hex_bytes]. rewrite IH.
  by destruct (nibble_round kHex b Hk Hb) as [-> _].
Qed.

Lemma IsValidHex_base16 rep : Forall u8 rep → IsValidHex (base16 kHex rep) = true.
Proof using Hk.
  induction 1 as [|b r Hb _ IH]; [done|]. destruct (nibble_round kHex b Hk Hb) as (_ & Hv & _).
  unfold IsValidHex in *. cbn [base16 forallb] in *. rewrite !andb_true_iff in *. tauto.
Qed.

Lemma base16_no_sep sep rep :
  sep = "-"%char ∨ sep = ":"%char → Forall u8 rep → Forall (λ c, ceq c sep = false) (base16 kHex rep).
Proof using Hk.
  intros Hsep. induction 1 as [|b r Hb _ IH]; [constructor|].
  destruct (nibble_round kHex b Hk Hb) as (_ & _ & ? & ? & ? & ?).
  cbn [base16]. destruct Hsep as [->| ->]; by repeat constructor.
Qed.
End base16.

(** Decoding what an identifier prints gives the identifier back. *)
Lemma HexToBinary_base16 kHex rep :
  kHex = kHex_lower ∨ kHex = kHex_upper → Forall u8 rep →
  HexToBinary (base16 kHex rep) (length rep) = Some (true, rep).
Proof.
  intros Hk Hr. rewrite HexToBinary_exact by apply length_base16.
  by rewrite hex_bytes_base16.
Qed.

(** ** Validity and equality *)

Lemma memcmp_eq_spec a b n :
  length a = n → length b = n → memcmp_eq a b n = true ↔ a = b.
Proof.
  revert a b. induction n as [|n IH]; intros [|x a] [|y b]; simpl; try done; try lia.
  intros [= Ha] [= Hb]. rewrite andb_true_iff, Z.eqb_eq, IH by done. naive_solver.
Qed.

Lemma TraceId_eq_spec t u : TraceId_wf t → TraceId_wf u → TraceId_eq t u = true ↔ t = u.
Proof.
  intros [Ht _] [Hu _]. unfold TraceId_eq. rewrite memcmp_eq_spec by done.
  destruct t, u. simpl. naive_solver.
Qed.

Lemma SpanId_eq_spec t u : SpanId_wf t → SpanId_wf u → SpanId_eq t u = true ↔ t = u.
Proof.
  intros [Ht _] [Hu _]. unfold SpanId_eq. rewrite memcmp_eq_spec by done.
  destruct t, u. simpl. naive_solver.
Qed.

Lemma eq_replicate_zero bs n : length bs = n → bs = replicate n 0%Z ↔ Forall (λ z, z = 0%Z) bs.
Proof.
  intros <-. split; [intros ->; by apply Forall_replicate|].
  induction 1 as [|b l -> _ IH]; [done|]. simpl. by f_equal.
Qed.

(** An identifier is valid when its bytes, read as a number, are not zero. *)
Lemma TraceId_IsValid_spec t :
  TraceId_wf t → TraceId_IsValid t = true ↔ be_value (trace_rep_ t) ≠ 0%Z.
Proof.
  intros [Hl Hb]. unfold TraceId_IsValid, TraceId_eq. rewrite negb_true_iff, <-not_true_iff_false.
  rewrite memcmp_eq_spec by done. rewrite be_value_zero by done. apply not_iff_compat.
  by apply eq_replicate_zero.
Qed.

Lemma SpanId_IsValid_spec t :
  SpanId_wf t → SpanId_IsValid t = true ↔ be_value (span_rep_ t) ≠ 0%Z.
Proof.
  intros [Hl Hb]. unfold SpanId_IsValid. rewrite negb_true_iff, <-not_true_iff_false.
  rewrite memcmp_eq_spec by done. rewrite be_value_zero by done. apply not_iff_compat.
  by apply eq_replicate_zero.
Qed.

(** Identifiers decoded from as many digits as they hold. *)
Lemma TraceId_of_hex h :
  length h = 32 → IsValidHex h = true →
  TraceId_wf (MkTraceId (hex_bytes h)) ∧
  TraceId_IsValid (MkTraceId (hex_bytes h)) = negb (hex_number h =? 0)%Z.
Proof.
  intros Hl Hv. assert (Hwf : TraceId_wf (MkTraceId (hex_bytes h))).
  { split; [cbn; by rewrite length_hex_bytes, Hl|apply hex_bytes_range]. }
  split; [done|]. apply eq_bool_prop_intro. rewrite !Is_true_true, TraceId_IsValid_spec by done.
  cbn [trace_rep_]. rewrite hex_bytes_number by (by rewrite ?Hl). by rewrite negb_true_iff, Z.eqb_neq.
Qed.

Lemma SpanId_of_hex h :
  length h = 16 → IsValidHex h = true →
  SpanId_wf (MkSpanId (hex_bytes h)) ∧
  SpanId_IsValid (MkSpanId (hex_bytes h)) = negb (hex_number h =? 0)%Z.
Proof.
  intros Hl Hv. assert (Hwf : SpanId_wf (MkSpanId (hex_bytes h))).
  { split; [cbn; by rewrite length_hex_bytes, Hl|apply hex_bytes_range]. }
  split; [done|]. apply eq_bool_prop_intro. rewrite !Is_true_true, SpanId_IsValid_spec by done.
  cbn [span_rep_]. rewrite hex_bytes_number by (by rewrite ?Hl). by rewrite negb_true_iff, Z.eqb_neq.
Qed.

#[export] Hint Unfold u8 : otel.

