(* ===== verification/Baggage.v ===== *)
(** * baggage::Baggage

    The W3C baggage list of baggage/baggage.h: parsing with per-member recovery, printing with
    URI encoding, copy-on-write updates.  Metadata (from the first ';' of a value) travels
    undecoded at the end of the value. *)
From S2P Require Export KvProperties.

(** ** Limits *)

Definition bg_kMaxKeyValuePairs : nat := 180.
Definition bg_kMaxKeyValueSize : nat := 4096.
Definition bg_kMaxSize : nat := 8192.
Definition bg_kKeyValueSeparator : ascii := "=".
Definition bg_kMembersSeparator : ascii := ",".
Definition bg_kMetadataSeparator : ascii := ";".

(** ** Checks and URI encoding *)

Definition IsPrintableString (str : bytes) : bool :=
  forallb (λ ch, negb ((schar ch <? schar " ")%Z || (schar "~" <? schar ch)%Z)) str.

Definition bg_IsValidKey (key : bytes) : bool := negb (sv_empty key) && IsPrintableString key.
Definition bg_IsValidValue (value : bytes) : bool := IsPrintableString value.

(** [hex[c & 15]] *)
Definition to_hex (c : Z) : ascii := nth (Z.to_nat (Z.land c 15)) (B "0123456789ABCDEF") NUL.

Definition unreserved (c : ascii) : bool :=
  isalnum c || ceq c "-" || ceq c "_" || ceq c "." || ceq c "~".

(** [c >> 4] shifts the signed character. *)
Fixpoint UrlEncode (str : bytes) : bytes :=
  match str with
  | [] => []
  | c :: r =>
      if unreserved c then c :: UrlEncode r
      else if ceq c " " then "+"%char :: UrlEncode r
      else "%"%char :: to_hex (Z.shiftr (schar c) 4) :: to_hex (Z.land (schar c) 15) :: UrlEncode r
  end.

Definition IsHex (c : ascii) : bool := isdigit c || in_range "A" "F" c || in_range "a" "f" c.

Definition from_hex (c : ascii) : Z :=
  (if isdigit c then code c - code "0" else code (toupper c) - code "A" + 10)%Z.

(** [UrlDecode(str, err)]: [None] when it sets [err]. *)
Fixpoint UrlDecode (str : bytes) : option bytes :=
  match str with
  | [] => Some []
  | c :: r =>
      if ceq c "%" then
        match r with
        | h :: l :: r' =>
            if negb (IsHex h) || negb (IsHex l) then None
            else (chr (Z.lor (Z.shiftl (from_hex h) 4) (from_hex l)) ::.) <$> UrlDecode r'
        | _ => None
        end
      else if ceq c "+" then (" "%char ::.) <$> UrlDecode r
      else if unreserved c then (c ::.) <$> UrlDecode r
      else None
  end.

(** ** The class *)

Record Baggage := MkBaggage { bg_properties : KeyValueProperties }.

Definition bg_sized (size : nat) : Baggage := MkBaggage (kvp_sized size).
Definition bg_GetDefault : Baggage := MkBaggage kvp_empty.
Definition bg_from (keys_and_values : list (bytes * bytes)) : Baggage := MkBaggage (kvp_from keys_and_values).

Abbreviation bg_pairs b := (kvp_pairs (bg_properties b)).

Definition bg_GetValue (b : Baggage) (key : bytes) : option bytes := kvp_GetValue (bg_properties b) key.

Definition bg_Set (b : Baggage) (key value : bytes) : Baggage :=
  let valid_kv := bg_IsValidKey key && bg_IsValidValue value in
  let p := kvp_sized (Size (bg_properties b) + 1) in
  let p := if valid_kv then AddEntry p key value else p in
  MkBaggage (fst (GetAllEntries (bg_properties b)
    (λ p e_key e_value,
       ((if negb valid_kv || negb (sv_eq key e_key) then AddEntry p e_key e_value else p), true)) p)).

Definition bg_Delete (b : Baggage) (key : bytes) : Baggage :=
  MkBaggage (fst (GetAllEntries (bg_properties b)
    (λ p e_key e_value, ((if negb (sv_eq key e_key) then AddEntry p e_key e_value else p), true))
    (kvp_sized (Size (bg_properties b))))).

(** The body of [FromHeader]'s loop for one valid member. *)
Definition bg_member (key value : bytes) : option (option (bytes * bytes)) :=
  if bg_kMaxKeyValueSize <? length key + length value then Some None
  else
    '(value, metadata) ←
      match sv_find value bg_kMetadataSeparator 0 with
      | None => Some (value, [])
      | Some metadata_separator =>
          metadata ← sv_substr value metadata_separator None;
          value ← sv_substr value 0 (Some metadata_separator);
          Some (value, metadata)
      end;
    key ← Trim key;
    value ← Trim value;
    match UrlDecode key, UrlDecode value with
    | Some key_str, Some value_str =>
        if bg_IsValidKey key_str && bg_IsValidValue value_str
        then Some (Some (key_str, value_str ++ metadata))
        else Some None
    | _, _ => Some None
    end.

Fixpoint bg_FromHeader_loop (fuel : nat) (t : KeyValueStringTokenizer) (key value : bytes)
    (cnt : nat) (b : Baggage) : option Baggage :=
  match fuel with
  | O => None
  | S f =>
      r ← tok_next t key value;
      if nx_found r && (Size (bg_properties b) <? cnt) then
        m ← (if nx_valid r then bg_member (nx_key r) (nx_value r) else Some None);
        let b' :=
          match m with
          | None => b
          | Some (k, v) => MkBaggage (AddEntry (bg_properties b) k v)
          end in
        bg_FromHeader_loop f (nx_tok r) (nx_key r) (nx_value r) cnt b'
      else Some b
  end.

Definition bg_FromHeader (header : bytes) : option Baggage :=
  if bg_kMaxSize <? length header then Some bg_GetDefault
  else
    let tok := tok_new header default_tok_opts in
    cnt ← NumTokens tok;
    let cnt := if bg_kMaxKeyValuePairs <? cnt then bg_kMaxKeyValuePairs else cnt in
    bg_FromHeader_loop (S (length header)) tok [] [] cnt (bg_sized cnt).

(** The value part of a printed member; metadata is not encoded. *)
Definition bg_value_text (value : bytes) : bytes :=
  match sv_find value bg_kMetadataSeparator 0 with
  | Some i => UrlEncode (take i value) ++ drop i value
  | None => UrlEncode value
  end.

(** The callback of [ToHeader] on its captured [header_s] and [first]. *)
Definition bg_ToHeader_step '((header_s, first) : bytes * bool) (key value : bytes) : bytes * bool :=
  let '(header_s, first) :=
    if negb first then (header_s ++ [bg_kMembersSeparator], first) else (header_s, false) in
  let header_s := header_s ++ UrlEncode key in
  let header_s := header_s ++ [bg_kKeyValueSeparator] in
  let header_s := header_s ++ bg_value_text value in
  (header_s, first).

Definition bg_ToHeader (b : Baggage) : bytes :=
  fst (fst (GetAllEntries (bg_properties b) (λ s k v, (bg_ToHeader_step s k v, true)) ([], true))).

(** ** URI encoding *)

Definition encoded_char (c : ascii) : bool := unreserved c || ceq c "+" || ceq c "%".

Lemma escape_char c :
  let h := to_hex (Z.shiftr (schar c) 4) in
  let l := to_hex (Z.land (schar c) 15) in
  encoded_char h = true ∧ encoded_char l = true ∧ IsHex h = true ∧ IsHex l = true ∧
  chr (Z.lor (Z.shiftl (from_hex h) 4) (from_hex l)) = c.
Proof.
  intros h l. rewrite <-(ceq_true _ c).
  enough (H : (encoded_char h && (encoded_char l && (IsHex h && (IsHex l &&
    ceq (chr (Z.lor (Z.shiftl (from_hex h) 4) (from_hex l))) c)))) = true)
    by (by rewrite !andb_true_iff in H).
  subst h l. ascii_cases c.
Qed.

Lemma unreserved_plain c :
  unreserved c = true → ceq c "%" = false ∧ ceq c "+" = false.
Proof.
  intros H. enough (E : negb (unreserved c) || (negb (ceq c "%") && negb (ceq c "+")) = true).
  { rewrite H in E. simpl in E. by rewrite andb_true_iff, !negb_true_iff in E. }
  ascii_cases c.
Qed.

(** Decoding an encoded string gives the string back, whatever bytes it holds. *)
Lemma UrlDecode_encode s : UrlDecode (UrlEncode s) = Some s.
Proof.
  induction s as [|c s IH]; [done|]. cbn [UrlEncode]. destruct (unreserved c) eqn:Hu.
  - cbn [UrlDecode]. destruct (unreserved_plain c Hu) as [-> ->]. by rewrite Hu, IH.
  - destruct (ceq c " ") eqn:Hs.
    + apply ceq_true in Hs as ->. cbn [UrlDecode].
      change (ceq "+" "%") with false. change (ceq "+" "+") with true. cbn iota. by rewrite IH.
    + destruct (escape_char c) as (_ & _ & Hh & Hl & Hc). cbn [UrlDecode].
      change (ceq "%" "%") with true. cbn iota. rewrite Hh, Hl, Hc, IH. done.
Qed.

Lemma UrlEncode_chars s : Forall (λ c, encoded_char c = true) (UrlEncode s).
Proof.
  induction s as [|c s IH]; [constructor|]. cbn [UrlEncode].
  destruct (unreserved c) eqn:Hu; [constructor; [unfold encoded_char; by rewrite Hu|done]|].
  destruct (ceq c " "); [by constructor|]. destruct (escape_char c) as (? & ? & _).
  by repeat constructor.
Qed.

Lemma encoded_char_ok c :
  encoded_char c = true →
  ceq "," c = false ∧ ceq "=" c = false ∧ ceq ";" c = false ∧ isspace c = false ∧ c ≠ NUL.
Proof.
  intros H. enough (E : negb (encoded_char c) || (negb (ceq "," c) && (negb (ceq "=" c) &&
    (negb (ceq ";" c) && (negb (isspace c) && negb (ceq c NUL))))) = true).
  { rewrite H in E. simpl in E. rewrite !andb_true_iff, !negb_true_iff in E. by rewrite <-ceq_false. }
  ascii_cases c.
Qed.

Lemma UrlEncode_nil s : UrlEncode s = [] ↔ s = [].
Proof. destruct s as [|c s]; simpl; [done|]. split; [|done]. by repeat case_match. Qed.

(** The encoded form is never longer than three times the string. *)
Lemma UrlEncode_length s : length s ≤ length (UrlEncode s) ≤ 3 * length s.
Proof. induction s as [|c s IH]; simpl; [lia|]. repeat case_match; simpl; lia. Qed.

(** Encoding any byte string gives at most three times as many characters, all of them
    harmless in a header, and decoding gives the bytes back. *)
Theorem UrlDecode_UrlEncode s :
  UrlDecode (UrlEncode s) = Some s ∧ length (UrlEncode s) ≤ 3 * length s ∧
  Forall (λ c, ceq "," c = false ∧ ceq "=" c = false ∧ ceq ";" c = false ∧ isspace c = false ∧ c ≠ NUL)
    (UrlEncode s).
Proof.
  split_and!; [apply UrlDecode_encode|apply UrlEncode_length|].
  eapply list.Forall_impl; [apply UrlEncode_chars|]. intros c Hc. by apply encoded_char_ok.
Qed.

(** A string made of encoded characters needs no trimming. *)
Lemma trim_encoded s : Forall (λ c, encoded_char c = true) s → trim s = s.
Proof.
  intros H. apply trim_id.
  - intros c s' ->. inversion H as [|? ? Hc]. apply encoded_char_ok in Hc. tauto.
  - intros s' c ->. apply list.Forall_app in H as [_ H]. inversion H as [|? ? Hc].
    apply encoded_char_ok in Hc. tauto.
Qed.

(** ** FromHeader *)

(** What one member of a header contributes. *)
Definition decode_member (m : option (bytes * bytes)) : option (bytes * bytes) :=
  '(key, value) ← m;
  if bg_kMaxKeyValueSize <? length key + length value then None
  else
    let i := default (length value) (index_of (ceq bg_kMetadataSeparator) value) in
    k ← UrlDecode (trim key);
    v ← UrlDecode (trim (take i value));
    if bg_IsValidKey k && bg_IsValidValue v then Some (k, v ++ drop i value) else None.

Lemma bg_member_spec k v : bg_member k v = Some (decode_member (Some (k, v))).
Proof.
  unfold bg_member, decode_member. cbn [mbind option_bind]. destruct (_ <? _); [done|].
  rewrite sv_find_index, drop_0.
  destruct (index_of _ v) as [i|] eqn:E; cbn [fmap option_fmap option_map Nat.add].
  - change (default (length v) (Some i)) with i.
    apply index_of_lt in E. rewrite sv_substr_npos, sv_substr_head by lia.
    cbn [mbind option_bind]. rewrite !Trim_spec. cbn [mbind option_bind].
    destruct (UrlDecode (trim k)); [|done]. cbn [mbind option_bind].
    destruct (UrlDecode (trim (take i v))); [|done]. cbn [mbind option_bind]. by destruct (_ && _).
  - change (default (length v) None) with (length v).
    cbn [mbind option_bind]. rewrite !Trim_spec, firstn_all, drop_ge by done.
    cbn [mbind option_bind]. destruct (UrlDecode (trim k)); [|done]. cbn [mbind option_bind].
    destruct (UrlDecode (trim v)); [|done]. cbn [mbind option_bind]. by destruct (_ && _).
Qed.

Definition cstr_pair (kv : bytes * bytes) : bytes * bytes := (cstr kv.1, cstr kv.2).

Lemma bg_FromHeader_loop_spec fuel t key value cnt b :
  tk_opts t = default_tok_opts →
  length (tk_str t) - tk_index t < fuel →
  Size (bg_properties b) ≤ cnt → max_num_entries_ (bg_properties b) = cnt →
  ∃ b', bg_FromHeader_loop fuel t key value cnt b = Some b' ∧
    bg_pairs b' = take cnt (bg_pairs b ++
      (cstr_pair <$> omap decode_member (tokens default_tok_opts (drop (tk_index t) (tk_str t))))).
Proof.
  intros Ho. revert t key value b Ho.
  induction fuel as [|f IH]; intros t key value b Ho Hf Hsz Hmax; [lia|].
  cbn [bg_FromHeader_loop]. unfold tok_next.
  destruct (tok_next_loop_tokens default_tok_opts (S (length (tk_str t))) t key value)
    as (r & -> & Hs & Hro & Hm); [done|lia|]. cbn [mbind option_bind].
  rewrite Size_pairs in *.
  destruct (tokens default_tok_opts (drop (tk_index t) (tk_str t))) as [|m ms] eqn:E.
  { rewrite Hm. simpl. exists b. split; [done|]. by rewrite app_nil_r, take_ge. }
  destruct Hm as ((Hf' & Hv) & Hlt & Hms). rewrite Hf'. cbn [andb].
  destruct (length (bg_pairs b) <? cnt) eqn:Hc; bprop.
  2:{ exists b. split; [done|]. by rewrite take_app_length' by lia. }
  destruct (decide (tk_index t < length (tk_str t))) as [Hi|Hi].
  2:{ rewrite drop_ge in E by lia. done. }
  assert (Hmem : (if nx_valid r then bg_member (nx_key r) (nx_value r) else Some None)
    = Some (decode_member m)).
  { destruct m as [[k v]|]; destruct Hv as (-> & Hk & Hval); [|done].
    by rewrite bg_member_spec, Hk, Hval. }
  rewrite Hmem. cbn [mbind option_bind].
  set (b' := match decode_member m with Some (k, v) => _ | None => b end).
  assert (Hb' : bg_pairs b' = bg_pairs b ++ (cstr_pair <$> omap decode_member [m])).
  { subst b'. destruct (decode_member m) as [[k v]|] eqn:Ed; simpl; rewrite Ed; simpl.
    - rewrite AddEntry_pairs, Size_pairs. by rewrite (proj2 (Nat.ltb_lt _ _)) by lia.
    - by rewrite app_nil_r. }
  assert (Hmax' : max_num_entries_ (bg_properties b') = cnt).
  { subst b'. destruct (decode_member m) as [[k v]|]; [|done]. cbn. by rewrite AddEntry_max. }
  assert (Hlen : length (bg_pairs b') ≤ cnt).
  { rewrite Hb', length_app, length_fmap. simpl. destruct (decode_member m); simpl; lia. }
  destruct (IH (nx_tok r) (nx_key r) (nx_value r) b') as (b'' & -> & Hp);
    rewrite ?Hs, ?Size_pairs; [done|lia|done..|].
  exists b''. split; [done|]. rewrite Hp, Hs, Hms, Hb', <-(assoc_L (++)), <-fmap_app. do 3 f_equal.
  simpl. by destruct (decode_member m).
Qed.

(** Parsing never fails.  A header over 8192 bytes yields no baggage; otherwise the members
    that decode to a valid pair are kept, in order, up to the number of segments and to 180. *)
Lemma bg_FromHeader_pairs header :
  ∃ b, bg_FromHeader header = Some b ∧
    bg_pairs b =
      if bg_kMaxSize <? length header then []
      else take bg_kMaxKeyValuePairs
             (cstr_pair <$> omap decode_member (tokens default_tok_opts header)).
Proof.
  unfold bg_FromHeader. destruct (bg_kMaxSize <? length header); [by eexists|].
  rewrite NumTokens_segments. cbn [mbind option_bind].
  set (n := length (segments default_tok_opts header)).
  set (cnt := if bg_kMaxKeyValuePairs <? n then bg_kMaxKeyValuePairs else n).
  destruct (bg_FromHeader_loop_spec (S (length header)) (tok_new header default_tok_opts) [] []
    cnt (bg_sized cnt)) as (b & Hb & Hp).
  - done.
  - cbn. lia.
  - unfold Size, num_entries_. simpl. lia.
  - done.
  - exists b. split; [done|]. rewrite Hp. cbn [tk_index tok_new tk_str bg_sized bg_properties].
    rewrite drop_0. unfold kvp_pairs at 1. simpl. subst cnt.
    destruct (bg_kMaxKeyValuePairs <? n) eqn:E; bprop; [done|].
    assert (length (cstr_pair <$> omap decode_member (tokens default_tok_opts header)) ≤ n).
    { rewrite length_fmap. etrans; [apply length_omap_le|apply tokens_le_segments]. }
    rewrite !take_ge by lia. done.
Qed.

Lemma decode_member_valid m kv : decode_member m = Some kv → bg_IsValidKey kv.1 = true.
Proof.
  unfold decode_member. destruct m as [[k v]|]; [|done]. cbn [mbind option_bind].
  case_match; [done|]. intros (k' & _ & (v' & _ & Hkv)%bind_Some)%bind_Some.
  destruct (bg_IsValidKey k') eqn:E; [|by simplify_eq/=]. destruct (bg_IsValidValue v'); [|by simplify_eq/=].
  by simplify_eq/=.
Qed.

Lemma valid_key_cstr k : bg_IsValidKey k = true → cstr k = k.
Proof.
  unfold bg_IsValidKey. intros [_ H]%andb_true_iff. apply cstr_id.
  apply forallb_Forall in H. eapply list.Forall_impl; [exact H|]. simpl.
  intros c Hc ->. by vm_compute in Hc.
Qed.

(** Parsing never fails.  A header over 8192 bytes yields no baggage; otherwise the members
    that decode to a valid pair are kept, in order, up to 180 of them, and every key kept is
    non-empty and printable. *)
Theorem bg_FromHeader_spec header :
  ∃ b, bg_FromHeader header = Some b ∧
    bg_pairs b =
      (if bg_kMaxSize <? length header then []
       else take bg_kMaxKeyValuePairs
              (cstr_pair <$> omap decode_member (tokens default_tok_opts header))) ∧
    Forall (λ kv, bg_IsValidKey kv.1 = true) (bg_pairs b) ∧
    length (bg_pairs b) ≤ bg_kMaxKeyValuePairs.
Proof.
  destruct (bg_FromHeader_pairs header) as (b & Hb & Hp). exists b. split; [done|]. split; [done|].
  rewrite Hp. case_match; [split; [constructor|simpl; lia]|].
  split; [|rewrite length_take; apply Nat.le_min_l].
  apply Forall_take, Forall_fmap, list.Forall_forall. intros kv Hkv.
  apply list_elem_of_omap in Hkv as (m & _ & Hm%decode_member_valid). destruct kv as [k v].
  unfold cstr_pair. simpl in *. by rewrite valid_key_cstr.
Qed.

(** ** Copy-on-write updates *)

Lemma bg_Set_pairs b k v :
  bg_pairs (bg_Set b k v) =
    if bg_IsValidKey k && bg_IsValidValue v
    then cstr_pair (k, v) :: filter (λ kv, kv.1 ≠ k) (bg_pairs b) else bg_pairs b.
Proof.
  unfold bg_Set. cbn [bg_properties]. destruct (_ && _); cbn [negb orb].
  - rewrite copy_others.
    + rewrite AddEntry_pairs, Size_pairs. cbn [max_num_entries_ kvp_sized kvp_pairs entries_ fmap list_fmap length].
      by rewrite (proj2 (Nat.ltb_lt _ _)) by lia.
    + rewrite AddEntry_max, (Size_pairs (AddEntry _ _ _)), AddEntry_pairs.
      cbn [max_num_entries_ kvp_sized]. rewrite (proj2 (Nat.ltb_lt _ _)) by (rewrite Size_pairs; simpl; lia).
      rewrite length_app, Size_pairs. pose proof (length_filter (λ kv : bytes * bytes, kv.1 ≠ k) (bg_pairs b)).
      simpl in *. lia.
  - rewrite copy_pairs; [done|]. rewrite !Size_pairs. simpl. lia.
Qed.

Lemma bg_Delete_pairs b k : bg_pairs (bg_Delete b k) = filter (λ kv, kv.1 ≠ k) (bg_pairs b).
Proof.
  unfold bg_Delete. cbn [bg_properties]. rewrite copy_others; [done|].
  cbn [max_num_entries_ kvp_sized]. rewrite !Size_pairs. apply length_filter.
Qed.

Lemma valid_value_cstr v : bg_IsValidValue v = true → cstr v = v.
Proof.
  intros H. apply cstr_id. apply forallb_Forall in H. eapply list.Forall_impl; [exact H|]. simpl.
  intros c Hc ->. by vm_compute in Hc.
Qed.

(** [Set] and [Delete] on a baggage behave as updates of a finite map: a valid pair becomes the
    value of its key and no other key changes; an invalid pair changes nothing; a deleted key
    has no value. *)
Theorem bg_update_spec b k v :
  (bg_IsValidKey k && bg_IsValidValue v = true →
     ∀ k', bg_GetValue (bg_Set b k v) k' = if decide (k' = k) then Some v else bg_GetValue b k') ∧
  (bg_IsValidKey k && bg_IsValidValue v = false → bg_pairs (bg_Set b k v) = bg_pairs b) ∧
  (∀ k', bg_GetValue (bg_Delete b k) k' = if decide (k' = k) then None else bg_GetValue b k').
Proof.
  unfold bg_GetValue. split_and!.
  - intros Hv k'. rewrite !kvp_GetValue_pairs, bg_Set_pairs, Hv.
    apply andb_true_iff in Hv as [Hk Hv]. unfold cstr_pair. cbn [fst snd].
    rewrite valid_key_cstr, valid_value_cstr, pairs_get_cons by done.
    destruct (decide (k' = k)) as [->|Hne].
    + by rewrite decide_True.
    + rewrite decide_False by done. by apply pairs_get_filter_ne.
  - intros Hv. by rewrite bg_Set_pairs, Hv.
  - intros k'. rewrite !kvp_GetValue_pairs, bg_Delete_pairs. case_decide as E.
    + subst. apply pairs_get_filter.
    + by apply pairs_get_filter_ne.
Qed.

(** ** The round trip *)

Definition bg_member_text (kv : bytes * bytes) : bytes :=
  UrlEncode kv.1 ++ bg_kKeyValueSeparator :: bg_value_text kv.2.

Lemma bg_ToHeader_join b : bg_ToHeader b = join default_tok_opts (bg_member_text <$> bg_pairs b).
Proof.
  apply ToHeader_join_fold. intros h first k v. unfold bg_ToHeader_step, bg_member_text. cbn [fst snd].
  destruct first; cbn [negb]; by rewrite <-!app_assoc.
Qed.

(** The part of a value before its metadata, and the metadata. *)
Definition value_split (v : bytes) : nat := default (length v) (index_of (ceq bg_kMetadataSeparator) v).

(** An entry that survives printing: a non-empty printable key, a printable value followed by
    metadata without a comma that does not end in a blank, all within the member limit. *)
Definition bg_pair_ok (kv : bytes * bytes) : Prop :=
  bg_IsValidKey kv.1 = true ∧
  bg_IsValidValue (take (value_split kv.2) kv.2) = true ∧
  Forall (λ c, ceq "," c = false) (drop (value_split kv.2) kv.2) ∧
  (∀ l c, drop (value_split kv.2) kv.2 = l ++ [c] → isspace c = false) ∧
  length (UrlEncode kv.1) + length (bg_value_text kv.2) ≤ bg_kMaxKeyValueSize.

Lemma value_split_cases v :
  ∃ v0 m, v = v0 ++ m ∧ take (value_split v) v = v0 ∧ drop (value_split v) v = m ∧
    bg_value_text v = UrlEncode v0 ++ m ∧ (m = [] ∨ ∃ m', m = ";"%char :: m').
Proof.
  exists (take (value_split v) v), (drop (value_split v) v).
  split; [by rewrite take_drop|]. split_and!; [done..| |];
    unfold bg_value_text, value_split; rewrite ?sv_find_index, ?drop_0;
    destruct (index_of (ceq bg_kMetadataSeparator) v) as [i|] eqn:E; 
    cbn [fmap option_fmap option_map Nat.add from_option id].
  - done.
  - by rewrite firstn_all, drop_ge, app_nil_r.
  - right. apply index_of_Some in E as (l1 & x & l2 & -> & <- & Hx & _).
    apply ceq_true in Hx as <-. exists l2. by rewrite drop_app_length.
  - left. by apply drop_ge.
Qed.

Lemma bg_member_text_segment kv :
  bg_pair_ok kv →
  bg_member_text kv ≠ [] ∧ Forall (λ c, not_sep default_tok_opts c = true) (bg_member_text kv) ∧
  seg_tokens default_tok_opts (bg_member_text kv) = [Some (UrlEncode kv.1, bg_value_text kv.2)].
Proof.
  destruct kv as [k v]. intros (Hk & Hv & Hm & Hl & _). cbn [fst snd] in *.
  destruct (value_split_cases v) as (v0 & m & Ev & Et & Ed & Ex & Hsemi).
  rewrite Et in Hv. rewrite Ed in Hm, Hl. unfold bg_member_text. cbn [fst snd]. rewrite Ex.
  assert (Henc : ∀ s, Forall (λ c, ceq "," c = false ∧ ceq "=" c = false ∧ isspace c = false) (UrlEncode s)).
  { intros s. eapply list.Forall_impl; [apply UrlEncode_chars|]. simpl.
    intros c Hc%encoded_char_ok. tauto. }
  split_and!.
  - by destruct (UrlEncode k).
  - rewrite list.Forall_app, list.Forall_cons, list.Forall_app.
    assert (Hn : ∀ l, Forall (λ c, ceq "," c = false) l → Forall (λ c, not_sep default_tok_opts c = true) l).
    { intros l H. eapply list.Forall_impl; [exact H|]. intros c Hc. unfold not_sep.
      change (member_separator default_tok_opts) with ","%char. by rewrite Hc. }
    split_and!; [|done| |]; apply Hn; try done;
      (eapply list.Forall_impl; [apply Henc|]; simpl; tauto).
  - apply seg_tokens_pair.
    + eapply list.Forall_impl; [apply Henc|]. simpl. tauto.
    + apply trim_id.
      * intros c s' E. destruct (UrlEncode k) as [|c' r] eqn:Ek.
        { apply (proj1 (UrlEncode_nil k)) in Ek. subst. by vm_compute in Hk. }
        injection E as <- _. pose proof (Henc k) as H. rewrite Ek in H. inversion H. tauto.
      * intros s' c E. destruct (decide (m = [])) as [->|Hne].
        { rewrite app_nil_r in E. destruct (decide (UrlEncode v0 = [])) as [E0|Hne].
          - rewrite E0 in E. apply app_inj_tail in E as [_ <-]. done.
          - destruct (exists_last Hne) as (l & d & El). rewrite El in E.
            rewrite app_comm_cons, app_assoc in E. apply app_inj_tail in E as [_ <-].
            pose proof (Henc v0) as H. rewrite El in H. apply list.Forall_app in H as [_ H].
            inversion H. tauto. }
        destruct (exists_last Hne) as (l & d & ->).
        rewrite app_comm_cons, !app_assoc in E. apply app_inj_tail in E as [_ <-].
        by eapply Hl.
Qed.

Lemma decode_member_text kv :
  bg_pair_ok kv → decode_member (Some (UrlEncode kv.1, bg_value_text kv.2)) = Some kv.
Proof.
  destruct kv as [k v]. intros (Hk & Hv & _ & _ & Hlen). cbn [fst snd] in *.
  destruct (value_split_cases v) as (v0 & m & Ev & Et & Ed & Ex & Hsemi). rewrite Et in Hv.
  unfold decode_member. cbn [mbind option_bind].
  rewrite (proj2 (Nat.ltb_ge _ _)) by done.
  assert (Hi : default (length (bg_value_text v)) (index_of (ceq bg_kMetadataSeparator) (bg_value_text v))
    = length (UrlEncode v0)).
  { rewrite Ex. rewrite index_of_app_l.
    2:{ eapply list.Forall_impl; [apply UrlEncode_chars|]. simpl. intros c Hc%encoded_char_ok. tauto. }
    destruct Hsemi as [->|(m' & ->)]; simpl; [by rewrite app_nil_r|lia]. }
  rewrite Hi, Ex, take_app_length, drop_app_length, !trim_encoded by apply UrlEncode_chars.
  rewrite !UrlDecode_encode. cbn [mbind option_bind]. by rewrite Hk, Hv, <-Ev.
Qed.

Lemma decode_members l :
  Forall bg_pair_ok l → Forall (λ p, no_nul p.1 ∧ no_nul p.2) l →
  cstr_pair <$> omap decode_member (tokens default_tok_opts (join default_tok_opts (bg_member_text <$> l))) = l.
Proof.
  intros Hok Hnn. unfold tokens. rewrite segments_join.
  2:{ apply Forall_fmap. eapply list.Forall_impl; [exact Hok|].
      intros kv (? & ? & _)%bg_member_text_segment. done. }
  induction Hok as [|kv l Hkv _ IH]; [done|]. inversion Hnn as [|? ? [H1 H2] Hl]; subst.
  rewrite fmap_cons, bind_cons.
  destruct (bg_member_text_segment kv Hkv) as (_ & _ & ->). cbn [app].
  rewrite omap_cons_eq, decode_member_text by done. rewrite fmap_cons, IH by done.
  f_equal. destruct kv. unfold cstr_pair. simpl in *. by rewrite !cstr_id.
Qed.

Definition bg_ok (b : Baggage) : Prop :=
  Forall bg_pair_ok (bg_pairs b) ∧ length (bg_pairs b) ≤ bg_kMaxKeyValuePairs ∧
  length (bg_ToHeader b) ≤ bg_kMaxSize.

Lemma bg_roundtrip_pairs b :
  bg_ok b → ∃ b', bg_FromHeader (bg_ToHeader b) = Some b' ∧ bg_pairs b' = bg_pairs b.
Proof.
  intros (Hok & Hn & Hsz). destruct (bg_FromHeader_pairs (bg_ToHeader b)) as (b' & -> & Hp).
  exists b'. split; [done|]. rewrite Hp, (proj2 (Nat.ltb_ge _ _)) by done.
  rewrite bg_ToHeader_join, decode_members by (done || apply kvp_pairs_no_nul). by apply take_ge.
Qed.

(** C14: Printing a baggage and parsing the header gives a baggage with the same entries, which prints alike and
    answers every [GetValue] alike, when every entry is within the limits and its metadata, the part of the value
    from the first semicolon on, has no comma and does not end in a blank ([bg_pair_ok]): metadata is printed
    as it is ([metadata_splits]). *)
Theorem Baggage_header_roundtrip b :
  bg_ok b →
  ∃ b', bg_FromHeader (bg_ToHeader b) = Some b' ∧ bg_pairs b' = bg_pairs b ∧
    bg_ToHeader b' = bg_ToHeader b ∧ ∀ k, bg_GetValue b' k = bg_GetValue b k.
Proof.
  intros Hok. destruct (bg_roundtrip_pairs b Hok) as (b' & -> & Hp). exists b'.
  split_and!; [done|done|by rewrite !bg_ToHeader_join, Hp|].
  intros k. unfold bg_GetValue. by rewrite !kvp_GetValue_pairs, Hp.
Qed.

Definition example_baggage : Baggage :=
  bg_from [(B "user id", B "al=ice,1"); (B "k", B "v a;p=1;q")].

Lemma last_not_space m l c :
  from_option (negb ∘ isspace) true (list.last m) = true → m = l ++ [c] → isspace c = false.
Proof. intros H ->. rewrite list.last_snoc in H. by apply negb_true_iff. Qed.

Lemma example_baggage_ok : bg_ok example_baggage.
Proof.
  unfold bg_ok. split_and!.
  - change (bg_pairs example_baggage) with
      [(B "user id", B "al=ice,1"); (B "k", B "v a;p=1;q")].
    constructor; [|constructor; [|constructor]]; split_and!;
      try (vm_compute; reflexivity); try (vm_compute; repeat constructor; fail);
      try (intros l c; apply last_not_space; vm_compute; reflexivity);
      apply Nat.leb_le; vm_compute; reflexivity.
  - vm_compute. lia.
  - apply Nat.leb_le. vm_compute. reflexivity.
Defined.

Lemma Baggage_header_roundtrip_witness :
  bg_ToHeader example_baggage = B "user+id=al%3Dice%2C1,k=v+a;p=1;q" ∧
  ∃ b', bg_FromHeader (bg_ToHeader example_baggage) = Some b' ∧
    bg_pairs b' = bg_pairs example_baggage ∧ bg_ToHeader b' = bg_ToHeader example_baggage ∧
    ∀ k, bg_GetValue b' k = bg_GetValue example_baggage k.
Proof.
  split; [vm_compute; reflexivity|].
  exact (Baggage_header_roundtrip example_baggage example_baggage_ok).
Defined.

(** Metadata that [Set] accepts and the header does not carry: a comma in it starts another member, and a blank at
    its end is trimmed. *)
Theorem metadata_splits :
  let sent value := bg_Set (bg_from []) (B "k") value in
  let received value := (λ b, bg_pairs b) <$> bg_FromHeader (bg_ToHeader (sent value)) in
  bg_pairs (sent (B "v;a,admin=1")) = [(B "k", B "v;a,admin=1")] ∧
  received (B "v;a,admin=1") = Some [(B "k", B "v;a"); (B "admin", B "1")] ∧
  bg_pairs (sent (B "v;a ")) = [(B "k", B "v;a ")] ∧ received (B "v;a ") = Some [(B "k", B "v;a")].
Proof. by vm_compute. Qed.
