(* ===== verification/Context.v ===== *)
(** * Contexts

    context/context.h, context/context_value.h, trace/context.h, trace/span_metadata.h,
    trace/default_span.h and baggage/baggage_context.h.

    A [Context] holds a shared pointer to the head of a linked list of [DataList] nodes; a
    derived context puts new nodes in front of the list it shares with its parent.  The
    model used by the other files is the list of key/value pairs seen from the head.  Module
    [Heap] models the nodes themselves, with their pointers and the one assignment
    ([last->next_ = head_]) that mutates a node, and shows that the list is all a client can
    observe: later derivations never change what an older context answers. *)
From S2P Require Export Ids Baggage.

(** ** Spans as seen through the [Span] interface

    A [DefaultSpan] only carries its span context.  Any other implementation comes from
    outside src/ and is known by the handle [StartSpan] returned and by what its
    [GetContext()] answers. *)
Inductive Span :=
  | DefaultSpan (span_context_ : SpanContext)
  | OtherSpan (handle : nat) (span_context : SpanContext).

Definition GetContext (sp : Span) : SpanContext :=
  match sp with DefaultSpan c => c | OtherSpan _ c => c end.

(** ** context_value.h: the alternatives of the variant; a double is its bit pattern. *)
Inductive ContextValue :=
  | CVmonostate
  | CVbool (b : bool)
  | CVint64 (z : Z)
  | CVuint64 (z : Z)
  | CVdouble (bits : Z)
  | CVspan (sp : Span)
  | CVspan_context (c : SpanContext)
  | CVbaggage (b : Baggage).

Definition is_monostate (v : ContextValue) : bool :=
  match v with CVmonostate => true | _ => false end.

(** ** Contexts as association lists *)

Definition Context := list (bytes * ContextValue).

Definition Context_default : Context := [].

(** [Context(keys_and_values)]; an empty iterable still allocates one default node. *)
Definition Context_from (keys_and_values : list (bytes * ContextValue)) : Context :=
  match keys_and_values with
  | [] => [([], CVmonostate)]
  | _ => keys_and_values
  end.

Definition ctx_SetValue (c : Context) (key : bytes) (value : ContextValue) : Context :=
  (key, value) :: c.

Definition ctx_SetValues (c : Context) (values : list (bytes * ContextValue)) : Context :=
  Context_from values ++ c.

Fixpoint ctx_GetValue (c : Context) (key : bytes) : ContextValue :=
  match c with
  | [] => CVmonostate
  | (k, v) :: c' => if beq key k then v else ctx_GetValue c' key
  end.

Definition ctx_HasKey (c : Context) (key : bytes) : bool := negb (is_monostate (ctx_GetValue c key)).

(** ** trace/context.h, trace/span_metadata.h, baggage_context.h *)

Definition kSpanKey : bytes := B "active_span".
Definition kIsRootSpanKey : bytes := B "is_root_span".
Definition kBaggageHeader : bytes := B "baggage".

Definition GetSpan (c : Context) : Span :=
  match ctx_GetValue c kSpanKey with CVspan sp => sp | _ => DefaultSpan GetInvalid end.

Definition IsRootSpan (c : Context) : bool :=
  match ctx_GetValue c kIsRootSpanKey with CVbool b => b | _ => false end.

Definition SetSpan (c : Context) (sp : Span) : Context := ctx_SetValue c kSpanKey (CVspan sp).

Definition GetBaggage (c : Context) : Baggage :=
  match ctx_GetValue c kBaggageHeader with CVbaggage b => b | _ => bg_GetDefault end.

Definition SetBaggage (c : Context) (b : Baggage) : Context :=
  ctx_SetValue c kBaggageHeader (CVbaggage b).

(** ** Lookup laws *)

Lemma ctx_GetValue_cons k v c key :
  ctx_GetValue ((k, v) :: c) key = if beq key k then v else ctx_GetValue c key.
Proof. done. Qed.

Lemma ctx_Get_Set c k v : ctx_GetValue (ctx_SetValue c k v) k = v.
Proof. unfold ctx_SetValue. rewrite ctx_GetValue_cons. by rewrite (proj2 (beq_true _ _)). Qed.

Lemma ctx_Get_Set_ne c k k' v : k ≠ k' → ctx_GetValue (ctx_SetValue c k v) k' = ctx_GetValue c k'.
Proof.
  intros. unfold ctx_SetValue. rewrite ctx_GetValue_cons. by rewrite (proj2 (beq_false _ _)).
Qed.

Lemma ctx_GetValue_app c1 c2 key :
  ctx_GetValue (c1 ++ c2) key =
  if bool_decide (key ∈ c1.*1) then ctx_GetValue c1 key else ctx_GetValue c2 key.
Proof.
  induction c1 as [|[k v] c1 IH]; [done|]. cbn [app]. rewrite !ctx_GetValue_cons, IH, fmap_cons.
  cbn [fst]. destruct (beq key k) eqn:E; bprop.
  - subst. rewrite bool_decide_true by (by left). done.
  - repeat case_bool_decide; set_solver.
Qed.

Lemma GetSpan_SetSpan c sp : GetSpan (SetSpan c sp) = sp.
Proof. unfold GetSpan, SetSpan. by rewrite ctx_Get_Set. Qed.

Lemma GetBaggage_SetBaggage c b : GetBaggage (SetBaggage c b) = b.
Proof. unfold GetBaggage, SetBaggage. by rewrite ctx_Get_Set. Qed.

Lemma GetBaggage_SetSpan c sp : GetBaggage (SetSpan c sp) = GetBaggage c.
Proof. unfold GetBaggage, SetSpan. by rewrite ctx_Get_Set_ne. Qed.

Lemma GetSpan_SetBaggage c b : GetSpan (SetBaggage c b) = GetSpan c.
Proof. unfold GetSpan, SetBaggage. by rewrite ctx_Get_Set_ne. Qed.

#[export] Hint Rewrite GetSpan_SetSpan GetBaggage_SetBaggage GetBaggage_SetSpan GetSpan_SetBaggage : otel_ctx.

(** ** The nodes behind a context *)

Module Heap.

(** [DataList]: the key with its length, the value, the next pointer. *)
Record DataList := MkDataList {
  key_ : bytes;
  next_ : option positive;
  value_ : ContextValue;
}.

(** The allocated nodes, and the next address [new] returns.  A node is freed by its last
    owner; a node reachable from a context is never freed, so the model keeps them all. *)
Record heap := MkHeap {
  nodes : gmap positive DataList;
  fresh_loc : positive;
}.

Definition heap_empty : heap := MkHeap ∅ 1.

(** [new DataList(key, value)] *)
Definition alloc (h : heap) (n : DataList) : heap * positive :=
  (MkHeap (<[fresh_loc h := n]> (nodes h)) (Pos.succ (fresh_loc h)), fresh_loc h).

(** [p->next_ = next] *)
Definition set_next (h : heap) (p : positive) (next : option positive) : heap :=
  MkHeap (alter (λ n, MkDataList (key_ n) next (value_ n)) p (nodes h)) (fresh_loc h).

(** A context is its head pointer. *)
Definition head := option positive.

Definition HContext_new (h : heap) (key : bytes) (value : ContextValue) : heap * positive :=
  alloc h (MkDataList key None value).

(** The loop of [DataList(keys_and_vals)] after the first element: [node] is the last node. *)
Fixpoint build_rest (h : heap) (node : positive) (kvs : list (bytes * ContextValue)) : heap :=
  match kvs with
  | [] => h
  | (k, v) :: kvs' =>
      let '(h, n) := alloc h (MkDataList k None v) in
      build_rest (set_next h node (Some n)) n kvs'
  end.

(** [new DataList(keys_and_vals)]: the first pair goes in the node itself. *)
Definition build (h : heap) (kvs : list (bytes * ContextValue)) : heap * positive :=
  match kvs with
  | [] => alloc h (MkDataList [] None CVmonostate)
  | (k, v) :: kvs' =>
      let '(h, n) := alloc h (MkDataList k None v) in (build_rest h n kvs', n)
  end.

(** [while (last->next_ != nullptr) last = last->next_;] *)
Fixpoint find_last (fuel : nat) (h : heap) (last : positive) : option positive :=
  match fuel with
  | O => None
  | S f =>
      n ← nodes h !! last;
      match next_ n with
      | None => Some last
      | Some p => find_last f h p
      end
  end.

Definition h_SetValue (h : heap) (c : head) (key : bytes) (value : ContextValue) : heap * head :=
  let '(h, n) := HContext_new h key value in (set_next h n c, Some n).

Definition h_SetValues (h : heap) (c : head) (values : list (bytes * ContextValue)) : option (heap * head) :=
  let '(h, n) := build h values in
  last ← find_last (Pos.to_nat (fresh_loc h)) h n;
  Some (set_next h last c, Some n).

(** [for (data = head_; data != nullptr; data = data->next_)] *)
Fixpoint h_GetValue (fuel : nat) (h : heap) (c : head) (key : bytes) : option ContextValue :=
  match c with
  | None => Some CVmonostate
  | Some p =>
      match fuel with
      | O => None
      | S f =>
          n ← nodes h !! p;
          if (length key =? length (key_ n)) && beq key (key_ n) then Some (value_ n)
          else h_GetValue f h (next_ n) key
      end
  end.

(** *** Representation *)

(** The nodes from [c] on hold the pairs of [l]. *)
Inductive is_list (h : heap) : head → Context → Prop :=
  | is_list_nil : is_list h None []
  | is_list_cons p n k v l :
      nodes h !! p = Some n → key_ n = k → value_ n = v →
      is_list h (next_ n) l → is_list h (Some p) ((k, v) :: l).

(** Addresses from [fresh_loc] on are free. *)
Definition heap_wf (h : heap) : Prop := ∀ p, (fresh_loc h ≤ p)%positive → nodes h !! p = None.

(** The nodes below [b] are the same in both heaps. *)
Definition agree (b : positive) (h h' : heap) : Prop :=
  ∀ p, (p < b)%positive → nodes h' !! p = nodes h !! p.

(** A chain of nodes at increasing addresses that starts at [p] and ends at [q]. *)
Inductive seg (h : heap) : positive → Context → positive → Prop :=
  | seg_one p n : nodes h !! p = Some n → seg h p [(key_ n, value_ n)] p
  | seg_cons p n p' l q :
      nodes h !! p = Some n → next_ n = Some p' → (p < p')%positive → seg h p' l q →
      seg h p ((key_ n, value_ n) :: l) q.

Lemma alloc_lt h p n : heap_wf h → nodes h !! p = Some n → (p < fresh_loc h)%positive.
Proof.
  intros Hwf Hp. destruct (Pos.lt_total p (fresh_loc h)) as [|[E|E]]; [done| |];
    rewrite Hwf in Hp by lia; done.
Qed.

Lemma is_list_agree h h' c l :
  heap_wf h → agree (fresh_loc h) h h' → is_list h c l → is_list h' c l.
Proof.
  intros Hwf Ha. induction 1 as [|p n k v l Hp Hk Hv _ IH]; [constructor|].
  eapply is_list_cons; try done. rewrite Ha by eauto using alloc_lt. done.
Qed.

Lemma seg_le h p l q : seg h p l q → (p ≤ q)%positive.
Proof. induction 1; lia. Qed.

(** *** One operation at a time *)

Lemma alloc_spec h n :
  heap_wf h →
  let '(h', p) := alloc h n in
  p = fresh_loc h ∧ fresh_loc h' = Pos.succ (fresh_loc h) ∧ nodes h' !! p = Some n
  ∧ heap_wf h' ∧ agree (fresh_loc h) h h'.
Proof.
  intros Hwf. simpl. split_and!; [done|done|by rewrite lookup_insert_eq| |].
  - intros p Hp. simpl in *. rewrite lookup_insert_ne by lia. apply Hwf. lia.
  - intros p Hp. simpl. by rewrite lookup_insert_ne by lia.
Qed.

Lemma set_next_lookup h p c n :
  nodes h !! p = Some n → nodes (set_next h p c) !! p = Some (MkDataList (key_ n) c (value_ n)).
Proof. intros Hp. simpl. by rewrite lookup_alter_eq, Hp. Qed.

Lemma set_next_ne h p c q : q ≠ p → nodes (set_next h p c) !! q = nodes h !! q.
Proof. intros. simpl. by rewrite lookup_alter_ne. Qed.

Lemma set_next_wf h p c : heap_wf h → heap_wf (set_next h p c).
Proof. intros Hwf q Hq. simpl. rewrite lookup_alter_None. by apply Hwf. Qed.

(** Linking the end of a chain to a list appends the list. *)
Lemma seg_link h p l q c lc :
  seg h p l q → is_list (set_next h q c) c lc → is_list (set_next h q c) (Some p) (l ++ lc).
Proof.
  intros Hs Hc. induction Hs as [p n Hp|p n p' l q Hp Hn Hlt Hs IH]; cbn [app].
  - eapply is_list_cons; [by apply set_next_lookup|done..].
  - pose proof (seg_le _ _ _ _ Hs). eapply is_list_cons; [|done..|].
    + rewrite set_next_ne by lia. exact Hp.
    + rewrite Hn. by apply IH.
Qed.

Lemma seg_end h p l q : seg h p l q → nodes h !! q = None → False.
Proof. induction 1; [congruence|done]. Qed.

Lemma find_last_seg f h p l q n :
  seg h p l q → nodes h !! q = Some n → next_ n = None → length l ≤ f → find_last f h p = Some q.
Proof.
  intros Hs Hq Hn. revert f. induction Hs as [p m Hp|p m p' l q Hp Hm Hlt Hs IH]; intros [|f] Hf;
    simpl in Hf; try lia; cbn [find_last]; rewrite Hp; cbn [mbind option_bind].
  - simplify_eq. by rewrite Hn.
  - rewrite Hm. apply IH; [done|lia].
Qed.

(** What building nodes from the last node [node] on leaves. *)
Lemma build_rest_spec kvs h node nd :
  heap_wf h → nodes h !! node = Some nd → next_ nd = None →
  let h' := build_rest h node kvs in
  heap_wf h' ∧ agree node h h' ∧ Pos.to_nat (fresh_loc h') = Pos.to_nat (fresh_loc h) + length kvs
  ∧ ∃ q nq, seg h' node ((key_ nd, value_ nd) :: kvs) q ∧ nodes h' !! q = Some nq ∧ next_ nq = None.
Proof.
  revert h node nd. induction kvs as [|[k v] kvs IH]; intros h node nd Hwf Hnode Hnext.
  - simpl. split_and!; [done|done|lia|]. exists node, nd. split_and!; [by constructor|done..].
  - pose proof (alloc_lt _ _ _ Hwf Hnode) as Hlt.
    cbn [build_rest]. pose proof (alloc_spec h (MkDataList k None v) Hwf) as Ha.
    destruct (alloc h (MkDataList k None v)) as [h1 n] eqn:E.
    destruct Ha as (-> & Hf & Hl & Hwf1 & Hag).
    set (h2 := set_next h1 node (Some (fresh_loc h))).
    assert (Hl2 : nodes h2 !! fresh_loc h = Some (MkDataList k None v)).
    { unfold h2. rewrite set_next_ne by lia. done. }
    destruct (IH h2 (fresh_loc h) (MkDataList k None v)) as (Hwf3 & Hag3 & Hf3 & q & nq & Hs & Hq & Hnq);
      [by apply set_next_wf|done|done|].
    split_and!; [done| | |].
    + intros p Hp. rewrite Hag3 by lia. unfold h2. rewrite set_next_ne by lia. apply Hag. lia.
    + rewrite Hf3. change (fresh_loc h2) with (fresh_loc h1). rewrite Hf. simpl. lia.
    + exists q, nq. split_and!; [|done..].
      apply (seg_cons _ _ (MkDataList (key_ nd) (Some (fresh_loc h)) (value_ nd)) (fresh_loc h));
        [|done|lia|exact Hs].
      rewrite Hag3 by lia. apply set_next_lookup. rewrite Hag by lia. done.
Qed.

Lemma build_spec h kvs :
  heap_wf h →
  let '(h', p) := build h kvs in
  heap_wf h' ∧ agree (fresh_loc h) h h' ∧ p = fresh_loc h
  ∧ Pos.to_nat (fresh_loc h) + length (Context_from kvs) = Pos.to_nat (fresh_loc h')
  ∧ ∃ q nq, seg h' p (Context_from kvs) q ∧ nodes h' !! q = Some nq ∧ next_ nq = None.
Proof.
  intros Hwf. destruct kvs as [|[k v] kvs]; cbn [build Context_from].
  - pose proof (alloc_spec h (MkDataList [] None CVmonostate) Hwf) as Ha.
    destruct (alloc _ _) as [h1 n]. destruct Ha as (-> & Hf & Hl & Hwf1 & Hag).
    split_and!; try done; [rewrite Hf; simpl; lia|].
    exists (fresh_loc h), (MkDataList [] None CVmonostate).
    split_and!; [exact (seg_one h1 _ _ Hl)|done..].
  - pose proof (alloc_spec h (MkDataList k None v) Hwf) as Ha.
    destruct (alloc _ _) as [h1 n]. destruct Ha as (-> & Hf & Hl & Hwf1 & Hag).
    destruct (build_rest_spec kvs h1 (fresh_loc h) _ Hwf1 Hl eq_refl) as (Hwf3 & Hag3 & Hf3 & Hq).
    split_and!; [done| |done|rewrite Hf3, Hf; simpl; lia|done].
    intros p Hp. rewrite Hag3 by lia. apply Hag. lia.
Qed.

Lemma h_SetValue_spec h c l k v :
  heap_wf h → is_list h c l →
  let '(h', c') := h_SetValue h c k v in
  heap_wf h' ∧ agree (fresh_loc h) h h' ∧ is_list h' c' (ctx_SetValue l k v).
Proof.
  intros Hwf Hl. unfold h_SetValue, HContext_new.
  pose proof (alloc_spec h (MkDataList k None v) Hwf) as Ha.
  destruct (alloc _ _) as [h1 n]. destruct Ha as (-> & Hf & Hn & Hwf1 & Hag).
  assert (Hag2 : agree (fresh_loc h) h (set_next h1 (fresh_loc h) c)).
  { intros p Hp. rewrite set_next_ne by lia. by apply Hag. }
  split_and!; [by apply set_next_wf|done|].
  eapply is_list_cons; [by apply set_next_lookup|done..|]. by apply (is_list_agree h).
Qed.

Lemma h_SetValues_spec h c l kvs :
  heap_wf h → is_list h c l →
  ∃ h' c', h_SetValues h c kvs = Some (h', c')
  ∧ heap_wf h' ∧ agree (fresh_loc h) h h' ∧ is_list h' c' (ctx_SetValues l kvs).
Proof.
  intros Hwf Hl. unfold h_SetValues. pose proof (build_spec h kvs Hwf) as Hb.
  destruct (build h kvs) as [h1 n].
  destruct Hb as (Hwf1 & Hag & -> & Hf & q & nq & Hs & Hq & Hnq).
  rewrite (find_last_seg _ _ _ _ _ _ Hs Hq Hnq) by lia. cbn [mbind option_bind].
  exists (set_next h1 q c), (Some (fresh_loc h)).
  assert (Hag2 : agree (fresh_loc h) h (set_next h1 q c)).
  { intros p Hp. pose proof (seg_le _ _ _ _ Hs). rewrite set_next_ne by lia. by apply Hag. }
  split_and!; [done|by apply set_next_wf|done|].
  apply seg_link; [done|]. by apply (is_list_agree h).
Qed.

Lemma h_GetValue_spec f h c l key :
  is_list h c l → length l < f → h_GetValue f h c key = Some (ctx_GetValue l key).
Proof.
  intros Hl. revert f. induction Hl as [|p n k v l Hp Hk Hv Hl IH]; intros [|f] Hf;
    simpl in Hf; try lia; cbn [h_GetValue]; [done|].
  rewrite Hp. cbn [mbind option_bind]. rewrite Hk, Hv, ctx_GetValue_cons.
  destruct (beq key k) eqn:E; bprop.
  - subst key. by rewrite Nat.eqb_refl.
  - rewrite andb_false_r. apply IH. lia.
Qed.

(** *** Programs over contexts *)

(** What a client does: take a fresh context, or derive one from the [i]-th it has. *)
Inductive op :=
  | OpDefault
  | OpNew (kvs : list (bytes * ContextValue))
  | OpSetValue (i : nat) (key : bytes) (value : ContextValue)
  | OpSetValues (i : nat) (kvs : list (bytes * ContextValue)).

Definition step_pure (pool : list Context) (o : op) : option (list Context) :=
  match o with
  | OpDefault => Some (pool ++ [Context_default])
  | OpNew kvs => Some (pool ++ [Context_from kvs])
  | OpSetValue i k v => c ← pool !! i; Some (pool ++ [ctx_SetValue c k v])
  | OpSetValues i kvs => c ← pool !! i; Some (pool ++ [ctx_SetValues c kvs])
  end.

Definition step_heap (s : heap * list head) (o : op) : option (heap * list head) :=
  let '(h, pool) := s in
  match o with
  | OpDefault => Some (h, pool ++ [None])
  | OpNew kvs => let '(h, n) := build h kvs in Some (h, pool ++ [Some n])
  | OpSetValue i k v => c ← pool !! i; let '(h, c') := h_SetValue h c k v in Some (h, pool ++ [c'])
  | OpSetValues i kvs => c ← pool !! i; '(h, c') ← h_SetValues h c kvs; Some (h, pool ++ [c'])
  end.

Fixpoint run {S} (step : S → op → option S) (s : S) (ops : list op) : option S :=
  match ops with
  | [] => Some s
  | o :: ops' => s' ← step s o; run step s' ops'
  end.

(** The heap represents the pool of lists. *)
Definition represents (s : heap * list head) (pool : list Context) : Prop :=
  heap_wf s.1 ∧ Forall2 (is_list s.1) s.2 pool.

Lemma represents_extend h hs h' c' pool l :
  represents (h, hs) pool → heap_wf h' → agree (fresh_loc h) h h' → is_list h' c' l →
  represents (h', hs ++ [c']) (pool ++ [l]).
Proof.
  intros [Hwf Hall] Hwf' Hag Hl. split; [done|]. simpl in *.
  apply Forall2_app; [|by repeat constructor].
  eapply list.Forall2_impl; [exact Hall|]. intros c m Hm. by apply (is_list_agree h).
Qed.

Lemma is_list_seg h p l q n :
  seg h p l q → nodes h !! q = Some n → next_ n = None → is_list h (Some p) l.
Proof.
  intros Hs Hq Hn. induction Hs as [p m Hp|p m p' l q Hp Hm Hlt Hs IH].
  - simplify_eq. eapply is_list_cons; [done..|]. rewrite Hn. constructor.
  - eapply is_list_cons; [done..|]. rewrite Hm. by apply IH.
Qed.

Lemma represents_None {A C} (R : A → C → Prop) (l : list A) (k : list C) i :
  Forall2 R l k → k !! i = None → l !! i = None.
Proof. intros H%list.Forall2_length Hi%lookup_ge_None. apply lookup_ge_None. lia. Qed.

(** One operation preserves the representation, and fails in one model only when it does in
    the other. *)
Lemma step_simulation s pool o :
  represents s pool →
  match step_pure pool o with
  | None => step_heap s o = None
  | Some pool' => ∃ s', step_heap s o = Some s' ∧ represents s' pool'
  end.
Proof.
  destruct s as [h hs]. intros Hr. pose proof Hr as [Hwf Hall]. cbn [fst snd] in *.
  destruct o as [|kvs|i k v|i kvs]; cbn [step_pure step_heap].
  - eexists. split; [done|]. eapply represents_extend; [done..|]. constructor.
  - pose proof (build_spec h kvs Hwf) as Hb. destruct (build h kvs) as [h1 n].
    destruct Hb as (Hwf1 & Hag & -> & _ & q & nq & Hs & Hq & Hnq).
    eexists. split; [done|]. eapply represents_extend; [done..|]. by eapply is_list_seg.
  - destruct (pool !! i) as [l|] eqn:El; cbn [mbind option_bind].
    + destruct (Forall2_lookup_r _ _ _ _ _ Hall El) as (c & -> & Hl). cbn [mbind option_bind].
      pose proof (h_SetValue_spec h c l k v Hwf Hl) as Hs. destruct (h_SetValue h c k v) as [h1 c1].
      destruct Hs as (Hwf1 & Hag & Hl1). eexists. split; [done|]. by eapply represents_extend.
    + by rewrite (represents_None _ _ _ _ Hall El).
  - destruct (pool !! i) as [l|] eqn:El; cbn [mbind option_bind].
    + destruct (Forall2_lookup_r _ _ _ _ _ Hall El) as (c & -> & Hl). cbn [mbind option_bind].
      destruct (h_SetValues_spec h c l kvs Hwf Hl) as (h1 & c1 & -> & Hwf1 & Hag & Hl1).
      cbn [mbind option_bind]. eexists. split; [done|]. by eapply represents_extend.
    + by rewrite (represents_None _ _ _ _ Hall El).
Qed.

Lemma run_simulation ops s pool :
  represents s pool →
  match run step_pure pool ops with
  | None => run step_heap s ops = None
  | Some pool' => ∃ s', run step_heap s ops = Some s' ∧ represents s' pool'
  end.
Proof.
  revert s pool. induction ops as [|o ops IH]; intros s pool Hr; cbn [run]; [by eexists|].
  pose proof (step_simulation s pool o Hr) as Hs.
  destruct (step_pure pool o) as [pool'|]; cbn [mbind option_bind].
  - destruct Hs as (s' & -> & Hr'). cbn [mbind option_bind]. by apply IH.
  - by rewrite Hs.
Qed.

(** C33: The linked nodes behave as immutable lists.  Take any program that derives contexts from
    contexts: after it has run, every context it obtained, however many others were derived
    from it since, answers [GetValue] and [HasKey] as its list of pairs does, and the walk
    over the nodes ends. *)
Theorem context_nodes_are_lists ops :
  match run step_pure [] ops with
  | None => run step_heap (heap_empty, []) ops = None
  | Some pool =>
      ∃ h heads, run step_heap (heap_empty, []) ops = Some (h, heads)
      ∧ length heads = length pool
      ∧ ∀ i l key fuel, pool !! i = Some l → length l < fuel →
          ∃ c, heads !! i = Some c ∧ h_GetValue fuel h c key = Some (ctx_GetValue l key)
  end.
Proof.
  assert (H0 : represents (heap_empty, []) []) by (split; [intros p _; apply lookup_empty|constructor]).
  pose proof (run_simulation ops _ _ H0) as H. destruct (run step_pure [] ops) as [pool|]; [|done].
  destruct H as ([h heads] & -> & Hwf & Hall). exists h, heads.
  split_and!; [done|by eapply list.Forall2_length|].
  intros i l key fuel Hi Hf. destruct (Forall2_lookup_r _ _ _ _ _ Hall Hi) as (c & Hc & Hl).
  exists c. split; [done|]. by apply h_GetValue_spec.
Qed.

End Heap.
