(* ===== verification/Propagation.v ===== *)
(** * Propagators and their carriers

    context/propagation/text_map_propagator.h, composite_propagator.h, noop_propagator.h and
    global_propagator.h.  A carrier is any type with a [Get] and a [Set]; a propagator is a
    record of its three operations over a carrier type.  [Extract] returns an option because
    the propagators call routines that throw on an index out of range; each of them is shown
    to always return. *)
From S2P Require Export Context.

(** ** TextMapCarrier *)

Class TextMapCarrier (C : Type) := {
  carrier_Get : C → bytes → bytes;
  carrier_Set : C → bytes → bytes → C;
}.

(** [Keys] unless overridden: true, without calling back. *)
Definition carrier_Keys {C S} (_ : C) (_ : S → bytes → S * bool) (s : S) : S * bool := (s, true).

(** ASCII lower case, the folding header carriers apply to names. *)
Definition lower (c : ascii) : ascii := if isupper c then chr (code c + 32) else c.

(** What a storage medium promises: it stores under a name, returned under that name, and
    does not disturb names that differ by more than case. *)
Class LawfulCarrier (C : Type) `{TextMapCarrier C} := {
  carrier_Get_Set : ∀ c k v, carrier_Get (carrier_Set c k v) k = v;
  carrier_Get_Set_ne : ∀ c k k' v, lower <$> k ≠ lower <$> k' →
    carrier_Get (carrier_Set c k v) k' = carrier_Get c k';
}.

(** A carrier over a finite map, with the empty view for a missing name. *)
#[export] Instance map_carrier : TextMapCarrier (gmap bytes bytes) := {
  carrier_Get m k := default [] (m !! k);
  carrier_Set m k v := <[k := v]> m;
}.

#[export] Instance map_carrier_lawful : LawfulCarrier (gmap bytes bytes).
Proof.
  split; intros; simpl; [by rewrite lookup_insert_eq|].
  rewrite lookup_insert_ne; [done|]. by intros ->.
Qed.

(** ** TextMapPropagator *)

Record TextMapPropagator (C : Type) := MkPropagator {
  Extract : C → Context → option Context;
  Inject : C → Context → C;
  Fields : ∀ S, (S → bytes → S * bool) → S → S * bool;
}.

Arguments MkPropagator {_}.
Arguments Extract {_}.
Arguments Inject {_}.
Arguments Fields {_} _ {_}.

(** [callback(f1) && callback(f2) && ...] *)
Fixpoint fields_and {S} (fs : list bytes) (callback : S → bytes → S * bool) (s : S) : S * bool :=
  match fs with
  | [] => (s, true)
  | f :: fs' => let '(s, b) := callback s f in if b then fields_and fs' callback s else (s, false)
  end.

(** The names a propagator reports. *)
Definition field_names {C} (p : TextMapPropagator C) : list bytes :=
  fst (Fields p (λ acc f, (acc ++ [f], true)) []).

(** ** NoOpPropagator *)

Definition NoOpPropagator {C} : TextMapPropagator C :=
  MkPropagator (λ _ context, Some context) (λ carrier _, carrier) (λ S _ s, (s, true)).

(** ** CompositePropagator *)

Section composite.
Context {C : Type}.
Implicit Types (propagators : list (TextMapPropagator C)).

Definition composite_Inject propagators (carrier : C) (context : Context) : C :=
  foldl (λ carrier p, Inject p carrier context) carrier propagators.

(** The loop with its [first] flag and [tmp_context]. *)
Fixpoint composite_Extract_loop propagators (carrier : C) (context : Context) (first : bool)
    (tmp_context : Context) : option Context :=
  match propagators with
  | [] => Some tmp_context
  | p :: ps =>
      tmp ← Extract p carrier (if first then context else tmp_context);
      composite_Extract_loop ps carrier context false tmp
  end.

Definition composite_Extract propagators (carrier : C) (context : Context) : option Context :=
  tmp_context ← composite_Extract_loop propagators carrier context true Context_default;
  Some (if negb (length propagators =? 0) then tmp_context else context).

(** [status = status && p->Fields(callback)] *)
Fixpoint composite_Fields_loop propagators {S} (callback : S → bytes → S * bool) (s : S)
    (status : bool) : S * bool :=
  match propagators with
  | [] => (s, status)
  | p :: ps =>
      if status then let '(s, b) := Fields p callback s in composite_Fields_loop ps callback s b
      else composite_Fields_loop ps callback s false
  end.

Definition CompositePropagator propagators : TextMapPropagator C :=
  MkPropagator (composite_Extract propagators) (composite_Inject propagators)
    (λ S callback s, composite_Fields_loop propagators callback s true).

(** Extraction is the composition, in order, of the extractions; the flag and the temporary
    add nothing, also when there is no propagator. *)
Definition extract_all propagators (carrier : C) (context : Context) : option Context :=
  foldl (λ o p, c ← o; Extract p carrier c) (Some context) propagators.

Lemma foldl_extract_None ps (carrier : C) :
  foldl (λ o p, c ← o; Extract p carrier c) None ps = None.
Proof using. by induction ps. Qed.

Lemma composite_loop_foldl ps (carrier : C) context tmp :
  composite_Extract_loop ps carrier context false tmp =
  foldl (λ o p, c ← o; Extract p carrier c) (Some tmp) ps.
Proof using.
  revert tmp. induction ps as [|p ps IH]; intros tmp; [done|]. cbn [composite_Extract_loop foldl].
  change (Some tmp ≫= λ c, Extract p carrier c) with (Extract p carrier tmp).
  destruct (Extract p carrier tmp) as [c|]; cbn [mbind option_bind]; [apply IH|].
  by rewrite foldl_extract_None.
Qed.

Lemma composite_Extract_all ps (carrier : C) context :
  composite_Extract ps carrier context = extract_all ps carrier context.
Proof using.
  unfold composite_Extract, extract_all. destruct ps as [|p ps]; [done|].
  cbn [composite_Extract_loop length Nat.eqb negb foldl].
  change (Some context ≫= λ c, Extract p carrier c) with (Extract p carrier context).
  destruct (Extract p carrier context) as [c|]; cbn [mbind option_bind].
  - rewrite composite_loop_foldl.
    by destruct (foldl (λ o q, c0 ← o; Extract q carrier c0) (Some c) ps).
  - by rewrite foldl_extract_None.
Qed.

(** Fields of the propagators before the first refusal. *)
Lemma composite_Fields_false ps {S} (cb : S → bytes → S * bool) s :
  composite_Fields_loop ps cb s false = (s, false).
Proof using. revert s. by induction ps. Qed.
End composite.

(** ** GlobalTextMapPropagator

    The process-wide propagator: set and got under a spin lock, initially the no-op one. *)
Definition GlobalPropagator_init {C} : TextMapPropagator C := NoOpPropagator.
Definition SetGlobalPropagator {C} (_ prop : TextMapPropagator C) : TextMapPropagator C := prop.
Definition GetGlobalPropagator {C} (g : TextMapPropagator C) : TextMapPropagator C := g.
