(* ===== verification/HttpTraceContext.v ===== *)
(** * W3C Trace Context propagation

    trace/propagation/http_trace_context.h: the traceparent and tracestate headers. *)
From S2P Require Export Propagation.

Definition kTraceParent : bytes := B "traceparent".
Definition kTraceState : bytes := B "tracestate".
Definition kVersionSize : nat := 2.
Definition kTraceIdSize : nat := 32.
Definition kSpanIdSize : nat := 16.
Definition kTraceFlagsSize : nat := 2.
Definition kTraceParentSize : nat := 55.
Definition kInvalidVersion : Z := 255.
Definition kDefaultAssumedVersion : Z := 0.

Definition TraceIdFromHex (trace_id : bytes) : option TraceId :=
  '(_, buf) ← HexToBinary trace_id (kTraceIdSize / 2); Some (TraceId_new buf).

Definition SpanIdFromHex (span_id : bytes) : option SpanId :=
  '(_, buf) ← HexToBinary span_id (kSpanIdSize / 2); Some (SpanId_new buf).

Definition TraceFlagsFromHex (trace_flags : bytes) : option TraceFlags :=
  '(_, buf) ← HexToBinary trace_flags 1; flags ← buf !! 0; Some (TraceFlags_new flags).

(** Writing a run of characters in a buffer, [buffer[pos]] onwards. *)
Definition blit (buffer : bytes) (pos : nat) (s : bytes) : bytes := list_inserts pos s buffer.

(** [char trace_parent[kTraceParentSize]] and the writes of [InjectImpl]. *)
Definition trace_parent_of (uninit : bytes) (sc : SpanContext) : bytes :=
  let trace_parent := uninit in
  let trace_parent := blit trace_parent 0 (B "0") in
  let trace_parent := blit trace_parent 1 (B "0") in
  let trace_parent := blit trace_parent 2 (B "-") in
  let trace_parent := blit trace_parent 3 (TraceId_ToLowerBase16 (trace_id_ sc)) in
  let trace_parent := blit trace_parent (kTraceIdSize + 3) (B "-") in
  let trace_parent := blit trace_parent (kTraceIdSize + 4) (SpanId_ToLowerBase16 (span_id_ sc)) in
  let trace_parent := blit trace_parent (kTraceIdSize + kSpanIdSize + 4) (B "-") in
  blit trace_parent (kTraceIdSize + kSpanIdSize + 5) (TraceFlags_ToLowerBase16 (trace_flags_ sc)).

Section propagator.
Context {C : Type} `{TextMapCarrier C}.

Definition InjectImpl (carrier : C) (sc : SpanContext) : C :=
  let trace_parent := trace_parent_of (replicate kTraceParentSize NUL) sc in
  let carrier := carrier_Set carrier kTraceParent trace_parent in
  let trace_state := ToHeader (trace_state_ sc) in
  if negb (length trace_state =? 0) then carrier_Set carrier kTraceState trace_state else carrier.

Definition HttpTraceContext_Inject (carrier : C) (context : Context) : C :=
  let span_context := GetContext (GetSpan context) in
  if negb (SpanContext_IsValid span_context) then carrier else InjectImpl carrier span_context.

Definition ExtractContextFromTraceHeaders (trace_parent trace_state : bytes) : option SpanContext :=
  '(n, results) ← SplitString trace_parent "-" 4;
  if negb (n =? 4) then Some GetInvalid
  else
    version_hex ← results !! 0; trace_id_hex ← results !! 1;
    span_id_hex ← results !! 2; trace_flags_hex ← results !! 3;
    if negb (length version_hex =? kVersionSize) || negb (length trace_id_hex =? kTraceIdSize)
       || negb (length span_id_hex =? kSpanIdSize) || negb (length trace_flags_hex =? kTraceFlagsSize)
    then Some GetInvalid
    else if negb (IsValidHex version_hex) || negb (IsValidHex trace_id_hex)
       || negb (IsValidHex span_id_hex) || negb (IsValidHex trace_flags_hex)
    then Some GetInvalid
    else
      '(_, version) ← HexToBinary version_hex 1;
      version_binary ← version !! 0;
      if (version_binary =? kInvalidVersion)%Z then Some GetInvalid
      else if (if (kDefaultAssumedVersion <? version_binary)%Z
               then length trace_parent <? kTraceParentSize
               else negb (length trace_parent =? kTraceParentSize))
      then Some GetInvalid
      else
        trace_id ← TraceIdFromHex trace_id_hex;
        span_id ← SpanIdFromHex span_id_hex;
        if negb (TraceId_IsValid trace_id) || negb (SpanId_IsValid span_id) then Some GetInvalid
        else
          trace_flags ← TraceFlagsFromHex trace_flags_hex;
          ts ← FromHeader trace_state;
          Some (SpanContext_new trace_id span_id trace_flags true ts).

Definition HttpTraceContext_ExtractImpl (carrier : C) : option SpanContext :=
  trace_parent ← Trim (carrier_Get carrier kTraceParent);
  let trace_state := carrier_Get carrier kTraceState in
  if sv_eq trace_parent [] then Some GetInvalid
  else ExtractContextFromTraceHeaders trace_parent trace_state.

Definition HttpTraceContext_Extract (carrier : C) (context : Context) : option Context :=
  span_context ← HttpTraceContext_ExtractImpl carrier;
  let sp := DefaultSpan span_context in
  Some (if SpanContext_IsValid span_context then SetSpan context sp else context).

Definition HttpTraceContext_Fields {S} (callback : S → bytes → S * bool) (s : S) : S * bool :=
  fields_and [kTraceParent; kTraceState] callback s.

Definition HttpTraceContext : TextMapPropagator C :=
  MkPropagator HttpTraceContext_Extract HttpTraceContext_Inject (@HttpTraceContext_Fields).

End propagator.

(** ** What a traceparent header means *)

(** The four fields of a header the extractor accepts: version, trace id, span id and flags
    in hexadecimal.  The version is not ff; only a version other than 00 may be followed by
    further fields; neither identifier is all zeroes. *)
Definition w3c_fields (tp ver tid sid fl rest : bytes) : Prop :=
  tp = ver ++ "-"%char :: tid ++ "-"%char :: sid ++ "-"%char :: fl ++ rest ∧
  length ver = kVersionSize ∧ length tid = kTraceIdSize ∧ length sid = kSpanIdSize ∧
  length fl = kTraceFlagsSize ∧
  IsValidHex ver = true ∧ IsValidHex tid = true ∧ IsValidHex sid = true ∧ IsValidHex fl = true ∧
  hex_number ver ≠ kInvalidVersion ∧
  (rest = [] ∨ hex_number ver ≠ kDefaultAssumedVersion ∧ ∃ r, rest = "-"%char :: r) ∧
  hex_number tid ≠ 0%Z ∧ hex_number sid ≠ 0%Z.

(** The span context those fields stand for. *)
Definition w3c_context (tid sid fl : bytes) (ts : TraceState) : SpanContext :=
  SpanContext_new (MkTraceId (hex_bytes tid)) (MkSpanId (hex_bytes sid))
    (MkTraceFlags (hex_number fl)) true ts.

Lemma TraceIdFromHex_ok h :
  length h = kTraceIdSize → TraceIdFromHex h = Some (MkTraceId (hex_bytes h)).
Proof.
  intros Hl. unfold TraceIdFromHex. rewrite HexToBinary_exact by done. cbn [mbind option_bind].
  unfold TraceId_new. rewrite take_ge; [done|]. by rewrite length_hex_bytes, Hl.
Qed.

Lemma SpanIdFromHex_ok h :
  length h = kSpanIdSize → SpanIdFromHex h = Some (MkSpanId (hex_bytes h)).
Proof.
  intros Hl. unfold SpanIdFromHex. rewrite HexToBinary_exact by done. cbn [mbind option_bind].
  unfold SpanId_new. rewrite take_ge; [done|]. by rewrite length_hex_bytes, Hl.
Qed.

Lemma TraceFlagsFromHex_ok h :
  length h = kTraceFlagsSize → IsValidHex h = true →
  TraceFlagsFromHex h = Some (MkTraceFlags (hex_number h)).
Proof.
  intros Hl Hv. unfold TraceFlagsFromHex. rewrite HexToBinary_exact by done.
  destruct (hex_bytes_two h Hl Hv) as [-> Hr]. cbn [mbind option_bind lookup list_lookup].
  unfold TraceFlags_new, to_u8. by rewrite Z.mod_small.
Qed.

Lemma FromHeader_total header : ∃ ts, FromHeader header = Some ts.
Proof. destruct (FromHeader_pairs header) as (ts & H & _). by exists ts. Qed.

(** The fields of the header as [SplitString] finds them. *)
Lemma w3c_split ver tid sid fl rest :
  IsValidHex ver = true → IsValidHex tid = true → IsValidHex sid = true → IsValidHex fl = true →
  (rest = [] ∨ ∃ r, rest = "-"%char :: r) →
  SplitString (ver ++ "-"%char :: tid ++ "-"%char :: sid ++ "-"%char :: fl ++ rest) "-" 4 =
    Some (4, [ver; tid; sid; fl]).
Proof.
  intros Hv Ht Hs Hf Hr. rewrite SplitString_total.
  rewrite split_on_cons by (by apply IsValidHex_no_dash).
  rewrite split_on_cons by (by apply IsValidHex_no_dash).
  rewrite split_on_cons by (by apply IsValidHex_no_dash).
  destruct Hr as [->|(r & ->)].
  - rewrite app_nil_r, split_on_last by (by apply IsValidHex_no_dash). done.
  - rewrite split_on_cons by (by apply IsValidHex_no_dash). simpl. by rewrite take_0.
Qed.

Lemma w3c_accepts tp ver tid sid fl rest tsh ts :
  w3c_fields tp ver tid sid fl rest → FromHeader tsh = Some ts →
  ExtractContextFromTraceHeaders tp tsh = Some (w3c_context tid sid fl ts).
Proof.
  intros (-> & Lv & Lt & Ls & Lf & Hv & Ht & Hs & Hf & Hff & Hr & Hnt & Hns) Hts.
  unfold ExtractContextFromTraceHeaders.
  rewrite w3c_split by (done || naive_solver). cbn [mbind option_bind lookup list_lookup Nat.eqb negb].
  rewrite Lv, Lt, Ls, Lf, Hv, Ht, Hs, Hf, !Nat.eqb_refl. cbn [negb orb].
  rewrite HexToBinary_exact by done. destruct (hex_bytes_two ver Lv Hv) as [-> Hvr].
  cbn [mbind option_bind lookup list_lookup]. rewrite (proj2 (Z.eqb_neq _ _)) by done.
  rewrite !length_app. cbn [length]. rewrite !length_app. cbn [length]. rewrite !length_app. cbn [length].
  rewrite !length_app, Lv, Lt, Ls, Lf.
  assert (E : (if (kDefaultAssumedVersion <? hex_number ver)%Z
    then kVersionSize + S (kTraceIdSize + S (kSpanIdSize + S (kTraceFlagsSize + length rest))) <? kTraceParentSize
    else negb (kVersionSize + S (kTraceIdSize + S (kSpanIdSize + S (kTraceFlagsSize + length rest))) =? kTraceParentSize))
    = false).
  { unfold kDefaultAssumedVersion, kVersionSize, kTraceIdSize, kSpanIdSize, kTraceFlagsSize, kTraceParentSize in *.
    destruct (0 <? hex_number ver)%Z eqn:E; bprop; [apply Nat.ltb_ge; lia|].
    apply negb_false_iff, Nat.eqb_eq. destruct Hr as [->|[Hne _]]; [done|lia]. }
  rewrite E, TraceIdFromHex_ok, SpanIdFromHex_ok by done. cbn [mbind option_bind].
  destruct (TraceId_of_hex tid Lt Ht) as [_ ->]. destruct (SpanId_of_hex sid Ls Hs) as [_ ->].
  rewrite !(proj2 (Z.eqb_neq _ _)) by done. cbn [negb orb].
  rewrite TraceFlagsFromHex_ok by done. cbn [mbind option_bind]. by rewrite Hts.
Qed.

(** A header with at least four fields, put back together. *)
Lemma four_fields tp a b c d more :
  split_on "-" tp = a :: b :: c :: d :: more →
  ∃ rest, tp = a ++ "-"%char :: b ++ "-"%char :: c ++ "-"%char :: d ++ rest ∧
    (rest = [] ∨ ∃ r, rest = "-"%char :: r).
Proof.
  intros (_ & [[? _]|(r1 & -> & (_ & [[? _]|(r2 & -> & (_ & [[? _]|(r3 & -> & (_ &
    Hd)%split_on_inv)])%split_on_inv)])%split_on_inv)])%split_on_inv; try done.
  destruct Hd as [[_ ->]|(r4 & -> & _)].
  - exists []. rewrite app_nil_r. eauto.
  - exists ("-"%char :: r4). eauto.
Qed.

Lemma w3c_refuses tp tsh :
  ExtractContextFromTraceHeaders tp tsh = Some GetInvalid ∨
  ∃ ver tid sid fl rest, w3c_fields tp ver tid sid fl rest.
Proof.
  unfold ExtractContextFromTraceHeaders. rewrite SplitString_total. cbn [mbind option_bind].
  destruct (split_on "-" tp) as [|ver [|tid [|sid [|fl more]]]] eqn:Esp; [by left..|].
  cbn [length Nat.min Nat.eqb negb take lookup list_lookup mbind option_bind].
  destruct (four_fields _ _ _ _ _ _ Esp) as (rest & Etp & Hrest). clear Esp more.
  destruct (_ || negb (length fl =? kTraceFlagsSize)) eqn:El; [by left|]. bprop.
  destruct (_ || negb (IsValidHex fl)) eqn:Ex; [by left|]. bprop.
  rewrite HexToBinary_exact by done. destruct (hex_bytes_two ver) as [-> Hvr]; [done..|].
  cbn [mbind option_bind lookup list_lookup].
  destruct (hex_number ver =? kInvalidVersion)%Z eqn:Eff; [by left|]. bprop.
  set (too := if (kDefaultAssumedVersion <? hex_number ver)%Z then _ else _).
  destruct too eqn:Elen; [by left|]. subst too.
  rewrite TraceIdFromHex_ok, SpanIdFromHex_ok by done. cbn [mbind option_bind].
  destruct (TraceId_of_hex tid) as [_ ->]; [done..|]. destruct (SpanId_of_hex sid) as [_ ->]; [done..|].
  destruct (negb (negb (hex_number tid =? 0)%Z) || _) eqn:Ez; [by left|].
  apply orb_false_iff in Ez as [Ez1%negb_false_iff%negb_true_iff Ez2%negb_false_iff%negb_true_iff].
  bprop. right. exists ver, tid, sid, fl, rest. unfold w3c_fields. split_and!; try done.
  destruct Hrest as [->|(r & ->)]; [by left|]. right. split; [|by exists r].
  unfold kDefaultAssumedVersion in *. intros E0. rewrite E0 in Elen.
  cbn [Z.ltb Z.compare] in Elen. bprop. revert Elen. rewrite Etp, !length_app. cbn [length].
  rewrite !length_app. cbn [length]. rewrite !length_app. cbn [length].
  rewrite !length_app. cbn [length].
  unfold kVersionSize, kTraceIdSize, kSpanIdSize, kTraceFlagsSize, kTraceParentSize in *. lia.
Qed.

(** Extraction from the two header values never fails, accepts exactly the well-formed
    traceparent headers, and gives the identifiers, flags and trace state they spell. *)
Lemma w3c_headers tp tsh :
  ∃ c, ExtractContextFromTraceHeaders tp tsh = Some c ∧
    ((∃ ver tid sid fl rest ts, w3c_fields tp ver tid sid fl rest ∧ FromHeader tsh = Some ts ∧
        c = w3c_context tid sid fl ts ∧ SpanContext_IsValid c = true) ∨
     (c = GetInvalid ∧ ∀ ver tid sid fl rest, ¬ w3c_fields tp ver tid sid fl rest)).
Proof.
  destruct (FromHeader_total tsh) as (ts & Hts).
  destruct (w3c_refuses tp tsh) as [H|(ver & tid & sid & fl & rest & Hf)].
  - exists GetInvalid. split; [done|]. right. split; [done|]. intros ver tid sid fl rest Hf.
    rewrite (w3c_accepts _ _ _ _ _ _ _ _ Hf Hts) in H. discriminate H.
  - exists (w3c_context tid sid fl ts). split; [by eapply w3c_accepts|]. left.
    exists ver, tid, sid, fl, rest, ts. split_and!; [done..|].
    destruct Hf as (_ & _ & Lt & Ls & _ & _ & Ht & Hs & _ & _ & _ & Hnt & Hns).
    unfold SpanContext_IsValid, w3c_context. cbn [trace_id_ span_id_ SpanContext_new].
    destruct (TraceId_of_hex tid Lt Ht) as [_ ->]. destruct (SpanId_of_hex sid Ls Hs) as [_ ->].
    by rewrite !(proj2 (Z.eqb_neq _ _)).
Qed.

(** ** The headers [Inject] writes *)

(** Writing a run at the end of what is already written. *)
Lemma blit_app pre s rest :
  length s ≤ length rest →
  blit (pre ++ rest) (length pre) s = pre ++ s ++ drop (length s) rest.
Proof.
  unfold blit. revert pre rest. induction s as [|c s IH]; intros pre rest Hl; [done|].
  destruct rest as [|d rest]; simpl in Hl; [lia|]. cbn [list_inserts].
  replace (pre ++ d :: rest) with ((pre ++ [d]) ++ rest) by (by rewrite <-app_assoc).
  replace (S (length pre)) with (length (pre ++ [d])) by (rewrite length_app; simpl; lia).
  rewrite IH by lia. rewrite <-app_assoc. cbn [app].
  rewrite insert_app_r_alt by lia. rewrite Nat.sub_diag. done.
Qed.

Lemma blit_at pre n s m rest :
  n = length pre → m = length s → m ≤ length rest →
  blit (pre ++ rest) n s = (pre ++ s) ++ drop m rest.
Proof. intros -> -> Hl. rewrite blit_app by done. apply app_assoc. Qed.

Definition trace_parent_text (sc : SpanContext) : bytes :=
  B "00" ++ "-"%char :: base16 kHex_lower (trace_rep_ (trace_id_ sc))
  ++ "-"%char :: base16 kHex_lower (span_rep_ (span_id_ sc))
  ++ "-"%char :: base16 kHex_upper [flags_rep_ (trace_flags_ sc)].

Lemma trace_parent_of_text uninit sc :
  SpanContext_wf sc → length uninit = kTraceParentSize →
  trace_parent_of uninit sc = trace_parent_text sc.
Proof.
  intros ((Lt & _) & (Ls & _) & _) Hu. unfold trace_parent_of, trace_parent_text.
  unfold TraceId_ToLowerBase16, SpanId_ToLowerBase16, TraceFlags_ToLowerBase16.
  set (t := base16 kHex_lower (trace_rep_ _)). set (s := base16 kHex_lower (span_rep_ _)).
  set (f := base16 kHex_upper _).
  assert (Lt' : length t = 32) by (subst t; by rewrite length_base16, Lt).
  assert (Ls' : length s = 16) by (subst s; by rewrite length_base16, Ls).
  assert (Lf' : length f = 2) by (subst f; by rewrite length_base16).
  unfold kTraceParentSize, kTraceIdSize, kSpanIdSize in *. clearbody t s f.
  change (blit uninit 0 (B "0")) with (blit ([] ++ uninit) 0 (B "0")).
  rewrite (blit_at [] 0 (B "0") 1 uninit) by (done || simpl; lia). cbn [app].
  rewrite (blit_at (B "0") 1 (B "0") 1) by (done || (rewrite ?length_drop; simpl; lia)).
  rewrite (blit_at (B "0" ++ B "0") 2 (B "-") 1) by (done || (rewrite ?length_drop; simpl; lia)).
  rewrite (blit_at _ 3 t 32) by (rewrite ?length_app, ?length_drop, ?Lt'; simpl; lia).
  rewrite (blit_at _ (32 + 3) (B "-") 1) by (rewrite ?length_app, ?length_drop, ?Lt'; simpl; lia).
  rewrite (blit_at _ (32 + 4) s 16) by (rewrite ?length_app, ?length_drop, ?Lt', ?Ls'; simpl; lia).
  rewrite (blit_at _ (32 + 16 + 4) (B "-") 1)
    by (rewrite ?length_app, ?length_drop, ?Lt', ?Ls'; simpl; lia).
  rewrite (blit_at _ (32 + 16 + 5) f 2)
    by (rewrite ?length_app, ?length_drop, ?Lt', ?Ls', ?Lf'; simpl; lia).
  rewrite !drop_drop, drop_ge, app_nil_r by (simpl; lia).
  by rewrite <-!app_assoc.
Qed.

Lemma trace_parent_fields sc :
  SpanContext_wf sc → SpanContext_IsValid sc = true →
  w3c_fields (trace_parent_text sc) (B "00") (base16 kHex_lower (trace_rep_ (trace_id_ sc)))
    (base16 kHex_lower (span_rep_ (span_id_ sc))) (base16 kHex_upper [flags_rep_ (trace_flags_ sc)]) []
  ∧ w3c_context (base16 kHex_lower (trace_rep_ (trace_id_ sc)))
      (base16 kHex_lower (span_rep_ (span_id_ sc))) (base16 kHex_upper [flags_rep_ (trace_flags_ sc)])
    = λ ts, SpanContext_new (trace_id_ sc) (span_id_ sc) (trace_flags_ sc) true ts.
Proof.
  intros ((Lt & Ht) & (Ls & Hs) & Hf & _) [Hvt Hvs]%andb_true_iff.
  assert (Hlo : kHex_lower = kHex_lower ∨ kHex_lower = kHex_upper) by (by left).
  assert (Hup : kHex_upper = kHex_lower ∨ kHex_upper = kHex_upper) by (by right).
  assert (Hf1 : Forall u8 [flags_rep_ (trace_flags_ sc)]) by (constructor; [exact Hf|constructor]).
  assert (Lt' : length (base16 kHex_lower (trace_rep_ (trace_id_ sc))) = 32) by (by rewrite length_base16, Lt).
  assert (Ls' : length (base16 kHex_lower (span_rep_ (span_id_ sc))) = 16) by (by rewrite length_base16, Ls).
  pose proof (IsValidHex_base16 _ Hlo _ Ht) as Vt. pose proof (IsValidHex_base16 _ Hlo _ Hs) as Vs.
  pose proof (IsValidHex_base16 _ Hup _ Hf1) as Vf.
  pose proof (hex_bytes_base16 _ Hlo _ Ht) as Et. pose proof (hex_bytes_base16 _ Hlo _ Hs) as Es.
  pose proof (hex_bytes_base16 _ Hup _ Hf1) as Ef.
  destruct (hex_bytes_two (base16 kHex_upper [flags_rep_ (trace_flags_ sc)]) eq_refl Vf) as [Ef' _]. 
  assert (Ef0 : hex_number (base16 kHex_upper [flags_rep_ (trace_flags_ sc)]) = flags_rep_ (trace_flags_ sc))
    by congruence. clear Ef Ef'.
  split.
  - unfold w3c_fields. split_and!; try done.
    + by left.
    + rewrite <-hex_bytes_number, Et by (by rewrite ?Lt'). by apply TraceId_IsValid_spec.
    + rewrite <-hex_bytes_number, Es by (by rewrite ?Ls'). by apply SpanId_IsValid_spec.
  - unfold w3c_context. rewrite Et, Es, Ef0. by destruct (trace_id_ sc), (span_id_ sc), (trace_flags_ sc).
Qed.

(** The header neither starts nor ends with a blank, so trimming keeps it. *)
Lemma trim_trace_parent sc :
  SpanContext_wf sc → trim (trace_parent_text sc) = trace_parent_text sc.
Proof.
  intros (_ & _ & Hf & _). apply trim_id.
  - by intros c s' [= <- _].
  - intros s' c E. set (f := flags_rep_ (trace_flags_ sc)) in *.
    assert (Et : trace_parent_text sc = (B "00" ++ "-"%char :: base16 kHex_lower (trace_rep_ (trace_id_ sc))
      ++ "-"%char :: base16 kHex_lower (span_rep_ (span_id_ sc))
      ++ "-"%char :: [nibble_chr kHex_upper f 4]) ++ [nibble_chr kHex_upper f 0]).
    { unfold trace_parent_text. cbn [base16]. fold f. repeat (rewrite <-app_assoc || rewrite <-app_comm_cons).
      done. }
    rewrite Et in E. apply app_inj_tail in E as [_ Hc].
    subst c. pose proof (IsValidHex_base16 kHex_upper (or_intror eq_refl) [f]) as V.
    unfold IsValidHex in V. cbn [base16 forallb] in V. rewrite !andb_true_iff in V.
    destruct V as (_ & V & _); [constructor; [exact Hf|constructor]|]. by destruct (hex_digit_plain _ V) as (_ & _ & ?).
Qed.

(** ** The propagator *)

Section laws.
Context {C : Type} `{TextMapCarrier C}.

Lemma ExtractImpl_headers (carrier : C) :
  HttpTraceContext_ExtractImpl carrier =
  ExtractContextFromTraceHeaders (trim (carrier_Get carrier kTraceParent)) (carrier_Get carrier kTraceState).
Proof using.
  unfold HttpTraceContext_ExtractImpl. rewrite Trim_spec. cbn [mbind option_bind].
  destruct (sv_eq _ []) eqn:E; [|done]. apply sv_eq_spec in E as ->.
  destruct (w3c_refuses [] (carrier_Get carrier kTraceState)) as [->|(v & t & s & f & r & E & L & _)]; [done|].
  destruct v; [done|discriminate E].
Qed.

Lemma Extract_cases (carrier : C) (context : Context) :
  ∃ context', HttpTraceContext_Extract carrier context = Some context' ∧
    ((∃ ver tid sid fl rest ts,
        w3c_fields (trim (carrier_Get carrier kTraceParent)) ver tid sid fl rest ∧
        FromHeader (carrier_Get carrier kTraceState) = Some ts ∧
        context' = SetSpan context (DefaultSpan (w3c_context tid sid fl ts))) ∨
     (context' = context ∧
      ∀ ver tid sid fl rest, ¬ w3c_fields (trim (carrier_Get carrier kTraceParent)) ver tid sid fl rest)).
Proof using.
  unfold HttpTraceContext_Extract. rewrite ExtractImpl_headers.
  destruct (w3c_headers (trim (carrier_Get carrier kTraceParent)) (carrier_Get carrier kTraceState))
    as (c & -> & Hc). cbn [mbind option_bind]. eexists. split; [done|].
  destruct Hc as [(v & t & s & f & r & ts & Hf & Hts & -> & ->)|[-> Hn]].
  - left. by exists v, t, s, f, r, ts.
  - right. by split.
Qed.
End laws.

(** C11: [Extract] always returns.  It sets a remote parent span exactly when the trimmed
    traceparent header is well formed, with the identifiers and flags the header spells in
    hexadecimal and the trace state of the tracestate header; otherwise it returns the
    context it was given. *)
Theorem HttpTraceContext_Extract_spec {C : Type} `{TextMapCarrier C} (carrier : C) (context : Context) :
  ∃ context', Extract HttpTraceContext carrier context = Some context' ∧
    ((∃ ver tid sid fl rest ts,
        w3c_fields (trim (carrier_Get carrier kTraceParent)) ver tid sid fl rest ∧
        FromHeader (carrier_Get carrier kTraceState) = Some ts ∧
        context' = SetSpan context (DefaultSpan (w3c_context tid sid fl ts)) ∧
        SpanContext_IsValid (GetContext (GetSpan context')) = true) ∨
     (context' = context ∧
      ∀ ver tid sid fl rest, ¬ w3c_fields (trim (carrier_Get carrier kTraceParent)) ver tid sid fl rest)).
Proof.
  destruct (Extract_cases carrier context) as (c' & Hc' & Hcases). exists c'. split; [exact Hc'|].
  destruct Hcases as [(v & t & s & f & r & ts & Hf & Hts & ->)|Hn]; [left|by right].
  exists v, t, s, f, r, ts. split_and!; [done..|]. rewrite GetSpan_SetSpan. cbn [GetContext].
  destruct Hf as (_ & _ & Lt & Ls & _ & _ & Ht & Hs & _ & _ & _ & Hnt & Hns).
  unfold SpanContext_IsValid, w3c_context. cbn [trace_id_ span_id_ SpanContext_new].
  destruct (TraceId_of_hex t Lt Ht) as [_ ->]. destruct (SpanId_of_hex s Ls Hs) as [_ ->].
  by rewrite !(proj2 (Z.eqb_neq _ _)).
Qed.

Lemma Inject_headers {C : Type} `{LawfulCarrier C} (carrier : C) sc :
  SpanContext_wf sc → (ToHeader (trace_state_ sc) = [] → carrier_Get carrier kTraceState = []) →
  carrier_Get (InjectImpl carrier sc) kTraceParent = trace_parent_text sc ∧
  carrier_Get (InjectImpl carrier sc) kTraceState = ToHeader (trace_state_ sc).
Proof.
  intros Hwf Hts. unfold InjectImpl.
  assert (Hne : lower <$> kTraceParent ≠ lower <$> kTraceState) by (by vm_compute).
  rewrite trace_parent_of_text by (done || by rewrite length_replicate).
  destruct (ToHeader (trace_state_ sc)) as [|c l] eqn:E; cbn [length Nat.eqb negb].
  - rewrite carrier_Get_Set, carrier_Get_Set_ne by done. split; [done|by apply Hts].
  - rewrite carrier_Get_Set_ne by (by apply not_eq_sym). by rewrite !carrier_Get_Set.
Qed.

(** Extraction from any carrier that holds the two headers of a span context. *)
Lemma Extract_injected {C : Type} `{TextMapCarrier C} (carrier : C) (ctx0 : Context) sc :
  SpanContext_wf sc → SpanContext_IsValid sc = true →
  carrier_Get carrier kTraceParent = trace_parent_text sc →
  carrier_Get carrier kTraceState = ToHeader (trace_state_ sc) →
  ∃ ts', HttpTraceContext_Extract carrier ctx0 =
      Some (SetSpan ctx0 (DefaultSpan
        (SpanContext_new (trace_id_ sc) (span_id_ sc) (trace_flags_ sc) true ts'))) ∧
    ts_pairs ts' = ts_pairs (trace_state_ sc).
Proof.
  intros Hwf Hval Htp Hts. unfold HttpTraceContext_Extract. rewrite ExtractImpl_headers, Htp, Hts.
  rewrite trim_trace_parent by done.
  destruct (header_roundtrip_pairs (trace_state_ sc)) as (ts' & Hts' & Hp); [by apply Hwf|].
  destruct (trace_parent_fields sc Hwf Hval) as [Hf Hctx]. exists ts'.
  rewrite (w3c_accepts _ _ _ _ _ _ _ _ Hf Hts'), Hctx. cbn [mbind option_bind].
  split; [|done]. do 2 f_equal. unfold SpanContext_IsValid in *.
  cbn [trace_id_ span_id_ SpanContext_new]. by rewrite Hval.
Qed.

(** C10: What one service injects, the next one extracts: over any carrier that stores what it is
    given, the extracted parent has the same trace id, span id and flags, is marked remote,
    and carries the same trace state entries. *)
Theorem HttpTraceContext_roundtrip {C : Type} `{LawfulCarrier C} (carrier : C) (ctx ctx0 : Context) sc :
  GetContext (GetSpan ctx) = sc → SpanContext_wf sc → SpanContext_IsValid sc = true →
  (ToHeader (trace_state_ sc) = [] → carrier_Get carrier kTraceState = []) →
  ∃ ts', Extract HttpTraceContext (Inject HttpTraceContext carrier ctx) ctx0 =
      Some (SetSpan ctx0 (DefaultSpan
        (SpanContext_new (trace_id_ sc) (span_id_ sc) (trace_flags_ sc) true ts'))) ∧
    ts_pairs ts' = ts_pairs (trace_state_ sc).
Proof.
  intros Hsc Hwf Hval Hts. cbn [Extract Inject HttpTraceContext]. unfold HttpTraceContext_Inject.
  rewrite Hsc, Hval. cbn [negb].
  destruct (Inject_headers carrier sc Hwf Hts) as [Htp Hst]. by apply Extract_injected.
Qed.

Definition example_span_context : SpanContext :=
  SpanContext_new (TraceId_new (seqZ 1 16)) (SpanId_new (seqZ 170 8)) (TraceFlags_new 1) false example_state.

Lemma example_span_context_wf : SpanContext_wf example_span_context.
Proof.
  unfold SpanContext_wf. split_and!.
  - split; [done|]. by apply (bool_decide_unpack (Forall (λ b, 0 ≤ b < 256)%Z _)).
  - split; [done|]. by apply (bool_decide_unpack (Forall (λ b, 0 ≤ b < 256)%Z _)).
  - vm_compute. by split.
  - split; [vm_compute; lia|]. apply forallb_Forall. vm_compute. reflexivity.
Defined.

Lemma HttpTraceContext_roundtrip_witness :
  carrier_Get (Inject HttpTraceContext (∅ : gmap bytes bytes)
      (SetSpan Context_default (DefaultSpan example_span_context))) kTraceParent =
    B "00-0102030405060708090a0b0c0d0e0f10-aaabacadaeafb0b1-01" ∧
  ∃ ts', Extract HttpTraceContext (Inject HttpTraceContext (∅ : gmap bytes bytes)
      (SetSpan Context_default (DefaultSpan example_span_context))) Context_default =
      Some (SetSpan Context_default (DefaultSpan
        (SpanContext_new (TraceId_new (seqZ 1 16)) (SpanId_new (seqZ 170 8)) (TraceFlags_new 1) true ts'))) ∧
    ts_pairs ts' = [(B "congo@t1", B "t61rcWkgMzE"); (B "rojo", B "00f067aa0ba902b7")].
Proof.
  split; [vm_compute; reflexivity|].
  apply (HttpTraceContext_roundtrip (∅ : gmap bytes bytes)
    (SetSpan Context_default (DefaultSpan example_span_context)) Context_default example_span_context).
  - vm_compute. reflexivity.
  - exact example_span_context_wf.
  - vm_compute. reflexivity.
  - intros _. reflexivity.
Defined.
