(* ===== verification/OtherPropagators.v ===== *)
(** * B3, Jaeger and baggage propagation

    trace/propagation/b3_propagator.h (single and multiple headers), jaeger.h,
    baggage/propagation/baggage_propagator.h, and the composition with the W3C propagator. *)
From S2P Require Export HttpTraceContext.

(** ** b3_propagator.h *)

Definition kB3CombinedHeader : bytes := B "b3".
Definition kB3TraceIdHeader : bytes := B "X-B3-TraceId".
Definition kB3SpanIdHeader : bytes := B "X-B3-SpanId".
Definition kB3SampledHeader : bytes := B "X-B3-Sampled".
Definition kTraceIdHexStrLength : nat := 32.
Definition kSpanIdHexStrLength : nat := 16.

Definition B3_TraceIdFromHex (trace_id : bytes) : option TraceId :=
  '(_, buf) ← HexToBinary trace_id (kTraceIdHexStrLength / 2); Some (TraceId_new buf).

Definition B3_SpanIdFromHex (span_id : bytes) : option SpanId :=
  '(_, buf) ← HexToBinary span_id (kSpanIdHexStrLength / 2); Some (SpanId_new buf).

Definition B3_TraceFlagsFromHex (trace_flags : bytes) : TraceFlags :=
  if negb (length trace_flags =? 1)
     || (negb (ceq (nth 0 trace_flags NUL) "1") && negb (ceq (nth 0 trace_flags NUL) "d"))
  then TraceFlags_new 0 else TraceFlags_new kIsSampled.

(** ** jaeger.h *)

Definition kJaegerTraceHeader : bytes := B "uber-trace-id".
Definition Jaeger_kIsSampled : Z := 1.

Definition GetTraceFlags (jaeger_flags : Z) : TraceFlags :=
  TraceFlags_new (Z.land jaeger_flags Jaeger_kIsSampled).

Section propagators.
Context {C : Type} `{TextMapCarrier C}.

(** The three hex fields: from the combined header when there is one. *)
Definition B3_fields (carrier : C) : option (option (bytes * bytes * bytes)) :=
  let singleB3Header := carrier_Get carrier kB3CombinedHeader in
  if negb (sv_empty singleB3Header) then
    '(n, results) ← SplitString singleB3Header "-" 3;
    if n <? 2 then Some None
    else
      trace_id_hex ← results !! 0; span_id_hex ← results !! 1;
      (* the array starts with empty views *)
      Some (Some (trace_id_hex, span_id_hex, default [] (results !! 2)))
  else
    Some (Some (carrier_Get carrier kB3TraceIdHeader, carrier_Get carrier kB3SpanIdHeader,
                carrier_Get carrier kB3SampledHeader)).

Definition B3_ExtractImpl (carrier : C) : option SpanContext :=
  fields ← B3_fields carrier;
  match fields with
  | None => Some GetInvalid
  | Some (trace_id_hex, span_id_hex, trace_flags_hex) =>
      if negb (IsValidHex trace_id_hex) || negb (IsValidHex span_id_hex) then Some GetInvalid
      else
        trace_id ← B3_TraceIdFromHex trace_id_hex;
        span_id ← B3_SpanIdFromHex span_id_hex;
        if negb (TraceId_IsValid trace_id) || negb (SpanId_IsValid span_id) then Some GetInvalid
        else Some (SpanContext_new trace_id span_id (B3_TraceFlagsFromHex trace_flags_hex) true GetDefault)
  end.

Definition B3_Extract (carrier : C) (context : Context) : option Context :=
  span_context ← B3_ExtractImpl carrier;
  let sp := DefaultSpan span_context in
  Some (if SpanContext_IsValid span_context then SetSpan context sp else context).

(** [char trace_identity[51]] and its writes. *)
Definition b3_identity (uninit : bytes) (sc : SpanContext) : bytes :=
  let buf := blit uninit 0 (TraceId_ToLowerBase16 (trace_id_ sc)) in
  let buf := blit buf kTraceIdHexStrLength (B "-") in
  let buf := blit buf (kTraceIdHexStrLength + 1) (SpanId_ToLowerBase16 (span_id_ sc)) in
  let buf := blit buf (kTraceIdHexStrLength + kSpanIdHexStrLength + 1) (B "-") in
  blit buf (kTraceIdHexStrLength + kSpanIdHexStrLength + 2)
    (if TraceFlags_IsSampled (trace_flags_ sc) then B "1" else B "0").

Definition B3Propagator_Inject (carrier : C) (context : Context) : C :=
  let span_context := GetContext (GetSpan context) in
  if negb (SpanContext_IsValid span_context) then carrier
  else carrier_Set carrier kB3CombinedHeader
         (b3_identity (replicate (kTraceIdHexStrLength + kSpanIdHexStrLength + 3) NUL) span_context).

Definition B3Propagator : TextMapPropagator C :=
  MkPropagator B3_Extract B3Propagator_Inject (λ S, fields_and [kB3CombinedHeader]).

Definition B3MultiHeader_Inject (carrier : C) (context : Context) : C :=
  let span_context := GetContext (GetSpan context) in
  if negb (SpanContext_IsValid span_context) then carrier
  else
    let trace_id := TraceId_ToLowerBase16 (trace_id_ span_context) in
    let span_id := SpanId_ToLowerBase16 (span_id_ span_context) in
    let trace_flags := TraceFlags_ToLowerBase16 (trace_flags_ span_context) in
    let carrier := carrier_Set carrier kB3TraceIdHeader trace_id in
    let carrier := carrier_Set carrier kB3SpanIdHeader span_id in
    carrier_Set carrier kB3SampledHeader (take 1 (drop 1 trace_flags)).

Definition B3PropagatorMultiHeader : TextMapPropagator C :=
  MkPropagator B3_Extract B3MultiHeader_Inject
    (λ S, fields_and [kB3TraceIdHeader; kB3SpanIdHeader; kB3SampledHeader]).

(** [char trace_identity[54]] and its writes: trace-id, span-id, "0", flags. *)
Definition jaeger_identity (uninit : bytes) (sc : SpanContext) : bytes :=
  let buf := blit uninit 0 (TraceId_ToLowerBase16 (trace_id_ sc)) in
  let buf := blit buf 32 (B ":") in
  let buf := blit buf (32 + 1) (SpanId_ToLowerBase16 (span_id_ sc)) in
  let buf := blit buf (32 + 16 + 1) (B ":") in
  let buf := blit buf (32 + 16 + 2) (B "0") in
  let buf := blit buf (32 + 16 + 3) (B ":") in
  let buf := blit buf (32 + 16 + 4) (B "0") in
  blit buf (32 + 16 + 5) (if SpanContext_IsSampled sc then B "1" else B "0").

Definition Jaeger_Inject (carrier : C) (context : Context) : C :=
  let span_context := GetContext (GetSpan context) in
  if negb (SpanContext_IsValid span_context) then carrier
  else carrier_Set carrier kJaegerTraceHeader (jaeger_identity (replicate (32 + 16 + 6) NUL) span_context).

Definition Jaeger_ExtractImpl (carrier : C) : option SpanContext :=
  let trace_identity := carrier_Get carrier kJaegerTraceHeader in
  '(n, trace_fields) ← SplitString trace_identity ":" 4;
  if negb (n =? 4) then Some GetInvalid
  else
    trace_id_hex ← trace_fields !! 0; span_id_hex ← trace_fields !! 1; flags_hex ← trace_fields !! 3;
    if negb (IsValidHex trace_id_hex) || negb (IsValidHex span_id_hex) || negb (IsValidHex flags_hex)
    then Some GetInvalid
    else
      '(ok, trace_id) ← HexToBinary trace_id_hex 16;
      if negb ok then Some GetInvalid
      else
        '(ok, span_id) ← HexToBinary span_id_hex 8;
        if negb ok then Some GetInvalid
        else
          '(ok, flags) ← HexToBinary flags_hex 1;
          if negb ok then Some GetInvalid
          else
            flag ← flags !! 0;
            Some (SpanContext_new (TraceId_new trace_id) (SpanId_new span_id) (GetTraceFlags flag) true GetDefault).

Definition Jaeger_Extract (carrier : C) (context : Context) : option Context :=
  span_context ← Jaeger_ExtractImpl carrier;
  let sp := DefaultSpan span_context in
  Some (if SpanContext_IsValid span_context then SetSpan context sp else context).

Definition JaegerPropagator : TextMapPropagator C :=
  MkPropagator Jaeger_Extract Jaeger_Inject (λ S, fields_and [kJaegerTraceHeader]).

(** ** baggage_propagator.h *)

Definition Baggage_Inject (carrier : C) (context : Context) : C :=
  let header := bg_ToHeader (GetBaggage context) in
  if negb (length header =? 0) then carrier_Set carrier kBaggageHeader header else carrier.

Definition Baggage_Extract (carrier : C) (context : Context) : option Context :=
  let baggage_str := carrier_Get carrier kBaggageHeader in
  baggage ← bg_FromHeader baggage_str;
  Some (if negb (length (bg_ToHeader baggage) =? 0) then SetBaggage context baggage else context).

Definition BaggagePropagator : TextMapPropagator C :=
  MkPropagator Baggage_Extract Baggage_Inject (λ S, fields_and [kBaggageHeader]).

End propagators.

(** ** Identifiers through other formats *)

Lemma B3_TraceIdFromHex_base16 t :
  TraceId_wf t → B3_TraceIdFromHex (TraceId_ToLowerBase16 t) = Some t.
Proof.
  intros [Hl Hb]. unfold B3_TraceIdFromHex, TraceId_ToLowerBase16. change (_ / 2) with TraceId_kSize.
  rewrite <-Hl, HexToBinary_base16 by (done || by left). cbn [mbind option_bind].
  unfold TraceId_new. rewrite take_ge by (by rewrite Hl). by destruct t.
Qed.

Lemma B3_SpanIdFromHex_base16 s :
  SpanId_wf s → B3_SpanIdFromHex (SpanId_ToLowerBase16 s) = Some s.
Proof.
  intros [Hl Hb]. unfold B3_SpanIdFromHex, SpanId_ToLowerBase16. change (_ / 2) with SpanId_kSize.
  rewrite <-Hl, HexToBinary_base16 by (done || by left). cbn [mbind option_bind].
  unfold SpanId_new. rewrite take_ge by (by rewrite Hl). by destruct s.
Qed.

Definition sampled_flags (f : TraceFlags) : TraceFlags :=
  TraceFlags_new (if TraceFlags_IsSampled f then kIsSampled else 0).

Definition without_state (sc : SpanContext) : SpanContext :=
  SpanContext_new (trace_id_ sc) (span_id_ sc) (sampled_flags (trace_flags_ sc)) true GetDefault.

(** The text of an identifier: valid digits, no separator. *)
Lemma trace_id_text t : TraceId_wf t →
  length (TraceId_ToLowerBase16 t) = 32 ∧ IsValidHex (TraceId_ToLowerBase16 t) = true.
Proof.
  intros [Hl Hb]. unfold TraceId_ToLowerBase16. rewrite length_base16, Hl. split; [done|].
  by apply IsValidHex_base16; [left|].
Qed.

Lemma span_id_text s : SpanId_wf s →
  length (SpanId_ToLowerBase16 s) = 16 ∧ IsValidHex (SpanId_ToLowerBase16 s) = true.
Proof.
  intros [Hl Hb]. unfold SpanId_ToLowerBase16. rewrite length_base16, Hl. split; [done|].
  by apply IsValidHex_base16; [left|].
Qed.

Lemma b3_identity_text uninit sc :
  SpanContext_wf sc → length uninit = 51 →
  b3_identity uninit sc =
    TraceId_ToLowerBase16 (trace_id_ sc) ++ "-"%char :: SpanId_ToLowerBase16 (span_id_ sc)
    ++ "-"%char :: (if TraceFlags_IsSampled (trace_flags_ sc) then B "1" else B "0").
Proof.
  intros (Ht & Hs & _) Hu. destruct (trace_id_text _ Ht) as [Lt _]. destruct (span_id_text _ Hs) as [Ls _].
  unfold b3_identity, kTraceIdHexStrLength, kSpanIdHexStrLength.
  set (t := TraceId_ToLowerBase16 _) in *. set (s := SpanId_ToLowerBase16 _) in *. clearbody t s.
  assert (Lf : length (if TraceFlags_IsSampled (trace_flags_ sc) then B "1" else B "0") = 1) by (by case_match).
  set (f := if TraceFlags_IsSampled _ then _ else _) in *. clearbody f.
  change (blit uninit 0 t) with (blit ([] ++ uninit) 0 t).
  rewrite (blit_at [] 0 t 32) by (done || simpl; lia). cbn [app].
  rewrite (blit_at _ 32 (B "-") 1) by (rewrite ?length_drop; simpl; lia).
  rewrite (blit_at _ (32 + 1) s 16) by (rewrite ?length_app, ?length_drop; simpl; lia).
  rewrite (blit_at _ (32 + 16 + 1) (B "-") 1) by (rewrite ?length_app, ?length_drop; simpl; lia).
  rewrite (blit_at _ (32 + 16 + 2) f 1) by (rewrite ?length_app, ?length_drop; simpl; lia).
  rewrite !drop_drop, drop_ge, app_nil_r by (simpl; lia). by rewrite <-!app_assoc.
Qed.

Lemma jaeger_identity_text uninit sc :
  SpanContext_wf sc → length uninit = 54 →
  jaeger_identity uninit sc =
    TraceId_ToLowerBase16 (trace_id_ sc) ++ ":"%char :: SpanId_ToLowerBase16 (span_id_ sc)
    ++ ":"%char :: "0"%char :: ":"%char :: "0"%char :: (if SpanContext_IsSampled sc then B "1" else B "0").
Proof.
  intros (Ht & Hs & _) Hu. destruct (trace_id_text _ Ht) as [Lt _]. destruct (span_id_text _ Hs) as [Ls _].
  unfold jaeger_identity.
  set (t := TraceId_ToLowerBase16 _) in *. set (s := SpanId_ToLowerBase16 _) in *. clearbody t s.
  assert (Lf : length (if SpanContext_IsSampled sc then B "1" else B "0") = 1) by (by case_match).
  set (f := if SpanContext_IsSampled _ then _ else _) in *. clearbody f.
  change (blit uninit 0 t) with (blit ([] ++ uninit) 0 t).
  rewrite (blit_at [] 0 t 32) by (done || simpl; lia). cbn [app].
  rewrite (blit_at _ 32 (B ":") 1) by (rewrite ?length_drop; simpl; lia).
  rewrite (blit_at _ (32 + 1) s 16) by (rewrite ?length_app, ?length_drop; simpl; lia).
  rewrite (blit_at _ (32 + 16 + 1) (B ":") 1) by (rewrite ?length_app, ?length_drop; simpl; lia).
  rewrite (blit_at _ (32 + 16 + 2) (B "0") 1) by (rewrite ?length_app, ?length_drop; simpl; lia).
  rewrite (blit_at _ (32 + 16 + 3) (B ":") 1) by (rewrite ?length_app, ?length_drop; simpl; lia).
  rewrite (blit_at _ (32 + 16 + 4) (B "0") 1) by (rewrite ?length_app, ?length_drop; simpl; lia).
  rewrite (blit_at _ (32 + 16 + 5) f 1) by (rewrite ?length_app, ?length_drop; simpl; lia).
  rewrite !drop_drop, drop_ge, app_nil_r by (simpl; lia). by rewrite <-!app_assoc.
Qed.

(** ** Round trips *)

Section roundtrips.
Context {C : Type} `{LawfulCarrier C}.

Lemma B3_extract_fields (carrier : C) sc fl :
  SpanContext_wf sc → SpanContext_IsValid sc = true →
  B3_fields carrier =
    Some (Some (TraceId_ToLowerBase16 (trace_id_ sc), SpanId_ToLowerBase16 (span_id_ sc), fl)) →
  ∀ ctx0, B3_Extract carrier ctx0 = Some (SetSpan ctx0 (DefaultSpan
    (SpanContext_new (trace_id_ sc) (span_id_ sc) (B3_TraceFlagsFromHex fl) true GetDefault))).
Proof using.
  intros (Ht & Hs & _) Hval Hf ctx0. unfold B3_Extract, B3_ExtractImpl. rewrite Hf.
  cbn [mbind option_bind]. destruct (trace_id_text _ Ht) as [_ ->]. destruct (span_id_text _ Hs) as [_ ->].
  cbn [negb orb]. rewrite B3_TraceIdFromHex_base16, B3_SpanIdFromHex_base16 by done.
  cbn [mbind option_bind]. pose proof Hval as [-> ->]%andb_true_iff. cbn [negb orb mbind option_bind].
  unfold SpanContext_IsValid in *. cbn [trace_id_ span_id_ SpanContext_new]. by rewrite Hval.
Qed.
End roundtrips.

(** B3 with one header: identifiers and the sampling decision survive, for every span context;
    the other flags and the trace state do not travel. *)
Theorem B3_single_roundtrip {C : Type} `{LawfulCarrier C} (carrier : C) (ctx ctx0 : Context) sc :
  GetContext (GetSpan ctx) = sc → SpanContext_wf sc → SpanContext_IsValid sc = true →
  Extract B3Propagator (Inject B3Propagator carrier ctx) ctx0 =
    Some (SetSpan ctx0 (DefaultSpan (without_state sc))).
Proof.
  intros Hsc Hwf Hval. cbn [Extract Inject B3Propagator]. unfold B3Propagator_Inject.
  rewrite Hsc, Hval. cbn [negb]. rewrite b3_identity_text by (done || by rewrite length_replicate).
  pose proof Hwf as (Ht & Hs & _).
  destruct (trace_id_text _ Ht) as [_ Vt]. destruct (span_id_text _ Hs) as [_ Vs].
  set (fl := if TraceFlags_IsSampled _ then _ else _).
  erewrite (B3_extract_fields _ sc fl Hwf Hval).
  - do 3 f_equal. unfold without_state, sampled_flags. f_equal. subst fl.
    by destruct (TraceFlags_IsSampled (trace_flags_ sc)).
  - unfold B3_fields. rewrite carrier_Get_Set.
    assert (E : sv_empty (TraceId_ToLowerBase16 (trace_id_ sc) ++ "-"%char ::
      SpanId_ToLowerBase16 (span_id_ sc) ++ "-"%char :: fl) = false).
    { unfold sv_empty. rewrite length_app. apply Nat.eqb_neq. simpl. lia. }
    rewrite E. cbn [negb]. rewrite SplitString_total.
    rewrite !split_on_cons by (by apply IsValidHex_no_dash).
    rewrite split_on_last by (subst fl; case_match; by repeat constructor). done.
Qed.

(** B3 with several headers: the identifiers survive, but the sampled header holds the last
    hexadecimal digit of the flags, and only the digit 1 is read back as sampled. *)
Theorem B3_multi_roundtrip {C : Type} `{LawfulCarrier C} (carrier : C) (ctx ctx0 : Context) sc :
  GetContext (GetSpan ctx) = sc → SpanContext_wf sc → SpanContext_IsValid sc = true →
  carrier_Get carrier kB3CombinedHeader = [] →
  Extract B3PropagatorMultiHeader (Inject B3PropagatorMultiHeader carrier ctx) ctx0 =
    Some (SetSpan ctx0 (DefaultSpan (SpanContext_new (trace_id_ sc) (span_id_ sc)
      (TraceFlags_new (if flags_rep_ (trace_flags_ sc) `mod` 16 =? 1 then 1 else 0)%Z) true GetDefault))).
Proof.
  intros Hsc Hwf Hval Hnone. cbn [Extract Inject B3PropagatorMultiHeader]. unfold B3MultiHeader_Inject.
  rewrite Hsc, Hval. cbn [negb]. pose proof Hwf as (_ & _ & Hf & _).
  assert (N1 : lower <$> kB3SampledHeader ≠ lower <$> kB3CombinedHeader) by (by vm_compute).
  assert (N2 : lower <$> kB3SpanIdHeader ≠ lower <$> kB3CombinedHeader) by (by vm_compute).
  assert (N3 : lower <$> kB3TraceIdHeader ≠ lower <$> kB3CombinedHeader) by (by vm_compute).
  assert (N4 : lower <$> kB3SampledHeader ≠ lower <$> kB3TraceIdHeader) by (by vm_compute).
  assert (N5 : lower <$> kB3SpanIdHeader ≠ lower <$> kB3TraceIdHeader) by (by vm_compute).
  assert (N6 : lower <$> kB3SampledHeader ≠ lower <$> kB3SpanIdHeader) by (by vm_compute).
  erewrite (B3_extract_fields _ sc _ Hwf Hval).
  2:{ unfold B3_fields. rewrite !(carrier_Get_Set_ne _ _ kB3CombinedHeader), Hnone by done.
      cbn [sv_empty length Nat.eqb negb].
      rewrite !(carrier_Get_Set_ne _ _ kB3TraceIdHeader), carrier_Get_Set by done.
      rewrite (carrier_Get_Set_ne _ _ kB3SpanIdHeader), carrier_Get_Set by done.
      by rewrite carrier_Get_Set. }
  do 3 f_equal. f_equal. unfold TraceFlags_ToLowerBase16. cbn [base16 drop take].
  set (f := flags_rep_ (trace_flags_ sc)) in *.
  pose proof (forall_seqZ (λ f, (flags_rep_ (B3_TraceFlagsFromHex [nibble_chr kHex_upper f 0]) =?
    flags_rep_ (TraceFlags_new (if f `mod` 16 =? 1 then 1 else 0)))%Z) 0 256 ltac:(vm_compute; reflexivity) f
    ltac:(exact Hf)) as E.
  apply Z.eqb_eq in E. destruct (B3_TraceFlagsFromHex _), (TraceFlags_new _). simpl in E. by subst.
Qed.

(** Jaeger: identifiers and the sampling decision survive. *)
Theorem Jaeger_roundtrip {C : Type} `{LawfulCarrier C} (carrier : C) (ctx ctx0 : Context) sc :
  GetContext (GetSpan ctx) = sc → SpanContext_wf sc → SpanContext_IsValid sc = true →
  Extract JaegerPropagator (Inject JaegerPropagator carrier ctx) ctx0 =
    Some (SetSpan ctx0 (DefaultSpan (without_state sc))).
Proof.
  intros Hsc Hwf Hval. cbn [Extract Inject JaegerPropagator]. unfold Jaeger_Inject.
  rewrite Hsc, Hval. cbn [negb]. rewrite jaeger_identity_text by (done || by rewrite length_replicate).
  pose proof Hwf as (Ht & Hs & _). pose proof Ht as [Lt Bt]. pose proof Hs as [Ls Bs].
  destruct (trace_id_text _ Ht) as [_ Vt]. destruct (span_id_text _ Hs) as [_ Vs].
  unfold Jaeger_Extract, Jaeger_ExtractImpl. rewrite carrier_Get_Set, SplitString_total.
  rewrite split_on_cons by (by apply IsValidHex_no_colon).
  rewrite split_on_cons by (by apply IsValidHex_no_colon).
  change ("0"%char :: ":"%char :: ?r) with (B "0" ++ ":"%char :: r).
  rewrite split_on_cons by (by repeat constructor).
  rewrite split_on_last by (case_match; by repeat constructor).
  cbn [length Nat.min Nat.eqb negb take mbind option_bind lookup list_lookup].
  rewrite Vt, Vs.
  assert (Vf : IsValidHex ("0"%char :: (if SpanContext_IsSampled sc then B "1" else B "0")) = true) by (by case_match).
  rewrite Vf. cbn [negb orb]. unfold TraceId_ToLowerBase16, SpanId_ToLowerBase16.
  assert (E1 : HexToBinary (base16 kHex_lower (trace_rep_ (trace_id_ sc))) 16 =
    Some (true, trace_rep_ (trace_id_ sc))).
  { change 16 with TraceId_kSize. rewrite <-Lt. apply HexToBinary_base16; [by left|done]. }
  assert (E2 : HexToBinary (base16 kHex_lower (span_rep_ (span_id_ sc))) 8 =
    Some (true, span_rep_ (span_id_ sc))).
  { change 8 with SpanId_kSize. rewrite <-Ls. apply HexToBinary_base16; [by left|done]. }
  rewrite E1, E2. cbn [mbind option_bind negb].
  assert (E3 : HexToBinary ("0"%char :: (if SpanContext_IsSampled sc then B "1" else B "0")) 1 =
    Some (true, [if SpanContext_IsSampled sc then 1 else 0]%Z)) by (by case_match).
  rewrite E3. cbn [mbind option_bind negb lookup list_lookup].
  unfold TraceId_new, SpanId_new. rewrite !take_ge by (by rewrite ?Lt, ?Ls).
  unfold SpanContext_IsValid in *. cbn [trace_id_ span_id_ SpanContext_new].
  replace (MkTraceId (trace_rep_ (trace_id_ sc))) with (trace_id_ sc) by (by destruct (trace_id_ sc)).
  replace (MkSpanId (span_rep_ (span_id_ sc))) with (span_id_ sc) by (by destruct (span_id_ sc)).
  rewrite Hval. unfold without_state, sampled_flags, SpanContext_IsSampled.
  by destruct (TraceFlags_IsSampled (trace_flags_ sc)).
Qed.

Lemma B3_single_roundtrip_witness :
  carrier_Get (Inject B3Propagator (∅ : gmap bytes bytes)
      (SetSpan Context_default (DefaultSpan example_span_context))) kB3CombinedHeader =
    B "0102030405060708090a0b0c0d0e0f10-aaabacadaeafb0b1-1" ∧
  Extract B3Propagator (Inject B3Propagator (∅ : gmap bytes bytes)
      (SetSpan Context_default (DefaultSpan example_span_context))) Context_default =
    Some (SetSpan Context_default (DefaultSpan (without_state example_span_context))).
Proof.
  split; [vm_compute; reflexivity|].
  apply (B3_single_roundtrip (∅ : gmap bytes bytes)
    (SetSpan Context_default (DefaultSpan example_span_context)) Context_default example_span_context).
  - vm_compute. reflexivity.
  - exact example_span_context_wf.
  - vm_compute. reflexivity.
Defined.

(** A sampled trace with a random trace id. *)
Definition random_span_context : SpanContext :=
  SpanContext_new (TraceId_new (seqZ 1 16)) (SpanId_new (seqZ 170 8)) (TraceFlags_new 3) false example_state.

Lemma random_span_context_wf : SpanContext_wf random_span_context.
Proof.
  destruct example_span_context_wf as (Ht & Hs & _ & Hts). split_and!; [exact Ht|exact Hs| |exact Hts].
  vm_compute. by split.
Defined.

(** The decision of a sampled trace with a random id is lost. *)
Lemma B3_multi_roundtrip_witness :
  SpanContext_IsSampled random_span_context = true ∧
  ∃ sc', Extract B3PropagatorMultiHeader (Inject B3PropagatorMultiHeader (∅ : gmap bytes bytes)
      (SetSpan Context_default (DefaultSpan random_span_context))) Context_default =
    Some (SetSpan Context_default (DefaultSpan sc')) ∧ SpanContext_IsSampled sc' = false.
Proof.
  split; [vm_compute; reflexivity|]. eexists. split.
  - apply (B3_multi_roundtrip (∅ : gmap bytes bytes)
      (SetSpan Context_default (DefaultSpan random_span_context)) Context_default random_span_context).
    + vm_compute. reflexivity.
    + exact random_span_context_wf.
    + vm_compute. reflexivity.
    + vm_compute. reflexivity.
  - vm_compute. reflexivity.
Defined.

Lemma Jaeger_roundtrip_witness :
  carrier_Get (Inject JaegerPropagator (∅ : gmap bytes bytes)
      (SetSpan Context_default (DefaultSpan example_span_context))) kJaegerTraceHeader =
    B "0102030405060708090a0b0c0d0e0f10:aaabacadaeafb0b1:0:01" ∧
  Extract JaegerPropagator (Inject JaegerPropagator (∅ : gmap bytes bytes)
      (SetSpan Context_default (DefaultSpan example_span_context))) Context_default =
    Some (SetSpan Context_default (DefaultSpan (without_state example_span_context))).
Proof.
  split; [vm_compute; reflexivity|].
  apply (Jaeger_roundtrip (∅ : gmap bytes bytes)
    (SetSpan Context_default (DefaultSpan example_span_context)) Context_default example_span_context).
  - vm_compute. reflexivity.
  - exact example_span_context_wf.
  - vm_compute. reflexivity.
Defined.

(** ** Composition *)

Lemma Baggage_Extract_injected {C : Type} `{TextMapCarrier C} (carrier : C) ctx0 b :
  bg_ok b → bg_pairs b ≠ [] → carrier_Get carrier kBaggageHeader = bg_ToHeader b →
  ∃ b', Baggage_Extract carrier ctx0 = Some (SetBaggage ctx0 b') ∧ bg_pairs b' = bg_pairs b.
Proof.
  intros Hok Hne Hh. unfold Baggage_Extract. rewrite Hh.
  destruct (bg_roundtrip_pairs b Hok) as (b' & -> & Hp). cbn [mbind option_bind].
  exists b'. split; [|done]. do 2 f_equal.
  destruct (length (bg_ToHeader b') =? 0) eqn:E; bprop; [|done]. exfalso.
  apply length_zero_iff_nil in E. rewrite bg_ToHeader_join, Hp in E.
  destruct Hok as (Hall & _). destruct (bg_pairs b) as [|kv l]; [done|].
  inversion Hall as [|? ? Hkv]; subst. apply bg_member_text_segment in Hkv as (Hm & _).
  rewrite fmap_cons in E. destruct (bg_member_text kv) eqn:Em; [done|].
  destruct l; [rewrite fmap_nil in E|rewrite fmap_cons in E]; simpl in E; discriminate E.
Qed.

Lemma Baggage_Inject_header {C : Type} `{LawfulCarrier C} (carrier : C) ctx :
  bg_ok (GetBaggage ctx) → bg_pairs (GetBaggage ctx) ≠ [] →
  Baggage_Inject carrier ctx = carrier_Set carrier kBaggageHeader (bg_ToHeader (GetBaggage ctx)).
Proof.
  intros Hok Hne. unfold Baggage_Inject.
  destruct (length (bg_ToHeader (GetBaggage ctx)) =? 0) eqn:E; bprop; [|done]. exfalso.
  apply length_zero_iff_nil in E.
  destruct (Baggage_Extract_injected (carrier_Set carrier kBaggageHeader []) [] (GetBaggage ctx) Hok Hne)
    as (b' & Hx & Hp); [by rewrite carrier_Get_Set, E|].
  unfold Baggage_Extract in Hx. rewrite carrier_Get_Set in Hx. by vm_compute in Hx.
Qed.

(** With the W3C and baggage propagators composed, one injection and one extraction carry the
    span context and the baggage together. *)
Theorem composite_roundtrip {C : Type} `{LawfulCarrier C} (carrier : C) (ctx ctx0 : Context) sc :
  GetContext (GetSpan ctx) = sc → SpanContext_wf sc → SpanContext_IsValid sc = true →
  (ToHeader (trace_state_ sc) = [] → carrier_Get carrier kTraceState = []) →
  bg_ok (GetBaggage ctx) → bg_pairs (GetBaggage ctx) ≠ [] →
  let p := CompositePropagator [HttpTraceContext; BaggagePropagator] in
  ∃ ctx' ts', Extract p (Inject p carrier ctx) ctx0 = Some ctx' ∧
    GetContext (GetSpan ctx') = SpanContext_new (trace_id_ sc) (span_id_ sc) (trace_flags_ sc) true ts' ∧
    ts_pairs ts' = ts_pairs (trace_state_ sc) ∧
    bg_pairs (GetBaggage ctx') = bg_pairs (GetBaggage ctx).
Proof.
  intros Hsc Hwf Hval Hts Hok Hne p. subst p. cbn [Extract Inject CompositePropagator].
  unfold composite_Inject. cbn [foldl Inject HttpTraceContext BaggagePropagator].
  unfold HttpTraceContext_Inject. rewrite Hsc, Hval. cbn [negb].
  rewrite Baggage_Inject_header by done.
  destruct (Inject_headers carrier sc Hwf Hts) as [Htp Hst].
  set (c' := carrier_Set (InjectImpl carrier sc) kBaggageHeader (bg_ToHeader (GetBaggage ctx))).
  assert (N1 : lower <$> kBaggageHeader ≠ lower <$> kTraceParent) by (by vm_compute).
  assert (N2 : lower <$> kBaggageHeader ≠ lower <$> kTraceState) by (by vm_compute).
  destruct (Extract_injected c' ctx0 sc Hwf Hval) as (ts' & Hx & Hp);
    [subst c'; by rewrite carrier_Get_Set_ne|subst c'; by rewrite carrier_Get_Set_ne|].
  destruct (Baggage_Extract_injected c' (SetSpan ctx0 (DefaultSpan
    (SpanContext_new (trace_id_ sc) (span_id_ sc) (trace_flags_ sc) true ts'))) (GetBaggage ctx) Hok Hne)
    as (b' & Hb & Hbp); [subst c'; by rewrite carrier_Get_Set|].
  rewrite composite_Extract_all. unfold extract_all.
  cbn [foldl Extract HttpTraceContext BaggagePropagator mbind option_bind]. rewrite Hx.
  cbn [mbind option_bind]. rewrite Hb. eexists _, ts'. split; [done|].
  by rewrite GetBaggage_SetBaggage, GetSpan_SetBaggage, GetSpan_SetSpan.
Qed.

Definition example_context : Context :=
  SetBaggage (SetSpan Context_default (DefaultSpan example_span_context)) example_baggage.

Lemma composite_roundtrip_witness :
  let p := CompositePropagator (C := gmap bytes bytes) [HttpTraceContext; BaggagePropagator] in
  field_names p = [kTraceParent; kTraceState; kBaggageHeader] ∧
  ∃ ctx' ts', Extract p (Inject p ∅ example_context) Context_default = Some ctx' ∧
    GetContext (GetSpan ctx') =
      SpanContext_new (TraceId_new (seqZ 1 16)) (SpanId_new (seqZ 170 8)) (TraceFlags_new 1) true ts' ∧
    ts_pairs ts' = ts_pairs example_state ∧
    bg_pairs (GetBaggage ctx') = [(B "user id", B "al=ice,1"); (B "k", B "v a;p=1;q")].
Proof.
  split; [vm_compute; reflexivity|].
  apply (composite_roundtrip (∅ : gmap bytes bytes) example_context Context_default example_span_context).
  - vm_compute. reflexivity.
  - exact example_span_context_wf.
  - vm_compute. reflexivity.
  - intros _. reflexivity.
  - exact example_baggage_ok.
  - vm_compute. discriminate.
Defined.

(** Composing lists of propagators is running them one after the other: contexts are threaded
    left to right in extraction, the carrier left to right in injection (so the later
    propagator wins), and no field is reported after a callback refused one. *)
Theorem composite_sequential {C : Type} (ps qs : list (TextMapPropagator C)) (carrier : C) context :
  let p := CompositePropagator ps in
  let q := CompositePropagator qs in
  let pq := CompositePropagator (ps ++ qs) in
  Extract pq carrier context = (ctx ← Extract p carrier context; Extract q carrier ctx) ∧
  Inject pq carrier context = Inject q (Inject p carrier context) context ∧
  (∀ S (cb : S → bytes → S * bool) s,
     Fields pq cb s = let '(s', b) := Fields p cb s in if b then Fields q cb s' else (s', false)) ∧
  Extract (CompositePropagator []) carrier context = Some context.
Proof.
  cbn zeta. cbn [Extract Inject Fields CompositePropagator]. split_and!.
  - rewrite !composite_Extract_all. unfold extract_all. rewrite foldl_app.
    destruct (foldl _ (Some context) ps) as [c|]; cbn [mbind option_bind].
    + by rewrite composite_Extract_all.
    + apply foldl_extract_None.
  - apply foldl_app.
  - intros S cb. induction ps as [|p ps IH]; intros s; cbn [app composite_Fields_loop]; [done|].
    destruct (Fields p cb s) as [s' b]. destruct b; [apply IH|]. by rewrite !composite_Fields_false.
  - done.
Qed.
