(* ===== verification/HttpParse.v ===== *)
(** * HTTP text parsing in the preloaded tracer

    src/roll-dice/preload_tracer.cpp: [parse_request_line], [parse_request_headers], the
    [HeaderCarrier] the W3C propagator reads from, and [parse_response_status], which reads
    the application's buffer in place. *)
From S2P Require Export HttpTraceContext.

Definition CRLF : bytes := ["013"; "010"]%char.

(** ** parse_request_line *)

(** [iss >> word]: blanks are skipped, then everything up to the next blank is read; [None]
    when the stream is left in a failed state. *)
Definition stream_word (s : bytes) : option (bytes * bytes) :=
  let r := drop_while isspace s in
  match take_while (negb ∘ isspace) r with
  | [] => None
  | w => Some (w, drop_while (negb ∘ isspace) r)
  end.

Definition parse_request_line (line : bytes) : bytes * bytes :=
  match stream_word line with
  | None => ([], [])
  | Some (method, iss) =>
      match stream_word iss with
      | None => (method, [])
      | Some (path, _) =>
          (method, match find_char "?" path 0 with Some q => take q path | None => path end)
      end
  end.

(** ** parse_request_headers *)

Abbreviation HeaderMap := (gmap bytes bytes).

(** [for (auto& c : key) if (c >= 'A' && c <= 'Z') c += 32;] *)
Definition header_key (key : bytes) : bytes := lower <$> key.

Definition strip_spaces (value : bytes) : bytes := drop_while (ceq " ") value.

(** What one line does to the map. *)
Definition parse_header_line (line : bytes) (out : HeaderMap) : option HeaderMap :=
  match find_char ":" line 0 with
  | None => Some out
  | Some colon =>
      key ← substr line 0 (Some colon);
      value ← (if colon + 1 <? length line then substr line (colon + 1) None else Some []);
      Some (<[header_key key := strip_spaces value]> out)
  end.

Fixpoint parse_request_headers_loop (fuel : nat) (data : bytes) (pos : nat) (out : HeaderMap) : option HeaderMap :=
  match fuel with
  | O => None
  | S f =>
      if pos <? length data then
        let line_end := find_sub CRLF data pos in
        line ← match line_end with
               | Some e => substr data pos (Some (e - pos))
               | None => substr data pos None
               end;
        if length line =? 0 then Some out
        else
          out ← parse_header_line line out;
          parse_request_headers_loop f data
            (match line_end with Some e => e + 2 | None => length data end) out
      else Some out
  end.

Definition parse_request_headers (data : bytes) : option HeaderMap :=
  match find_sub CRLF data 0 with
  | None => Some ∅
  | Some pos => parse_request_headers_loop (S (length data)) data (pos + 2) ∅
  end.

(** ** HeaderCarrier: a possibly null pointer to a header map; [Set] does nothing. *)

Record HeaderCarrier := MkHeaderCarrier { headers : option HeaderMap }.

Definition HeaderCarrier_Get (c : HeaderCarrier) (key : bytes) : bytes :=
  match headers c with
  | None => []
  | Some m => match m !! (header_key key) with None => [] | Some v => v end
  end.

#[export] Instance header_carrier : TextMapCarrier HeaderCarrier := {
  carrier_Get := HeaderCarrier_Get;
  carrier_Set c _ _ := c;
}.

(** ** parse_response_status

    [mem] is the memory from [buf] on: the [len] bytes written, and whatever the process has
    mapped after them, which [strtol] can reach. *)
Definition parse_response_status (mem : bytes) (len : nat) : option Z :=
  if len <? 12 then None
  else if negb (is_prefix (B "HTTP/1.") mem) then None
  else
    let p := 8 + length (take_while (ceq " ") (slice mem 8 len)) in
    if len <=? p then None
    else
      let r := strtol10 (drop p mem) in
      if (st_end r =? 0) || (st_value r <? 0)%Z || (999 <? st_value r)%Z then None
      else Some (st_value r).

(** ** Request lines *)

Lemma stream_word_spec sp w r :
  Forall (λ c, isspace c = true) sp → w ≠ [] → Forall (λ c, isspace c = false) w →
  (∀ c r', r = c :: r' → isspace c = true) →
  stream_word (sp ++ w ++ r) = Some (w, r).
Proof.
  intros Hsp Hne Hw Hr. unfold stream_word. rewrite drop_while_app by done.
  rewrite (drop_while_id _ (w ++ r)).
  2:{ intros c l E. destruct w as [|d w]; [done|]. injection E as <- _. by inversion Hw. }
  assert (Hw' : Forall (λ c, (negb ∘ isspace) c = true) w).
  { eapply list.Forall_impl; [exact Hw|]. intros c Hc. simpl. by rewrite Hc. }
  rewrite take_while_app, drop_while_app by done.
  assert (Er : take_while (negb ∘ isspace) r = [] ∧ drop_while (negb ∘ isspace) r = r).
  { destruct r as [|c r]; [done|]. simpl. by rewrite (Hr c r). }
  destruct Er as [-> ->]. rewrite app_nil_r. by destruct w.
Qed.

(** A request line with a method and a target: the method, and the target without its query. *)
Lemma parse_request_line_words m path query rest :
  m ≠ [] → Forall (λ c, isspace c = false) m →
  path ≠ [] → Forall (λ c, isspace c = false ∧ ceq "?" c = false) path →
  Forall (λ c, isspace c = false) query → (query = [] ∨ ∃ q, query = "?"%char :: q) →
  (∀ c r', rest = c :: r' → isspace c = true) →
  parse_request_line (m ++ " "%char :: path ++ query ++ rest) = (m, path).
Proof.
  intros Hm Hms Hp Hps Hqs Hq Hr. unfold parse_request_line.
  pose proof (stream_word_spec [] m (" "%char :: path ++ query ++ rest)) as E1. simpl app in E1.
  rewrite E1; [|constructor|done|done|by intros c r' [= <- _]].
  pose proof (stream_word_spec [" "%char] (path ++ query) rest) as E2.
  rewrite <-app_assoc in E2. simpl app in E2. rewrite E2; [|by repeat constructor| | |done].
  - f_equal. unfold find_char. rewrite drop_0 || unfold find_if_from. rewrite drop_0.
    assert (Hnq : Forall (λ c, ceq "?" c = false) path) by (eapply list.Forall_impl; [exact Hps|]; tauto).
    destruct Hq as [->|(q & ->)].
    + rewrite app_nil_r. apply index_of_None in Hnq. by rewrite Hnq.
    + rewrite index_of_hit by done. cbn [fmap option_fmap option_map Nat.add]. by rewrite take_app_length.
  - by destruct path.
  - apply list.Forall_app. split; [|done]. eapply list.Forall_impl; [exact Hps|]; tauto.
Qed.

(** ** Headers: what the loop over the buffer computes

    The buffer cut at each CRLF; text after the last one is a line of its own. *)
Fixpoint crlf_lines (cur s : bytes) : list bytes :=
  match s with
  | [] => match cur with [] => [] | _ => [cur] end
  | c :: s' =>
      if is_prefix CRLF s then cur :: match s' with [] => [] | _ :: r => crlf_lines [] r end
      else crlf_lines (cur ++ [c]) s'
  end.

Definition header_of_line (line : bytes) : option (bytes * bytes) :=
  i ← index_of (ceq ":") line;
  Some (header_key (take i line), strip_spaces (drop (i + 1) line)).

Definition insert_header (m : HeaderMap) (kv : bytes * bytes) : HeaderMap := <[kv.1 := kv.2]> m.

(** The lines between the first line and the first empty one, split at their first colon, the
    names in lower case; of two lines with the same name the later wins. *)
Definition headers_spec (data : bytes) : HeaderMap :=
  foldl insert_header ∅
    (omap header_of_line (take_while (λ l, negb (length l =? 0)) (tail (crlf_lines [] data)))).

Lemma find_sub_at_shift n s pos : find_sub_at n s pos = (λ i, pos + i) <$> find_sub_at n s 0.
Proof.
  revert pos. induction s as [|c s IH]; intros pos; cbn [find_sub_at].
  - destruct (is_prefix n []); simpl; [by rewrite Nat.add_0_r|done].
  - destruct (is_prefix n (c :: s)); [simpl; by rewrite Nat.add_0_r|].
    rewrite (IH (S pos)), (IH 1). destruct (find_sub_at n s 0); simpl; [f_equal; lia|done].
Qed.

Lemma crlf_lines_find cur s :
  crlf_lines cur s =
    match find_sub_at CRLF s 0 with
    | Some e => (cur ++ take e s) :: crlf_lines [] (drop (e + 2) s)
    | None => match cur ++ s with [] => [] | l => [l] end
    end.
Proof.
  revert cur. induction s as [|c s IH]; intros cur.
  - simpl. rewrite app_nil_r. by destruct cur.
  - cbn [crlf_lines find_sub_at]. destruct (is_prefix CRLF (c :: s)) eqn:E.
    + cbn [take Nat.add]. rewrite app_nil_r. f_equal. destruct s; [|done]. simpl in E. by destruct (ceq _ c).
    + rewrite IH, (find_sub_at_shift _ s 1). destruct (find_sub_at CRLF s 0) as [e|]; cbn [fmap option_fmap option_map].
      * rewrite <-app_assoc. done.
      * rewrite <-app_assoc. done.
Qed.

Lemma find_sub_at_lt s e : find_sub_at CRLF s 0 = Some e → e + 2 ≤ length s.
Proof.
  revert e. induction s as [|c s IH]; intros e; cbn [find_sub_at].
  - done.
  - destruct (is_prefix CRLF (c :: s)) eqn:E.
    + intros [= <-]. apply is_prefix_spec in E as (r & E). rewrite E, length_app. simpl. lia.
    + rewrite find_sub_at_shift. intros (e' & He' & ->)%fmap_Some. apply IH in He'. simpl. lia.
Qed.

Lemma parse_header_line_spec line out :
  parse_header_line line out =
    Some (match header_of_line line with Some kv => insert_header out kv | None => out end).
Proof.
  unfold parse_header_line, header_of_line, find_char, find_if_from. rewrite drop_0.
  destruct (index_of (ceq ":") line) as [i|] eqn:E; cbn [fmap option_fmap option_map mbind option_bind]; [|done].
  apply index_of_lt in E. rewrite Nat.add_0_l, substr_spec by lia. cbn [mbind option_bind].
  destruct (i + 1 <? length line) eqn:El; bprop.
  - rewrite substr_spec by lia. done.
  - by rewrite drop_ge by lia.
Qed.

Lemma headers_loop_spec fuel data pos out :
  length data - pos < fuel → pos ≤ length data →
  parse_request_headers_loop fuel data pos out =
    Some (foldl insert_header out
      (omap header_of_line (take_while (λ l, negb (length l =? 0)) (crlf_lines [] (drop pos data))))).
Proof.
  revert pos out. induction fuel as [|f IH]; intros pos out Hf Hp; [lia|].
  cbn [parse_request_headers_loop]. destruct (pos <? length data) eqn:E; bprop.
  2:{ by rewrite drop_ge by lia. }
  unfold find_sub. rewrite (proj2 (Nat.ltb_ge _ _)) by lia.
  rewrite find_sub_at_shift, crlf_lines_find.
  destruct (find_sub_at CRLF (drop pos data) 0) as [e|] eqn:Ee; cbn [fmap option_fmap option_map].
  - apply find_sub_at_lt in Ee. rewrite length_drop in Ee.
    rewrite substr_spec by lia. cbn [mbind option_bind].
    replace (pos + e - pos) with e by lia. cbn [take_while app].
    destruct (length (take e (drop pos data)) =? 0) eqn:El; [done|]. cbn [negb].
    rewrite parse_header_line_spec. cbn [mbind option_bind]. rewrite IH by lia.
    rewrite omap_cons_eq, drop_drop, (Nat.add_assoc pos e 2).
    by destruct (header_of_line (take e (drop pos data))).
  - rewrite substr_spec by lia. cbn [mbind option_bind]. unfold app at 1.
    destruct (drop pos data) as [|c l] eqn:Ed.
    { apply (f_equal length) in Ed. rewrite length_drop in Ed. simpl in Ed. lia. }
    cbn [length Nat.eqb take_while negb]. rewrite parse_header_line_spec. cbn [mbind option_bind].
    rewrite IH, drop_ge by lia. rewrite omap_cons_eq.
    by destruct (header_of_line (c :: l)).
Qed.

Lemma parse_request_headers_spec data : parse_request_headers data = Some (headers_spec data).
Proof.
  unfold parse_request_headers, headers_spec, find_sub. cbn [Nat.ltb Nat.leb]. rewrite drop_0, crlf_lines_find.
  destruct (find_sub_at CRLF data 0) as [e|] eqn:E.
  - apply find_sub_at_lt in E. rewrite headers_loop_spec by lia. done.
  - simpl app. by destruct data.
Qed.

(** ** A rendered request parses back *)

Definition no_cr (s : bytes) : Prop := Forall (λ c, c ≠ "013"%char) s.

Definition render_header (kv : bytes * bytes) : bytes := kv.1 ++ B ": " ++ kv.2.

(** First line, header lines, empty line, body. *)
Definition render_request (line : bytes) (hs : list (bytes * bytes)) (body : bytes) : bytes :=
  line ++ CRLF ++ concat ((λ kv, render_header kv ++ CRLF) <$> hs) ++ CRLF ++ body.

Definition header_ok (kv : bytes * bytes) : Prop :=
  no_cr kv.1 ∧ no_cr kv.2 ∧ Forall (λ c, ceq ":" c = false) kv.1 ∧
  (∀ c v, kv.2 = c :: v → ceq " " c = false).

Definition header_okb (kv : bytes * bytes) : bool :=
  forallb (λ c, negb (ceq c "013")) kv.1 && forallb (λ c, negb (ceq c "013")) kv.2
  && forallb (λ c, negb (ceq ":" c)) kv.1 && negb (is_prefix (B " ") kv.2).

Lemma no_cr_bool s : forallb (λ c, negb (ceq c "013")) s = true → no_cr s.
Proof.
  intros H%forallb_Forall. eapply list.Forall_impl; [exact H|]. simpl. intros c Hc. by bprop.
Qed.

Lemma header_ok_bool kv : header_okb kv = true → header_ok kv.
Proof.
  unfold header_okb. intros [[[H1 H2]%andb_true_iff H3]%andb_true_iff H4]%andb_true_iff.
  split_and!; [by apply no_cr_bool..| |].
  - apply forallb_Forall in H3. eapply list.Forall_impl; [exact H3|]. intros c Hc. by apply negb_true_iff in Hc.
  - intros c v E. rewrite E in H4. cbn in H4. rewrite andb_true_r in H4. by apply negb_true_iff in H4.
Qed.

Lemma headers_ok_bool hs : forallb header_okb hs = true → Forall header_ok hs.
Proof. intros H%forallb_Forall. eapply list.Forall_impl; [exact H|]. apply header_ok_bool. Qed.

(** The value of the last header with that name, whatever its case. *)
Definition last_header (hs : list (bytes * bytes)) (key : bytes) : option bytes :=
  foldl (λ acc kv, if decide (header_key kv.1 = header_key key) then Some kv.2 else acc) None hs.

Lemma crlf_lines_line cur l r : no_cr l → crlf_lines cur (l ++ CRLF ++ r) = (cur ++ l) :: crlf_lines [] r.
Proof.
  intros Hl. revert cur. induction Hl as [|c l Hc _ IH]; intros cur; [by rewrite app_nil_r|].
  cbn [app crlf_lines]. assert (E : is_prefix CRLF (c :: l ++ CRLF ++ r) = false).
  { cbn [is_prefix CRLF]. by rewrite (proj2 (ceq_false _ _)). }
  rewrite E, IH, <-app_assoc. done.
Qed.

Lemma render_header_no_cr kv : header_ok kv → no_cr (render_header kv).
Proof.
  intros (Hk & Hv & _). unfold no_cr, render_header. rewrite !list.Forall_app. split_and!; [done| |done].
  by repeat constructor.
Qed.

Lemma header_of_rendered kv :
  header_ok kv → header_of_line (render_header kv) = Some (header_key kv.1, kv.2).
Proof.
  destruct kv as [k v]. intros (_ & _ & Hk & Hv). unfold header_of_line, render_header. cbn [fst snd] in *.
  change (B ": " ++ v) with (":"%char :: " "%char :: v).
  rewrite index_of_hit by done. cbn [mbind option_bind]. rewrite take_app_length.
  rewrite drop_app_add. cbn [drop]. unfold strip_spaces. cbn [drop_while].
  change (ceq " " " ") with true. cbn iota. by rewrite drop_while_id.
Qed.

Lemma crlf_lines_rendered hs r :
  Forall header_ok hs →
  take_while (λ l, negb (length l =? 0))
    (crlf_lines [] (concat ((λ kv, render_header kv ++ CRLF) <$> hs) ++ CRLF ++ r)) = render_header <$> hs.
Proof.
  induction 1 as [|kv hs Hkv _ IH].
  - change (concat _ ++ CRLF ++ r) with ([] ++ CRLF ++ r). by rewrite crlf_lines_line by constructor.
  - rewrite !fmap_cons. simpl concat. rewrite <-!app_assoc.
    rewrite (crlf_lines_line [] (render_header kv)) by (by apply render_header_no_cr).
    cbn [app take_while].
    assert (E : (length (render_header kv) =? 0) = false).
    { apply Nat.eqb_neq. unfold render_header. rewrite length_app. simpl. lia. }
    rewrite E. cbn [negb]. f_equal. exact IH.
Qed.

Lemma insert_headers_lookup (hs : list (bytes * bytes)) (m : HeaderMap) (key : bytes) :
  foldl insert_header m ((λ kv, (header_key kv.1, kv.2)) <$> hs) !! header_key key =
  foldl (λ acc kv, if decide (header_key kv.1 = header_key key) then Some kv.2 else acc)
    (m !! header_key key) hs.
Proof.
  revert m. induction hs as [|[k v] hs IH]; intros m; [done|]. rewrite fmap_cons. cbn [foldl].
  rewrite IH. f_equal. unfold insert_header. cbn [fst snd]. case_decide as E.
  - by rewrite E, lookup_insert_eq.
  - by rewrite lookup_insert_ne.
Qed.

Lemma headers_spec_rendered line hs body key :
  no_cr line → Forall header_ok hs →
  HeaderCarrier_Get (MkHeaderCarrier (Some (headers_spec (render_request line hs body)))) key = default [] (last_header hs key).
Proof.
  intros Hl Hhs. unfold headers_spec, render_request. rewrite crlf_lines_line by done. cbn [tail].
  rewrite crlf_lines_rendered by done.
  assert (E : omap header_of_line (render_header <$> hs) = (λ kv, (header_key kv.1, kv.2)) <$> hs).
  { clear -Hhs. induction Hhs as [|kv hs Hkv _ IH]; [done|]. rewrite !fmap_cons, omap_cons_eq.
    rewrite header_of_rendered by done. by f_equal. }
  rewrite E. unfold HeaderCarrier_Get. cbn [headers].
  rewrite insert_headers_lookup, lookup_empty.
  by destruct (last_header hs key) eqn:El; unfold last_header in El; rewrite El.
Qed.

(** Parsing the headers of a request never fails, and in a well-formed request the carrier
    finds every header whatever the case of its name, with the last value when the name is
    repeated, and an empty view when it is absent; the body is not looked at. *)
Theorem request_headers_roundtrip line hs body key :
  no_cr line → Forall header_ok hs →
  ∃ m, parse_request_headers (render_request line hs body) = Some m ∧
    carrier_Get (MkHeaderCarrier (Some m)) key = default [] (last_header hs key).
Proof.
  intros Hl Hhs. rewrite parse_request_headers_spec. eexists. split; [done|]. by apply headers_spec_rendered.
Qed.

Lemma request_headers_roundtrip_witness :
  ∃ m, parse_request_headers (render_request (B "GET /rolldice HTTP/1.1")
      [(B "Host", B "localhost:8080"); (B "TraceParent", B "00-x"); (B "HOST", B "dice")] (B "a: b")) = Some m ∧
    carrier_Get (MkHeaderCarrier (Some m)) (B "host") = B "dice".
Proof.
  destruct (request_headers_roundtrip (B "GET /rolldice HTTP/1.1")
    [(B "Host", B "localhost:8080"); (B "TraceParent", B "00-x"); (B "HOST", B "dice")] (B "a: b") (B "host"))
    as (m & Hm & Hc).
  - apply no_cr_bool. vm_compute. reflexivity.
  - apply headers_ok_bool. vm_compute. reflexivity.
  - exists m. split; [exact Hm|]. rewrite Hc. vm_compute. reflexivity.
Defined.

(** ** Response status *)

(** [strtol] does not look past a character that no number contains. *)
Definition stops_number (c : ascii) : bool :=
  negb (isspace c) && negb (isdigit c) && negb (ceq c "-") && negb (ceq c "+").

Lemma strtol10_stop a c r r' : stops_number c = true → strtol10 (a ++ c :: r) = strtol10 (a ++ c :: r').
Proof.
  intros [[[Hs Hd]%andb_true_iff Hm]%andb_true_iff Hp]%andb_true_iff. bprop.
  assert (Hsp : ceq c "-" = false ∧ ceq c "+" = false) by (by rewrite !ceq_false).
  unfold strtol10. rewrite !take_while_stop by done.
  set (sp := length (take_while isspace a)).
  assert (Hle : sp ≤ length a) by apply take_while_length_le.
  rewrite !drop_app_le by done.
  assert (Esg : sign_of (drop sp a ++ c :: r) = sign_of (drop sp a ++ c :: r')).
  { destruct (drop sp a); [|done]. simpl. by destruct Hsp as [-> ->]. }
  rewrite Esg. destruct (sign_of (drop sp a ++ c :: r')) as [neg sg] eqn:E.
  assert (Hsg : sp + sg ≤ length a).
  { destruct (drop sp a) as [|d l] eqn:Ed; simpl in E.
    - destruct Hsp as [Hm' Hp']. rewrite Hm', Hp' in E. injection E as _ <-. lia.
    - apply (f_equal length) in Ed. rewrite length_drop in Ed. simpl in Ed.
      repeat case_match; injection E as _ <-; lia. }
  by rewrite !drop_app_le, !take_while_stop by done.
Qed.

Lemma slice_app_l {A} (w t : list A) i : slice (w ++ t) i (length w) = drop i w.
Proof.
  unfold slice. destruct (decide (i ≤ length w)).
  - rewrite drop_app_le by done. rewrite take_app_le by (rewrite length_drop; lia).
    by rewrite take_ge by (rewrite length_drop; lia).
  - replace (length w - i) with 0 by lia. by rewrite (drop_ge w) by lia.
Qed.

(** The verdict on a response depends only on the bytes written, as soon as they include,
    after the protocol version, a character that cannot belong to a number: memory beyond the
    buffer has no influence. *)
Theorem response_status_in_bounds w0 c w1 mem mem' :
  8 ≤ length w0 → stops_number c = true →
  let w := w0 ++ c :: w1 in
  parse_response_status (w ++ mem) (length w) = parse_response_status (w ++ mem') (length w).
Proof.
  intros H8 Hc w. unfold parse_response_status. destruct (length w <? 12) eqn:E12; [done|].
  assert (Epre : ∀ m, is_prefix (B "HTTP/1.") (w ++ m) = is_prefix (B "HTTP/1.") w).
  { intros m. subst w. do 8 (destruct w0 as [|? w0]; [simpl in H8; lia|]). done. }
  rewrite !Epre, !slice_app_l. destruct (negb (is_prefix (B "HTTP/1.") w)); [done|].
  assert (Hns : ceq " " c = false).
  { unfold stops_number in Hc. destruct (ceq " " c) eqn:Ec; [|done]. apply ceq_true in Ec as <-. done. }
  set (p := 8 + length (take_while (ceq " ") (drop 8 w))).
  assert (Hp : p ≤ length w0).
  { subst p w. rewrite drop_app_le, take_while_stop by done.
    pose proof (take_while_length_le (ceq " ") (drop 8 w0)) as Hle. rewrite length_drop in Hle.
    cbn [Nat.add] in *. lia. }
  destruct (length w <=? p); [done|].
  assert (Er : strtol10 (drop p (w ++ mem)) = strtol10 (drop p (w ++ mem'))).
  { subst w. rewrite <-!app_assoc, !drop_app_le by done. cbn [app]. by apply strtol10_stop. }
  by rewrite Er.
Qed.

Lemma response_status_in_bounds_witness :
  parse_response_status (B "HTTP/1.1 200 OK" ++ B "12") (length (B "HTTP/1.1 200 OK")) =
  parse_response_status (B "HTTP/1.1 200 OK" ++ []) (length (B "HTTP/1.1 200 OK")).
Proof.
  apply (response_status_in_bounds (B "HTTP/1.1 200 ") "O" (B "K") (B "12") []).
  - vm_compute. lia.
  - vm_compute. reflexivity.
Defined.

(** Without such a character the digits can run on into whatever follows the buffer. *)
Example response_status_overread :
  parse_response_status (B "HTTP/1.1 200" ++ B " ") 12 = Some 200%Z ∧
  parse_response_status (B "HTTP/1.1 200" ++ B "7") 12 = None.
Proof. split; vm_compute; reflexivity. Qed.

(** A status line yields its code: "HTTP/1.", one more character, any blanks, digits worth at
    most 999 that end inside or outside the buffer. *)
Theorem response_status_line v k ds r len :
  ds ≠ [] → Forall (λ c, isdigit c = true) ds → (dec_value ds ≤ 999)%Z →
  take_while isdigit r = [] → 12 ≤ len → 8 + k < len →
  parse_response_status (B "HTTP/1." ++ v :: replicate k " "%char ++ ds ++ r) len = Some (dec_value ds).
Proof.
  intros Hne Hds Hmax Hr H12 Hlen. unfold parse_response_status.
  rewrite (proj2 (Nat.ltb_ge _ _)) by done.
  change (negb (is_prefix (B "HTTP/1.") (B "HTTP/1." ++ ?x))) with false. cbn iota.
  set (mem := B "HTTP/1." ++ _).
  assert (Ed : ∀ n, drop (8 + n) mem = drop n (replicate k " "%char ++ ds ++ r)) by done.
  assert (Hd : ∀ c l, ds = c :: l → ceq " " c = false).
  { intros c l ->. inversion Hds as [|? ? Hc]; subst. destruct (ceq " " c) eqn:E; [|done].
    apply ceq_true in E as <-. done. }
  assert (Ep : length (take_while (ceq " ") (slice mem 8 len)) = k).
  { unfold slice. change (drop 8 mem) with (drop (8 + 0) mem). rewrite (Ed 0), drop_0, take_app_ge by (rewrite length_replicate; lia).
    rewrite take_while_app by (by apply Forall_replicate). rewrite length_replicate.
    destruct (len - 8 - k) as [|n] eqn:En; [lia|].
    destruct ds as [|c l]; [done|]. cbn [app take take_while]. rewrite (Hd c l) by done.
    rewrite app_nil_r. apply length_replicate. }
  rewrite Ep, (proj2 (Nat.leb_gt _ _)) by lia. rewrite Ed, drop_app_length' by (by rewrite length_replicate).
  pose proof (dec_value_nonneg ds 0 ltac:(lia) Hds) as H0. fold (dec_value ds) in H0.
  rewrite strtol10_digits by (done || (unfold LONG_MAX; lia)). cbn [st_end st_value].
  rewrite (proj2 (Nat.eqb_neq _ _)) by (by destruct ds).
  rewrite !(proj2 (Z.ltb_ge _ _)) by lia. done.
Qed.

Lemma response_status_line_witness :
  parse_response_status (B "HTTP/1.1 404 Not Found") 22 = Some 404%Z.
Proof.
  apply (response_status_line "1" 1 (B "404") (B " Not Found") 22); try done; try (vm_compute; lia).
  by repeat constructor.
Defined.
