(* ===== verification/Preload.v ===== *)
(** * The preloaded tracer

    src/roll-dice/preload_tracer.cpp: the hooks that replace [accept], [read], [write] and
    [close], the lazy initialisation, the log and the process-exit path.

    The state is the file's globals.  The calls the hooks make on the tracing API, whose
    implementation is not under src/, are recorded in order in a log; [StartSpan] returns a
    fresh span handle.  Releasing the last reference to a span is recorded too, because the
    API promises that it ends a span that was not ended.  What the process environment, the
    dynamic linker and the kernel answer is an argument, the record [Env]. *)
From S2P Require Export HttpParse.

(** ** The tracing API as the hooks use it *)

Inductive AttributeValue := AVint (z : Z) | AVstring (s : bytes).
Inductive Parent := ParentSpanContext (c : SpanContext) | ParentContext (c : Context).

Record StartSpanOptions := MkStartSpanOptions {
  opts_kind : SpanKind;
  opts_parent : Parent;
}.

(** The options as [StartSpanOptions opts;] leaves them. *)
Definition StartSpanOptions_default : StartSpanOptions :=
  MkStartSpanOptions kInternal (ParentSpanContext GetInvalid).

Inductive call :=
  | CStartSpan (span : nat) (name : bytes) (opts : StartSpanOptions)
  | CSetAttribute (span : nat) (key : bytes) (value : AttributeValue)
  | CAddEvent (span : nat) (name : bytes)
  | CSetStatus (span : nat) (code : StatusCode) (description : bytes)
  | CEnd (span : nat)
  | CRelease (span : nat)
  | CForceFlush.

(** ** The globals *)

Record FdSpanContext := MkFdSpanContext {
  fd_span : nat;
  fd_method : bytes;
  fd_path : bytes;
}.

Record Preload := MkPreload {
  real_accept : bool;
  real_read : bool;
  real_write : bool;
  real_close : bool;
  tracer : bool;
  provider : bool;
  otel_initialized : bool;
  server_address : option bytes;
  server_port : option bytes;
  fd_span_map : gmap Z FdSpanContext;
  exporter_opts : option (bytes * bytes);
  calls : list call;
  next_span : nat;
  messages : list bytes;
}.

Definition Preload_init : Preload :=
  MkPreload false false false false false false false None None ∅ None [] 0 [].

(** What creating the exporter, processor, provider and tracer leads to. *)
Inductive create_outcome := CreateThrows | GetTracerThrows | CreateReturns.

Record Env := MkEnv {
  getenv : bytes → option bytes;
  create : create_outcome;
  dlsym : bytes → bool;
  os_accept : Z → Z;
  (** the count read and the contents of the caller's buffer afterwards *)
  os_read : Z → nat → Z * bytes;
  os_write : Z → bytes → nat → Z;
  os_close : Z → Z;
}.

(** [std::getenv]: a C string. *)
Definition c_getenv (env : Env) (name : bytes) : option bytes := cstr <$> getenv env name.

(** ** Effects: the state, exceptions, a crash, leaving the process *)

Inductive outcome (A : Type) :=
  | Ret (a : A) (s : Preload)
  | Throw (s : Preload)
  | Crash
  | Exit (code : Z) (s : Preload).
Arguments Ret {_}.
Arguments Throw {_}.
Arguments Crash {_}.
Arguments Exit {_}.

Definition M (A : Type) := Preload → outcome A.

#[global] Instance M_ret : MRet M := λ A a s, Ret a s.
#[global] Instance M_bind : MBind M := λ A C k m s,
  match m s with
  | Ret a s => k a s
  | Throw s => Throw s
  | Crash => Crash
  | Exit c s => Exit c s
  end.

Definition get : M Preload := λ s, Ret s s.
Definition modify (f : Preload → Preload) : M unit := λ s, Ret tt (f s).
Definition throw {A} : M A := λ s, Throw s.
Definition crash {A} : M A := λ _, Crash.
Definition exit_process {A} (code : Z) : M A := λ s, Exit code s.
Definition lift {A} (o : option A) : M A := match o with Some a => mret a | None => crash end.
Definition or_throw {A} (o : option A) : M A := match o with Some a => mret a | None => throw end.

Definition emit (c : call) : M unit := modify (λ s,
  MkPreload (real_accept s) (real_read s) (real_write s) (real_close s) (tracer s) (provider s)
    (otel_initialized s) (server_address s) (server_port s) (fd_span_map s) (exporter_opts s)
    (calls s ++ [c]) (next_span s) (messages s)).

Definition set_map (m : gmap Z FdSpanContext) : M unit := modify (λ s,
  MkPreload (real_accept s) (real_read s) (real_write s) (real_close s) (tracer s) (provider s)
    (otel_initialized s) (server_address s) (server_port s) m (exporter_opts s)
    (calls s) (next_span s) (messages s)).

Definition message (text : bytes) : M unit := modify (λ s,
  MkPreload (real_accept s) (real_read s) (real_write s) (real_close s) (tracer s) (provider s)
    (otel_initialized s) (server_address s) (server_port s) (fd_span_map s) (exporter_opts s)
    (calls s) (next_span s) (messages s ++ [text])).

(** [tracer->StartSpan(name, opts)] *)
Definition StartSpan (name : bytes) (opts : StartSpanOptions) : M nat := λ s,
  Ret (next_span s)
    (MkPreload (real_accept s) (real_read s) (real_write s) (real_close s) (tracer s) (provider s)
      (otel_initialized s) (server_address s) (server_port s) (fd_span_map s) (exporter_opts s)
      (calls s ++ [CStartSpan (next_span s) name opts]) (S (next_span s)) (messages s)).

(** A block that owns a reference to [span]: it is released when the block is left by an
    exception, and, with [scoped], also at its end. *)
Definition guarded {A} (span : nat) (body : M A) : M A := λ s,
  match body s with
  | Throw s => (emit (CRelease span) ≫= λ _, throw) s
  | r => r
  end.

Definition scoped {A} (span : nat) (body : M A) : M A :=
  a ← guarded span body; emit (CRelease span);; mret a.

(** ** Initialisation *)

Definition set_server (address port : bytes) : M unit := modify (λ s,
  MkPreload (real_accept s) (real_read s) (real_write s) (real_close s) (tracer s) (provider s)
    true (Some address) (Some port) (fd_span_map s) (exporter_opts s)
    (calls s) (next_span s) (messages s)).

Definition set_exporter (tr pr : bool) (opts : bytes * bytes) : M unit := modify (λ s,
  MkPreload (real_accept s) (real_read s) (real_write s) (real_close s) tr pr
    (otel_initialized s) (server_address s) (server_port s) (fd_span_map s) (Some opts)
    (calls s) (next_span s) (messages s)).

Definition init_tracer_lazy (env : Env) : M unit :=
  s ← get;
  if otel_initialized s then mret tt
  else
    set_server (default (B "localhost") (c_getenv env (B "OTEL_SERVER_ADDRESS")))
               (default (B "8080") (c_getenv env (B "OTEL_SERVER_PORT")));;
    match c_getenv env (B "OTEL_EXPORTER_OTLP_ENDPOINT") with
    | None | Some [] => message (B "[OTEL PRELOAD] OTEL_EXPORTER_OTLP_ENDPOINT not set; tracing disabled.")
    | Some endpoint_env =>
        let headers_env := c_getenv env (B "OTEL_EXPORTER_OTLP_HEADERS") in
        let opts := (endpoint_env, default [] headers_env) in
        match create env with
        | CreateThrows =>
            set_exporter (tracer s) (provider s) opts;;
            message (B "[OTEL PRELOAD] Failed to initialize tracing: ")
        | GetTracerThrows =>
            set_exporter (tracer s) true opts;;
            message (B "[OTEL PRELOAD] Failed to initialize tracing: ")
        | CreateReturns =>
            set_exporter true true opts;;
            message (B "[OTEL PRELOAD] Tracing initialized ✅")
        end
    end.

(** [if (!real_f) real_f = dlsym(RTLD_NEXT, "f")]; calling a null pointer crashes. *)
Definition resolve_accept (env : Env) : M unit := modify (λ s,
  MkPreload (real_accept s || dlsym env (B "accept")) (real_read s) (real_write s) (real_close s)
    (tracer s) (provider s) (otel_initialized s) (server_address s) (server_port s) (fd_span_map s)
    (exporter_opts s) (calls s) (next_span s) (messages s)).

Definition resolve_read (env : Env) : M unit := modify (λ s,
  MkPreload (real_accept s) (real_read s || dlsym env (B "read")) (real_write s) (real_close s)
    (tracer s) (provider s) (otel_initialized s) (server_address s) (server_port s) (fd_span_map s)
    (exporter_opts s) (calls s) (next_span s) (messages s)).

Definition resolve_write (env : Env) : M unit := modify (λ s,
  MkPreload (real_accept s) (real_read s) (real_write s || dlsym env (B "write")) (real_close s)
    (tracer s) (provider s) (otel_initialized s) (server_address s) (server_port s) (fd_span_map s)
    (exporter_opts s) (calls s) (next_span s) (messages s)).

Definition resolve_close (env : Env) : M unit := modify (λ s,
  MkPreload (real_accept s) (real_read s) (real_write s) (real_close s || dlsym env (B "close"))
    (tracer s) (provider s) (otel_initialized s) (server_address s) (server_port s) (fd_span_map s)
    (exporter_opts s) (calls s) (next_span s) (messages s)).

Definition call_real {A} (resolved : bool) (a : A) : M A := if resolved then mret a else crash.

(** [SetAttribute("server.address", server_address)], [std::stol(server_port)]: both pointers
    are set by the initialisation. *)
Definition set_server_attributes (span : nat) : M unit :=
  s ← get;
  address ← lift (server_address s);
  emit (CSetAttribute span (B "server.address") (AVstring address));;
  port_s ← lift (server_port s);
  port ← or_throw (stol port_s);
  emit (CSetAttribute span (B "server.port") (AVint port)).

(** ** accept *)

Definition hook_accept (env : Env) (sockfd : Z) : M Z :=
  init_tracer_lazy env;;
  resolve_accept env;;
  s ← get;
  client_fd ← call_real (real_accept s) (os_accept env sockfd);
  if negb (client_fd =? -1)%Z && tracer s then
    let opts := MkStartSpanOptions kServer (ParentSpanContext GetInvalid) in
    span ← StartSpan (B "HTTP accept") opts;
    scoped span (
      set_server_attributes span;;
      emit (CSetAttribute span (B "net.sock.peer.fd") (AVint client_fd));;
      emit (CAddEvent span (B "Accepted client fd: " ++ to_string client_fd));;
      emit (CEnd span));;
    mret client_fd
  else mret client_fd.

(** ** read *)

(** The test for an HTTP-like request. *)
Definition http_like (data method path : bytes) : bool :=
  negb (length method =? 0) && (1 <=? length path) && ceq (nth 0 path NUL) "/"
  && (match find_sub (B "HTTP/1.") data 0 with Some _ => true | None => false end
      || match find_sub (B "HTTP/2") data 0 with Some _ => true | None => false end).

Definition request_line_of (data : bytes) : option (bytes * bytes) :=
  first_line ← match find_sub CRLF data 0 with
               | Some line_end => substr data 0 (Some line_end)
               | None => Some data
               end;
  Some (parse_request_line first_line).

(** [if (it != end && !it->second.empty()) span->SetAttribute(name, it->second)] *)
Definition set_header_attribute (span : nat) (header_map : HeaderMap) (header name : bytes) : M unit :=
  match header_map !! header with
  | Some (c :: v) => emit (CSetAttribute span name (AVstring (c :: v)))
  | _ => mret tt
  end.

(** The request span, before it is published: started, with its attributes. *)
Definition open_request_span (data : bytes) (nbytes : Z) (method path : bytes) : M FdSpanContext :=
  header_map ← lift (parse_request_headers data);
  ctx_out ← lift (HttpTraceContext_Extract (MkHeaderCarrier (Some header_map)) Context_default);
  let opts := MkStartSpanOptions kServer (ParentContext ctx_out) in
  span ← StartSpan (method ++ B " " ++ path) opts;
  guarded span (
    emit (CSetAttribute span (B "http.request.method") (AVstring method));;
    emit (CSetAttribute span (B "url.path") (AVstring path));;
    emit (CSetAttribute span (B "http.request.body.size") (AVint nbytes));;
    set_server_attributes span;;
    set_header_attribute span header_map (B "user-agent") (B "http.request.header.user_agent");;
    set_header_attribute span header_map (B "x-request-id") (B "http.request.header.x_request_id");;
    emit (CAddEvent span (B "Request received"));;
    mret (MkFdSpanContext span method path)).

(** The part of [read] before the lock is taken: the result and the span to publish. *)
Definition read_open (env : Env) (fd : Z) (count : nat) : M (Z * option FdSpanContext) :=
  init_tracer_lazy env;;
  resolve_read env;;
  s ← get;
  '(nbytes, buf) ← call_real (real_read s) (os_read env fd count);
  if (0 <? nbytes)%Z && tracer s then
    let data := take (Z.to_nat nbytes) buf in
    '(method, path) ← lift (request_line_of data);
    if http_like data method path then
      ctx ← open_request_span data nbytes method path;
      mret (nbytes, Some ctx)
    else mret (nbytes, None)
  else mret (nbytes, None).

(** [fd_span_map[fd] = std::move(ctx)], under the lock: a span that was there is released. *)
Definition publish (fd : Z) (ctx : FdSpanContext) : M unit :=
  s ← get;
  set_map (<[fd := ctx]> (fd_span_map s));;
  match fd_span_map s !! fd with
  | Some old => emit (CRelease (fd_span old))
  | None => mret tt
  end.

Definition hook_read (env : Env) (fd : Z) (count : nat) : M Z :=
  '(nbytes, o) ← read_open env fd count;
  match o with
  | Some ctx => publish fd ctx;; mret nbytes
  | None => mret nbytes
  end.

(** ** write *)

(** End the span of [fd], remove the entry and release the span, all under the lock. *)
Definition end_and_erase (fd : Z) (ctx : FdSpanContext) : M unit :=
  emit (CEnd (fd_span ctx));;
  s ← get;
  set_map (delete fd (fd_span_map s));;
  emit (CRelease (fd_span ctx)).

Definition record_status (span : nat) (status_code n : Z) : M unit :=
  emit (CSetAttribute span (B "http.response.status_code") (AVint status_code));;
  emit (CSetAttribute span (B "http.response.body.size") (AVint n));;
  if (400 <=? status_code)%Z
  then emit (CSetStatus span kError (B "HTTP " ++ to_string status_code))
  else emit (CSetStatus span kOk []).

(** [mem] is the memory from the buffer on, of which [count] bytes are the caller's. *)
Definition hook_write (env : Env) (fd : Z) (mem : bytes) (count : nat) : M Z :=
  init_tracer_lazy env;;
  resolve_write env;;
  s ← get;
  n ← call_real (real_write s) (os_write env fd mem count);
  if (0 <? n)%Z && tracer s then
    match fd_span_map s !! fd with
    | Some ctx =>
        match parse_response_status mem (Z.to_nat n) with
        | Some status_code => record_status (fd_span ctx) status_code n
        | None => mret tt
        end;;
        end_and_erase fd ctx;;
        mret n
    | None => mret n
    end
  else mret n.

(** ** close *)

Definition end_span_for_fd (fd : Z) : M unit :=
  s ← get;
  match fd_span_map s !! fd with
  | Some ctx => end_and_erase fd ctx
  | None => mret tt
  end.

Definition hook_close (env : Env) (fd : Z) : M Z :=
  resolve_close env;;
  end_span_for_fd fd;;
  s ← get;
  call_real (real_close s) (os_close env fd).

(** ** Log, constructor, destructor, signal handler *)

Definition STDERR_FILENO : Z := 2.

(** The log goes through [write], which is the hook. *)
Definition preload_log (env : Env) (msg : bytes) : M unit :=
  hook_write env STDERR_FILENO (msg ++ [NUL]) (length (cstr msg));;
  hook_write env STDERR_FILENO (["010"%char; NUL]) 1;;
  mret tt.

Definition flush_spans (env : Env) : M unit :=
  s ← get;
  if negb (provider s) then mret tt
  else preload_log env (B "[OTEL PRELOAD] Flushing spans...");; emit CForceFlush.

Definition preload_init (env : Env) : M unit := preload_log env (B "[OTEL PRELOAD] Library loaded").

Definition preload_cleanup (env : Env) : M unit :=
  flush_spans env;; preload_log env (B "[OTEL PRELOAD] Library unloaded").

Definition sigint_handler (env : Env) (signum : Z) : M unit :=
  flush_spans env;; exit_process signum.
