(* ===== verification/PreloadSpans.v ===== *)
(** * The life of a span in the preloaded tracer

    Every call on a span is legal at the moment it is made (no attribute, event, status or
    second [End] after the span ended, nothing before it started), a span is held by exactly
    one map entry or one thread from its start to its end, and nothing is leaked: whatever
    the interleaving of the hooks of any number of threads.

    The relation [conc_step] interleaves them.  [write], [close] and the accept hook's private
    span are single steps, since the map is only touched under the lock; a [read] takes two
    steps, the span being opened before the lock is taken and published under it. *)
From S2P Require Export Preload.

(** ** The protocol of one span, read off the log of calls *)

Inductive phase := Unborn | Active | Ended | Released | Broken.

Definition span_of (c : call) : option nat :=
  match c with
  | CStartSpan i _ _ | CSetAttribute i _ _ | CAddEvent i _ | CSetStatus i _ _ | CEnd i | CRelease i => Some i
  | CForceFlush => None
  end.

(** A call on the span itself. *)
Definition next_phase (c : call) (p : phase) : phase :=
  match c, p with
  | CStartSpan _ _ _, Unborn => Active
  | CSetAttribute _ _ _, Active | CAddEvent _ _, Active | CSetStatus _ _ _, Active => Active
  | CEnd _, Active => Ended
  | CRelease _, Active | CRelease _, Ended => Released
  | _, _ => Broken
  end.

Definition step_phase (id : nat) (p : phase) (c : call) : phase :=
  if decide (span_of c = Some id) then next_phase c p else p.

Definition phase_of (cs : list call) (id : nat) : phase := foldl (step_phase id) Unborn cs.

Lemma phase_of_snoc cs c id : phase_of (cs ++ [c]) id = step_phase id (phase_of cs id) c.
Proof. apply foldl_snoc. Qed.

(** ** The log invariant

    [L] lists the holders of running spans, [D] the holders of spans that have ended, [n] is
    the next handle. *)
Definition expected (L D : list nat) (n id : nat) : phase :=
  if decide (id ∈ L) then Active else if decide (id ∈ D) then Ended
  else if decide (id < n) then Released else Unborn.

Definition log_ok (L D : list nat) (n : nat) (cs : list call) : Prop :=
  NoDup (L ++ D) ∧ Forall (λ id, id < n) (L ++ D) ∧ ∀ id, phase_of cs id = expected L D n id.

#[global] Instance expected_proper : Proper ((≡ₚ) ==> (≡ₚ) ==> eq ==> eq ==> eq) expected.
Proof.
  intros L L' HL D D' HD n _ <- id _ <-. unfold expected.
  rewrite (decide_ext (id ∈ L) (id ∈ L')) by (by rewrite HL).
  by rewrite (decide_ext (id ∈ D) (id ∈ D')) by (by rewrite HD).
Qed.

#[global] Instance log_ok_proper : Proper ((≡ₚ) ==> (≡ₚ) ==> eq ==> eq ==> iff) log_ok.
Proof.
  intros L L' HL D D' HD n _ <- cs _ <-. unfold log_ok. rewrite HL, HD.
  split; intros (H1 & H2 & H3); split_and!; try done; intros id; rewrite H3.
  - by apply expected_proper.
  - symmetry. by apply expected_proper.
Qed.

Lemma log_start L D n cs name opts :
  log_ok L D n cs → log_ok (n :: L) D (S n) (cs ++ [CStartSpan n name opts]).
Proof.
  intros (Hnd & Hlt & Hp). rewrite list.Forall_forall in Hlt.
  assert (Hn : n ∉ L ++ D) by (intros Hin; specialize (Hlt n Hin); lia).
  split_and!.
  - cbn [app]. by constructor.
  - cbn [app]. constructor; [lia|]. apply list.Forall_forall. intros id Hid. specialize (Hlt id Hid). lia.
  - intros id. rewrite phase_of_snoc, Hp. unfold step_phase. cbn [span_of].
    destruct (decide (Some n = Some id)) as [[= <-]|Hne].
    + unfold expected. rewrite (decide_False (P := n ∈ L)) by set_solver.
      rewrite (decide_False (P := n ∈ D)) by set_solver. rewrite (decide_False (P := n < n)) by lia.
      by rewrite decide_True by set_solver.
    + unfold expected. assert (id ≠ n) by congruence.
      rewrite (decide_ext (id ∈ n :: L) (id ∈ L)) by set_solver.
      by rewrite (decide_ext (id < S n) (id < n)) by lia.
Qed.

Lemma log_op L D n cs c id :
  log_ok L D n cs → id ∈ L → span_of c = Some id → next_phase c Active = Active →
  log_ok L D n (cs ++ [c]).
Proof.
  intros (Hnd & Hlt & Hp) Hin Hc Hact. split_and!; [done..|]. intros id'.
  rewrite phase_of_snoc, Hp. unfold step_phase. rewrite Hc.
  destruct (decide (Some id = Some id')) as [[= <-]|Hne]; [|done].
  unfold expected. by rewrite decide_True.
Qed.

(** A call that moves [id] from [Active] or [Ended] to another phase. *)
Lemma log_move L D L' D' n cs c id :
  log_ok L D n cs → span_of c = Some id →
  NoDup (L' ++ D') → (∀ x, x ∈ L' ++ D' → x ∈ L ++ D) →
  (∀ x, x ≠ id → (x ∈ L' ↔ x ∈ L) ∧ (x ∈ D' ↔ x ∈ D)) →
  next_phase c (expected L D n id) = expected L' D' n id →
  log_ok L' D' n (cs ++ [c]).
Proof.
  intros (Hnd & Hlt & Hp) Hc Hnd' Hsub Hother Hid. split_and!; [done| |].
  - rewrite list.Forall_forall in *. eauto.
  - intros x. rewrite phase_of_snoc, Hp. unfold step_phase. rewrite Hc.
    destruct (decide (Some id = Some x)) as [[= <-]|Hne]; [done|].
    destruct (Hother x) as [H1 H2]; [congruence|]. unfold expected.
    rewrite (decide_ext (x ∈ L') (x ∈ L)) by done. by rewrite (decide_ext (x ∈ D') (x ∈ D)).
Qed.

Lemma log_end L D n cs id :
  log_ok (id :: L) D n cs → log_ok L (id :: D) n (cs ++ [CEnd id]).
Proof.
  intros H. pose proof H as (Hnd & _). cbn [app] in Hnd. pose proof Hnd as [Hni _]%list.NoDup_cons.
  apply (log_move (id :: L) D _ _ _ _ _ id H); [done| |set_solver|set_solver|].
  - rewrite <-Permutation_middle. exact Hnd.
  - unfold expected. rewrite decide_True by set_solver. rewrite (decide_False (P := id ∈ L)) by set_solver.
    by rewrite decide_True by set_solver.
Qed.

Lemma log_release_ended L D n cs id :
  log_ok L (id :: D) n cs → log_ok L D n (cs ++ [CRelease id]).
Proof.
  intros H. pose proof H as (Hnd & Hlt & _). rewrite <-Permutation_middle in Hnd, Hlt.
  pose proof Hnd as [Hni Hnd']%list.NoDup_cons. apply list.Forall_cons in Hlt as [Hid _].
  apply (log_move L (id :: D) _ _ _ _ _ id H); [done|done|set_solver|set_solver|].
  unfold expected. rewrite !(decide_False (P := id ∈ L)) by set_solver.
  rewrite decide_True by set_solver. rewrite decide_False by set_solver. by rewrite decide_True.
Qed.

Lemma log_release_active L D n cs id :
  log_ok (id :: L) D n cs → log_ok L D n (cs ++ [CRelease id]).
Proof.
  intros H. pose proof H as (Hnd & Hlt & _). cbn [app] in Hnd, Hlt.
  pose proof Hnd as [Hni Hnd']%list.NoDup_cons. apply list.Forall_cons in Hlt as [Hid _].
  apply (log_move (id :: L) D _ _ _ _ _ id H); [done|done|set_solver|set_solver|].
  unfold expected. rewrite decide_True by set_solver.
  rewrite !(decide_False (P := id ∈ L)) by set_solver. rewrite decide_False by set_solver.
  by rewrite decide_True.
Qed.

Lemma log_flush L D n cs : log_ok L D n cs → log_ok L D n (cs ++ [CForceFlush]).
Proof.
  intros (Hnd & Hlt & Hp). split_and!; [done..|]. intros id. rewrite phase_of_snoc, Hp.
  unfold step_phase. by rewrite decide_False.
Qed.

Lemma log_empty : log_ok [] [] 0 [].
Proof. split_and!; [constructor..|]. intros id. unfold expected. repeat case_decide; (done || set_solver by lia). Qed.

(** ** Reasoning about effectful code *)

(** From [P], the computation ends normally in [Q], by an exception in [R], or crashes; it
    does not leave the process. *)
Definition triple {A} (P : Preload → Prop) (m : M A) (Q : A → Preload → Prop) (R : Preload → Prop) : Prop :=
  ∀ s, P s → match m s with
             | Ret a s' => Q a s'
             | Throw s' => R s'
             | Crash => True
             | Exit _ _ => False
             end.

Lemma triple_bind {A C} P (m : M A) Q (k : A → M C) Q' R :
  triple P m Q R → (∀ a, triple (Q a) (k a) Q' R) → triple P (m ≫= k) Q' R.
Proof.
  intros Hm Hk s Hs. specialize (Hm s Hs). unfold mbind, M_bind.
  destruct (m s) as [a s'|s'| |c s']; [by apply Hk|done..].
Qed.

Lemma triple_ret {A} (a : A) P R : triple P (mret a) (λ a' s, a' = a ∧ P s) R.
Proof. by intros s Hs. Qed.

Lemma triple_weaken {A} (P P' : Preload → Prop) (m : M A) (Q Q' : A → Preload → Prop) (R R' : Preload → Prop) :
  triple P m Q R → (∀ s, P' s → P s) → (∀ a s, Q a s → Q' a s) → (∀ s, R s → R' s) → triple P' m Q' R'.
Proof.
  intros Hm HP HQ HR s Hs. specialize (Hm s (HP s Hs)). destruct (m s); eauto.
Qed.

Lemma triple_return {A} (a : A) (P : Preload → Prop) (Q : A → Preload → Prop) R :
  (∀ s, P s → Q a s) → triple P (mret a) Q R.
Proof. intros H s Hs. by apply H. Qed.

Lemma triple_get P R : triple P get (λ a s, a = s ∧ P s) R.
Proof. by intros s Hs. Qed.

(** What a computation that begins by reading the state needs: the rest, for each state. *)
Lemma triple_get_bind {C} P (k : Preload → M C) Q R :
  (∀ s0, triple (λ s, s = s0 ∧ P s) (k s0) Q R) → triple P (get ≫= k) Q R.
Proof. intros H s Hs. apply (H s s). done. Qed.

Lemma triple_lift {A} (o : option A) P R : triple P (lift o) (λ a s, o = Some a ∧ P s) R.
Proof. intros s Hs. by destruct o. Qed.

Lemma triple_or_throw {A} (o : option A) (P R : Preload → Prop) :
  (∀ s, P s → R s) → triple P (or_throw o) (λ a s, o = Some a ∧ P s) R.
Proof. intros HR s Hs. destruct o; simpl; [done|by apply HR]. Qed.

Lemma triple_call_real {A} b (a : A) P R : triple P (call_real b a) (λ a' s, a' = a ∧ P s) R.
Proof. intros s Hs. by destruct b. Qed.

(** ** The invariant of the globals *)

Definition map_spans (m : gmap Z FdSpanContext) : list nat := fd_span <$> (map_to_list m).*2.

(** [X] and [D] are the running and the ended spans held outside the map. *)
Definition Inv (X D : list nat) (s : Preload) : Prop :=
  log_ok (map_spans (fd_span_map s) ++ X) D (next_span s) (calls s).

#[global] Instance Inv_proper : Proper ((≡ₚ) ==> (≡ₚ) ==> eq ==> iff) Inv.
Proof. intros X X' HX D D' HD s _ <-. unfold Inv. by rewrite HX, HD. Qed.

Lemma map_spans_insert m fd c :
  map_spans (<[fd := c]> m) ≡ₚ fd_span c :: map_spans (delete fd m).
Proof.
  unfold map_spans. rewrite <-insert_delete_eq, map_to_list_insert by apply lookup_delete_eq. done.
Qed.

Lemma map_spans_delete m fd c :
  m !! fd = Some c → map_spans m ≡ₚ fd_span c :: map_spans (delete fd m).
Proof. intros H. unfold map_spans. by rewrite <-(map_to_list_delete m fd c H). Qed.

(** Only the map, the log and the handle counter matter. *)
Lemma Inv_ext X D s s' :
  fd_span_map s' = fd_span_map s → calls s' = calls s → next_span s' = next_span s →
  Inv X D s → Inv X D s'.
Proof. unfold Inv. by intros -> -> ->. Qed.

Lemma triple_modify_ext f X D R :
  (∀ s, fd_span_map (f s) = fd_span_map s ∧ calls (f s) = calls s ∧ next_span (f s) = next_span s) →
  triple (Inv X D) (modify f) (λ _, Inv X D) R.
Proof. intros H s Hs. destruct (H s) as (? & ? & ?). by eapply Inv_ext. Qed.

(** The rules for the calls on spans. *)
Lemma triple_op c id X D R :
  span_of c = Some id → next_phase c Active = Active → id ∈ X →
  triple (Inv X D) (emit c) (λ _, Inv X D) R.
Proof. intros Hc Hact Hid s Hs. eapply log_op; [exact Hs| |done..]. set_solver. Qed.

Lemma triple_start name opts X D R :
  triple (Inv X D) (StartSpan name opts) (λ id, Inv (id :: X) D) R.
Proof.
  intros s Hs. unfold Inv. cbn [StartSpan fd_span_map next_span calls].
  rewrite <-Permutation_middle. by apply log_start.
Qed.

Lemma triple_end id X D R : triple (Inv (id :: X) D) (emit (CEnd id)) (λ _, Inv X (id :: D)) R.
Proof.
  intros s Hs. unfold Inv in *. cbn [emit modify fd_span_map next_span calls].
  rewrite <-Permutation_middle in Hs. by apply log_end.
Qed.

Lemma triple_release_ended id X D R : triple (Inv X (id :: D)) (emit (CRelease id)) (λ _, Inv X D) R.
Proof. intros s Hs. by apply log_release_ended. Qed.

Lemma triple_release_active id X D R : triple (Inv (id :: X) D) (emit (CRelease id)) (λ _, Inv X D) R.
Proof.
  intros s Hs. unfold Inv in *. cbn [emit modify fd_span_map next_span calls].
  rewrite <-Permutation_middle in Hs. by apply log_release_active.
Qed.

(** Leaving a block by an exception releases the span it holds. *)
Lemma triple_guarded {A} id (body : M A) X D P Q :
  triple P body Q (Inv (id :: X) D) → triple P (guarded id body) Q (Inv X D).
Proof.
  intros Hb s Hs. specialize (Hb s Hs). unfold guarded.
  destruct (body s) as [a s'|s'| |c s'] eqn:E; [done| |done|done].
  exact (triple_release_active id X D (λ _, False) s' Hb).
Qed.

Lemma triple_scoped_ended {A} id (body : M A) X D P :
  triple P body (λ _, Inv X (id :: D)) (Inv (id :: X) D) →
  triple P (scoped id body) (λ _, Inv X D) (Inv X D).
Proof.
  intros Hb. unfold scoped. eapply triple_bind; [by eapply triple_guarded|]. intros a. cbn beta.
  eapply triple_bind; [apply triple_release_ended|]. intros u. by apply triple_return.
Qed.

(** ** The hooks keep the invariant *)

Lemma init_inv env X D R : triple (Inv X D) (init_tracer_lazy env) (λ _, Inv X D) R.
Proof.
  unfold init_tracer_lazy. apply triple_get_bind. intros s0.
  assert (Hm : ∀ f, (∀ s, fd_span_map (f s) = fd_span_map s ∧ calls (f s) = calls s ∧ next_span (f s) = next_span s) →
    ∀ P' : Preload → Prop, (∀ s, P' s → Inv X D s) → triple P' (modify f) (λ _, Inv X D) R).
  { intros f Hf P' HP. eapply triple_weaken; [by apply triple_modify_ext|done..]. }
  destruct (otel_initialized s0); [apply triple_return; tauto|].
  eapply triple_bind; [apply Hm; [done|tauto]|]. intros u. cbn beta.
  repeat case_match; try (by apply Hm);
    (eapply triple_bind; [by apply Hm|intros u']; by apply Hm).
Qed.

Lemma triple_pre {A} (P P' : Preload → Prop) (m : M A) Q R :
  triple P m Q R → (∀ s, P' s → P s) → triple P' m Q R.
Proof. intros Hm HP. eapply triple_weaken; eauto. Qed.

Lemma triple_ext_bind {C} f X D (k : unit → M C) Q R :
  (∀ s, fd_span_map (f s) = fd_span_map s ∧ calls (f s) = calls s ∧ next_span (f s) = next_span s) →
  triple (Inv X D) (k tt) Q R → triple (Inv X D) (modify f ≫= k) Q R.
Proof.
  intros Hf Hk. eapply triple_bind; [by apply triple_modify_ext|]. by intros [].
Qed.

(** A call on a held span, then the rest. *)
Lemma triple_op_bind {C} c id X D (k : unit → M C) Q R :
  span_of c = Some id → next_phase c Active = Active → id ∈ X →
  triple (Inv X D) (k tt) Q R → triple (Inv X D) (emit c ≫= k) Q R.
Proof. intros ??? Hk. eapply triple_bind; [by eapply triple_op|]. by intros []. Qed.

(** Reading the state, a value that exists, the real function. *)
Lemma triple_read_bind {C} X D (k : Preload → M C) Q R :
  (∀ s0, triple (Inv X D) (k s0) Q R) → triple (Inv X D) (get ≫= k) Q R.
Proof. intros H. apply triple_get_bind. intros s0. eapply triple_pre; [apply H|tauto]. Qed.

Lemma triple_lift_bind {A C} (o : option A) X D (k : A → M C) Q R :
  (∀ a, o = Some a → triple (Inv X D) (k a) Q R) → triple (Inv X D) (lift o ≫= k) Q R.
Proof. intros H s Hs. destruct o; [by apply (H a)|done]. Qed.

Lemma triple_real_bind {A C} b (a : A) X D (k : A → M C) Q R :
  triple (Inv X D) (k a) Q R → triple (Inv X D) (call_real b a ≫= k) Q R.
Proof. intros H s Hs. destruct b; [by apply H|done]. Qed.

Lemma set_server_attributes_inv id X D :
  id ∈ X → triple (Inv X D) (set_server_attributes id) (λ _, Inv X D) (Inv X D).
Proof.
  intros Hid. unfold set_server_attributes. apply triple_read_bind. intros s0.
  apply triple_lift_bind. intros address _. apply (triple_op_bind _ id); [done..|].
  apply triple_lift_bind. intros port_s _.
  eapply triple_bind; [by apply triple_or_throw|]. intros port. cbn beta.
  eapply triple_pre; [by apply (triple_op _ id)|tauto].
Qed.

Lemma hook_accept_inv env sockfd X D :
  triple (Inv X D) (hook_accept env sockfd) (λ _, Inv X D) (Inv X D).
Proof.
  unfold hook_accept. eapply triple_bind; [apply init_inv|]. intros u. cbn beta.
  apply triple_ext_bind; [done|]. apply triple_read_bind. intros s. apply triple_real_bind.
  destruct (_ && _); [|by apply triple_return].
  eapply triple_bind; [apply triple_start|]. intros span. cbn beta.
  eapply triple_bind with (Q := λ _, Inv X D); [|intros u'; cbn beta; by apply triple_return].
  apply triple_scoped_ended. eapply triple_bind; [apply set_server_attributes_inv; by left|].
  intros u'. cbn beta.
  apply (triple_op_bind _ span); [done|done|by left|].
  apply (triple_op_bind _ span); [done|done|by left|]. apply triple_end.
Qed.

Lemma set_header_attribute_inv id hm h n X D :
  id ∈ X → triple (Inv X D) (set_header_attribute id hm h n) (λ _, Inv X D) (Inv X D).
Proof.
  intros Hid. unfold set_header_attribute.
  destruct (hm !! h) as [[|c v]|]; [by apply triple_return| |by apply triple_return].
  by apply (triple_op _ id).
Qed.

(** Opening a request span leaves it with its opener. *)
Lemma open_request_span_inv data n method path X D :
  triple (Inv X D) (open_request_span data n method path)
    (λ ctx, Inv (fd_span ctx :: X) D) (Inv X D).
Proof.
  unfold open_request_span. apply triple_lift_bind. intros hm _. apply triple_lift_bind. intros ctx _.
  eapply triple_bind; [apply triple_start|]. intros span. cbn beta. apply triple_guarded.
  do 3 (apply (triple_op_bind _ span); [done|done|by left|]).
  eapply triple_bind; [apply set_server_attributes_inv; by left|]. intros u. cbn beta.
  eapply triple_bind; [apply set_header_attribute_inv; by left|]. intros u'. cbn beta.
  eapply triple_bind; [apply set_header_attribute_inv; by left|]. intros u''. cbn beta.
  apply (triple_op_bind _ span); [done|done|by left|]. by apply triple_return.
Qed.

Definition held (o : option FdSpanContext) : list nat :=
  match o with Some ctx => [fd_span ctx] | None => [] end.

Lemma read_open_inv env fd count X D :
  triple (Inv X D) (read_open env fd count) (λ r, Inv (held r.2 ++ X) D) (Inv X D).
Proof.
  unfold read_open. eapply triple_bind; [apply init_inv|]. intros u. cbn beta.
  apply triple_ext_bind; [done|]. apply triple_read_bind. intros s. apply triple_real_bind.
  destruct (os_read env fd count) as [n buf].
  destruct (_ && _); [|by apply triple_return].
  apply triple_lift_bind. intros [method path] _.
  destruct (http_like _ _ _); [|by apply triple_return].
  eapply triple_bind; [apply open_request_span_inv|]. intros ctx. cbn beta. by apply triple_return.
Qed.

Lemma publish_inv fd ctx X D :
  triple (Inv (fd_span ctx :: X) D) (publish fd ctx) (λ _, Inv X D) (Inv X D).
Proof.
  unfold publish. apply triple_get_bind. intros s0.
  eapply triple_bind with (Q := λ _, Inv (held (fd_span_map s0 !! fd) ++ X) D).
  - intros s [-> Hs]. unfold Inv in *. cbn [set_map modify fd_span_map next_span calls].
    rewrite map_spans_insert. destruct (fd_span_map s0 !! fd) as [old|] eqn:E; cbn [held].
    + rewrite (map_spans_delete _ _ _ E) in Hs. simpl in *.
      rewrite <-(Permutation_middle (map_spans (delete fd (fd_span_map s0)))).
      rewrite <-(Permutation_middle (map_spans (delete fd (fd_span_map s0)))) in Hs.
      rewrite perm_swap. exact Hs.
    + rewrite delete_id by done. simpl. by rewrite <-Permutation_middle in Hs.
  - intros u. cbn beta. destruct (fd_span_map s0 !! fd) as [old|]; cbn [held app].
    + apply triple_release_active.
    + by apply triple_return.
Qed.

Lemma hook_read_inv env fd count X D :
  triple (Inv X D) (hook_read env fd count) (λ _, Inv X D) (Inv X D).
Proof.
  unfold hook_read. eapply triple_bind; [apply read_open_inv|]. intros [n [ctx|]]; cbn [snd held app].
  - eapply triple_bind; [apply publish_inv|]. intros u. cbn beta. by apply triple_return.
  - by apply triple_return.
Qed.

(** A span in the map may be called; ending and erasing it takes it out. *)
Lemma end_and_erase_inv fd ctx X D R :
  triple (λ s, fd_span_map s !! fd = Some ctx ∧ Inv X D s) (end_and_erase fd ctx) (λ _, Inv X D) R.
Proof.
  intros s [Hfd Hs]. unfold end_and_erase, mbind, M_bind. cbn [emit modify get set_map].
  unfold Inv in *. cbn [fd_span_map next_span calls].
  rewrite (map_spans_delete _ _ _ Hfd) in Hs. apply log_release_ended. by apply log_end.
Qed.

Lemma map_op_inv c fd ctx X D R :
  span_of c = Some (fd_span ctx) → next_phase c Active = Active →
  triple (λ s, fd_span_map s !! fd = Some ctx ∧ Inv X D s) (emit c)
    (λ _ s, fd_span_map s !! fd = Some ctx ∧ Inv X D s) R.
Proof.
  intros Hc Hact s [Hfd Hs]. split; [exact Hfd|]. unfold Inv in *. cbn [fd_span_map next_span calls].
  eapply log_op; [exact Hs| |done..]. rewrite (map_spans_delete _ _ _ Hfd). by left.
Qed.

Lemma record_status_inv fd ctx code n X D R :
  triple (λ s, fd_span_map s !! fd = Some ctx ∧ Inv X D s) (record_status (fd_span ctx) code n)
    (λ _ s, fd_span_map s !! fd = Some ctx ∧ Inv X D s) R.
Proof.
  unfold record_status. eapply triple_bind; [by apply map_op_inv|]. intros u. cbn beta.
  eapply triple_bind; [by apply map_op_inv|]. intros u'. cbn beta.
  destruct (_ <=? _)%Z; by apply map_op_inv.
Qed.

Lemma hook_write_inv env fd mem count X D :
  triple (Inv X D) (hook_write env fd mem count) (λ _, Inv X D) (Inv X D).
Proof.
  unfold hook_write. eapply triple_bind; [apply init_inv|]. intros u. cbn beta.
  apply triple_ext_bind; [done|]. apply triple_get_bind. intros s0.
  intros s [-> Hs]. destruct (real_write s0); [|done]. unfold mbind at 1, M_bind at 1. cbn [call_real mret M_ret].
  destruct (_ && _); [|exact Hs].
  destruct (fd_span_map s0 !! fd) as [ctx|] eqn:E; [|exact Hs].
  set (n := os_write env fd mem count).
  enough (H : triple (λ s, fd_span_map s !! fd = Some ctx ∧ Inv X D s)
    ((match parse_response_status mem (Z.to_nat n) with
      | Some status_code => record_status (fd_span ctx) status_code n | None => mret tt end);;
     end_and_erase fd ctx;; mret n) (λ _, Inv X D) (Inv X D)) by (by apply H).
  eapply triple_bind with (Q := λ _ s, fd_span_map s !! fd = Some ctx ∧ Inv X D s).
  - destruct (parse_response_status _ _); [apply record_status_inv|by apply triple_return].
  - intros u'. cbn beta. eapply triple_bind; [apply end_and_erase_inv|]. intros u''. by apply triple_return.
Qed.

Lemma hook_close_inv env fd X D :
  triple (Inv X D) (hook_close env fd) (λ _, Inv X D) (Inv X D).
Proof.
  unfold hook_close. apply triple_ext_bind; [done|].
  eapply triple_bind with (Q := λ _, Inv X D).
  - unfold end_span_for_fd. apply triple_get_bind. intros s0.
    destruct (fd_span_map s0 !! fd) as [ctx|] eqn:E; [|apply triple_return; tauto].
    eapply triple_pre; [apply end_and_erase_inv|]. by intros s [-> Hs].
  - intros u. cbn beta. apply triple_read_bind. intros s0.
    intros s Hs. by destruct (real_close s0).
Qed.

Lemma preload_log_inv env msg X D :
  triple (Inv X D) (preload_log env msg) (λ _, Inv X D) (Inv X D).
Proof.
  unfold preload_log. eapply triple_bind; [apply hook_write_inv|]. intros u. cbn beta.
  eapply triple_bind; [apply hook_write_inv|]. intros u'. cbn beta. by apply triple_return.
Qed.

Lemma flush_spans_inv env X D :
  triple (Inv X D) (flush_spans env) (λ _, Inv X D) (Inv X D).
Proof.
  unfold flush_spans. apply triple_read_bind. intros s0. destruct (negb (provider s0)); [by apply triple_return|].
  eapply triple_bind; [apply preload_log_inv|]. intros u. cbn beta.
  intros s Hs. by apply log_flush.
Qed.

(** ** Interleavings *)

(** The steps a thread takes with the map untouched or under the lock. *)
Inductive hook :=
  | HAccept (sockfd : Z)
  | HWrite (fd : Z) (mem : bytes) (count : nat)
  | HClose (fd : Z)
  | HInit
  | HCleanup
  | HSigint (signum : Z).

Definition run_hook (env : Env) (h : hook) : M unit :=
  match h with
  | HAccept sockfd => hook_accept env sockfd;; mret tt
  | HWrite fd mem count => hook_write env fd mem count;; mret tt
  | HClose fd => hook_close env fd;; mret tt
  | HInit => preload_init env
  | HCleanup => preload_cleanup env
  | HSigint signum => sigint_handler env signum
  end.

(** The globals afterwards: an exception leaves the hook, and the process may go on. *)
Definition final_state {A} (o : outcome A) : option Preload :=
  match o with Ret _ s | Throw s | Exit _ s => Some s | Crash => None end.

(** The globals, and the spans that threads have opened in [read] and not yet published. *)
Record Conc := MkConc {
  shared : Preload;
  pending : gmap nat (Z * FdSpanContext);
}.

Definition conc_init : Conc := MkConc Preload_init ∅.

Inductive conc_step : Conc → Conc → Prop :=
  | step_hook c env h s' :
      final_state (run_hook env h (shared c)) = Some s' →
      conc_step c (MkConc s' (pending c))
  | step_read_open c t env fd count n ctx s' :
      pending c !! t = None →
      read_open env fd count (shared c) = Ret (n, Some ctx) s' →
      conc_step c (MkConc s' (<[t := (fd, ctx)]> (pending c)))
  | step_read_other c env fd count s' :
      (∃ n, read_open env fd count (shared c) = Ret (n, None) s')
      ∨ read_open env fd count (shared c) = Throw s' →
      conc_step c (MkConc s' (pending c))
  | step_read_publish c t fd ctx s' :
      pending c !! t = Some (fd, ctx) →
      final_state (publish fd ctx (shared c)) = Some s' →
      conc_step c (MkConc s' (delete t (pending c))).

(** Who holds the running spans: the entries of the map and the threads. *)
Definition pending_spans (p : gmap nat (Z * FdSpanContext)) : list nat :=
  (λ fc, fd_span fc.2) <$> (map_to_list p).*2.

Definition holders (c : Conc) : list nat :=
  map_spans (fd_span_map (shared c)) ++ pending_spans (pending c).

Definition conc_inv (c : Conc) : Prop := Inv (pending_spans (pending c)) [] (shared c).

Lemma pending_spans_insert p t fd ctx :
  p !! t = None → pending_spans (<[t := (fd, ctx)]> p) ≡ₚ fd_span ctx :: pending_spans p.
Proof. intros H. unfold pending_spans. by rewrite map_to_list_insert. Qed.

Lemma pending_spans_delete p t fd ctx :
  p !! t = Some (fd, ctx) → pending_spans p ≡ₚ fd_span ctx :: pending_spans (delete t p).
Proof. intros H. unfold pending_spans. by rewrite <-(map_to_list_delete p t _ H). Qed.

Lemma triple_unit {A} (m : M A) X D :
  triple (Inv X D) m (λ _, Inv X D) (Inv X D) → triple (Inv X D) (m;; mret tt) (λ _, Inv X D) (Inv X D).
Proof. intros H. eapply triple_bind; [exact H|]. intros a. by apply triple_return. Qed.

Lemma run_hook_inv env h X D s s' :
  Inv X D s → final_state (run_hook env h s) = Some s' → Inv X D s'.
Proof.
  intros Hs. assert (Ht : ∀ m : M unit, triple (Inv X D) m (λ _, Inv X D) (Inv X D) →
    final_state (m s) = Some s' → Inv X D s').
  { intros m Hm. specialize (Hm s Hs). by destruct (m s); intros [= <-]. }
  destruct h as [sockfd|fd mem count|fd| | |signum]; cbn [run_hook].
  - apply Ht, triple_unit, hook_accept_inv.
  - apply Ht, triple_unit, hook_write_inv.
  - apply Ht, triple_unit, hook_close_inv.
  - apply Ht, preload_log_inv.
  - apply Ht. eapply triple_bind; [apply flush_spans_inv|]. intros u. apply preload_log_inv.
  - pose proof (flush_spans_inv env X D s Hs) as H. unfold sigint_handler, mbind, M_bind.
    destruct (flush_spans env s) as [u s1|s1| |z s1]; simpl; try done; by intros [= <-].
Qed.

Lemma conc_step_inv c c' : conc_step c c' → conc_inv c → conc_inv c'.
Proof.
  unfold conc_inv.
  intros [c1 env h s' H|c1 t env fd count n ctx s' Ht H|c1 env fd count s' H|c1 t fd ctx s' Ht H] Hc;
    cbn [shared pending] in *.
  - by eapply run_hook_inv.
  - pose proof (read_open_inv env fd count _ _ _ Hc) as Hr. rewrite H in Hr. cbn [snd held app] in Hr.
    by rewrite pending_spans_insert.
  - pose proof (read_open_inv env fd count _ _ _ Hc) as Hr. destruct H as [[n H]|H]; by rewrite H in Hr.
  - rewrite (pending_spans_delete _ _ _ _ Ht) in Hc.
    pose proof (publish_inv fd ctx _ _ _ Hc) as Hp.
    destruct (publish fd ctx (shared c1)); simpl in *; try done; by simplify_eq.
Qed.

Lemma conc_reachable_inv c : rtc conc_step conc_init c → conc_inv c.
Proof.
  assert (H0 : conc_inv conc_init) by apply log_empty. intros H. revert H0.
  induction H as [|c1 c2 c3 Hs _ IH]; [done|]. intros H1. apply IH. by eapply conc_step_inv.
Qed.

(** C1: Whatever the hooks that ran, in whatever threads and order, and whatever the kernel and the
    environment answered: every call on a span was legal when it was made; a span that was
    started and not yet released is running, and held by exactly one descriptor's entry or one
    thread; a span nobody holds was released, hence ended. *)
Theorem span_lifecycle c id :
  rtc conc_step conc_init c →
  NoDup (holders c) ∧
  (match phase_of (calls (shared c)) id with
   | Unborn => next_span (shared c) ≤ id
   | Active => id ∈ holders c ∧ id < next_span (shared c)
   | Released => (id ∉ holders c) ∧ id < next_span (shared c)
   | Ended | Broken => False
   end).
Proof.
  intros (Hnd & Hlt & Hp)%conc_reachable_inv. rewrite app_nil_r in Hnd, Hlt. split; [done|].
  rewrite Hp. rewrite list.Forall_forall in Hlt. unfold expected. fold (holders c) in *.
  destruct (decide (id ∈ holders c)) as [Hin|Hni]; [split; [done|by apply Hlt]|].
  rewrite decide_False by set_solver. destruct (decide (id < next_span (shared c))); [done|lia].
Qed.

Definition init_env : Env := MkEnv
  (λ name, if beq name (B "OTEL_EXPORTER_OTLP_ENDPOINT") then Some (B "http://localhost:4318/v1/traces")
           else if beq name (B "OTEL_SERVER_PORT") then Some (B "9090") else None)
  CreateReturns (λ _, true) (λ _, 7%Z)
  (λ _ _, (65%Z, B "GET /rolldice?sides=6 HTTP/1.1" ++ CRLF ++ B "User-Agent: curl" ++ CRLF ++ CRLF ++ B "0123456789abc"))
  (λ _ mem count, Z.of_nat count) (λ _, 0%Z).

(** Two threads read requests on the same descriptor; the first span is replaced, the second
    one ended by the response; a third is left to its thread. *)
Definition example_run : Conc :=
  let read1 s := match read_open init_env 7 100 s with Ret (_, Some ctx) s' => (s', ctx) | _ => (s, MkFdSpanContext 0 [] []) end in
  let '(s1, c1) := read1 Preload_init in
  let '(s2, c2) := read1 s1 in
  let s3 := match publish 7 c1 s2 with Ret _ s => s | _ => s2 end in
  let s4 := match publish 7 c2 s3 with Ret _ s => s | _ => s3 end in
  let s5 := match hook_write init_env 7 (B "HTTP/1.1 200 OK" ++ CRLF) 17 s4 with Ret _ s => s | _ => s4 end in
  let '(s6, c3) := read1 s5 in
  MkConc s6 (<[1 := (7%Z, c3)]> ∅).

Lemma example_run_reachable : rtc conc_step conc_init example_run.
Proof.
  eapply rtc_l; [eapply (step_read_open _ 1 init_env 7 100); [reflexivity|vm_compute; reflexivity]|].
  eapply rtc_l; [eapply (step_read_open _ 2 init_env 7 100); [reflexivity|vm_compute; reflexivity]|].
  eapply rtc_l; [eapply (step_read_publish _ 1 7); [reflexivity|vm_compute; reflexivity]|].
  eapply rtc_l; [eapply (step_read_publish _ 2 7); [reflexivity|vm_compute; reflexivity]|].
  eapply rtc_l; [eapply (step_hook _ init_env (HWrite 7 (B "HTTP/1.1 200 OK" ++ CRLF) 17));
    vm_compute; reflexivity|].
  eapply rtc_l; [eapply (step_read_open _ 1 init_env 7 100); [reflexivity|vm_compute; reflexivity]|].
  vm_compute. apply rtc_refl.
Defined.

Lemma span_lifecycle_witness :
  phase_of (calls (shared example_run)) 0 = Released ∧
  phase_of (calls (shared example_run)) 1 = Released ∧
  (NoDup (holders example_run) ∧
   (match phase_of (calls (shared example_run)) 2 with
    | Unborn => next_span (shared example_run) ≤ 2
    | Active => 2 ∈ holders example_run ∧ 2 < next_span (shared example_run)
    | Released => (2 ∉ holders example_run) ∧ 2 < next_span (shared example_run)
    | Ended | Broken => False
    end)).
Proof.
  split; [vm_compute; reflexivity|]. split; [vm_compute; reflexivity|].
  exact (span_lifecycle example_run 2 example_run_reachable).
Defined.
