(* ===== verification/PreloadHooks.v ===== *)
(** * What the hooks of the preloaded tracer do

    Functional theorems on the definitions of Preload.v: the application sees what the real
    call answered; a request read and answered yields exactly one span, with these calls;
    initialisation happens once. *)
From S2P Require Export PreloadSpans.

(** ** Initialisation *)

(** The globals once [init_tracer_lazy] ran: the server attributes are set and the port is a
    number that [std::stol] accepts. *)
Definition port_ok (s : Preload) : Prop :=
  otel_initialized s = true →
  ∃ address port_s port, server_address s = Some address ∧ server_port s = Some port_s ∧ stol port_s = Some port.

Definition env_port_ok (env : Env) : Prop :=
  ∃ port, stol (default (B "8080") (c_getenv env (B "OTEL_SERVER_PORT"))) = Some port.

(** The parts of the globals that initialisation leaves alone. *)
Definition same_spans (s s' : Preload) : Prop :=
  fd_span_map s' = fd_span_map s ∧ calls s' = calls s ∧ next_span s' = next_span s ∧
  real_accept s' = real_accept s ∧ real_read s' = real_read s ∧ real_write s' = real_write s ∧
  real_close s' = real_close s.

Lemma init_result env s :
  ∃ s', init_tracer_lazy env s = Ret tt s' ∧ otel_initialized s' = true ∧ same_spans s s' ∧
    (otel_initialized s = true → s' = s) ∧
    (otel_initialized s = false → 
       server_address s' = Some (default (B "localhost") (c_getenv env (B "OTEL_SERVER_ADDRESS"))) ∧
       server_port s' = Some (default (B "8080") (c_getenv env (B "OTEL_SERVER_PORT"))) ∧
       (tracer s' = true ↔ tracer s = true ∨
          (∃ c e, c_getenv env (B "OTEL_EXPORTER_OTLP_ENDPOINT") = Some (c :: e)) ∧ create env = CreateReturns)).
Proof.
  unfold init_tracer_lazy, mbind, M_bind. cbn [get]. destruct (otel_initialized s) eqn:E.
  - exists s. split_and!; done.
  - cbn [set_server modify].
    destruct (c_getenv env (B "OTEL_EXPORTER_OTLP_ENDPOINT")) as [[|c e]|] eqn:Ee;
      [eexists; split; [done|]|destruct (create env); eexists; (split; [done|])|eexists; split; [done|]];
      (split; [done|split; [by split_and!|split; [done|intros _; cbn; split_and!; try done]]]); naive_solver.
Qed.

Lemma init_port_ok env s s' :
  port_ok s → env_port_ok env → init_tracer_lazy env s = Ret tt s' → port_ok s'.
Proof.
  intros Hs [port Hport] Hi. destruct (init_result env s) as (s'' & Hr & Hin & _ & H1 & H2).
  rewrite Hr in Hi. injection Hi as <-.
  destruct (otel_initialized s) eqn:E; [rewrite (H1 eq_refl); auto|]. destruct H2 as (Ha & Hp & _); [done|].
  intros _. eauto 10.
Qed.

(** The first call decides, later ones change nothing. *)
Theorem init_once env env' s :
  ∃ s', init_tracer_lazy env s = Ret tt s' ∧ otel_initialized s' = true ∧
    init_tracer_lazy env' s' = Ret tt s' ∧ calls s' = calls s ∧ fd_span_map s' = fd_span_map s ∧
    (otel_initialized s = false → tracer s = false →
       (tracer s' = true ↔
          (∃ c e, c_getenv env (B "OTEL_EXPORTER_OTLP_ENDPOINT") = Some (c :: e)) ∧ create env = CreateReturns)).
Proof.
  destruct (init_result env s) as (s' & Hr & Hin & (Hm & Hc & _) & _ & H2). exists s'.
  split_and!; try done.
  - destruct (init_result env' s') as (s'' & Hr' & _ & _ & H1 & _). by rewrite Hr', H1.
  - intros E Ht. destruct H2 as (_ & _ & ->); [done|]. rewrite Ht. naive_solver.
Qed.

(** ** One step at a time, from an initialised state *)

(** The server attributes are available. *)
Definition attrs (s : Preload) (address : bytes) (port : Z) : Prop :=
  server_address s = Some address ∧ ∃ port_s, server_port s = Some port_s ∧ stol port_s = Some port.

Record ready (s : Preload) (address : bytes) (port : Z) : Prop := {
  rd_init : otel_initialized s = true;
  rd_tracer : tracer s = true;
  rd_attrs : attrs s address port;
  rd_read : real_read s = true;
  rd_write : real_write s = true;
  rd_close : real_close s = true;
}.

(** The globals with a new map, more calls and a new handle counter. *)
Definition with_spans (s : Preload) (m : gmap Z FdSpanContext) (cs : list call) (n : nat) : Preload :=
  MkPreload (real_accept s) (real_read s) (real_write s) (real_close s) (tracer s) (provider s)
    (otel_initialized s) (server_address s) (server_port s) m (exporter_opts s) cs n (messages s).

Lemma ready_with_spans s a p m cs n : ready s a p → ready (with_spans s m cs n) a p.
Proof. by intros []. Qed.

Lemma attrs_with_spans s a p m cs n : attrs s a p → attrs (with_spans s m cs n) a p.
Proof. done. Qed.

Lemma with_spans_id s : with_spans s (fd_span_map s) (calls s) (next_span s) = s.
Proof. by destruct s. Qed.

(** The calls that open a request span. *)
Definition header_calls (id : nat) (hm : HeaderMap) (header name : bytes) : list call :=
  match hm !! header with Some (c :: v) => [CSetAttribute id name (AVstring (c :: v))] | _ => [] end.

Definition request_calls (id : nat) (method path : bytes) (n : Z) (address : bytes) (port : Z)
    (hm : HeaderMap) (parent : Context) : list call :=
  [CStartSpan id (method ++ B " " ++ path) (MkStartSpanOptions kServer (ParentContext parent));
   CSetAttribute id (B "http.request.method") (AVstring method);
   CSetAttribute id (B "url.path") (AVstring path);
   CSetAttribute id (B "http.request.body.size") (AVint n);
   CSetAttribute id (B "server.address") (AVstring address);
   CSetAttribute id (B "server.port") (AVint port)]
  ++ header_calls id hm (B "user-agent") (B "http.request.header.user_agent")
  ++ header_calls id hm (B "x-request-id") (B "http.request.header.x_request_id")
  ++ [CAddEvent id (B "Request received")].

(** The calls of the response: the status, when the buffer starts with a status line, then the
    end of the span. *)
Definition response_calls (id : nat) (status : option Z) (n : Z) : list call :=
  match status with
  | Some code =>
      [CSetAttribute id (B "http.response.status_code") (AVint code);
       CSetAttribute id (B "http.response.body.size") (AVint n);
       if (400 <=? code)%Z then CSetStatus id kError (B "HTTP " ++ to_string code) else CSetStatus id kOk []]
  | None => []
  end ++ [CEnd id; CRelease id].

(** Each effect as a change of the span-related globals. *)
Lemma emit_run c s : emit c s = Ret tt (with_spans s (fd_span_map s) (calls s ++ [c]) (next_span s)).
Proof. done. Qed.

Lemma set_map_run m s : set_map m s = Ret tt (with_spans s m (calls s) (next_span s)).
Proof. done. Qed.

Lemma StartSpan_run name opts s :
  StartSpan name opts s = Ret (next_span s)
    (with_spans s (fd_span_map s) (calls s ++ [CStartSpan (next_span s) name opts]) (S (next_span s))).
Proof. done. Qed.

Lemma with_spans_twice s m cs n m' cs' n' :
  with_spans (with_spans s m cs n) m' cs' n' = with_spans s m' cs' n'.
Proof. done. Qed.

Lemma map_with_spans s m cs n : fd_span_map (with_spans s m cs n) = m.
Proof. done. Qed.

Lemma calls_with_spans s m cs n : calls (with_spans s m cs n) = cs.
Proof. done. Qed.

Lemma next_with_spans s m cs n : next_span (with_spans s m cs n) = n.
Proof. done. Qed.

Lemma bind_run {A C} (m : M A) (k : A → M C) s a s' : m s = Ret a s' → (m ≫= k) s = k a s'.
Proof. unfold mbind, M_bind. by intros ->. Qed.

(** Advance by one effect whose result is known. *)
Ltac m_step lem := erewrite bind_run; [|eapply lem; eauto using attrs_with_spans]; cbn beta;
  rewrite ?with_spans_twice, ?map_with_spans, ?calls_with_spans, ?next_with_spans, <-?app_assoc.

Lemma set_server_attributes_run id s a p :
  attrs s a p →
  set_server_attributes id s =
    Ret tt (with_spans s (fd_span_map s)
      (calls s ++ [CSetAttribute id (B "server.address") (AVstring a);
                   CSetAttribute id (B "server.port") (AVint p)]) (next_span s)).
Proof.
  intros (Ha & ps & Hps & Hp). unfold set_server_attributes.
  erewrite bind_run by reflexivity. erewrite bind_run by (by rewrite Ha). m_step emit_run.
  erewrite bind_run by (by rewrite Hps). erewrite bind_run by (by rewrite Hp). rewrite emit_run.
  by rewrite with_spans_twice, map_with_spans, calls_with_spans, next_with_spans, <-app_assoc.
Qed.

Lemma set_header_attribute_run id hm h n s :
  set_header_attribute id hm h n s =
    Ret tt (with_spans s (fd_span_map s) (calls s ++ header_calls id hm h n) (next_span s)).
Proof.
  unfold set_header_attribute, header_calls.
  destruct (hm !! h) as [[|c v]|]; [|done|]; by rewrite app_nil_r, with_spans_id.
Qed.

Lemma open_request_span_run data n method path s a p parent :
  attrs s a p →
  HttpTraceContext_Extract (MkHeaderCarrier (Some (headers_spec data))) Context_default = Some parent →
  open_request_span data n method path s =
    Ret (MkFdSpanContext (next_span s) method path)
      (with_spans s (fd_span_map s)
        (calls s ++ request_calls (next_span s) method path n a p (headers_spec data) parent) (S (next_span s))).
Proof.
  intros Hr Hparent. unfold open_request_span. rewrite parse_request_headers_spec.
  erewrite bind_run by reflexivity. rewrite Hparent. erewrite bind_run by reflexivity.
  m_step StartSpan_run. unfold guarded. do 3 m_step emit_run.
  m_step set_server_attributes_run.
  do 2 m_step set_header_attribute_run. m_step emit_run. done.
Qed.

(** ** The hooks from an initialised state *)

Lemma init_ready env s : otel_initialized s = true → init_tracer_lazy env s = Ret tt s.
Proof. intros H. unfold init_tracer_lazy. erewrite bind_run by reflexivity. by rewrite H. Qed.

Lemma Extract_parent (hm : HeaderMap) :
  ∃ parent, HttpTraceContext_Extract (MkHeaderCarrier (Some hm)) Context_default = Some parent.
Proof.
  destruct (Extract_cases (MkHeaderCarrier (Some hm)) Context_default) as (c & H & _). by exists c.
Qed.

Lemma find_sub_lt n s e : find_sub n s 0 = Some e → e ≤ length s.
Proof.
  unfold find_sub. cbn [Nat.ltb Nat.leb]. rewrite drop_0. revert e.
  assert (H : ∀ s pos e, find_sub_at n s pos = Some e → e ≤ pos + length s).
  { clear s. intros s. induction s as [|c s IH]; intros pos e; cbn [find_sub_at length];
      (destruct (is_prefix _ _); [intros [= <-]; lia|]); [done|].
    intros He%IH. lia. }
  intros e He. by apply H in He.
Qed.

Lemma request_line_total data : ∃ m p, request_line_of data = Some (m, p).
Proof.
  unfold request_line_of. destruct (find_sub CRLF data 0) as [e|] eqn:E.
  - rewrite substr_spec by lia. cbn [mbind option_bind]. destruct (parse_request_line _); eauto.
  - cbn [mbind option_bind]. destruct (parse_request_line _); eauto.
Qed.

(** The globals after [read_open]: a request span when the data is an HTTP-like request. *)
Definition opened (s : Preload) (a : bytes) (p : Z) (n : Z) (data method path : bytes) (parent : Context) : Preload :=
  with_spans s (fd_span_map s)
    (calls s ++ request_calls (next_span s) method path n a p (headers_spec data) parent) (S (next_span s)).

Lemma read_open_run env fd count s a p n buf method path parent :
  otel_initialized s = true → real_read s = true → (tracer s = true → attrs s a p) →
  os_read env fd count = (n, buf) →
  let data := take (Z.to_nat n) buf in
  request_line_of data = Some (method, path) →
  HttpTraceContext_Extract (MkHeaderCarrier (Some (headers_spec data))) Context_default = Some parent →
  read_open env fd count s =
    if (0 <? n)%Z && tracer s && http_like data method path
    then Ret (n, Some (MkFdSpanContext (next_span s) method path)) (opened s a p n data method path parent)
    else Ret (n, None) s.
Proof.
  intros Hi Hrd Hat Hos data Hline Hparent. unfold read_open.
  erewrite bind_run by (by apply init_ready).
  assert (Hres : resolve_read env s = Ret tt s).
  { unfold resolve_read, modify. destruct s; simpl in *. by subst. }
  erewrite bind_run by (by apply Hres). erewrite bind_run by reflexivity. rewrite Hos, Hrd.
  erewrite bind_run by reflexivity. cbn beta iota. fold data.
  destruct ((0 <? n)%Z && tracer s) eqn:E; cbn [andb]; [|done].
  apply andb_true_iff in E as [_ Ht]. rewrite Hline. erewrite bind_run by reflexivity. cbn beta iota.
  destruct (http_like data method path); [|done].
  erewrite bind_run by (by apply open_request_span_run; [apply Hat|]). done.
Qed.

Lemma publish_run fd ctx s :
  publish fd ctx s = Ret tt (with_spans s (<[fd := ctx]> (fd_span_map s))
    (calls s ++ match fd_span_map s !! fd with Some old => [CRelease (fd_span old)] | None => [] end)
    (next_span s)).
Proof.
  unfold publish. erewrite bind_run by reflexivity. m_step set_map_run.
  destruct (fd_span_map s !! fd) as [old|]; [done|]. by rewrite app_nil_r.
Qed.

Lemma end_and_erase_run fd ctx s :
  end_and_erase fd ctx s = Ret tt (with_spans s (delete fd (fd_span_map s))
    (calls s ++ [CEnd (fd_span ctx); CRelease (fd_span ctx)]) (next_span s)).
Proof.
  unfold end_and_erase. m_step emit_run. erewrite bind_run by reflexivity. m_step set_map_run.
  rewrite emit_run. by rewrite with_spans_twice, map_with_spans, calls_with_spans, next_with_spans, <-app_assoc.
Qed.

Lemma record_status_run id code n s :
  record_status id code n s = Ret tt (with_spans s (fd_span_map s)
    (calls s ++ [CSetAttribute id (B "http.response.status_code") (AVint code);
       CSetAttribute id (B "http.response.body.size") (AVint n);
       if (400 <=? code)%Z then CSetStatus id kError (B "HTTP " ++ to_string code) else CSetStatus id kOk []])
    (next_span s)).
Proof.
  unfold record_status. do 2 m_step emit_run. destruct (400 <=? code)%Z; rewrite emit_run;
    by rewrite with_spans_twice, map_with_spans, calls_with_spans, next_with_spans, <-!app_assoc.
Qed.

Lemma hook_write_run env fd mem count s n :
  otel_initialized s = true → real_write s = true → os_write env fd mem count = n →
  hook_write env fd mem count s =
    Ret n (if (0 <? n)%Z && tracer s then
             match fd_span_map s !! fd with
             | Some ctx => with_spans s (delete fd (fd_span_map s))
                 (calls s ++ response_calls (fd_span ctx) (parse_response_status mem (Z.to_nat n)) n) (next_span s)
             | None => s
             end
           else s).
Proof.
  intros Hi Hw Hos. unfold hook_write. erewrite bind_run by (by apply init_ready).
  assert (Hres : resolve_write env s = Ret tt s).
  { unfold resolve_write, modify. destruct s; simpl in *. by subst. }
  erewrite bind_run by (by apply Hres). erewrite bind_run by reflexivity. rewrite Hos, Hw.
  erewrite bind_run by reflexivity. cbn beta.
  destruct (_ && _); [|done]. destruct (fd_span_map s !! fd) as [ctx|]; [|done].
  unfold response_calls. destruct (parse_response_status mem (Z.to_nat n)) as [code|].
  - m_step record_status_run. m_step end_and_erase_run. done.
  - erewrite bind_run by reflexivity. m_step end_and_erase_run. done.
Qed.

(** A request read on a free descriptor: the span is opened and published. *)
Lemma hook_read_request_run env fd count s a p n buf method path parent :
  ready s a p → fd_span_map s !! fd = None →
  os_read env fd count = (n, buf) → (0 < n)%Z →
  let data := take (Z.to_nat n) buf in
  request_line_of data = Some (method, path) → http_like data method path = true →
  HttpTraceContext_Extract (MkHeaderCarrier (Some (headers_spec data))) Context_default = Some parent →
  hook_read env fd count s =
    Ret n (with_spans s (<[fd := MkFdSpanContext (next_span s) method path]> (fd_span_map s))
      (calls s ++ request_calls (next_span s) method path n a p (headers_spec data) parent) (S (next_span s))).
Proof.
  intros [Hi Ht Hat Hrd _ _] Hfd Hos Hn data Hline Hhttp Hparent. unfold hook_read.
  pose proof (read_open_run env fd count s a p n buf method path parent Hi Hrd (λ _, Hat) Hos Hline Hparent) as Ho.
  fold data in Ho. rewrite Ht, Hhttp, (proj2 (Z.ltb_lt _ _)) in Ho by done. cbn [andb] in Ho.
  erewrite bind_run by (exact Ho). cbn beta iota. erewrite bind_run by (apply publish_run). cbn [opened].
  unfold opened. rewrite with_spans_twice, map_with_spans, calls_with_spans, next_with_spans, Hfd. by rewrite app_nil_r.
Qed.

(** C8: A request read and answered on a free descriptor yields one span: started as a server span
    named after the method and path, child of the trace context the request carries, given the
    request attributes in order, then the response status, ended and released.  Nothing else is
    called, and the map is as before. *)
Theorem request_response_span env env' fd count mem wcount s a p n buf method path k :
  ready s a p → fd_span_map s !! fd = None →
  os_read env fd count = (n, buf) → (0 < n)%Z →
  request_line_of (take (Z.to_nat n) buf) = Some (method, path) →
  http_like (take (Z.to_nat n) buf) method path = true →
  os_write env' fd mem wcount = k → (0 < k)%Z →
  ∃ parent s1, 
    HttpTraceContext_Extract (MkHeaderCarrier (Some (headers_spec (take (Z.to_nat n) buf)))) Context_default = Some parent ∧
    hook_read env fd count s = Ret n s1 ∧
    fd_span_map s1 = <[fd := MkFdSpanContext (next_span s) method path]> (fd_span_map s) ∧
    hook_write env' fd mem wcount s1 =
      Ret k (with_spans s (fd_span_map s)
        (calls s ++ request_calls (next_span s) method path n a p (headers_spec (take (Z.to_nat n) buf)) parent
           ++ response_calls (next_span s) (parse_response_status mem (Z.to_nat k)) k) (S (next_span s))).
Proof.
  intros Hr Hfd Hos Hn Hline Hhttp Hw Hk.
  destruct (Extract_parent (headers_spec (take (Z.to_nat n) buf))) as (parent & Hparent).
  exists parent. eexists. split; [done|]. split; [by eapply hook_read_request_run|]. split; [done|].
  pose proof Hr as [Hi Ht _ _ Hwr _]. rewrite (hook_write_run _ _ _ _ _ k) by done.
  cbn [tracer with_spans]. rewrite Ht, (proj2 (Z.ltb_lt _ _)) by done. cbn [andb].
  rewrite ?with_spans_twice, ?map_with_spans, ?calls_with_spans, ?next_with_spans.
  rewrite lookup_insert_eq, delete_insert_id by done. cbn [fd_span].
  by rewrite <-app_assoc.
Qed.

(** An initialised tracer: the state after the library constructor ran. *)
Definition example_ready : Preload :=
  match preload_init init_env Preload_init with Ret _ s => s | _ => Preload_init end.

Definition with_real_calls (s : Preload) : Preload :=
  match (resolve_read init_env;; resolve_close init_env) s with Ret _ s => s | _ => s end.

Lemma request_response_span_witness :
  ∃ parent s1, 
    hook_read init_env 7 100 (with_real_calls example_ready) = Ret 65%Z s1 ∧
    hook_write init_env 7 (B "HTTP/1.1 503 Service Unavailable" ++ CRLF) 34 s1 =
      Ret 34%Z (with_spans (with_real_calls example_ready) ∅
        ([CStartSpan 0 (B "GET /rolldice") (MkStartSpanOptions kServer (ParentContext parent));
          CSetAttribute 0 (B "http.request.method") (AVstring (B "GET"));
          CSetAttribute 0 (B "url.path") (AVstring (B "/rolldice"));
          CSetAttribute 0 (B "http.request.body.size") (AVint 65);
          CSetAttribute 0 (B "server.address") (AVstring (B "localhost"));
          CSetAttribute 0 (B "server.port") (AVint 9090);
          CSetAttribute 0 (B "http.request.header.user_agent") (AVstring (B "curl"));
          CAddEvent 0 (B "Request received");
          CSetAttribute 0 (B "http.response.status_code") (AVint 503);
          CSetAttribute 0 (B "http.response.body.size") (AVint 34);
          CSetStatus 0 kError (B "HTTP 503"); CEnd 0; CRelease 0]) 1).
Proof.
  assert (Hr : ready (with_real_calls example_ready) (B "localhost") 9090).
  { split; [| |split; [|exists (B "9090"); split]| | |]; vm_compute; reflexivity. }
  pose proof (request_response_span init_env init_env 7 100
    (B "HTTP/1.1 503 Service Unavailable" ++ CRLF) 34 (with_real_calls example_ready) (B "localhost") 9090 65
    (snd (os_read init_env 7 100)) (B "GET") (B "/rolldice") 34 Hr) as H.
  destruct H as (parent & s1 & Hp & Hrd & _ & Hw).
  - vm_compute. reflexivity.
  - vm_compute. reflexivity.
  - vm_compute. reflexivity.
  - vm_compute. reflexivity.
  - vm_compute. reflexivity.
  - vm_compute. reflexivity.
  - vm_compute. reflexivity.
  - exists parent, s1. split; [exact Hrd|]. rewrite Hw. clear Hr Hrd Hw Hp. vm_compute. reflexivity.
Defined.

(** ** Transparency *)

(** Initialising and resolving the real function, with everything found. *)
Lemma prologue_ok env s :
  port_ok s → env_port_ok env →
  ∃ s1, init_tracer_lazy env s = Ret tt s1 ∧ otel_initialized s1 = true ∧ same_spans s s1 ∧
    ∃ a p, attrs s1 a p.
Proof.
  intros Hs He. destruct (init_result env s) as (s1 & Hr & Hi & Hsame & _). exists s1.
  split_and!; [done..|]. destruct (init_port_ok env s s1 Hs He Hr Hi) as (a & ps & p & Ha & Hps & Hp).
  exists a, p. split; [done|]. by exists ps.
Qed.

Lemma attrs_port_ok s a p : attrs s a p → port_ok s.
Proof. intros (Ha & ps & Hps & Hp) _. by exists a, ps, p. Qed.

Lemma scoped_run {A} id (body : M A) s a s' :
  body s = Ret a s' →
  scoped id body s = Ret a (with_spans s' (fd_span_map s') (calls s' ++ [CRelease id]) (next_span s')).
Proof. intros H. unfold scoped, guarded. erewrite bind_run by (by rewrite H). done. Qed.

(** The span of an accepted connection: complete when [accept] returns. *)
Definition accept_calls (id : nat) (client_fd : Z) (address : bytes) (port : Z) : list call :=
  [CStartSpan id (B "HTTP accept") (MkStartSpanOptions kServer (ParentSpanContext GetInvalid));
   CSetAttribute id (B "server.address") (AVstring address);
   CSetAttribute id (B "server.port") (AVint port);
   CSetAttribute id (B "net.sock.peer.fd") (AVint client_fd);
   CAddEvent id (B "Accepted client fd: " ++ to_string client_fd);
   CEnd id; CRelease id].

Lemma hook_accept_run env sockfd s a p fd :
  otel_initialized s = true → real_accept s = true → (tracer s = true → attrs s a p) →
  os_accept env sockfd = fd →
  hook_accept env sockfd s =
    Ret fd (if negb (fd =? -1)%Z && tracer s
            then with_spans s (fd_span_map s) (calls s ++ accept_calls (next_span s) fd a p) (S (next_span s))
            else s).
Proof.
  intros Hi Hrd Hat Hos. unfold hook_accept. erewrite bind_run by (by apply init_ready).
  assert (Hres : resolve_accept env s = Ret tt s).
  { unfold resolve_accept, modify. destruct s; simpl in *. by subst. }
  erewrite bind_run by (by apply Hres). erewrite bind_run by reflexivity. rewrite Hos, Hrd.
  erewrite bind_run by reflexivity. cbn beta.
  destruct (_ && _) eqn:E; [|done]. apply andb_true_iff in E as [_ Ht]. specialize (Hat Ht).
  erewrite bind_run by apply StartSpan_run. cbn beta.
  erewrite bind_run.
  2:{ apply scoped_run. m_step set_server_attributes_run. do 2 m_step emit_run. by rewrite emit_run. }
  rewrite ?with_spans_twice, ?map_with_spans, ?calls_with_spans, ?next_with_spans, <-?app_assoc. done.
Qed.

(** Running a hook from any state is running it once the tracer is initialised and the real
    function resolved. *)
Lemma accept_prologue env sockfd s s1 :
  init_tracer_lazy env s = Ret tt s1 → otel_initialized s1 = true → dlsym env (B "accept") = true →
  ∃ s2, hook_accept env sockfd s = hook_accept env sockfd s2 ∧ otel_initialized s2 = true ∧
    real_accept s2 = true ∧ server_address s2 = server_address s1 ∧ server_port s2 = server_port s1.
Proof.
  intros Hi Hin Hd. set (s2 := MkPreload true (real_read s1) (real_write s1) (real_close s1)
    (tracer s1) (provider s1) (otel_initialized s1) (server_address s1) (server_port s1) (fd_span_map s1)
    (exporter_opts s1) (calls s1) (next_span s1) (messages s1)).
  assert (Hr : resolve_accept env s1 = Ret tt s2) by (unfold resolve_accept, modify; by rewrite Hd, orb_true_r).
  assert (Hr2 : resolve_accept env s2 = Ret tt s2) by done.
  assert (Hin2 : otel_initialized s2 = true) by done. exists s2. split_and!; try done.
  unfold hook_accept. erewrite bind_run by (exact Hi). erewrite bind_run by (exact Hr).
  symmetry. erewrite bind_run by (by apply init_ready). by erewrite bind_run by (exact Hr2).
Qed.

Lemma read_prologue env fd count s s1 :
  init_tracer_lazy env s = Ret tt s1 → otel_initialized s1 = true → dlsym env (B "read") = true →
  ∃ s2, hook_read env fd count s = hook_read env fd count s2 ∧ otel_initialized s2 = true ∧
    real_read s2 = true ∧ server_address s2 = server_address s1 ∧ server_port s2 = server_port s1.
Proof.
  intros Hi Hin Hd. set (s2 := MkPreload (real_accept s1) true (real_write s1) (real_close s1)
    (tracer s1) (provider s1) (otel_initialized s1) (server_address s1) (server_port s1) (fd_span_map s1)
    (exporter_opts s1) (calls s1) (next_span s1) (messages s1)).
  assert (Hr : resolve_read env s1 = Ret tt s2) by (unfold resolve_read, modify; by rewrite Hd, orb_true_r).
  assert (Hr2 : resolve_read env s2 = Ret tt s2) by done.
  assert (Hin2 : otel_initialized s2 = true) by done. exists s2. split_and!; try done.
  assert (Ho : read_open env fd count s = read_open env fd count s2).
  { unfold read_open. erewrite bind_run by (exact Hi). erewrite bind_run by (exact Hr).
    symmetry. erewrite bind_run by (by apply init_ready). by erewrite bind_run by (exact Hr2). }
  unfold hook_read, mbind, M_bind in *. by rewrite Ho.
Qed.

Lemma write_prologue env fd mem count s s1 :
  init_tracer_lazy env s = Ret tt s1 → otel_initialized s1 = true → dlsym env (B "write") = true →
  ∃ s2, hook_write env fd mem count s = hook_write env fd mem count s2 ∧ otel_initialized s2 = true ∧
    real_write s2 = true ∧ server_address s2 = server_address s1 ∧ server_port s2 = server_port s1 ∧
    tracer s2 = tracer s1 ∧ provider s2 = provider s1 ∧
    fd_span_map s2 = fd_span_map s1 ∧ calls s2 = calls s1 ∧ next_span s2 = next_span s1.
Proof.
  intros Hi Hin Hd. set (s2 := MkPreload (real_accept s1) (real_read s1) true (real_close s1)
    (tracer s1) (provider s1) (otel_initialized s1) (server_address s1) (server_port s1) (fd_span_map s1)
    (exporter_opts s1) (calls s1) (next_span s1) (messages s1)).
  assert (Hr : resolve_write env s1 = Ret tt s2) by (unfold resolve_write, modify; by rewrite Hd, orb_true_r).
  assert (Hr2 : resolve_write env s2 = Ret tt s2) by done.
  assert (Hin2 : otel_initialized s2 = true) by done. exists s2. split_and!; try done.
  unfold hook_write. erewrite bind_run by (exact Hi). erewrite bind_run by (exact Hr).
  symmetry. erewrite bind_run by (by apply init_ready). by erewrite bind_run by (exact Hr2).
Qed.

(** Every symbol resolves. *)
Definition symbols_ok (env : Env) : Prop :=
  dlsym env (B "accept") = true ∧ dlsym env (B "read") = true ∧ dlsym env (B "write") = true ∧
  dlsym env (B "close") = true.

Definition returns {A} (o : outcome A) (a : A) (P : Preload → Prop) : Prop := ∃ s', o = Ret a s' ∧ P s'.

Lemma hook_read_run env fd count s a p n buf :
  otel_initialized s = true → real_read s = true → (tracer s = true → attrs s a p) →
  os_read env fd count = (n, buf) →
  ∃ m cs k, hook_read env fd count s = Ret n (with_spans s m cs k).
Proof.
  intros Hi Hrd Hat Hos. destruct (request_line_total (take (Z.to_nat n) buf)) as (mth & pth & Hline).
  destruct (Extract_parent (headers_spec (take (Z.to_nat n) buf))) as (parent & Hparent).
  pose proof (read_open_run env fd count s a p n buf mth pth parent Hi Hrd Hat Hos Hline Hparent) as Ho.
  unfold hook_read. destruct (_ && http_like _ _ _).
  - eexists _, _, _. erewrite bind_run by (exact Ho). cbn beta iota.
    erewrite bind_run by apply publish_run. reflexivity.
  - eexists _, _, _. erewrite bind_run by (exact Ho). cbn beta iota. by rewrite <-(with_spans_id s) at 1.
Qed.

(** C15: The application sees what the real call answered: with the symbols found and a server port
    that is a number, each hook returns the result of the call it replaces, never throws, and
    leaves the port usable for the next one. *)
Theorem hooks_transparent env s sockfd fd mem count :
  symbols_ok env → env_port_ok env → port_ok s →
  returns (hook_accept env sockfd s) (os_accept env sockfd) port_ok ∧
  returns (hook_read env fd count s) (os_read env fd count).1 port_ok ∧
  returns (hook_write env fd mem count s) (os_write env fd mem count) port_ok ∧
  returns (hook_close env fd s) (os_close env fd) port_ok.
Proof.
  intros (Da & Dr & Dw & Dc) He Hs. destruct (prologue_ok env s Hs He) as (s1 & Hi & Hin & _ & a & p & Hat).
  split_and!.
  - destruct (accept_prologue env sockfd s s1 Hi Hin Da) as (s2 & -> & H2 & Hr & Ha & Hp).
    assert (Hat2 : attrs s2 a p) by (unfold attrs; by rewrite Ha, Hp).
    erewrite hook_accept_run by done.
    eexists. split; [done|]. destruct (_ && _); by apply (attrs_port_ok _ a p).
  - destruct (read_prologue env fd count s s1 Hi Hin Dr) as (s2 & -> & H2 & Hr & Ha & Hp).
    assert (Hat2 : attrs s2 a p) by (unfold attrs; by rewrite Ha, Hp).
    destruct (os_read env fd count) as [n buf] eqn:Eos. cbn [fst].
    destruct (hook_read_run env fd count s2 a p n buf H2 Hr (λ _, Hat2) Eos) as (m & cs & k & ->).
    eexists. split; [done|]. by apply (attrs_port_ok _ a p).
  - destruct (write_prologue env fd mem count s s1 Hi Hin Dw) as (s2 & -> & H2 & Hr & Ha & Hp & _).
    assert (Hat2 : attrs s2 a p) by (unfold attrs; by rewrite Ha, Hp).
    erewrite hook_write_run by done.
    eexists. split; [done|]. destruct (_ && _); [|by apply (attrs_port_ok _ a p)].
    case_match; by apply (attrs_port_ok _ a p).
  - unfold hook_close. erewrite bind_run by reflexivity. unfold end_span_for_fd.
    set (s' := MkPreload _ _ _ _ _ _ _ _ _ _ _ _ _ _).
    assert (Hp' : port_ok s') by exact Hs.
    assert (Hc' : real_close s' = true) by (subst s'; unfold real_close; by rewrite Dc, orb_true_r). clearbody s'.
    unfold mbind, M_bind. cbn [get]. destruct (fd_span_map s' !! fd) as [ctx|].
    + rewrite end_and_erase_run. cbn [get real_close with_spans]. rewrite Hc'. by eexists.
    + cbn [get mret M_ret]. rewrite Hc'. by eexists.
Qed.

Lemma hooks_transparent_witness :
  returns (hook_accept init_env 3 Preload_init) 7%Z port_ok ∧
  returns (hook_read init_env 7 100 Preload_init) 65%Z port_ok ∧
  returns (hook_write init_env 7 (B "HTTP/1.1 200 OK") 15 Preload_init) 15%Z port_ok ∧
  returns (hook_close init_env 7 Preload_init) 0%Z port_ok.
Proof.
  apply (hooks_transparent init_env Preload_init 3 7 (B "HTTP/1.1 200 OK") 15).
  - by split_and!.
  - exists 9090%Z. vm_compute. reflexivity.
  - intros H. discriminate H.
Defined.

(** A port that is not a number throws out of [accept], after the connection was accepted. *)
Example bad_port_throws :
  let env := MkEnv (λ name, if beq name (B "OTEL_EXPORTER_OTLP_ENDPOINT") then Some (B "http://c:4318")
                            else if beq name (B "OTEL_SERVER_PORT") then Some (B "http") else None)
    CreateReturns (λ _, true) (λ _, 7%Z) (λ _ _, (0%Z, [])) (λ _ _ count, Z.of_nat count) (λ _, 0%Z) in
  ∃ s', hook_accept env 3 Preload_init = Throw s'.
Proof. eexists. vm_compute. reflexivity. Qed.

(** ** close *)

(** Closing a descriptor ends its span, if it has one, and forgets it; the other descriptors
    keep theirs. *)
Theorem hook_close_spec env fd s :
  real_close s = true →
  hook_close env fd s =
    Ret (os_close env fd)
      (match fd_span_map s !! fd with
       | Some ctx => with_spans s (delete fd (fd_span_map s))
                       (calls s ++ [CEnd (fd_span ctx); CRelease (fd_span ctx)]) (next_span s)
       | None => s
       end).
Proof.
  intros Hc. unfold hook_close.
  assert (Hres : resolve_close env s = Ret tt s).
  { unfold resolve_close, modify. destruct s; simpl in *. by subst. }
  erewrite bind_run by (by apply Hres). unfold end_span_for_fd, mbind, M_bind. cbn [get].
  destruct (fd_span_map s !! fd) as [ctx|].
  - rewrite end_and_erase_run. cbn [get real_close with_spans]. by rewrite Hc.
  - cbn [get mret M_ret]. by rewrite Hc.
Qed.

Lemma hook_close_spec_witness :
  hook_close init_env 7 (with_real_calls (shared example_run)) =
    Ret 0%Z (with_real_calls (shared example_run)).
Proof. exact (hook_close_spec init_env 7 (with_real_calls (shared example_run)) eq_refl). Defined.
