(* ===== verification/PreloadCode.v ===== *)
(** * The preloaded tracer, one access at a time

    src/roll-dice/preload_tracer.cpp again, as programs whose steps are the single accesses to the
    file's globals, to the mutex and to the tracing API: what several threads, and a signal handler
    on top of one of them, can interleave.

    A program is a tree of accesses with their continuations.  Run alone it is the hook of
    Preload.v ([alone_hooks]); PreloadThreads.v runs many of them together. *)
From S2P Require Export PreloadHooks.

(** ** Accesses *)

Inductive symbol := SymAccept | SymRead | SymWrite | SymClose.

#[global] Instance symbol_eq_dec : EqDecision symbol.
Proof. solve_decision. Defined.

Definition symbol_name (f : symbol) : bytes :=
  match f with SymAccept => B "accept" | SymRead => B "read" | SymWrite => B "write" | SymClose => B "close" end.

(** [GetReal f] and [SetReal f] are the accesses to the pointer [real_f]; [Find], [Assign] and
    [Erase] those to [fd_span_map]; [Start] and [Invoke] the calls on the tracing API;
    [CreateExporter] and [Print] are what the initialisation leaves behind. *)
Inductive access :=
  | GetInitialized | SetInitialized
  | GetAddress | SetAddress (o : option bytes)
  | GetPort | SetPort (o : option bytes)
  | GetProvider | SetProvider
  | GetTracer | SetTracer
  | GetReal (f : symbol) | SetReal (f : symbol) (found : bool)
  | LockMutex | UnlockMutex
  | Find (fd : Z) | Assign (fd : Z) (ctx : FdSpanContext) | Erase (fd : Z)
  | Start (name : bytes) (opts : StartSpanOptions)
  | Invoke (c : call)
  | CreateExporter (opts : bytes * bytes)
  | Print (text : bytes).

Definition answer (op : access) : Type :=
  match op with
  | GetInitialized | GetProvider | GetTracer | GetReal _ => bool
  | GetAddress | GetPort => option bytes
  | Find _ => option FdSpanContext
  | Start _ _ => nat
  | _ => unit
  end.

Definition get_real (f : symbol) (s : Preload) : bool :=
  match f with
  | SymAccept => real_accept s | SymRead => real_read s | SymWrite => real_write s | SymClose => real_close s
  end.

Definition set_real (f : symbol) (b : bool) (s : Preload) : Preload :=
  let pick f' old := if decide (f = f') then b else old in
  MkPreload (pick SymAccept (real_accept s)) (pick SymRead (real_read s)) (pick SymWrite (real_write s))
    (pick SymClose (real_close s)) (tracer s) (provider s) (otel_initialized s) (server_address s)
    (server_port s) (fd_span_map s) (exporter_opts s) (calls s) (next_span s) (messages s).

(** The globals of the initialisation: flag, address, port, provider, tracer. *)
Definition set_globals (s : Preload) (initialized : bool) (address port : option bytes) (pr tr : bool) : Preload :=
  MkPreload (real_accept s) (real_read s) (real_write s) (real_close s) tr pr initialized address port
    (fd_span_map s) (exporter_opts s) (calls s) (next_span s) (messages s).

(** A thread's frame: its own code, or the signal handler that interrupted it. *)
Definition key : Type := nat * bool.

(** The globals and the mutex, with the frame that locked it. *)
Record Shared := MkShared {
  globals : Preload;
  fd_span_mutex : option key;
}.

Definition on_globals (w : Shared) (f : Preload → Preload) : Shared := MkShared (f (globals w)) (fd_span_mutex w).

(** The new state of an effect that always returns. *)
Definition effect {A} (m : M A) (s : Preload) : Preload :=
  match m s with Ret _ s' | Throw s' | Exit _ s' => s' | Crash => s end.

(** One access; [None] waits. *)
Definition perform (me : key) (op : access) (w : Shared) : option (Shared * answer op) :=
  let s := globals w in
  match op with
  | GetInitialized => Some (w, otel_initialized s)
  | SetInitialized => Some (on_globals w (λ s, set_globals s true (server_address s) (server_port s) (provider s) (tracer s)), tt)
  | GetAddress => Some (w, server_address s)
  | SetAddress o => Some (on_globals w (λ s, set_globals s (otel_initialized s) o (server_port s) (provider s) (tracer s)), tt)
  | GetPort => Some (w, server_port s)
  | SetPort o => Some (on_globals w (λ s, set_globals s (otel_initialized s) (server_address s) o (provider s) (tracer s)), tt)
  | GetProvider => Some (w, provider s)
  | SetProvider => Some (on_globals w (λ s, set_globals s (otel_initialized s) (server_address s) (server_port s) true (tracer s)), tt)
  | GetTracer => Some (w, tracer s)
  | SetTracer => Some (on_globals w (λ s, set_globals s (otel_initialized s) (server_address s) (server_port s) (provider s) true), tt)
  | GetReal f => Some (w, get_real f s)
  | SetReal f b => Some (on_globals w (set_real f b), tt)
  | LockMutex => match fd_span_mutex w with None => Some (MkShared s (Some me), tt) | Some _ => None end
  | UnlockMutex => Some (MkShared s None, tt)
  | Find fd => Some (w, fd_span_map s !! fd)
  | Assign fd ctx => Some (on_globals w (effect (set_map (<[fd := ctx]> (fd_span_map s)))), tt)
  | Erase fd => Some (on_globals w (effect (set_map (delete fd (fd_span_map s)))), tt)
  | Start name opts => Some (on_globals w (effect (StartSpan name opts)), next_span s)
  | Invoke c => Some (on_globals w (effect (emit c)), tt)
  | CreateExporter opts => Some (on_globals w (effect (set_exporter (tracer s) (provider s) opts)), tt)
  | Print text => Some (on_globals w (effect (message text)), tt)
  end.

(** ** Programs *)

(** How a program can end other than by returning: an exception, a call through a null function
    pointer or a null string, [std::exit]. *)
Inductive failure := Thrown | NullFunction | NullString | NullTracer | OutOfRange | Exiting (code : Z).

Inductive prog (A : Type) :=
  | Done (a : A)
  | Failed (e : failure)
  | Act (op : access) (k : answer op → prog A).
Arguments Done {_}.
Arguments Failed {_}.
Arguments Act {_}.

Fixpoint prog_bind {A C} (k : A → prog C) (p : prog A) : prog C :=
  match p with
  | Done a => k a
  | Failed e => Failed e
  | Act op c => Act op (λ a, prog_bind k (c a))
  end.

#[global] Instance prog_ret : MRet prog := @Done.
#[global] Instance prog_mbind : MBind prog := @prog_bind.

Definition act (op : access) : prog (answer op) := Act op Done.
Definition skip : prog unit := Done tt.
Definition from_some {A} (e : failure) (o : option A) : prog A :=
  match o with Some a => Done a | None => Failed e end.

(** A block that owns a reference to a span, as in Preload.v. *)
Fixpoint guarding {A} (span : nat) (p : prog A) : prog A :=
  match p with
  | Failed Thrown => Act (Invoke (CRelease span)) (λ _, Failed Thrown)
  | Act op k => Act op (λ a, guarding span (k a))
  | p => p
  end.

Definition scoping {A} (span : nat) (p : prog A) : prog A :=
  a ← guarding span p; act (Invoke (CRelease span));; mret a.

(** ** The code *)

Definition init_code (env : Env) : prog unit :=
  initialized ← act GetInitialized;
  if initialized : bool then skip
  else
    act SetInitialized;;
    act (SetAddress (c_getenv env (B "OTEL_SERVER_ADDRESS")));;
    act (SetPort (c_getenv env (B "OTEL_SERVER_PORT")));;
    address ← act GetAddress;
    match (address : option bytes) with None => act (SetAddress (Some (B "localhost"))) | Some _ => skip end;;
    port ← act GetPort;
    match (port : option bytes) with None => act (SetPort (Some (B "8080"))) | Some _ => skip end;;
    match c_getenv env (B "OTEL_EXPORTER_OTLP_ENDPOINT") with
    | None | Some [] => act (Print (B "[OTEL PRELOAD] OTEL_EXPORTER_OTLP_ENDPOINT not set; tracing disabled."))
    | Some endpoint_env =>
        act (CreateExporter (endpoint_env, default [] (c_getenv env (B "OTEL_EXPORTER_OTLP_HEADERS"))));;
        match create env with
        | CreateThrows => act (Print (B "[OTEL PRELOAD] Failed to initialize tracing: "))
        | GetTracerThrows => act SetProvider;; act (Print (B "[OTEL PRELOAD] Failed to initialize tracing: "))
        | CreateReturns => act SetProvider;; act SetTracer;; act (Print (B "[OTEL PRELOAD] Tracing initialized ✅"))
        end
    end.

(** [if (!real_f) real_f = dlsym(RTLD_NEXT, "f")] *)
Definition resolve_code (env : Env) (f : symbol) : prog unit :=
  found ← act (GetReal f);
  if found : bool then skip else act (SetReal f (dlsym env (symbol_name f))).

(** [real_f(...)], whose answer is [a] *)
Definition call_code {A} (f : symbol) (a : A) : prog A :=
  found ← act (GetReal f);
  if found : bool then mret a else Failed NullFunction.

(** [n > 0 && tracer] and the like: the second operand is read only if the first holds *)
Definition and_tracer (b : bool) : prog bool := if b then act GetTracer else mret false.

(** [tracer->StartSpan(name, opts)] *)
Definition start_code (name : bytes) (opts : StartSpanOptions) : prog nat :=
  tracer_ ← act GetTracer;
  if tracer_ : bool then act (Start name opts) else Failed NullTracer.

Definition server_attributes_code (span : nat) : prog unit :=
  server_address_ ← act GetAddress;
  address ← from_some NullString (server_address_ : option bytes);
  act (Invoke (CSetAttribute span (B "server.address") (AVstring address)));;
  server_port_ ← act GetPort;
  port_s ← from_some NullString (server_port_ : option bytes);
  port ← from_some Thrown (stol port_s);
  act (Invoke (CSetAttribute span (B "server.port") (AVint port))).

Definition accept_code (env : Env) (sockfd : Z) : prog Z :=
  init_code env;;
  resolve_code env SymAccept;;
  client_fd ← call_code SymAccept (os_accept env sockfd);
  traced ← and_tracer (negb (client_fd =? -1)%Z);
  if traced : bool then
    span ← start_code (B "HTTP accept") (MkStartSpanOptions kServer (ParentSpanContext GetInvalid));
    scoping span (
      server_attributes_code span;;
      act (Invoke (CSetAttribute span (B "net.sock.peer.fd") (AVint client_fd)));;
      act (Invoke (CAddEvent span (B "Accepted client fd: " ++ to_string client_fd)));;
      act (Invoke (CEnd span)));;
    mret client_fd
  else mret client_fd.

Definition header_attribute_code (span : nat) (header_map : HeaderMap) (header name : bytes) : prog unit :=
  match header_map !! header with
  | Some (c :: v) => act (Invoke (CSetAttribute span name (AVstring (c :: v))))
  | _ => skip
  end.

Definition request_span_code (data : bytes) (nbytes : Z) (method path : bytes) : prog FdSpanContext :=
  header_map ← from_some OutOfRange (parse_request_headers data);
  ctx_out ← from_some OutOfRange (HttpTraceContext_Extract (MkHeaderCarrier (Some header_map)) Context_default);
  span ← start_code (method ++ B " " ++ path) (MkStartSpanOptions kServer (ParentContext ctx_out));
  guarding span (
    act (Invoke (CSetAttribute span (B "http.request.method") (AVstring method)));;
    act (Invoke (CSetAttribute span (B "url.path") (AVstring path)));;
    act (Invoke (CSetAttribute span (B "http.request.body.size") (AVint nbytes)));;
    server_attributes_code span;;
    header_attribute_code span header_map (B "user-agent") (B "http.request.header.user_agent");;
    header_attribute_code span header_map (B "x-request-id") (B "http.request.header.x_request_id");;
    act (Invoke (CAddEvent span (B "Request received")));;
    mret (MkFdSpanContext span method path)).

(** [fd_span_map[fd] = std::move(ctx)] under the lock: the span that was there is released. *)
Definition publish_code (fd : Z) (ctx : FdSpanContext) : prog unit :=
  act LockMutex;;
  old ← act (Find fd);
  act (Assign fd ctx);;
  match (old : option FdSpanContext) with Some old => act (Invoke (CRelease (fd_span old))) | None => skip end;;
  act UnlockMutex.

(** [read] up to the lock: the result and the span to publish. *)
Definition read_open_code (env : Env) (fd : Z) (count : nat) : prog (Z * option FdSpanContext) :=
  init_code env;;
  resolve_code env SymRead;;
  r ← call_code SymRead (os_read env fd count);
  traced ← and_tracer (0 <? r.1)%Z;
  if traced : bool then
    let data := take (Z.to_nat r.1) r.2 in
    mp ← from_some OutOfRange (request_line_of data);
    if http_like data mp.1 mp.2 then
      ctx ← request_span_code data r.1 mp.1 mp.2;
      mret (r.1, Some ctx)
    else mret (r.1, None)
  else mret (r.1, None).

Definition read_code (env : Env) (fd : Z) (count : nat) : prog Z :=
  r ← read_open_code env fd count;
  match r.2 with
  | Some ctx => publish_code fd ctx;; mret r.1
  | None => mret r.1
  end.

Definition status_code_code (span : nat) (status_code n : Z) : prog unit :=
  act (Invoke (CSetAttribute span (B "http.response.status_code") (AVint status_code)));;
  act (Invoke (CSetAttribute span (B "http.response.body.size") (AVint n)));;
  if (400 <=? status_code)%Z
  then act (Invoke (CSetStatus span kError (B "HTTP " ++ to_string status_code)))
  else act (Invoke (CSetStatus span kOk [])).

(** [it->second.span->End(); fd_span_map.erase(it);] *)
Definition end_code (fd : Z) (ctx : FdSpanContext) : prog unit :=
  act (Invoke (CEnd (fd_span ctx)));;
  act (Erase fd);;
  act (Invoke (CRelease (fd_span ctx))).

Definition write_code (env : Env) (fd : Z) (mem : bytes) (count : nat) : prog Z :=
  init_code env;;
  resolve_code env SymWrite;;
  n ← call_code SymWrite (os_write env fd mem count);
  traced ← and_tracer (0 <? n)%Z;
  if traced : bool then
    act LockMutex;;
    it ← act (Find fd);
    match (it : option FdSpanContext) with
    | Some ctx =>
        match parse_response_status mem (Z.to_nat n) with
        | Some status_code => status_code_code (fd_span ctx) status_code n
        | None => skip
        end;;
        end_code fd ctx
    | None => skip
    end;;
    act UnlockMutex;;
    mret n
  else mret n.

Definition end_span_for_fd_code (fd : Z) : prog unit :=
  act LockMutex;;
  it ← act (Find fd);
  match (it : option FdSpanContext) with Some ctx => end_code fd ctx | None => skip end;;
  act UnlockMutex.

Definition close_code (env : Env) (fd : Z) : prog Z :=
  resolve_code env SymClose;;
  end_span_for_fd_code fd;;
  call_code SymClose (os_close env fd).

Definition log_code (env : Env) (msg : bytes) : prog unit :=
  write_code env STDERR_FILENO (msg ++ [NUL]) (length (cstr msg));;
  write_code env STDERR_FILENO (["010"%char; NUL]) 1;;
  skip.

Definition flush_code (env : Env) : prog unit :=
  provider_ ← act GetProvider;
  if provider_ : bool then
    log_code env (B "[OTEL PRELOAD] Flushing spans...");; act (Invoke CForceFlush)
  else skip.

Definition preload_init_code (env : Env) : prog unit := log_code env (B "[OTEL PRELOAD] Library loaded").

Definition cleanup_code (env : Env) : prog unit :=
  flush_code env;; log_code env (B "[OTEL PRELOAD] Library unloaded").

Definition sigint_code (env : Env) (signum : Z) : prog unit :=
  flush_code env;; Failed (Exiting signum).

(** ** A program run alone *)

(** How a program ended; [Waits] is a wait for a mutex that nobody will unlock. *)
Inductive ending (A : Type) := Returned (a : A) (w : Shared) | Stopped (e : failure) (w : Shared) | Waits.
Arguments Returned {_}.
Arguments Stopped {_}.
Arguments Waits {_}.

Fixpoint alone {A} (me : key) (p : prog A) (w : Shared) : ending A :=
  match p with
  | Done a => Returned a w
  | Failed e => Stopped e w
  | Act op k => match perform me op w with Some (w', a) => alone me (k a) w' | None => Waits end
  end.

(** An ending is the outcome of the hook of Preload.v, and the mutex is in the state [mx]. *)
Definition agrees {A} (mx : option key) (e : ending A) (o : outcome A) : Prop :=
  match o with
  | Ret a s => e = Returned a (MkShared s mx)
  | Throw s => e = Stopped Thrown (MkShared s mx)
  | Exit code s => e = Stopped (Exiting code) (MkShared s mx)
  | Crash => ∃ f w, e = Stopped f w ∧ f ∈ [NullFunction; NullString; NullTracer; OutOfRange]
  end.

Section alone.
Context (me : key).

(** [p] does what [m] does, from the states of [P], the mutex being in the state [mx]. *)
Definition does {A} (P : Preload → Prop) (mx : option key) (p : prog A) (m : M A) : Prop :=
  ∀ s, P s → agrees mx (alone me p (MkShared s mx)) (m s).

Definition always (s : Preload) : Prop := True.

Lemma alone_bind {A C} (k : A → prog C) (p : prog A) w :
  alone me (p ≫= k) w = match alone me p w with Returned a w' => alone me (k a) w' | Stopped e w' => Stopped e w' | Waits => Waits end.
Proof.
  revert w. induction p as [a|e|op c IH]; intros w; [done..|].
  change (alone me (Act op (λ a, prog_bind k (c a))) w = match alone me (Act op c) w with Returned a w' => alone me (k a) w' | Stopped e w' => Stopped e w' | Waits => Waits end).
  cbn [alone]. destruct (perform me op w) as [[w' a]|]; [apply IH|done].
Qed.

Lemma does_bind {A C} P mx (p : prog A) (m : M A) (k : A → prog C) (k' : A → M C) :
  does P mx p m → (∀ a s s', P s → m s = Ret a s' → agrees mx (alone me (k a) (MkShared s' mx)) (k' a s')) →
  does P mx (p ≫= k) (m ≫= k').
Proof.
  intros Hp Hk s Hs. specialize (Hp s Hs). rewrite alone_bind. unfold mbind, M_bind.
  destruct (m s) as [a s'|s'| |code s'] eqn:E; cbn [agrees] in *.
  - rewrite Hp. by eapply Hk.
  - by rewrite Hp.
  - destruct Hp as (f & w & -> & Hf). eauto.
  - by rewrite Hp.
Qed.

(** The usual case: nothing is assumed of the state. *)
Lemma does_then {A C} P mx (p : prog A) (m : M A) (k : A → prog C) (k' : A → M C) :
  does P mx p m → (∀ a, does always mx (k a) (k' a)) → does P mx (p ≫= k) (m ≫= k').
Proof. intros Hp Hk. eapply does_bind; [done|]. intros a s s' _ _. by apply Hk. Qed.

Lemma does_ret {A} P mx (a : A) : does P mx (mret a) (mret a).
Proof. by intros s _. Qed.

Lemma does_weaken {A} P mx (p : prog A) m : does always mx p m → does P mx p m.
Proof. intros H s _. by apply H. Qed.

Lemma does_emit P mx c : does P mx (act (Invoke c)) (emit c).
Proof. by intros s _. Qed.

Lemma does_some {A} P mx f (o : option A) : f ∈ [NullFunction; NullString; NullTracer; OutOfRange] → does P mx (from_some f o) (lift o).
Proof. intros Hf s _. destruct o; [done|]. by exists f, (MkShared s mx). Qed.

Lemma does_some_throw {A} P mx (o : option A) : does P mx (from_some Thrown o) (or_throw o).
Proof. intros s _. by destruct o. Qed.

Lemma alone_guarding {A} span (p : prog A) w :
  alone me (guarding span p) w =
    match alone me p w with
    | Stopped Thrown w' => Stopped Thrown (on_globals w' (effect (emit (CRelease span))))
    | e => e
    end.
Proof.
  revert w. induction p as [a|e|op c IH]; intros w; [done|by destruct e|]. cbn [guarding alone].
  destruct (perform me op w) as [[w' a]|]; [apply IH|done].
Qed.

Lemma does_guarded {A} P mx span (p : prog A) m : does P mx p m → does P mx (guarding span p) (guarded span m).
Proof.
  intros Hp s Hs. specialize (Hp s Hs). rewrite alone_guarding. unfold guarded.
  destruct (m s) as [a s'|s'| |code s']; cbn [agrees] in *; try by rewrite Hp.
  destruct Hp as (f & w & -> & Hf). destruct f; by eexists _, _.
Qed.

Lemma does_scoped {A} P mx span (p : prog A) m : does P mx p m → does P mx (scoping span p) (scoped span m).
Proof.
  intros Hp. unfold scoping, scoped. apply does_then; [by apply does_guarded|]. intros a.
  apply does_then; [apply does_emit|]. intros u. apply does_ret.
Qed.

(** ** Each part of the code *)

Lemma does_init P mx env : does P mx (init_code env) (init_tracer_lazy env).
Proof.
  intros s _. unfold init_code, init_tracer_lazy.
  destruct s as [ra rr rw rc tr pr oi sa sp m eo cs n ms]. destruct oi; [done|].
  destruct (c_getenv env (B "OTEL_SERVER_ADDRESS")), (c_getenv env (B "OTEL_SERVER_PORT")),
    (c_getenv env (B "OTEL_EXPORTER_OTLP_ENDPOINT")) as [[|c e]|]; try done; by destruct (create env).
Qed.

Lemma does_resolve P mx env f :
  does P mx (resolve_code env f)
    (match f with SymAccept => resolve_accept env | SymRead => resolve_read env
                | SymWrite => resolve_write env | SymClose => resolve_close env end).
Proof.
  intros s _. destruct s as [ra rr rw rc tr pr oi sa sp m eo cs n ms].
  destruct f; cbn; [destruct ra|destruct rr|destruct rw|destruct rc]; done.
Qed.

Lemma alone_call {A} f (a : A) w :
  alone me (call_code f a) w = if get_real f (globals w) then Returned a w else Stopped NullFunction w.
Proof.
  unfold call_code. rewrite alone_bind. cbn [act alone perform]. by destruct (get_real f (globals w)).
Qed.

Lemma alone_and_tracer b w : alone me (and_tracer b) w = Returned (b && tracer (globals w)) w.
Proof. by destruct b. Qed.

(** The real call, then the test of its result and of the tracer. *)
Lemma alone_traced {A C} f (a : A) (b : A → bool) (p q : A → prog C) w :
  alone me (r ← call_code f a; traced ← and_tracer (b r); if traced : bool then p r else q r) w =
  if get_real f (globals w) then alone me (if b a && tracer (globals w) then p a else q a) w
  else Stopped NullFunction w.
Proof.
  rewrite alone_bind, alone_call. destruct (get_real f (globals w)); [|done].
  by rewrite alone_bind, alone_and_tracer.
Qed.

Lemma does_call {A C} P mx f (a : A) (b : A → bool) (p q : A → prog C) (k : Preload → A → M C) :
  (∀ s, P s → agrees mx (alone me (if b a && tracer s then p a else q a) (MkShared s mx)) (k s a s)) →
  does P mx (r ← call_code f a; traced ← and_tracer (b r); if traced : bool then p r else q r)
    (s ← get; r ← call_real (get_real f s) a; k s r).
Proof.
  intros Hk s Hs. rewrite alone_traced. cbn [globals]. unfold mbind at 1, M_bind at 1. cbn [get].
  unfold call_real. destruct (get_real f s).
  - by apply Hk.
  - eexists _, _. split; [done|]. set_solver.
Qed.

Lemma does_server_attributes P mx span : does P mx (server_attributes_code span) (set_server_attributes span).
Proof.
  intros s _. unfold server_attributes_code, set_server_attributes.
  destruct s as [ra rr rw rc tr pr oi sa sp m eo cs n ms].
  destruct sa as [a|]; [|by eexists _, _; split; [done|set_solver]].
  destruct sp as [p|]; [|by eexists _, _; split; [done|set_solver]].
  unfold mbind, prog_mbind, M_bind. cbn -[stol]. destruct (stol p) eqn:E; cbn -[stol]; by rewrite ?E.
Qed.

Lemma does_header_attribute P mx span hm h n : does P mx (header_attribute_code span hm h n) (set_header_attribute span hm h n).
Proof. intros s _. unfold header_attribute_code, set_header_attribute. by destruct (hm !! h) as [[|c v]|]. Qed.

Lemma does_status P mx span code n : does P mx (status_code_code span code n) (record_status span code n).
Proof. intros s _. unfold status_code_code, record_status. by destruct (_ <=? _)%Z. Qed.

Lemma does_end P mx fd ctx : does P mx (end_code fd ctx) (end_and_erase fd ctx).
Proof. by intros s _. Qed.

(** A traced span starts, and its block runs. *)
Lemma does_start {A} mx name opts (k : nat → prog A) (k' : nat → M A) :
  (∀ span, does always mx (k span) (k' span)) →
  does (λ s, tracer s = true) mx (start_code name opts ≫= k) (StartSpan name opts ≫= k').
Proof.
  intros Hk s Hs. unfold start_code, mbind, M_bind, prog_mbind, act. cbn [prog_bind alone perform globals]. rewrite Hs.
  by apply Hk.
Qed.

(** A value computed without touching the globals. *)
Lemma does_pure {A C} P mx f (o : option A) (k : A → prog C) (k' : A → M C) :
  f ∈ [NullFunction; NullString; NullTracer; OutOfRange] →
  (∀ a, o = Some a → does P mx (k a) (k' a)) → does P mx (from_some f o ≫= k) (lift o ≫= k').
Proof.
  intros Hf Hk s Hs. destruct o as [a|]; [by apply (Hk a)|]. by exists f, (MkShared s mx).
Qed.

Lemma does_request_span mx data n method path :
  does (λ s, tracer s = true) mx (request_span_code data n method path) (open_request_span data n method path).
Proof.
  apply does_pure; [set_solver|]. intros hm _. apply does_pure; [set_solver|]. intros ctx _.
  apply does_start. intros span. apply does_guarded.
  repeat (apply does_then; [first [apply does_emit|apply does_server_attributes|apply does_header_attribute]|intros []]).
  apply does_ret.
Qed.

(** The sections under the lock. *)
Lemma does_publish fd ctx : does always None (publish_code fd ctx) (publish fd ctx).
Proof.
  intros s _. unfold publish_code, publish, mbind, prog_mbind, M_bind. cbn.
  by destruct (fd_span_map s !! fd).
Qed.

Lemma does_end_span fd : does always None (end_span_for_fd_code fd) (end_span_for_fd fd).
Proof.
  intros s _. unfold end_span_for_fd_code, end_span_for_fd, mbind, prog_mbind, M_bind. cbn.
  by destruct (fd_span_map s !! fd).
Qed.

Lemma does_accept env sockfd : does always None (accept_code env sockfd) (hook_accept env sockfd).
Proof.
  apply does_then; [apply does_init|]. intros []. apply does_then; [apply (does_resolve _ _ env SymAccept)|]. intros [].
  apply (does_call _ _ SymAccept). intros s _. destruct (negb _ && tracer s) eqn:Ht; [|done].
  apply andb_prop in Ht as [_ Ht]. refine (does_start None _ _ _ _ _ s Ht). intros span.
  apply does_then; [|intros u; apply does_ret]. apply does_scoped.
  repeat (apply does_then; [first [apply does_emit|apply does_server_attributes]|intros []]). apply does_emit.
Qed.

Lemma does_read_open env fd count : does always None (read_open_code env fd count) (read_open env fd count).
Proof.
  apply does_then; [apply does_init|]. intros []. apply does_then; [apply (does_resolve _ _ env SymRead)|]. intros [].
  apply (does_call _ _ SymRead). intros s _. destruct (os_read env fd count) as [n buf]. cbn [fst snd].
  destruct ((0 <? n)%Z && tracer s) eqn:Ht; [|done]. apply andb_prop in Ht as [_ Ht].
  refine (does_pure (λ s, tracer s = true) None _ _ _ _ _ _ s Ht); [set_solver|]. clear. intros [method path] _. cbn [fst snd].
  destruct (http_like _ _ _); [|apply does_ret].
  apply does_then; [apply does_request_span|]. intros ctx. apply does_ret.
Qed.

Lemma does_read env fd count : does always None (read_code env fd count) (hook_read env fd count).
Proof.
  apply does_then; [apply does_read_open|]. intros [n [ctx|]]; cbn [fst snd]; [|apply does_ret].
  apply does_then; [apply does_publish|]. intros []. apply does_ret.
Qed.

(** A section under the lock that returns, then the unlocking. *)
Lemma alone_unlock {A} (p : prog unit) (m : M unit) (n : A) s s' :
  does always (Some me) p m → m s = Ret tt s' →
  alone me (p;; act UnlockMutex;; mret n) (MkShared s (Some me)) = Returned n (MkShared s' None).
Proof.
  intros Hp E. specialize (Hp s I). rewrite E in Hp. cbn [agrees] in Hp. by rewrite alone_bind, Hp.
Qed.

Lemma M_assoc {A C D} (m : M A) (k : A → M C) (k' : C → M D) s : ((m ≫= k) ≫= k') s = (m ≫= λ a, k a ≫= k') s.
Proof. unfold mbind, M_bind. by destruct (m s). Qed.

(** What [write] does to the span of its descriptor. *)
Lemma does_respond mx fd ctx (o : option Z) n :
  does always mx
    (match o with Some code => status_code_code (fd_span ctx) code n | None => skip end;; end_code fd ctx)
    (match o with Some code => record_status (fd_span ctx) code n | None => mret tt end;; end_and_erase fd ctx).
Proof.
  apply does_then; [|intros []; apply does_end]. destruct o; [apply does_status|apply does_ret].
Qed.

Lemma respond_returns fd ctx (o : option Z) n s :
  ∃ s', (match o with Some code => record_status (fd_span ctx) code n | None => mret tt end;; end_and_erase fd ctx) s = Ret tt s'.
Proof.
  destruct o as [code|]; [erewrite bind_run by apply record_status_run|erewrite bind_run by done];
    rewrite end_and_erase_run; eauto.
Qed.

Lemma does_write env fd mem count : does always None (write_code env fd mem count) (hook_write env fd mem count).
Proof.
  apply does_then; [apply does_init|]. intros []. apply does_then; [apply (does_resolve _ _ env SymWrite)|]. intros [].
  apply (does_call _ _ SymWrite). intros s _. destruct ((0 <? _)%Z && tracer s); [|done].
  rewrite alone_bind. cbn [act alone perform fd_span_mutex globals].
  rewrite alone_bind. cbn [act alone perform fd_span_mutex globals].
  destruct (fd_span_map s !! fd) as [ctx|]; [|done].
  set (o := parse_response_status _ _). set (n := os_write _ _ _ _).
  destruct (respond_returns fd ctx o n s) as (s' & E).
  rewrite (alone_unlock _ _ _ _ _ (does_respond _ fd ctx o n) E).
  rewrite <-(M_assoc _ (λ _, end_and_erase fd ctx) (λ _, mret n)). by erewrite bind_run by exact E.
Qed.

Lemma does_close env fd : does always None (close_code env fd) (hook_close env fd).
Proof.
  apply does_then; [apply (does_resolve _ _ env SymClose)|]. intros []. apply does_then; [apply does_end_span|]. intros [].
  intros s _. rewrite alone_call. cbn [globals]. unfold mbind, M_bind. cbn [get get_real]. unfold call_real.
  destruct (real_close s); [done|]. eexists _, _. split; [done|]. set_solver.
Qed.

Lemma does_log env msg : does always None (log_code env msg) (preload_log env msg).
Proof. do 2 (apply does_then; [apply does_write|]; intros ?). apply does_ret. Qed.

Lemma does_flush env : does always None (flush_code env) (flush_spans env).
Proof.
  intros s _. unfold flush_code, flush_spans. rewrite alone_bind. cbn [act alone perform globals].
  unfold mbind at 2, M_bind. cbn [get]. destruct (provider s); cbn [negb]; [|done].
  refine (does_then always None _ _ _ _ (does_log env _) _ s I). intros ?. apply does_emit.
Qed.

(** C3: The programs of accesses are the hooks: run alone, from any state of the globals and with the
    mutex free, each returns, throws, crashes or leaves the process exactly as the definition of Preload.v does,
    with the same globals, and leaves the mutex free. *)
Theorem alone_hooks env s :
  let runs {A} (p : prog A) (m : M A) := agrees None (alone me p (MkShared s None)) (m s) in
  (∀ sockfd, runs (accept_code env sockfd) (hook_accept env sockfd)) ∧
  (∀ fd count, runs (read_code env fd count) (hook_read env fd count)) ∧
  (∀ fd mem count, runs (write_code env fd mem count) (hook_write env fd mem count)) ∧
  (∀ fd, runs (close_code env fd) (hook_close env fd)) ∧
  runs (preload_init_code env) (preload_init env) ∧
  runs (cleanup_code env) (preload_cleanup env) ∧
  (∀ signum, runs (sigint_code env signum) (sigint_handler env signum)).
Proof.
  cbn zeta. split_and!; intros.
  - exact (does_accept env sockfd s I).
  - exact (does_read env fd count s I).
  - exact (does_write env fd mem count s I).
  - exact (does_close env fd s I).
  - exact (does_log env _ s I).
  - refine (does_then always None _ _ _ _ (does_flush env) _ s I). intros []. exact (does_log env _).
  - refine (does_then always None _ _ _ _ (does_flush env) _ s I). by intros [] s' _.
Qed.

End alone.
