(* ===== verification/PreloadOwnership.v ===== *)
(** * Who owns the spans of the preloaded tracer

    A frame (a hook running in a thread, or the signal handler above it) owns the spans it has opened;
    the mutex owns those of the map while nobody holds it, the holder owns them otherwise.  [ok] is the
    weakest precondition of a program of PreloadCode.v in these terms: every hook is proved against it
    once, by itself; [perform_books] says that an access whose needs are met keeps the books, whatever the
    other frames own.  PreloadThreads.v puts the frames together. *)
From S2P Require Export PreloadCode.

(** ** What the application calls *)

(** The four hooks. *)
Inductive entry :=
  | CallAccept (sockfd : Z)
  | CallRead (fd : Z) (count : nat)
  | CallWrite (fd : Z) (mem : bytes) (count : nat)
  | CallClose (fd : Z).

Definition entry_code (env : Env) (e : entry) : prog unit :=
  match e with
  | CallAccept sockfd => accept_code env sockfd;; skip
  | CallRead fd count => read_code env fd count;; skip
  | CallWrite fd mem count => write_code env fd mem count;; skip
  | CallClose fd => close_code env fd;; skip
  end.

(** Every symbol is found: the C library defines them. *)
Definition links (env : Env) : Prop := ∀ f, dlsym env (symbol_name f) = true.

(** ** Ownership *)

(** What a frame owns: spans that run, spans that have ended, the map if it holds the mutex; and the
    function pointers it has seen resolved. *)
Record Local := MkLocal {
  live : list nat;
  over : list nat;
  holding : option (gmap Z FdSpanContext);
  known : list symbol;
}.

Definition owning (l : Local) (L D : list nat) (m : option (gmap Z FdSpanContext)) : Local := MkLocal L D m (known l).
Definition learn (f : symbol) (l : Local) : Local := MkLocal (live l) (over l) (holding l) (f :: known l).

(** The constants of an initialised process. *)
Record Ready := MkReady { rdy_tracer : bool; rdy_provider : bool; rdy_address : bytes; rdy_port : bytes }.

Definition initialised (r : Ready) (s : Preload) : Prop :=
  otel_initialized s = true ∧ tracer s = rdy_tracer r ∧ provider s = rdy_provider r ∧
  server_address s = Some (rdy_address r) ∧ server_port s = Some (rdy_port r).

Section ownership.
Context (r : Ready).

(** A call on a span needs its owner, and moves it. *)
Definition invokes (c : call) (l : Local) (K : Local → Prop) : Prop :=
  match c with
  | CStartSpan _ _ _ => False
  | CSetAttribute id _ _ | CAddEvent id _ | CSetStatus id _ _ => id ∈ live l ∧ K l
  | CEnd id => ∃ L, live l ≡ₚ id :: L ∧ K (owning l L (id :: over l) (holding l))
  | CRelease id =>
      (∃ L, live l ≡ₚ id :: L ∧ K (owning l L (over l) (holding l)))
      ∨ (∃ D, over l ≡ₚ id :: D ∧ K (owning l (live l) D (holding l)))
  | CForceFlush => K l
  end.

(** What one access needs, and what holds after it. *)
Definition legal (op : access) (l : Local) : (answer op → Local → Prop) → Prop :=
  match op with
  | GetInitialized => λ K, K true l
  | GetAddress => λ K, K (Some (rdy_address r)) l
  | GetPort => λ K, K (Some (rdy_port r)) l
  | GetProvider => λ K, K (rdy_provider r) l
  | GetTracer => λ K, K (rdy_tracer r) l
  | GetReal f => λ K, ∀ b : bool, (f ∈ known l → b = true) → K b (if b then learn f l else l)
  | SetReal f b => λ K, b = true ∧ K tt (learn f l)
  | LockMutex => λ K, holding l = None ∧ ∀ m, K tt (owning l (map_spans m ++ live l) (over l) (Some m))
  | UnlockMutex => λ K, ∃ m L, holding l = Some m ∧ live l ≡ₚ map_spans m ++ L ∧ K tt (owning l L (over l) None)
  | Find fd => λ K, ∃ m, holding l = Some m ∧ K (m !! fd) l
  | Assign fd ctx => λ K, ∃ m, holding l = Some m ∧ K tt (owning l (live l) (over l) (Some (<[fd := ctx]> m)))
  | Erase fd => λ K, ∃ m, holding l = Some m ∧ K tt (owning l (live l) (over l) (Some (delete fd m)))
  | Start _ _ => λ K, ∀ id, K id (owning l (id :: live l) (over l) (holding l))
  | Invoke c => λ K, invokes c l (K tt)
  | Print _ => λ K, K tt l
  | SetInitialized | SetAddress _ | SetPort _ | SetProvider | SetTracer | CreateExporter _ => λ _, False
  end.

(** Whether the program may leave the process. *)
Context (X : Prop).

(** From [l] the program never fails, except by an exception in [R] and by leaving the process, and
    returns in [Q]. *)
Fixpoint ok {A} (p : prog A) (l : Local) (Q : A → Local → Prop) (R : Local → Prop) : Prop :=
  match p with
  | Done a => Q a l
  | Failed Thrown => R l
  | Failed (Exiting _) => X
  | Failed _ => False
  | Act op k => legal op l (λ a l', ok (k a) l' Q R)
  end.

Lemma invokes_mono c l (K K' : Local → Prop) : (∀ l, K l → K' l) → invokes c l K → invokes c l K'.
Proof. destruct c; cbn; naive_solver. Qed.

Lemma legal_mono op l (K K' : answer op → Local → Prop) :
  (∀ a l, K a l → K' a l) → legal op l K → legal op l K'.
Proof.
  destruct op; cbn; try naive_solver. intros H. apply invokes_mono. naive_solver.
Qed.

Lemma ok_bind {A C} (p : prog A) (k : A → prog C) l Q R :
  ok p l (λ a l', ok (k a) l' Q R) R → ok (p ≫= k) l Q R.
Proof.
  revert l. induction p as [a|e|op c IH]; intros l; [done|by destruct e|].
  change (legal op l (λ a l', ok (c a) l' (λ a l', ok (k a) l' Q R) R) → legal op l (λ a l', ok (prog_bind k (c a)) l' Q R)).
  apply legal_mono. intros a l'. apply IH.
Qed.

Lemma ok_mono {A} (p : prog A) l (Q Q' : A → Local → Prop) (R R' : Local → Prop) :
  (∀ a l, Q a l → Q' a l) → (∀ l, R l → R' l) → ok p l Q R → ok p l Q' R'.
Proof.
  intros HQ HR. revert l. induction p as [a|e|op c IH]; intros l; [apply HQ|destruct e; try done; apply HR|].
  cbn [ok]. apply legal_mono. intros a l'. apply IH.
Qed.

Lemma ok_guarding {A} id (p : prog A) l Q R :
  ok p l Q (λ l, invokes (CRelease id) l R) → ok (guarding id p) l Q R.
Proof.
  revert l. induction p as [a|e|op c IH]; intros l; [done|by destruct e|].
  cbn [guarding ok]. apply legal_mono. intros a l'. apply IH.
Qed.

(** ** The hooks respect ownership *)

Definition idle (l : Local) : Prop := live l = [] ∧ over l = [] ∧ holding l = None.

Lemma ok_init env l (Q : unit → Local → Prop) R : Q tt l → ok (init_code env) l Q R.
Proof. done. Qed.

Lemma ok_resolve env f l (Q : unit → Local → Prop) R : links env → Q tt (learn f l) → ok (resolve_code env f) l Q R.
Proof. intros Hl HQ. apply ok_bind. cbn. intros [|] _; [done|]. cbn. split; [apply Hl|done]. Qed.

Lemma ok_call {A} f (a : A) l (Q : A → Local → Prop) R : f ∈ known l → Q a (learn f l) → ok (call_code f a) l Q R.
Proof. intros Hf HQ. apply ok_bind. cbn. intros [|] Hb; [done|]. by specialize (Hb Hf). Qed.

(** Initialisation, symbol and real call, for a frame that owns nothing. *)
Lemma ok_prologue {A C} env f (a : A) (k : A → prog C) l Q R :
  links env → idle l → (∀ l', idle l' → ok (k a) l' Q R) →
  ok (resolve_code env f;; r ← call_code f a; k r) l Q R.
Proof.
  intros Hl Hi Hk. apply ok_bind, ok_resolve; [done|]. apply ok_bind, ok_call; [by left|]. by apply Hk.
Qed.

Lemma ok_server_attributes id l (Q : unit → Local → Prop) (R : Local → Prop) :
  id ∈ live l → Q tt l → R l → ok (server_attributes_code id) l Q R.
Proof.
  intros Hid HQ HR. unfold server_attributes_code. apply ok_bind. cbn -[B]. split; [done|].
  apply ok_bind. destruct (stol _); [|done]. cbn. done.
Qed.

Lemma ok_invoke {A} c id l (p : prog A) Q R :
  span_of c = Some id → next_phase c Active = Active → id ∈ live l → ok p l Q R → ok (act (Invoke c);; p) l Q R.
Proof. intros Hs Hp Hid Hk. apply ok_bind. destruct c; simplify_eq/=; done. Qed.

Lemma ok_header_attribute id hm h n l (Q : unit → Local → Prop) R :
  id ∈ live l → Q tt l → ok (header_attribute_code id hm h n) l Q R.
Proof. intros Hid HQ. unfold header_attribute_code. by destruct (hm !! h) as [[|c v]|]. Qed.

(** A block on a running span that ends it. *)
Lemma ok_accept env sockfd l : links env → idle l → ok (accept_code env sockfd) l (λ _, idle) idle.
Proof.
  intros Hl Hi. unfold accept_code. apply ok_bind, ok_init. apply ok_prologue; [done..|]. intros l' (Hlive & Hover & Hhold).
  set (fd := os_accept env sockfd). apply ok_bind. unfold and_tracer.
  destruct (negb _); [|done]. cbn [ok act legal]. destruct (rdy_tracer r) eqn:Ht; [|done].
  unfold start_code. apply ok_bind, ok_bind. cbn [ok act legal]. rewrite Ht. cbn [ok act legal]. intros id. rewrite Hlive.
  apply ok_bind. unfold scoping. apply ok_bind, ok_guarding.
  assert (Hrel : ∀ l2, live l2 = [id] → over l2 = [] → holding l2 = None → invokes (CRelease id) l2 idle).
  { intros l2 H1 H2 H3. left. exists []. by rewrite H1. }
  apply ok_bind, ok_server_attributes; [by left|..|by apply Hrel].
  do 2 (apply (ok_invoke _ id); [done..|by left|]).
  cbn -[B]. exists []. split; [done|]. right. exists []. by rewrite Hover.
Qed.

Lemma ok_write env fd mem count l : links env → idle l → ok (write_code env fd mem count) l (λ _, idle) (λ _, False).
Proof.
  intros Hl Hi. unfold write_code. apply ok_bind, ok_init. apply ok_prologue; [done..|]. intros l' (Hlive & Hover & Hhold).
  set (n := os_write env fd mem count). apply ok_bind. unfold and_tracer.
  destruct (0 <? n)%Z; [|done]. cbn [ok act legal]. destruct (rdy_tracer r); [|done].
  apply ok_bind. cbn [ok act legal]. split; [done|]. intros m. apply ok_bind. exists m. split; [done|]. cbn [ok].
  rewrite Hlive, app_nil_r. destruct (m !! fd) as [ctx|] eqn:E.
  - set (l2 := owning _ _ _ _). assert (Hin : fd_span ctx ∈ live l2). { cbn. rewrite (map_spans_delete _ _ _ E). by left. }
    apply ok_bind.
    assert (Hend : ok (end_code fd ctx) l2 (λ a l3, ok (act UnlockMutex;; mret n) l3 (λ _, idle) (λ _, False)) (λ _, False)).
    { cbn. exists (map_spans (delete fd m)). split; [by apply map_spans_delete|]. exists m. split; [done|]. right. exists []. rewrite Hover.
      split; [done|]. exists (delete fd m), []. by rewrite app_nil_r. }
    apply ok_bind. destruct (parse_response_status _ _) as [code|]; [|exact Hend].
    unfold status_code_code. do 2 (apply (ok_invoke _ (fd_span ctx)); [done..|]).
    destruct (400 <=? code)%Z; (split; [exact Hin|exact Hend]).
  - cbn. exists m, []. by rewrite app_nil_r.
Qed.

Lemma ok_end_span fd l : idle l → ok (end_span_for_fd_code fd) l (λ _ l', idle l' ∧ known l' = known l) (λ _, False).
Proof.
  intros (Hlive & Hover & Hhold). unfold end_span_for_fd_code. apply ok_bind. cbn [ok act legal]. split; [done|].
  intros m. apply ok_bind. exists m. split; [done|]. cbn [ok]. rewrite Hlive, app_nil_r.
  destruct (m !! fd) as [ctx|] eqn:E; cbn.
  - exists (map_spans (delete fd m)). split; [by apply map_spans_delete|]. exists m. split; [done|]. right. exists [].
    rewrite Hover. split; [done|]. exists (delete fd m), []. by rewrite app_nil_r.
  - exists m, []. by rewrite app_nil_r.
Qed.

Lemma ok_close env fd l : links env → idle l → ok (close_code env fd) l (λ _, idle) (λ _, False).
Proof.
  intros Hl Hi. unfold close_code. apply ok_bind, ok_resolve; [done|]. apply ok_bind.
  eapply ok_mono; [| |by apply (ok_end_span fd (learn SymClose l))]; [|done].
  intros [] l' [Hi' Hk]. apply ok_call; [rewrite Hk; by left|]. exact Hi'.
Qed.

Lemma ok_publish fd ctx l : live l = [fd_span ctx] → over l = [] → holding l = None → ok (publish_code fd ctx) l (λ _, idle) (λ _, False).
Proof.
  intros Hlive Hover Hhold. unfold publish_code. apply ok_bind. cbn [ok act legal]. split; [done|].
  intros m. apply ok_bind. exists m. split; [done|]. cbn [ok]. rewrite Hlive.
  apply ok_bind. exists m. split; [done|]. cbn [ok]. pose proof (map_spans_insert m fd ctx) as Hins.
  assert (Hperm : map_spans m ++ [fd_span ctx] ≡ₚ held (m !! fd) ++ map_spans (<[fd := ctx]> m)).
  { rewrite Hins. destruct (m !! fd) as [old|] eqn:E; cbn [held app].
    - rewrite (map_spans_delete _ _ _ E), <-Permutation_cons_append. apply perm_swap.
    - rewrite delete_id by done. by rewrite <-Permutation_cons_append. }
  destruct (m !! fd) as [old|]; cbn [held app] in Hperm; apply ok_bind; cbn.
  - left. exists (map_spans (<[fd := ctx]> m)). split; [exact Hperm|]. exists (<[fd := ctx]> m), []. by rewrite app_nil_r.
  - exists (<[fd := ctx]> m), []. by rewrite app_nil_r.
Qed.

Lemma ok_request_span data n method path l :
  rdy_tracer r = true → idle l →
  ok (request_span_code data n method path) l
    (λ ctx l', live l' = [fd_span ctx] ∧ over l' = [] ∧ holding l' = None) idle.
Proof.
  intros Ht (Hlive & Hover & Hhold). unfold request_span_code. rewrite parse_request_headers_spec. cbn [from_some mbind prog_mbind prog_bind].
  destruct (Extract_parent (headers_spec data)) as (parent & ->). cbn [from_some mbind prog_mbind prog_bind].
  apply ok_bind. unfold start_code. apply ok_bind. cbn [ok act legal]. rewrite Ht. cbn [ok act legal]. intros id. rewrite Hlive.
  apply ok_guarding. do 3 (apply (ok_invoke _ id); [done..|by left|]).
  apply ok_bind, ok_server_attributes; [by left| |by left; exists []].
  do 2 (apply ok_bind, ok_header_attribute; [by left|]). by apply (ok_invoke _ id); [done..|by left|].
Qed.

Lemma ok_read env fd count l : links env → idle l → ok (read_code env fd count) l (λ _, idle) idle.
Proof.
  intros Hl Hi. unfold read_code, read_open_code. apply ok_bind, ok_bind, ok_init. apply ok_prologue; [done..|]. intros l' Hi'.
  destruct (os_read env fd count) as [n buf]. cbn [fst snd]. apply ok_bind. unfold and_tracer.
  destruct (0 <? n)%Z; [|exact Hi']. cbn [ok act legal]. destruct (rdy_tracer r) eqn:Ht; [|exact Hi'].
  destruct (request_line_total (take (Z.to_nat n) buf)) as (method & path & ->). cbn [from_some mbind prog_mbind prog_bind fst snd].
  destruct (http_like _ _ _); [|exact Hi']. apply ok_bind. eapply ok_mono; [|done|by apply ok_request_span].
  intros ctx l2 (H1 & H2 & H3). cbn [ok mret prog_ret snd]. apply ok_bind.
  eapply ok_mono; [| |by apply ok_publish]; [|done]. by intros [] l3.
Qed.

Lemma ok_entry env e l : links env → idle l → ok (entry_code env e) l (λ _, idle) idle.
Proof.
  intros Hl Hi. destruct e; cbn [entry_code]; apply ok_bind.
  - eapply ok_mono; [| |by apply ok_accept]; [by intros ? l' ?|done].
  - eapply ok_mono; [| |by apply ok_read]; [by intros ? l' ?|done].
  - eapply ok_mono; [| |by apply ok_write]; [by intros ? l' ?|done].
  - eapply ok_mono; [| |by apply ok_close]; [by intros ? l' ?|done].
Qed.

Lemma ok_sigint env signum l : links env → idle l → X → ok (sigint_code env signum) l (λ _ _, False) (λ _, False).
Proof.
  intros Hl Hi HX. unfold sigint_code, flush_code, log_code. apply ok_bind, ok_bind. cbn [ok act legal].
  destruct (rdy_provider r); [|done]. apply ok_bind, ok_bind.
  eapply ok_mono; [| |by apply ok_write]; [|done]. intros n1 l1 H1. apply ok_bind.
  eapply ok_mono; [| |by apply ok_write]; [|done]. by intros n2 l2 H2.
Qed.

(** ** One access keeps the books *)

(** The map, in the hands of the frame that locked the mutex; and its spans, nobody's while it is free. *)
Definition holding_of (w : Shared) (k : key) : option (gmap Z FdSpanContext) :=
  if decide (fd_span_mutex w = Some k) then Some (fd_span_map (globals w)) else None.

Definition free_spans (w : Shared) : list nat :=
  match fd_span_mutex w with None => map_spans (fd_span_map (globals w)) | Some _ => [] end.

Definition log_of (w : Shared) (L D : list nat) : Prop := log_ok L D (next_span (globals w)) (calls (globals w)).

(** The frame [k] owns [l], all others own the running spans [L] and the ended spans [D]. *)
Record books (k : key) (w : Shared) (l : Local) (L D : list nat) : Prop := MkBooks {
  bk_init : initialised r (globals w);
  bk_hold : holding l = holding_of w k;
  bk_known : ∀ f, f ∈ known l → get_real f (globals w) = true;
  bk_log : log_of w (free_spans w ++ live l ++ L) (over l ++ D);
}.

(** What the others may rely on. *)
Record stable (k : key) (w w' : Shared) : Prop := MkStable {
  st_hold : ∀ k', k' ≠ k → holding_of w' k' = holding_of w k';
  st_real : ∀ f, get_real f (globals w) = true → get_real f (globals w') = true;
  st_mutex : ∀ k', fd_span_mutex w' = Some k' → k' = k ∨ fd_span_mutex w = Some k';
}.

Lemma stable_refl k w : stable k w w.
Proof. split; auto. Qed.

(** The mutex as it was, the map too or in the frame's hands. *)
Lemma stable_on_globals k w (f : Preload → Preload) :
  (fd_span_map (f (globals w)) = fd_span_map (globals w) ∨ fd_span_mutex w = Some k) →
  (∀ g, get_real g (globals w) = true → get_real g (f (globals w)) = true) → stable k w (on_globals w f).
Proof.
  intros Hm Hr. split; [|done|auto]. intros k' Hk. unfold holding_of. cbn.
  case_decide as Hd; [|done]. destruct Hm as [->|Hm]; [done|]. rewrite Hd in Hm. by injection Hm as ->.
Qed.

(** A call on a span moves it between the books of its owner. *)
Lemma invoke_books k w l c K L D :
  books k w l L D → invokes c l K →
  ∃ l', K l' ∧ books k (on_globals w (effect (emit c))) l' L D.
Proof.
  intros [Hi Hh Hk Hl] Hc. unfold log_of in Hl.
  assert (Hout : ∀ l', holding l' = holding l → known l' = known l →
    log_ok (free_spans w ++ live l' ++ L) (over l' ++ D) (next_span (globals w)) (calls (globals w) ++ [c]) →
    books k (on_globals w (effect (emit c))) l' L D).
  { intros l' E1 E2 E3. split; [exact Hi|by rewrite E1|by rewrite E2|exact E3]. }
  assert (Hact : ∀ id, id ∈ live l → span_of c = Some id → next_phase c Active = Active → K l →
    ∃ l', K l' ∧ books k (on_globals w (effect (emit c))) l' L D).
  { intros id Hid Hs Hp HK. exists l. split; [done|]. apply Hout; [done..|]. eapply log_op; [exact Hl| |done..]. set_solver. }
  destruct c as [id nm o|id ky v|id nm|id cd ds|id|id|]; cbn [invokes] in Hc; [done| | | | | |].
  - destruct Hc as [Hid HK]. by apply (Hact id).
  - destruct Hc as [Hid HK]. by apply (Hact id).
  - destruct Hc as [Hid HK]. by apply (Hact id).
  - destruct Hc as (L' & HL & HK). exists (owning l L' (id :: over l) (holding l)). split; [done|]. apply Hout; [done..|]. cbn.
    rewrite HL in Hl. cbn in Hl. rewrite <-Permutation_middle in Hl. by apply log_end.
  - destruct Hc as [(L' & HL & HK)|(D' & HD & HK)].
    + exists (owning l L' (over l) (holding l)). split; [done|]. apply Hout; [done..|]. cbn.
      rewrite HL in Hl. cbn in Hl. rewrite <-Permutation_middle in Hl. by apply log_release_active.
    + exists (owning l (live l) D' (holding l)). split; [done|]. apply Hout; [done..|]. cbn.
      rewrite HD in Hl. by apply log_release_ended.
  - exists l. split; [done|]. apply Hout; [done..|]. by apply log_flush.
Qed.

Lemma holder_of k w l L D m : books k w l L D → holding l = Some m → fd_span_mutex w = Some k ∧ m = fd_span_map (globals w).
Proof. intros [_ Hh _ _] E. rewrite Hh in E. unfold holding_of in E. case_decide; naive_solver. Qed.

(** Reading changes nothing. *)
Lemma read_books k w l (K : Local → Prop) L D :
  books k w l L D → K l → ∃ l', K l' ∧ books k w l' L D ∧ stable k w w.
Proof. intros Hb HK. exists l. auto using stable_refl. Qed.

Lemma set_real_books k w l f L D :
  books k w l L D →
  books k (on_globals w (set_real f true)) (learn f l) L D ∧ stable k w (on_globals w (set_real f true)).
Proof.
  intros [Hi Hh Hk Hlog].
  assert (Hmono : ∀ g, get_real g (globals w) = true → get_real g (set_real f true (globals w)) = true).
  { intros g. destruct f, g; cbn; done. }
  split; [split; [exact Hi|exact Hh| |exact Hlog]|].
  - intros g. cbn [known learn]. intros [->|Hg]%elem_of_cons; [by destruct f|]. by apply Hmono, Hk.
  - apply stable_on_globals; [by left|done].
Qed.

Lemma lock_books k w l L D :
  books k w l L D → fd_span_mutex w = None →
  books k (MkShared (globals w) (Some k)) (owning l (map_spans (fd_span_map (globals w)) ++ live l) (over l) (Some (fd_span_map (globals w)))) L D
  ∧ stable k w (MkShared (globals w) (Some k)).
Proof.
  intros [Hi Hh Hk Hlog] Hm. split; split; try done.
  - unfold holding_of. cbn. by rewrite decide_True.
  - unfold log_of, free_spans in *. rewrite Hm in Hlog. cbn. by rewrite <-app_assoc.
  - intros k' Hne. unfold holding_of. cbn. rewrite Hm, !decide_False by congruence. done.
  - cbn. intros k' [= <-]. by left.
Qed.

Lemma unlock_books k w l m L0 L D :
  books k w l L D → holding l = Some m → live l ≡ₚ map_spans m ++ L0 →
  books k (MkShared (globals w) None) (owning l L0 (over l) None) L D ∧ stable k w (MkShared (globals w) None).
Proof.
  intros Hb Hl HL. destruct (holder_of _ _ _ _ _ _ Hb Hl) as [Hm ->]. destruct Hb as [Hi Hh Hk Hlog]. split; split; try done.
  - unfold log_of, free_spans in *. rewrite Hm in Hlog. cbn in *. rewrite HL in Hlog. by rewrite <-app_assoc in Hlog.
  - intros k' Hne. unfold holding_of. cbn. rewrite Hm, !decide_False by congruence. done.
Qed.

(** The holder changes the map. *)
Lemma map_books k w l m m' L D :
  books k w l L D → holding l = Some m →
  books k (on_globals w (effect (set_map m'))) (owning l (live l) (over l) (Some m')) L D
  ∧ stable k w (on_globals w (effect (set_map m'))).
Proof.
  intros Hb Hl. destruct (holder_of _ _ _ _ _ _ Hb Hl) as [Hm ->]. destruct Hb as [Hi Hh Hk Hlog]. split.
  - split; [exact Hi| |exact Hk|].
    + unfold holding_of. cbn. by rewrite decide_True.
    + unfold log_of, free_spans in *. cbn. by rewrite Hm in *.
  - apply stable_on_globals; [by right|done].
Qed.

Lemma start_books k w l nm opts L D :
  books k w l L D →
  books k (on_globals w (effect (StartSpan nm opts))) (owning l (next_span (globals w) :: live l) (over l) (holding l)) L D
  ∧ stable k w (on_globals w (effect (StartSpan nm opts))).
Proof.
  intros [Hi Hh Hk Hlog]. split.
  - split; [exact Hi|exact Hh|exact Hk|]. unfold log_of in *. cbn. rewrite <-Permutation_middle. by apply log_start.
  - apply stable_on_globals; [by left|done].
Qed.

(** An access whose needs are met keeps the books. *)
Lemma perform_books k op w w' a l (K : answer op → Local → Prop) L D :
  books k w l L D → legal op l K → perform k op w = Some (w', a) →
  ∃ l', K a l' ∧ books k w' l' L D ∧ stable k w w'.
Proof.
  intros Hb Hl Hp. pose proof Hb as [(Hi1 & Hi2 & Hi3 & Hi4 & Hi5) _ Hk _].
  destruct op as [ | | |?| |?| | | | |f|f b| | |fd|fd ctx|fd|nm opts|c|opts|text]; cbn in Hl, Hp; try done;
    try (injection Hp as <- <-).
  - eapply read_books; [exact Hb|]. by rewrite Hi1.
  - eapply read_books; [exact Hb|]. by rewrite Hi4.
  - eapply read_books; [exact Hb|]. by rewrite Hi5.
  - eapply read_books; [exact Hb|]. by rewrite Hi3.
  - eapply read_books; [exact Hb|]. by rewrite Hi2.
  - specialize (Hl (get_real f (globals w)) (Hk f)). eexists. split; [exact Hl|]. split; [|apply stable_refl].
    destruct (get_real f (globals w)) eqn:E; [|done]. destruct Hb. split; [done..| |done]. cbn. set_solver.
  - destruct Hl as [-> HK]. eexists. split; [exact HK|]. by apply set_real_books.
  - destruct Hl as [_ HK]. destruct (fd_span_mutex w) eqn:Hm; [done|]. injection Hp as <- <-.
    eexists. split; [apply HK|]. by apply lock_books.
  - destruct Hl as (m & L0 & Hh & HL & HK). eexists. split; [exact HK|]. by eapply unlock_books.
  - destruct Hl as (m & Hh & HK). destruct (holder_of _ _ _ _ _ _ Hb Hh) as [_ ->]. by eapply read_books.
  - destruct Hl as (m & Hh & HK). destruct (holder_of _ _ _ _ _ _ Hb Hh) as [_ Hm]. eexists. split; [exact HK|].
    subst m. by eapply map_books.
  - destruct Hl as (m & Hh & HK). destruct (holder_of _ _ _ _ _ _ Hb Hh) as [_ Hm]. eexists. split; [exact HK|].
    subst m. by eapply map_books.
  - eexists. split; [apply Hl|]. by apply start_books.
  - destruct (invoke_books _ _ _ _ _ _ _ Hb Hl) as (l' & HK & Hb'). exists l'. split_and!; [done..|].
    apply stable_on_globals; [by left|done].
  - eexists. split; [exact Hl|]. destruct Hb. split; [by split|]. apply stable_on_globals; [by left|done].
Qed.
End ownership.
