(* ===== verification/PreloadThreads.v ===== *)
(** * The threads and the signal handler of the preloaded tracer

    The hooks of src/roll-dice/preload_tracer.cpp as PreloadCode.v has them, any number of threads
    running them at once, each access a step, and SIGINT able to interrupt a thread between any two of
    its steps.

    The invariant of the process adds up the books of its frames (PreloadOwnership.v).  From it: no
    interleaving goes wrong once the library is initialised, what can race, that hooks make progress, and
    that a signal in a locked section hangs the process. *)
From S2P Require Export PreloadOwnership.

(** ** The process *)

Inductive ProcState := Running | Crashed (e : failure) | Exited (code : Z).

Record Conf := MkConf {
  shared_mem : Shared;
  frames : gmap key (prog unit);
  proc : ProcState;
}.

Definition set_frame (c : Conf) (k : key) (p : prog unit) : Conf :=
  MkConf (shared_mem c) (<[k := p]> (frames c)) (proc c).

(** The frame [k] is the one its thread executes: the handler, or the hook if no handler is above it. *)
Definition scheduled (c : Conf) (k : key) (p : prog unit) : Prop :=
  proc c = Running ∧ frames c !! k = Some p ∧ (k.2 = false → frames c !! (k.1, true) = None).

(** One step of the process, where the kernel, the linker and the environment answer as the class
    [G] of environments allows.  SIGINT is blocked in a thread while its handler runs there.  An
    exception out of a hook goes to the application, which may go on; out of the handler it ends the process. *)
Inductive fine_step (G : Env → Prop) : Conf → Conf → Prop :=
  | enter c t env e :
      proc c = Running → G env → frames c !! (t, false) = None → frames c !! (t, true) = None →
      fine_step G c (set_frame c (t, false) (entry_code env e))
  | interrupt c t env signum :
      proc c = Running → G env → frames c !! (t, true) = None →
      fine_step G c (set_frame c (t, true) (sigint_code env signum))
  | do_access c k op kont w a :
      scheduled c k (Act op kont) → perform k op (shared_mem c) = Some (w, a) →
      fine_step G c (MkConf w (<[k := kont a]> (frames c)) (proc c))
  | leave c k p :
      scheduled c k p → p = Done tt ∨ (p = Failed Thrown ∧ k.2 = false) →
      fine_step G c (MkConf (shared_mem c) (delete k (frames c)) (proc c))
  | std_exit c k code :
      scheduled c k (Failed (Exiting code)) →
      fine_step G c (MkConf (shared_mem c) (frames c) (Exited code))
  | fault c k e :
      scheduled c k (Failed e) → (∀ code, e ≠ Exiting code) → (e = Thrown → k.2 = true) →
      fine_step G c (MkConf (shared_mem c) (frames c) (Crashed e)).

(** ** The books of the whole process *)

(** What all frames own together. *)
Definition gather (g : Local → list nat) (ls : gmap key Local) : list nat := (map_to_list ls).*2 ≫= g.

Lemma gather_take g ls k l : ls !! k = Some l → gather g ls ≡ₚ g l ++ gather g (delete k ls).
Proof. intros H. unfold gather. rewrite <-(map_to_list_delete ls k l H). done. Qed.

Lemma gather_insert g ls k l : gather g (<[k := l]> ls) ≡ₚ g l ++ gather g (delete k ls).
Proof. unfold gather. rewrite <-insert_delete_eq, map_to_list_insert by apply lookup_delete_eq. done. Qed.

(** What a frame must have done with what it owns when it ends. *)
Definition returns_in (k : key) (a : unit) (l : Local) : Prop := if k.2 then False else idle l.
Definition throws_in (k : key) (l : Local) : Prop := if k.2 then False else idle l.

Record conf_inv (r : Ready) (c : Conf) (ls : gmap key Local) : Prop := MkConfInv {
  ci_init : initialised r (globals (shared_mem c));
  ci_frames : ∀ (k : key) p, frames c !! k = Some p → ∃ l, ls !! k = Some l ∧ ok r (k.2 = true) p l (returns_in k) (throws_in k);
  ci_dom : ∀ k, frames c !! k = None → ls !! k = None;
  ci_hold : ∀ k l, ls !! k = Some l → holding l = holding_of (shared_mem c) k;
  ci_mutex : ∀ k, fd_span_mutex (shared_mem c) = Some k → is_Some (ls !! k);
  ci_known : ∀ k l f, ls !! k = Some l → f ∈ known l → get_real f (globals (shared_mem c)) = true;
  ci_log : log_of (shared_mem c) (free_spans (shared_mem c) ++ gather live ls) (gather over ls);
  ci_proc : ∀ e, proc c ≠ Crashed e;
}.

(** The books seen from one frame. *)
Lemma conf_books r c ls k l :
  conf_inv r c ls → ls !! k = Some l →
  books r k (shared_mem c) l (gather live (delete k ls)) (gather over (delete k ls)).
Proof.
  intros Hc Hl. destruct Hc. split; [done|by apply ci_hold0|intros f; by eapply ci_known0|].
  unfold log_of in *. by rewrite (gather_take live _ _ _ Hl), (gather_take over _ _ _ Hl) in ci_log0.
Qed.

(** A frame makes a step that keeps its books and does not disturb the others. *)
Lemma conf_inv_step r c ls (k : key) l l' p' w' :
  conf_inv r c ls → ls !! k = Some l → is_Some (frames c !! k) →
  books r k w' l' (gather live (delete k ls)) (gather over (delete k ls)) → stable k (shared_mem c) w' →
  ok r (k.2 = true) p' l' (returns_in k) (throws_in k) →
  conf_inv r (MkConf w' (<[k := p']> (frames c)) (proc c)) (<[k := l']> ls).
Proof.
  intros Hc Hl [p Hp] [Hi Hh Hk Hlog] [Sh Sr Sm] Hok. destruct Hc. split; cbn [shared_mem frames proc]; try done.
  - intros k1 p1. destruct (decide (k1 = k)) as [->|Hne].
    + rewrite !lookup_insert_eq. intros [= <-]. eauto.
    + rewrite !lookup_insert_ne by done. apply ci_frames0.
  - intros k1. destruct (decide (k1 = k)) as [->|Hne]; [by rewrite lookup_insert_eq|].
    rewrite !lookup_insert_ne by done. apply ci_dom0.
  - intros k1 l1. destruct (decide (k1 = k)) as [->|Hne].
    + rewrite lookup_insert_eq. by intros [= <-].
    + rewrite lookup_insert_ne by done. intros H1. rewrite Sh by done. by apply ci_hold0.
  - intros k1 Hm. destruct (decide (k1 = k)) as [->|Hne]; [rewrite lookup_insert_eq; eauto|].
    rewrite lookup_insert_ne by done. apply ci_mutex0. by destruct (Sm k1 Hm).
  - intros k1 l1 f. destruct (decide (k1 = k)) as [->|Hne].
    + rewrite lookup_insert_eq. intros [= <-]. apply Hk.
    + rewrite lookup_insert_ne by done. intros H1 H2. apply Sr. by eapply ci_known0.
  - unfold log_of in *. by rewrite (gather_insert live), (gather_insert over).
Qed.

(** A new frame owns nothing. *)
Definition nothing : Local := MkLocal [] [] None [].

Lemma conf_inv_enter r c ls (k : key) p :
  conf_inv r c ls → frames c !! k = None → ok r (k.2 = true) p nothing (returns_in k) (throws_in k) →
  conf_inv r (set_frame c k p) (<[k := nothing]> ls).
Proof.
  intros Hc Hk Hok. assert (Hls : ls !! k = None) by by apply (ci_dom _ _ _ Hc).
  assert (Hnm : fd_span_mutex (shared_mem c) ≠ Some k). { intros Hm. destruct (ci_mutex _ _ _ Hc _ Hm). congruence. }
  destruct Hc. split; cbn [set_frame shared_mem frames proc]; try done.
  - intros k1 p1. destruct (decide (k1 = k)) as [->|Hne].
    + rewrite !lookup_insert_eq. intros [= <-]. eauto.
    + rewrite !lookup_insert_ne by done. apply ci_frames0.
  - intros k1. destruct (decide (k1 = k)) as [->|Hne]; [by rewrite lookup_insert_eq|].
    rewrite !lookup_insert_ne by done. apply ci_dom0.
  - intros k1 l1. destruct (decide (k1 = k)) as [->|Hne].
    + rewrite lookup_insert_eq. intros [= <-]. unfold holding_of. by rewrite decide_False.
    + rewrite lookup_insert_ne by done. apply ci_hold0.
  - intros k1 Hm. rewrite lookup_insert_ne by congruence. by apply ci_mutex0.
  - intros k1 l1 f. destruct (decide (k1 = k)) as [->|Hne].
    + rewrite lookup_insert_eq. intros [= <-]. cbn. set_solver.
    + rewrite lookup_insert_ne by done. apply ci_known0.
  - unfold log_of in *. rewrite (gather_insert live), (gather_insert over). by rewrite delete_id.
Qed.

(** A frame that owns nothing leaves. *)
Lemma conf_inv_leave r c ls k l :
  conf_inv r c ls → ls !! k = Some l → idle l →
  conf_inv r (MkConf (shared_mem c) (delete k (frames c)) (proc c)) (delete k ls).
Proof.
  intros Hc Hl (Hlive & Hover & Hhold). destruct Hc. split; cbn [shared_mem frames proc]; try done.
  - intros k1 p1 [Hne Hp]%lookup_delete_Some. rewrite lookup_delete_ne by done. by apply ci_frames0.
  - intros k1. destruct (decide (k1 = k)) as [->|Hne]; [by rewrite !lookup_delete_eq|].
    rewrite !lookup_delete_ne by done. apply ci_dom0.
  - intros k1 l1 [_ H1]%lookup_delete_Some. by apply ci_hold0.
  - intros k1 Hm. destruct (decide (k1 = k)) as [->|Hne]; [|rewrite lookup_delete_ne by done; by apply ci_mutex0].
    rewrite (ci_hold0 _ _ Hl) in Hhold. unfold holding_of in Hhold. by rewrite decide_True in Hhold.
  - intros k1 l1 f [_ H1]%lookup_delete_Some. by eapply ci_known0.
  - unfold log_of in *. rewrite (gather_take live _ _ _ Hl), (gather_take over _ _ _ Hl), Hlive, Hover in ci_log0. exact ci_log0.
Qed.

Lemma idle_nothing : idle nothing.
Proof. done. Qed.

Lemma fine_step_inv r c c' ls : fine_step links c c' → conf_inv r c ls → ∃ ls', conf_inv r c' ls'.
Proof.
  intros Hstep Hc. destruct Hstep as [c t env e Hr HG Hf Hf'|c t env signum Hr HG Hf|c k op kont w a (Hr & Hf & Hs) Hp
    |c k p (Hr & Hf & Hs) Hend|c k code (Hr & Hf & Hs)|c k e (Hr & Hf & Hs) Hne Hth].
  - eexists. apply conf_inv_enter; [exact Hc|done|]. cbn. by apply ok_entry.
  - eexists. apply conf_inv_enter; [exact Hc|done|]. cbn. by apply ok_sigint.
  - destruct (ci_frames _ _ _ Hc _ _ Hf) as (l & Hl & Hok).
    destruct (perform_books r _ _ _ _ _ _ _ _ _ (conf_books _ _ _ _ _ Hc Hl) Hok Hp) as (l' & HK & Hb & Hst).
    eexists. eapply conf_inv_step; eauto.
  - destruct (ci_frames _ _ _ Hc _ _ Hf) as (l & Hl & Hok). eexists. eapply conf_inv_leave; [exact Hc|exact Hl|].
    destruct Hend as [->|[-> Hk]]; cbn in Hok; unfold returns_in, throws_in in Hok; [by destruct k.2|by rewrite Hk in Hok].
  - exists ls. destruct Hc. by split.
  - exfalso. destruct (ci_frames _ _ _ Hc _ _ Hf) as (l & Hl & Hok).
    destruct e; try done; [|by apply (Hne code)]. cbn in Hok. unfold throws_in in Hok. by rewrite Hth in Hok.
Qed.

Lemma fine_reachable_inv r c c' ls : rtc (fine_step links) c c' → conf_inv r c ls → ∃ ls', conf_inv r c' ls'.
Proof.
  intros H. revert ls. induction H as [c|c1 c2 c3 Hs _ IH]; intros ls Hc; [eauto|].
  destruct (fine_step_inv _ _ _ _ Hs Hc) as (ls' & Hc'). by apply (IH ls').
Qed.

(** A process whose threads have not yet entered a hook. *)
Definition at_rest (s : Preload) : Conf := MkConf (MkShared s None) ∅ Running.

(** The globals are initialised, and the log is that of the coarse model with nothing pending. *)
Definition prepared (r : Ready) (s : Preload) : Prop := initialised r s ∧ Inv [] [] s.

Lemma at_rest_inv r s : prepared r s → conf_inv r (at_rest s) ∅.
Proof.
  intros [Hi Hlog]. split; cbn [at_rest shared_mem frames proc globals fd_span_mutex]; try done.
Qed.

(** C2: No interleaving of the single accesses of any number of threads running the hooks, with SIGINT
    delivered to any of them at any point, goes wrong once the library is initialised: nothing crashes
    (no null string, function or tracer is used), the initialised globals never change again, every call on
    a span is legal when it is made, and while the mutex is free the running spans are those of the map and those
    of threads between opening and publishing one. *)
Theorem fine_lifecycle r s c :
  prepared r s → rtc (fine_step links) (at_rest s) c →
  (∀ e, proc c ≠ Crashed e) ∧ initialised r (globals (shared_mem c)) ∧
  (∀ id, phase_of (calls (globals (shared_mem c))) id ≠ Broken) ∧
  (fd_span_mutex (shared_mem c) = None → NoDup (map_spans (fd_span_map (globals (shared_mem c)))) ∧
     ∀ id, id ∈ map_spans (fd_span_map (globals (shared_mem c))) → phase_of (calls (globals (shared_mem c))) id = Active) ∧
  (frames c = ∅ → ∀ id, phase_of (calls (globals (shared_mem c))) id = Active ↔
     id ∈ map_spans (fd_span_map (globals (shared_mem c)))).
Proof.
  intros Hs Hr. destruct (fine_reachable_inv r _ _ _ Hr (at_rest_inv _ _ Hs)) as (ls & Hc).
  pose proof (ci_log _ _ _ Hc) as (Hnd & Hlt & Hp). split_and!.
  - apply (ci_proc _ _ _ Hc).
  - apply (ci_init _ _ _ Hc).
  - intros id. rewrite Hp. unfold expected. by repeat case_decide.
  - intros Hm. unfold free_spans in *. rewrite Hm in *. split.
    + rewrite <-app_assoc in Hnd. by apply list.NoDup_app in Hnd as [? _].
    + intros id Hid. rewrite Hp. unfold expected. rewrite decide_True; [done|]. set_solver.
  - intros Hf.
    assert (Hls : ls = ∅). { apply map_eq. intros k. rewrite lookup_empty. apply (ci_dom _ _ _ Hc). by rewrite Hf. }
    assert (Hm : fd_span_mutex (shared_mem c) = None).
    { destruct (fd_span_mutex (shared_mem c)) as [k|] eqn:Hm; [|done]. destruct (ci_mutex _ _ _ Hc _ Hm). by subst. }
    intros id. rewrite Hp. unfold free_spans. rewrite Hm, Hls. unfold gather. rewrite map_to_list_empty. cbn.
    rewrite app_nil_r. unfold expected. repeat case_decide; set_solver.
Qed.

(** ** What two frames can touch at once *)

Inductive location := LInitialized | LAddress | LPort | LProvider | LTracer | LReal (f : symbol) | LMap.

(** The plain variable an access touches, and whether it writes it.  Calls on the API and the log synchronise
    themselves. *)
Definition touches (op : access) : option (location * bool) :=
  match op with
  | GetInitialized => Some (LInitialized, false) | SetInitialized => Some (LInitialized, true)
  | GetAddress => Some (LAddress, false) | SetAddress _ => Some (LAddress, true)
  | GetPort => Some (LPort, false) | SetPort _ => Some (LPort, true)
  | GetProvider => Some (LProvider, false) | SetProvider => Some (LProvider, true)
  | GetTracer => Some (LTracer, false) | SetTracer => Some (LTracer, true)
  | GetReal f => Some (LReal f, false) | SetReal f _ => Some (LReal f, true)
  | Find _ => Some (LMap, false) | Assign _ _ | Erase _ => Some (LMap, true)
  | LockMutex | UnlockMutex | Start _ _ | Invoke _ | CreateExporter _ | Print _ => None
  end.

(** Two accesses that are about to happen in different frames, one of them a write. *)
Definition race_on (c : Conf) (x : location) : Prop :=
  ∃ (k k' : key) op op' p p' b b', k ≠ k' ∧
    frames c !! k = Some (Act op p) ∧ frames c !! k' = Some (Act op' p') ∧
    touches op = Some (x, b) ∧ touches op' = Some (x, b') ∧ b || b' = true.

(** C6: Data races: once the library is initialised, the only variables two threads (or a thread and its
    signal handler) can access at the same time, one of them writing, are the four pointers
    to the real functions.  The map is only touched by the holder of the mutex, the
    variables of the initialisation are only read. *)
Theorem races_only_on_symbols r s c x :
  prepared r s → rtc (fine_step links) (at_rest s) c → race_on c x → ∃ f, x = LReal f.
Proof.
  intros Hs Hr (k & k' & op & op' & p & p' & b & b' & Hne & Hf & Hf' & Ht & Ht' & Hb).
  destruct (fine_reachable_inv r _ _ _ Hr (at_rest_inv _ _ Hs)) as (ls & Hc).
  destruct (ci_frames _ _ _ Hc _ _ Hf) as (l & Hl & Hok). destruct (ci_frames _ _ _ Hc _ _ Hf') as (l' & Hl' & Hok').
  assert (Hmap : ∀ m m', holding l = Some m → holding l' = Some m' → False).
  { intros m m' Hm Hm'. apply Hne.
    destruct (holder_of _ _ _ _ _ _ _ (conf_books _ _ _ _ _ Hc Hl) Hm) as [E _].
    destruct (holder_of _ _ _ _ _ _ _ (conf_books _ _ _ _ _ Hc Hl') Hm') as [E' _]. congruence. }
  cbn [ok] in Hok, Hok'. destruct op; simplify_eq/=; try done; destruct op'; simplify_eq/=; eauto; try done;
    destruct Hok as (m & Hm & _), Hok' as (m' & Hm' & _); by destruct (Hmap m m').
Qed.

(** ** SIGINT while the mutex is held *)

(** What an access can answer in an initialised process whose [write] is resolved. *)
Definition may_answer (r : Ready) (op : access) : answer op → Prop :=
  match op with
  | GetInitialized => λ a, a = true
  | GetTracer => λ a, a = rdy_tracer r
  | GetProvider => λ a, a = rdy_provider r
  | GetReal SymWrite => λ a, a = true
  | _ => λ _, True
  end.

(** Every way on leads to the mutex. *)
Fixpoint waits {A} (r : Ready) (p : prog A) : Prop :=
  match p with
  | Act LockMutex _ => True
  | Act op k => ∀ a, may_answer r op a → waits r (k a)
  | _ => False
  end.

Lemma waits_act {A} r op (k : answer op → prog A) : (∀ a, may_answer r op a → waits r (k a)) → waits r (Act op k).
Proof. by destruct op. Qed.

Lemma waits_bind {A C} r (p : prog A) (k : A → prog C) : waits r p → waits r (p ≫= k).
Proof.
  induction p as [a|e|op c IH]; [done..|]. intros H. change (waits r (Act op (λ a, prog_bind k (c a)))).
  destruct op; try done; apply waits_act; intros a Ha; by apply IH, H.
Qed.

(** The standard error stream takes what is written to it. *)
Definition stderr_works (env : Env) : Prop := ∀ mem count, 0 < count → (0 < os_write env STDERR_FILENO mem count)%Z.

Lemma waits_then {A} r op (k : answer op → prog A) :
  (∀ a, may_answer r op a → waits r (k a)) → waits r (act op ≫= k).
Proof. intros H. by apply waits_act. Qed.

Lemma waits_write r env fd mem count :
  rdy_tracer r = true → (0 < os_write env fd mem count)%Z → waits r (write_code env fd mem count).
Proof.
  intros Ht Hn. unfold write_code, init_code, resolve_code, call_code.
  apply waits_then. intros a ->. apply waits_then. intros a ->. apply waits_then. intros a ->.
  cbn [mret prog_ret prog_bind]. rewrite (proj2 (Z.ltb_lt _ _) Hn). apply waits_then. intros a ->. by rewrite Ht.
Qed.

Lemma waits_sigint r env signum :
  rdy_tracer r = true → rdy_provider r = true → stderr_works env → waits r (sigint_code env signum).
Proof.
  intros Ht Hp He. apply waits_bind, waits_then. intros a ->. rewrite Hp.
  apply waits_bind, waits_bind, waits_write; [done|]. apply He. vm_compute. lia.
Qed.

Definition serves (env : Env) : Prop := links env ∧ stderr_works env.

(** The handler of [t] waits for the mutex that the hook below it holds. *)
Record hung (r : Ready) (t : nat) (p0 : prog unit) (c : Conf) : Prop := MkHung {
  hg_mutex : fd_span_mutex (shared_mem c) = Some (t, false);
  hg_below : frames c !! (t, false) = Some p0;
  hg_above : is_Some (frames c !! (t, true));
  hg_waits : ∀ t' p, frames c !! (t', true) = Some p → waits r p;
  hg_write : get_real SymWrite (globals (shared_mem c)) = true;
  hg_proc : proc c = Running;
}.

Lemma perform_may_answer r c ls k op w a :
  conf_inv r c ls → get_real SymWrite (globals (shared_mem c)) = true →
  perform k op (shared_mem c) = Some (w, a) → may_answer r op a.
Proof.
  intros Hc Hw Hp. destruct (ci_init _ _ _ Hc) as (H1 & H2 & H3 & _).
  destruct op; try done; cbn in *; try (injection Hp as <- <-); try done; by destruct f.
Qed.

(** A frame that does not hold the mutex leaves it as it is when it is locked. *)
Lemma perform_mutex r X k op w w' a l k0 (kont : answer op → prog unit) Q R :
  fd_span_mutex w = Some k0 → k ≠ k0 → holding l = holding_of w k → ok r X (Act op kont) l Q R →
  perform k op w = Some (w', a) → fd_span_mutex w' = Some k0.
Proof.
  intros Hm Hne Hh Hok Hp. unfold holding_of in Hh. rewrite decide_False in Hh by congruence.
  destruct op; cbn in Hp, Hok; try (injection Hp as <- <-; exact Hm); rewrite ?Hm in Hp; [done|].
  destruct Hok as (m & L & Hl & _). congruence.
Qed.

Lemma hung_step r t p0 c c' ls :
  rdy_tracer r = true → rdy_provider r = true → conf_inv r c ls → hung r t p0 c → fine_step serves c c' → hung r t p0 c'.
Proof.
  intros Ht Hpr Hc [H1 H2 [pa H3] H4 H5 H6] Hstep.
  destruct Hstep as [c t' env e Hr HG Hf Hf'|c t' env signum Hr HG Hf|c k op kont w a (Hr & Hf & Hs) Hp
    |c k p (Hr & Hf & Hs) Hend|c k code (Hr & Hf & Hs)|c k e (Hr & Hf & Hs) Hne Hth];
    try (assert (Hk : k.2 = false → k.1 ≠ t) by (intros Hk E; rewrite E in Hs; rewrite (Hs Hk) in H3; done)).
  - assert (t' ≠ t) by congruence. split; cbn [set_frame shared_mem frames proc]; try done.
    + by rewrite lookup_insert_ne by congruence.
    + rewrite lookup_insert_ne by congruence. eauto.
    + intros t'' p. rewrite lookup_insert_ne by congruence. apply H4.
  - assert (t' ≠ t) by congruence. split; cbn [set_frame shared_mem frames proc]; try done.
    + by rewrite lookup_insert_ne by congruence.
    + rewrite lookup_insert_ne by congruence. eauto.
    + intros t'' p. destruct (decide (t'' = t')) as [->|Hne]; [|rewrite lookup_insert_ne by congruence; apply H4].
      rewrite lookup_insert_eq. intros [= <-]. by apply waits_sigint, HG.
  - assert (Hkt : k ≠ (t, false)). { intros ->. by apply Hk. }
    destruct (ci_frames _ _ _ Hc _ _ Hf) as (l & Hl & Hok).
    pose proof (perform_books r _ _ _ _ _ _ _ _ _ (conf_books _ _ _ _ _ Hc Hl) Hok Hp) as (l' & _ & _ & [_ Hreal _]).
    split; cbn [shared_mem frames proc]; try done.
    + eapply perform_mutex; [exact H1|exact Hkt|by apply (ci_hold _ _ _ Hc)|exact Hok|exact Hp].
    + by rewrite lookup_insert_ne.
    + destruct (decide (k = (t, true))) as [->|]; [rewrite lookup_insert_eq|rewrite lookup_insert_ne by done]; eauto.
    + intros t'' p. destruct (decide (k = (t'', true))) as [->|Hne]; [|rewrite lookup_insert_ne by done; apply H4].
      rewrite lookup_insert_eq. intros [= <-]. specialize (H4 _ _ Hf).
      pose proof (perform_may_answer r c ls _ _ _ _ Hc H5 Hp) as Ha.
      destruct op; try by apply H4. cbn in Hp. by rewrite H1 in Hp.
    + by apply Hreal.
  - destruct k as [t' [|]].
    + specialize (H4 _ _ Hf). destruct Hend as [->|[-> _]]; done.
    + assert (t' ≠ t) by by apply Hk. split; cbn [shared_mem frames proc]; try done.
      * by rewrite lookup_delete_ne by congruence.
      * rewrite lookup_delete_ne by congruence. eauto.
      * intros t'' q [_ Hq]%lookup_delete_Some. by apply (H4 t'').
  - exfalso. destruct k as [t' [|]]; [by specialize (H4 _ _ Hf)|].
    destruct (ci_frames _ _ _ Hc _ _ Hf) as (l & _ & Hok). cbn in Hok. done.
  - exfalso. destruct k as [t' [|]]; [by specialize (H4 _ _ Hf)|].
    destruct (ci_frames _ _ _ Hc _ _ Hf) as (l & _ & Hok). destruct e; try done. by specialize (Hth eq_refl).
Qed.

Lemma fine_step_mono (G G' : Env → Prop) c c' : (∀ env, G env → G' env) → fine_step G c c' → fine_step G' c c'.
Proof.
  intros HG [c1 t env e Hr He Hf Hf'|c1 t env signum Hr He Hf|c1 k op kont w a H Hp|c1 k p H Hend|c1 k code H|c1 k e H Hne Hth].
  - apply enter; auto.
  - apply interrupt; auto.
  - by eapply do_access.
  - by eapply leave.
  - by eapply std_exit.
  - by apply fault with k.
Qed.

Lemma serves_links c c' : fine_step serves c c' → fine_step links c c'.
Proof. apply fine_step_mono. by intros env [H _]. Qed.

Lemma serves_rtc c c' : rtc (fine_step serves) c c' → rtc (fine_step links) c c'.
Proof. apply rtc_subrel. intros ??. apply serves_links. Qed.

(** A resolved function stays resolved. *)
Lemma real_mono r c c' ls f :
  rtc (fine_step links) c c' → conf_inv r c ls →
  get_real f (globals (shared_mem c)) = true → get_real f (globals (shared_mem c')) = true.
Proof.
  intros H. revert ls. induction H as [c|c1 c2 c3 Hs _ IH]; intros ls Hc Hf; [done|].
  destruct (fine_step_inv _ _ _ _ Hs Hc) as (ls' & Hc'). apply (IH ls' Hc').
  destruct Hs as [| |c k op kont w a (Hr & Hk & Hs) Hp| | |]; try exact Hf.
  destruct (ci_frames _ _ _ Hc _ _ Hk) as (l & Hl & Hok).
  pose proof (perform_books r _ _ _ _ _ _ _ _ _ (conf_books _ _ _ _ _ Hc Hl) Hok Hp) as (l' & _ & _ & [_ Hreal _]).
  by apply Hreal.
Qed.

Lemma hung_reachable r t p0 c c' ls :
  rdy_tracer r = true → rdy_provider r = true → rtc (fine_step serves) c c' →
  conf_inv r c ls → hung r t p0 c → hung r t p0 c'.
Proof.
  intros Ht Hp Hrtc. revert ls. induction Hrtc as [c|c1 c2 c3 Hs _ IH]; intros ls Hc Hh; [done|].
  destruct (fine_step_inv _ _ _ _ (serves_links _ _ Hs) Hc) as (ls' & Hc'). apply (IH ls' Hc').
  exact (hung_step r t p0 c1 c2 ls Ht Hp Hc Hh Hs).
Qed.

(** C4: SIGINT that arrives while a thread is in a section under the mutex (in [write], [close] or the
    publication of [read]) hangs the process when tracing is on and standard error can be written to: the handler
    logs through the hooked [write], which waits for the mutex its own thread holds.
    From then on, whatever the other threads do and whatever further SIGINTs arrive, the process neither
    exits nor crashes, the mutex stays locked and the interrupted section never goes on. *)
Theorem sigint_in_section_hangs r s c c' t env signum :
  prepared r s → real_write s = true → tracer s = true → provider s = true →
  rtc (fine_step serves) (at_rest s) c → proc c = Running →
  fd_span_mutex (shared_mem c) = Some (t, false) → (∀ t', frames c !! (t', true) = None) → serves env →
  rtc (fine_step serves) (set_frame c (t, true) (sigint_code env signum)) c' →
  proc c' = Running ∧ fd_span_mutex (shared_mem c') = Some (t, false) ∧
  frames c' !! (t, false) = frames c !! (t, false).
Proof.
  intros Hs Hw Ht Hp Hr Hproc Hm Hno He Hr'.
  pose proof (at_rest_inv _ _ Hs) as H0. destruct (fine_reachable_inv r _ _ _ (serves_rtc _ _ Hr) H0) as (ls & Hc).
  destruct Hs as [(_ & Ht' & Hp' & _) _].
  assert (Hc' : conf_inv r (set_frame c (t, true) (sigint_code env signum)) (<[(t, true) := nothing]> ls)).
  { apply conf_inv_enter; [done|apply Hno|]. apply ok_sigint; [apply He|done|done]. }
  destruct (frames c !! (t, false)) as [p0|] eqn:Hf; [|destruct (ci_mutex _ _ _ Hc _ Hm) as [l Hl]; by rewrite (ci_dom _ _ _ Hc _ Hf) in Hl].
  assert (Hh : hung r t p0 (set_frame c (t, true) (sigint_code env signum))).
  { split; cbn [set_frame shared_mem frames proc]; try done.
    - by rewrite lookup_insert_ne.
    - rewrite lookup_insert_eq. eauto.
    - intros t' p. destruct (decide (t' = t)) as [->|Hne]; [|by rewrite lookup_insert_ne, Hno by congruence].
      rewrite lookup_insert_eq. intros [= <-]. apply waits_sigint; [congruence..|apply He].
    - exact (real_mono r _ _ _ SymWrite (serves_rtc _ _ Hr) H0 Hw). }
  destruct (hung_reachable r t p0 _ c' _ ltac:(congruence) ltac:(congruence) Hr' Hc' Hh). done.
Qed.

(** ** Hooks left to themselves *)

(** A step of a frame that is there: no new hook is called, no signal arrives. *)
Definition goes_on (c c' : Conf) : Prop := fine_step links c c' ∧ dom (frames c') ⊆ dom (frames c).

(** What is left of a program after its next access. *)
Definition rest_of {A} (q p : prog A) : Prop := match p with Act op k => ∃ a, q = k a | _ => False end.

(** One of several programs makes an access, or is done. *)
Inductive shrinks : gmap key (prog unit) → gmap key (prog unit) → Prop :=
  | shrink_access k p q m : m !! k = Some p → rest_of q p → shrinks (<[k := q]> m) m
  | shrink_leave k p m : m !! k = Some p → shrinks (delete k m) m.

Lemma shrinks_insert_acc m : Acc shrinks m → ∀ k p, m !! k = None → Acc shrinks (<[k := p]> m).
Proof.
  induction 1 as [m Hm IHm]. intros k p Hk. induction p as [a|e|op kont IHp]; constructor; intros m' Hs;
    (inversion Hs as [k' p' q m0 Hk' Hq E E'|k' p' m0 Hk' E E']; subst;
      (destruct (decide (k' = k)) as [->|Hne];
        [rewrite lookup_insert_eq in Hk'; injection Hk' as <-|rewrite lookup_insert_ne in Hk' by done])).
  all: try (exfalso; exact Hq).
  all: try (rewrite delete_insert_id by done; by constructor).
  all: try (rewrite insert_insert_ne by done; apply IHm; [by econstructor|by rewrite lookup_insert_ne]).
  all: try (rewrite delete_insert_ne by done; apply IHm; [by econstructor|by rewrite lookup_delete_ne]).
  destruct Hq as [a ->]. rewrite insert_insert_eq. apply IHp.
Qed.

Lemma shrinks_wf m : Acc shrinks m.
Proof.
  induction m as [|k p m Hk IH] using map_ind; [|exact (shrinks_insert_acc m IH k p Hk)].
  constructor. intros m' Hs. inversion Hs as [? ? ? ? Hl|? ? ? Hl]; rewrite lookup_empty in Hl; discriminate Hl.
Qed.

Lemma dom_insert_present {A} (m : gmap key A) k x y : m !! k = Some x → dom (<[k := y]> m) = dom m.
Proof. intros H. rewrite dom_insert_L. apply elem_of_dom_2 in H. set_solver. Qed.

(** What a frame of a running process does next, without a new hook or a signal. *)
Lemma goes_on_cases c c' :
  goes_on c c' → proc c = Running ∧ (shrinks (frames c') (frames c) ∨ proc c' ≠ Running).
Proof.
  intros [Hs Hd]. destruct Hs as [c t env e Hr HG Hf Hf'|c t env signum Hr HG Hf|c k op kont w a (Hr & Hk & _) Hp
    |c k p (Hr & Hk & _) Hend|c k code (Hr & _)|c k e (Hr & _)]; (split; [exact Hr|]).
  1, 2: exfalso; cbn [set_frame frames] in Hd; rewrite dom_insert_L in Hd; apply not_elem_of_dom in Hf; set_solver.
  - left. econstructor; [exact Hk|]. by exists a.
  - left. by econstructor.
  - by right.
  - by right.
Qed.

Lemma goes_on_acc c : Acc (flip goes_on) c.
Proof.
  assert (Hstop : ∀ c, proc c ≠ Running → Acc (flip goes_on) c).
  { intros c1 H1. constructor. by intros c2 [H2 _]%goes_on_cases. }
  remember (frames c) as m eqn:E. revert c E. induction (shrinks_wf m) as [m _ IH]. intros c ->.
  constructor. intros c' [_ [Hs|Hn]]%goes_on_cases; [by eapply IH|by apply Hstop].
Qed.

(** No handlers are running. *)
Definition no_handlers (c : Conf) : Prop := ∀ t, frames c !! (t, true) = None.

(** Without handlers some frame can make its next step. *)
Lemma some_frame_goes_on r c ls :
  conf_inv r c ls → proc c = Running → frames c ≠ ∅ → no_handlers c →
  ∃ k p, scheduled c k p ∧
    (p = Done tt ∨ p = Failed Thrown ∨ ∃ op kont w a, p = Act op kont ∧ perform k op (shared_mem c) = Some (w, a)).
Proof.
  intros Hc Hproc Hne Hno.
  assert (Hk : ∃ k p, frames c !! k = Some p ∧ (fd_span_mutex (shared_mem c) = None ∨ fd_span_mutex (shared_mem c) = Some k)).
  { destruct (fd_span_mutex (shared_mem c)) as [k|] eqn:Hm.
    - destruct (frames c !! k) as [p|] eqn:Hf; [by exists k, p; auto|].
      destruct (ci_mutex _ _ _ Hc _ Hm) as [l Hl]. by rewrite (ci_dom _ _ _ Hc _ Hf) in Hl.
    - destruct (map_choose (frames c) Hne) as (k & p & Hf). exists k, p. auto. }
  destruct Hk as (k & p & Hf & Hm). exists k, p. split; [by split_and!|].
  destruct (ci_frames _ _ _ Hc _ _ Hf) as (l & Hl & Hok).
  assert (Hmain : k.2 = false). { destruct k as [t [|]]; [by rewrite Hno in Hf|done]. }
  destruct p as [[]|e|op kont]; [by left| |].
  - right. left. cbn in Hok. rewrite Hmain in Hok. by destruct e.
  - right. right. destruct op; try by repeat eexists.
    cbn in Hok. destruct Hok as [Hh _]. rewrite (ci_hold _ _ _ Hc _ _ Hl) in Hh. unfold holding_of in Hh.
    destruct Hm as [Hm|Hm]; [|by rewrite decide_True in Hh].
    eexists _, _, _, _. split; [done|]. cbn. by rewrite Hm.
Qed.

Lemma some_step_goes_on r c ls :
  conf_inv r c ls → proc c = Running → frames c ≠ ∅ → no_handlers c → ∃ c', goes_on c c'.
Proof.
  intros Hc Hproc Hne Hno. destruct (some_frame_goes_on r c ls Hc Hproc Hne Hno) as (k & p & Hk & Hcase).
  pose proof Hk as (_ & Hf & _).
  assert (Hmain : k.2 = false). { destruct k as [t [|]]; [by rewrite Hno in Hf|done]. }
  destruct Hcase as [->|[->|(op & kont & w & a & -> & Hp)]].
  - eexists. split; [apply (leave links c k (Done tt)); [exact Hk|by left]|]. cbn [frames]. rewrite dom_delete_L. set_solver.
  - eexists. split; [apply (leave links c k (Failed Thrown)); [exact Hk|by right]|]. cbn [frames]. rewrite dom_delete_L. set_solver.
  - exists (MkConf w (<[k := kont a]> (frames c)) (proc c)). split; [by apply (do_access links c k op)|]. cbn [frames]. by rewrite (dom_insert_present _ _ _ _ Hf).
Qed.

(** Left to themselves, hooks neither end the process nor start a handler. *)
Lemma goes_on_inv r c c' ls :
  goes_on c c' → conf_inv r c ls → no_handlers c →
  (∃ ls', conf_inv r c' ls') ∧ no_handlers c' ∧ proc c' = Running.
Proof.
  intros [Hs Hd] Hc Hno. split; [by eapply fine_step_inv|]. split.
  - intros t. apply not_elem_of_dom. intros H%Hd. apply elem_of_dom in H as [p H]. by rewrite Hno in H.
  - destruct Hs as [c t env e Hr|c t env signum Hr|c k op kont w a (Hr & _)|c k p (Hr & _)|c k code (Hr & Hf & _)|c k e (Hr & Hf & _) Hne Hth];
      try exact Hr; exfalso; (destruct k as [t [|]]; [by rewrite Hno in Hf|]);
      destruct (ci_frames _ _ _ Hc _ _ Hf) as (l & _ & Hok); cbn in Hok; [done|].
    destruct e; try done. by specialize (Hth eq_refl).
Qed.

Lemma goes_on_rtc_inv r c c' ls :
  rtc goes_on c c' → conf_inv r c ls → no_handlers c → proc c = Running →
  (∃ ls', conf_inv r c' ls') ∧ no_handlers c' ∧ proc c' = Running.
Proof.
  intros H. revert ls. induction H as [c|c1 c2 c3 Hs _ IH]; intros ls Hc Hno Hp; [eauto|].
  destruct (goes_on_inv r _ _ _ Hs Hc Hno) as ([ls' Hc'] & Hno' & Hp'). by apply (IH ls').
Qed.

(** C5: Without signals the hooks never block one another for good.  In every reachable configuration with no
    handler among its frames: while frames are left some frame can make its next step; every run on from
    there in which no new hook is called and no signal arrives is finite; and where such a run cannot go
    on every hook has returned (or thrown to its caller), the mutex is free and the process is running.
    While new hooks keep being called a waiting hook may be passed over for ever: nothing makes the mutex fair. *)
Theorem hooks_make_progress r s c :
  prepared r s → rtc (fine_step links) (at_rest s) c → proc c = Running → no_handlers c →
  (frames c ≠ ∅ → ∃ k p, scheduled c k p ∧
    (p = Done tt ∨ p = Failed Thrown ∨ ∃ op kont w a, p = Act op kont ∧ perform k op (shared_mem c) = Some (w, a))) ∧
  Acc (flip goes_on) c ∧
  (∀ c', rtc goes_on c c' → (∀ c'', ¬ goes_on c' c'') →
    frames c' = ∅ ∧ fd_span_mutex (shared_mem c') = None ∧ proc c' = Running).
Proof.
  intros Hs Hr Hproc Hno. destruct (fine_reachable_inv r _ _ _ Hr (at_rest_inv _ _ Hs)) as (ls & Hc).
  split; [by intros Hne; eapply some_frame_goes_on|]. split; [apply goes_on_acc|].
  intros c' Hrun Hend. destruct (goes_on_rtc_inv r _ _ _ Hrun Hc Hno Hproc) as ([ls' Hc'] & Hno' & Hp').
  assert (Hf : frames c' = ∅).
  { destruct (decide (frames c' = ∅)) as [|Hne]; [done|].
    destruct (some_step_goes_on r c' ls' Hc' Hp' Hne Hno') as (c'' & H). by destruct (Hend c''). }
  split_and!; [done| |done]. destruct (fd_span_mutex (shared_mem c')) as [k|] eqn:Hm; [|done].
  destruct (ci_mutex _ _ _ Hc' _ Hm) as [l Hl]. by rewrite (ci_dom _ _ _ Hc' k) in Hl by by rewrite Hf, lookup_empty.
Qed.

(** ** The constructor prepares the library *)

Lemma write_prepares env mem count s :
  links env → otel_initialized s = false ∨ (∃ r, initialised r s) →
  fd_span_map s = ∅ → calls s = [] → next_span s = 0 →
  ∃ s', hook_write env STDERR_FILENO mem count s = Ret (os_write env STDERR_FILENO mem count) s' ∧
    (∃ r, initialised r s') ∧ real_write s' = true ∧ fd_span_map s' = ∅ ∧ calls s' = [] ∧ next_span s' = 0.
Proof.
  intros Hl Hi Hm Hc Hn.
  destruct (init_result env s) as (s1 & Hr & Hin & (Hm1 & Hc1 & Hn1 & _) & Hsame & Hnew).
  destruct (write_prologue env STDERR_FILENO mem count s s1 Hr Hin (Hl SymWrite))
    as (s2 & -> & Hin2 & Hw2 & Ha2 & Hp2 & Ht2 & Hpr2 & Hm2 & Hc2 & Hn2).
  assert (Hset : ∃ a p, server_address s1 = Some a ∧ server_port s1 = Some p).
  { destruct Hi as [Hi|[r (H1 & _ & _ & H4 & H5)]].
    - destruct (Hnew Hi) as (-> & -> & _). eauto.
    - rewrite (Hsame H1). eauto. }
  destruct Hset as (a & p & Ha & Hp). exists s2. erewrite hook_write_run by done.
  rewrite Hm2, Hm1, Hm, lookup_empty. split; [by destruct (_ && _)|]. split_and!; try congruence.
  exists (MkReady (tracer s2) (provider s2) a p). split_and!; cbn; congruence.
Qed.

(** Whatever the environment, the library constructor leaves the globals initialised. *)
Lemma constructor_prepares env :
  links env → ∃ r s, preload_init env Preload_init = Ret tt s ∧ prepared r s ∧ real_write s = true.
Proof.
  intros Hl. unfold preload_init, preload_log.
  destruct (write_prepares env (B "[OTEL PRELOAD] Library loaded" ++ [NUL]) (length (cstr (B "[OTEL PRELOAD] Library loaded"))) Preload_init Hl)
    as (s1 & E1 & Hr1 & Hw1 & Hm1 & Hc1 & Hn1); [by left|done..|].
  destruct (write_prepares env (["010"%char; NUL]) 1 s1 Hl) as (s2 & E2 & [r Hr2] & Hw2 & Hm2 & Hc2 & Hn2); [by right|done..|].
  exists r, s2. erewrite bind_run by exact E1. erewrite bind_run by exact E2. split; [done|]. split; [|done]. split; [exact Hr2|].
  unfold Inv. rewrite Hm2, Hc2, Hn2. exact log_empty.
Qed.

(** ** Running a schedule *)

(** Up to [n] accesses of the frame [k], as long as it can make them. *)
Fixpoint advance (n : nat) (k : key) (c : Conf) : Conf :=
  match n, frames c !! k, proc c with
  | S n, Some (Act op kont), Running =>
      match k.2, frames c !! (k.1, true) with
      | false, Some _ => c
      | _, _ =>
          match perform k op (shared_mem c) with
          | Some (w, a) => advance n k (MkConf w (<[k := kont a]> (frames c)) (proc c))
          | None => c
          end
      end
  | _, _, _ => c
  end.

Lemma advance_rtc G n k c : rtc (fine_step G) c (advance n k c).
Proof.
  revert c. induction n as [|n IH]; intros c; cbn [advance]; [done|].
  destruct (frames c !! k) as [[| |op kont]|] eqn:Hf; try done. destruct (proc c) eqn:Hr; try done.
  destruct (perform k op (shared_mem c)) as [[w a]|] eqn:Hp; [|by repeat case_match].
  assert (Hstep : (k.2 = false → frames c !! (k.1, true) = None) →
    rtc (fine_step G) c (advance n k (MkConf w (<[k := kont a]> (frames c)) (proc c)))).
  { intros Hs. eapply rtc_l; [|apply IH]. by eapply do_access. }
  rewrite Hr in Hstep. destruct k.2; [by apply Hstep|]. destruct (frames c !! (k.1, true)); [done|by apply Hstep].
Qed.

Lemma enter_rtc (G : Env → Prop) c t env e :
  proc c = Running → G env → frames c !! (t, false) = None → frames c !! (t, true) = None →
  rtc (fine_step G) c (set_frame c (t, false) (entry_code env e)).
Proof. intros. by apply rtc_once, enter. Qed.

(** After the constructor, thread 1 reads a request, then thread 2 makes up to [n] accesses of the
    [write] of its response. *)
Definition example_read : Conf :=
  advance 100 (1, false) (set_frame (at_rest example_ready) (1, false) (entry_code init_env (CallRead 7 100))).

Definition example_conf (n : nat) : Conf :=
  advance n (2, false)
    (set_frame example_read (2, false) (entry_code init_env (CallWrite 7 (B "HTTP/1.1 200 OK" ++ CRLF) 17))).

Definition example_r : Ready := MkReady true true (B "localhost") (B "9090").

Lemma init_env_serves : serves init_env.
Proof. split; [done|]. intros mem count H. cbn. lia. Defined.

Lemma example_prepared : prepared example_r example_ready.
Proof. split; [by vm_compute|]. exact log_empty. Defined.

Lemma example_reachable n : rtc (fine_step serves) (at_rest example_ready) (example_conf n).
Proof.
  assert (H1 : rtc (fine_step serves) (at_rest example_ready) example_read).
  { etrans; [exact (enter_rtc serves (at_rest example_ready) 1 init_env (CallRead 7 100) eq_refl init_env_serves eq_refl eq_refl)|].
    exact (advance_rtc serves 100 (1, false) _). }
  etrans; [exact H1|]. etrans; [|exact (advance_rtc serves n (2, false) _)].
  apply enter_rtc; [by vm_compute|exact init_env_serves|by vm_compute|by vm_compute].
Defined.

Lemma example_reachable_links n : rtc (fine_step links) (at_rest example_ready) (example_conf n).
Proof. apply serves_rtc, example_reachable. Defined.

Lemma fine_lifecycle_witness :
  phase_of (calls (globals (shared_mem (example_conf 4)))) 0 = Active ∧
  phase_of (calls (globals (shared_mem (example_conf 20)))) 0 = Released ∧
  (∀ e, proc (example_conf 4) ≠ Crashed e).
Proof.
  split_and!; [by vm_compute|by vm_compute|].
  apply (fine_lifecycle example_r example_ready _ example_prepared (example_reachable_links 4)).
Defined.

(** Before the first call is resolved, two threads can be about to write the same pointer. *)
Definition example_race : Conf :=
  let c := set_frame (at_rest example_ready) (1, false) (entry_code init_env (CallClose 7)) in
  advance 1 (2, false) (set_frame (advance 1 (1, false) c) (2, false) (entry_code init_env (CallClose 8))).

Lemma example_race_reachable : rtc (fine_step links) (at_rest example_ready) example_race.
Proof.
  apply serves_rtc. etrans; [apply (enter_rtc serves (at_rest example_ready) 1 init_env (CallClose 7)); [done|exact init_env_serves|done|done]|].
  etrans; [exact (advance_rtc serves 1 (1, false) _)|]. etrans; [|exact (advance_rtc serves 1 (2, false) _)].
  apply enter_rtc; [by vm_compute|exact init_env_serves|by vm_compute|by vm_compute].
Defined.

Lemma races_only_on_symbols_witness : race_on example_race (LReal SymClose) ∧ ∃ f, LReal SymClose = LReal f.
Proof.
  assert (H : race_on example_race (LReal SymClose)).
  { exists (1, false), (2, false). eexists (SetReal SymClose true), (SetReal SymClose true), _, _, true, true.
    split; [done|]. split; [vm_compute; reflexivity|]. split; [vm_compute; reflexivity|]. done. }
  split; [exact H|]. exact (races_only_on_symbols example_r example_ready _ _ example_prepared example_race_reachable H).
Defined.

(** No handler appears by itself. *)
Lemma advance_no_handlers n (k : key) c : k.2 = false → no_handlers c → no_handlers (advance n k c).
Proof.
  intros Hk. revert c. induction n as [|n IH]; intros c Hc; cbn [advance]; [exact Hc|].
  destruct (frames c !! k) as [[| |op kont]|]; try exact Hc. destruct (proc c); try exact Hc. rewrite Hk.
  destruct (frames c !! (k.1, true)); [exact Hc|]. destruct (perform k op (shared_mem c)) as [[w a]|]; [|exact Hc].
  apply IH. intros t'. cbn [frames]. rewrite lookup_insert_ne; [done|]. intros ->. done.
Qed.

Lemma example_no_handlers n : no_handlers (example_conf n).
Proof.
  assert (Hset : ∀ c t p, no_handlers c → no_handlers (set_frame c (t, false) p)).
  { intros c t p Hc t'. cbn [set_frame frames]. by rewrite lookup_insert_ne. }
  apply advance_no_handlers; [done|]. apply Hset, advance_no_handlers; [done|]. apply Hset. by intros t.
Qed.

Lemma example_frame n : proc (example_conf n) = Running → is_Some (frames (example_conf n) !! (2, false)) → frames (example_conf n) ≠ ∅.
Proof. intros _ [p H] E. rewrite E, lookup_empty in H. done. Qed.

Lemma hooks_make_progress_witness :
  (∃ k p, scheduled (example_conf 6) k p ∧
    (p = Done tt ∨ p = Failed Thrown ∨ ∃ op kont w a, p = Act op kont ∧ perform k op (shared_mem (example_conf 6)) = Some (w, a))) ∧
  Acc (flip goes_on) (example_conf 6).
Proof.
  destruct (hooks_make_progress example_r example_ready _ example_prepared (example_reachable_links 6)) as (H1 & H2 & _);
    [by vm_compute|apply example_no_handlers|].
  refine (conj (H1 _) H2). apply example_frame; [by vm_compute|]. eexists. vm_compute. reflexivity.
Defined.

Lemma sigint_in_section_hangs_witness :
  let c := set_frame (example_conf 6) (2, true) (sigint_code init_env 2) in
  let c' := advance 100 (2, true) c in
  proc c' = Running ∧ fd_span_mutex (shared_mem c') = Some (2, false) ∧
  frames c' !! (2, false) = frames (example_conf 6) !! (2, false).
Proof.
  cbn zeta.
  apply (sigint_in_section_hangs example_r example_ready (example_conf 6) _ 2 init_env 2 example_prepared).
  - by vm_compute.
  - by vm_compute.
  - by vm_compute.
  - apply example_reachable.
  - by vm_compute.
  - by vm_compute.
  - apply example_no_handlers.
  - exact init_env_serves.
  - apply advance_rtc.
Defined.

(** ** Without the constructor *)

(** The initialisation itself is not safe: were two threads to enter their first hooks together, one could find the
    tracer that the other has just made while its own [getenv] has set the address back to null.  The constructor
    excludes this ([constructor_prepares] and [fine_lifecycle]). *)
Definition unprepared_race : Conf :=
  let hook := entry_code init_env (CallAccept 3) in
  let c := set_frame (set_frame (at_rest Preload_init) (1, false) hook) (2, false) hook in
  let c := advance 1 (2, false) (advance 1 (1, false) c) in
  let c := advance 100 (1, false) c in
  let c := advance 2 (2, false) c in
  let c := set_frame c (3, false) hook in
  advance 100 (3, false) c.

Lemma unprepared_race_faults :
  rtc (fine_step serves) (at_rest Preload_init) unprepared_race ∧
  frames unprepared_race !! (3, false) = Some (Failed NullString).
Proof.
  split; [|by vm_compute]. unfold unprepared_race. cbn zeta.
  etrans; [apply (enter_rtc serves (at_rest Preload_init) 1 init_env (CallAccept 3)); [done|exact init_env_serves|done|done]|].
  etrans; [apply (enter_rtc serves _ 2 init_env (CallAccept 3)); [done|exact init_env_serves|done|done]|].
  etrans; [exact (advance_rtc serves 1 (1, false) _)|]. etrans; [exact (advance_rtc serves 1 (2, false) _)|].
  etrans; [exact (advance_rtc serves 100 (1, false) _)|]. etrans; [exact (advance_rtc serves 2 (2, false) _)|].
  etrans; [|exact (advance_rtc serves 100 (3, false) _)].
  apply enter_rtc; [by vm_compute|exact init_env_serves|by vm_compute|by vm_compute].
Qed.
