(* ===== verification/PreloadLoad.v ===== *)
(** * Loading and leaving: when the globals of the preloaded tracer exist

    src/roll-dice/preload_tracer.cpp has constructor functions with priorities and globals with
    initialisers and destructors, all in one shared library.  On an ELF system constructor functions run in the order of
    their priorities and the initialisers of a file's globals after them; at [exit] the destructors of
    globals run before the destructor functions, at [dlclose] after them.

    Whether the initialiser of [tracer] does anything at run time depends on which class
    nostd::shared_ptr is: OT/nostd/shared_ptr.h defines one whose default constructor places a
    wrapper with a virtual table in a buffer, and is an alias of std::shared_ptr, whose default constructor
    is constexpr, only if OPENTELEMETRY_STL_VERSION is set.  The constructor function uses [tracer] before that
    initialiser.  The other files of the preloaded tracer start from globals that loading has prepared:
    they are about a library that was loaded without a fault ([load_outcome] says when).  The objects of
    iostream, which the initialisation prints to, are not modelled. *)
From S2P Require Export PreloadThreads.

(** ** Programs among objects that do not exist *)

#[global] Instance location_eq_dec : EqDecision location.
Proof. solve_decision. Defined.

(** How a program ends, run alone: as it would, or at the first access to a variable that does not exist, not yet or
    no longer. *)
Inductive run_result (A : Type) := Ended (e : ending A) | UsesMissing (x : location).
Arguments Ended {_}.
Arguments UsesMissing {_}.

Definition missing_variable (missing : list location) (op : access) : option location :=
  match touches op with
  | Some (x, _) => if decide (x ∈ missing) then Some x else None
  | None => None
  end.

Fixpoint run_within {A} (missing : list location) (me : key) (p : prog A) (w : Shared) : run_result A :=
  match p with
  | Done a => Ended (Returned a w)
  | Failed e => Ended (Stopped e w)
  | Act op k =>
      match missing_variable missing op with
      | Some x => UsesMissing x
      | None => match perform me op w with Some (w', a) => run_within missing me (k a) w' | None => Ended Waits end
      end
  end.

Lemma run_within_alone {A} missing me (p : prog A) w :
  run_within missing me p w = Ended (alone me p w) ∨ ∃ x, x ∈ missing ∧ run_within missing me p w = UsesMissing x.
Proof.
  revert w. induction p as [a|e|op k IH]; intros w; [by left..|]. cbn [run_within alone].
  destruct (missing_variable missing op) as [x|] eqn:E.
  - right. exists x. split; [|done]. unfold missing_variable in E. by repeat case_match; simplify_eq.
  - destruct (perform me op w) as [[w' a]|]; [apply IH|by left].
Qed.

Lemma run_within_nothing {A} me (p : prog A) w : run_within [] me p w = Ended (alone me p w).
Proof. destruct (run_within_alone [] me p w) as [|(x & Hx & _)]; [done|set_solver]. Qed.


(** ** Loading *)






















(** *** The accesses of the constructor function to the tracer *)






(** ** A process without a tracer *)






















(** ** Leaving *)

(** What the end of the process, or of the library, goes through: the destructor of a global, in the
    reverse order of construction, or the destructor function. *)
Inductive farewell := Destroy (x : location) | RunCleanup.

Inductive departure := AtExit | AtDlclose.

(** The globals with destructors, in the order of their construction. *)
Definition static_objects : list location := [LTracer; LProvider; LMap].

Definition farewells (d : departure) : list farewell :=
  match d with
  | AtExit => (Destroy <$> rev static_objects) ++ [RunCleanup]
  | AtDlclose => RunCleanup :: (Destroy <$> rev static_objects)
  end.

(** The globals that are gone when the destructor function runs. *)
Fixpoint gone_at_cleanup (l : list farewell) : list location :=
  match l with
  | [] | RunCleanup :: _ => []
  | Destroy x :: l => x :: gone_at_cleanup l
  end.

(** At [exit] the destructor function tests, and then flushes, a provider that no longer exists; after [dlclose]
    it still exists, and the function runs as it would. *)
Theorem cleanup_uses_destroyed_provider env me w :
  run_within (gone_at_cleanup (farewells AtExit)) me (cleanup_code env) w = UsesMissing LProvider ∧
  run_within (gone_at_cleanup (farewells AtDlclose)) me (cleanup_code env) w = Ended (alone me (cleanup_code env) w).
Proof. split; [done|]. apply run_within_nothing. Qed.
