(* ===== verification/RefCount.v ===== *)
(** * Reference counts

    The control blocks of std::shared_ptr, for models in which several kinds of objects own one another: a map from an
    object to the number of its owners, and the list of references it accounts for. *)
From S2P Require Export Prelude.

Abbreviation counts_map := (gmap nat nat).

(** One more owner of [o]. *)
Definition retain (o : nat) (c : counts_map) : counts_map := <[o := S (default 0 (c !! o))]> c.

(** One owner less, and whether it was the last; an object without owners has no control block. *)
Definition release (o : nat) (c : counts_map) : option (counts_map * bool) :=
  match c !! o with
  | None | Some 0 => None
  | Some 1 => Some (delete o c, true)
  | Some (S n) => Some (<[o := n]> c, false)
  end.

(** The counts of a list of references. *)
Definition tally (l : list nat) : counts_map := foldr retain ∅ l.

Lemma tally_lookup l o : tally l !! o = match count_occ Nat.eq_dec l o with 0 => None | n => Some n end.
Proof.
  induction l as [|x l IH]; cbn [tally foldr count_occ]; [apply lookup_empty|]. fold (tally l). unfold retain.
  destruct (Nat.eq_dec x o) as [->|Hn].
  - rewrite lookup_insert_eq, IH. by destruct (count_occ Nat.eq_dec l o).
  - by rewrite lookup_insert_ne.
Qed.

#[global] Instance tally_proper : Proper ((≡ₚ) ==> (=)) tally.
Proof.
  intros l l' H. apply map_eq. intros o. rewrite !tally_lookup. by rewrite (proj1 (Permutation_count_occ Nat.eq_dec l l') H).
Qed.

Lemma tally_dom l o : is_Some (tally l !! o) ↔ o ∈ l.
Proof.
  rewrite tally_lookup, list_elem_of_In, (count_occ_In Nat.eq_dec). destruct (count_occ Nat.eq_dec l o).
  - split; [by intros [? ?]|lia].
  - split; [lia|eauto].
Qed.

Lemma tally_none l o : tally l !! o = None ↔ o ∉ l.
Proof. rewrite <-tally_dom. by rewrite eq_None_not_Some. Qed.

Lemma tally_empty l : tally l = ∅ ↔ l = [].
Proof.
  split; [|by intros ->]. destruct l as [|o l]; [done|]. intros H.
  assert (Ho : is_Some (tally (o :: l) !! o)) by (apply tally_dom; by left). rewrite H in Ho. by destruct Ho.
Qed.

(** Releasing one reference of a list leaves the others, and is the last if there are none. *)
Lemma release_tally o l : release o (tally (o :: l)) = Some (tally l, bool_decide (o ∉ l)).
Proof.
  unfold release. rewrite tally_lookup. cbn [count_occ]. destruct (Nat.eq_dec o o) as [_|]; [|done].
  pose proof (tally_dom l o) as Hd. rewrite tally_lookup in Hd. cbn [tally foldr]. fold (tally l). unfold retain.
  destruct (count_occ Nat.eq_dec l o) as [|n] eqn:En.
  - f_equal. f_equal.
    + rewrite delete_insert_id; [done|]. by rewrite tally_lookup, En.
    + symmetry. apply bool_decide_eq_true_2. intros Hin. apply Hd in Hin. by destruct Hin.
  - f_equal. f_equal.
    + rewrite insert_insert_eq. apply insert_id. by rewrite tally_lookup, En.
    + symmetry. apply bool_decide_eq_false_2. intros Hn. apply Hn, Hd. eauto.
Qed.

(** One of the variables of a list goes out of scope. *)
Fixpoint drop_one (x : nat) (l : list nat) : option (list nat) :=
  match l with
  | [] => None
  | y :: l => if decide (x = y) then Some l else cons y <$> drop_one x l
  end.

Lemma drop_one_spec x l : x ∈ l → ∃ l', drop_one x l = Some l' ∧ l ≡ₚ x :: l'.
Proof.
  induction l as [|y l IH]; [by intros ?%not_elem_of_nil|]. cbn [drop_one]. intros H.
  destruct (decide (x = y)) as [->|Hn]; [by exists l|]. apply elem_of_cons in H as [H|H]; [done|].
  destruct (IH H) as (l' & -> & Hl). exists (y :: l'). split; [done|]. rewrite Hl. constructor.
Qed.

(** ** References from the members of a map's objects *)

Section members.
Context {A : Type}.
Implicit Types (m : gmap nat A) (f : A → nat).

Definition members f m : list nat := (λ x, f x.2) <$> map_to_list m.

Lemma members_insert f m k x : m !! k = None → members f (<[k := x]> m) ≡ₚ f x :: members f m.
Proof. intros H. unfold members. by rewrite map_to_list_insert. Qed.

Lemma members_delete f m k x : m !! k = Some x → members f m ≡ₚ f x :: members f (delete k m).
Proof. intros H. unfold members. by rewrite <-(map_to_list_delete m k x H). Qed.

Lemma members_in f m k x : m !! k = Some x → f x ∈ members f m.
Proof. intros H. rewrite (members_delete f m k x H). by left. Qed.

Lemma members_elem f m o : o ∈ members f m → ∃ k x, m !! k = Some x ∧ o = f x.
Proof. intros ([k x] & -> & H%elem_of_map_to_list)%list_elem_of_fmap. by exists k, x. Qed.

Lemma members_empty f : members f ∅ = [].
Proof. unfold members. by rewrite map_to_list_empty. Qed.

(** The keys of a map. *)
Definition keys m : list nat := (map_to_list m).*1.

Lemma keys_insert m k x : m !! k = None → keys (<[k := x]> m) ≡ₚ k :: keys m.
Proof. intros H. unfold keys. by rewrite map_to_list_insert. Qed.

Lemma keys_delete m k x : m !! k = Some x → keys m ≡ₚ k :: keys (delete k m).
Proof. intros H. unfold keys. by rewrite <-(map_to_list_delete m k x H). Qed.

Lemma keys_in m k : k ∈ keys m ↔ is_Some (m !! k).
Proof.
  unfold keys. rewrite list_elem_of_fmap. split.
  - intros ([k' x] & -> & H%elem_of_map_to_list). eauto.
  - intros [x H]. exists (k, x). by rewrite elem_of_map_to_list.
Qed.

Lemma keys_nil m : keys m = [] → m = ∅.
Proof. unfold keys. intros H%fmap_nil_inv. by apply map_to_list_empty_iff. Qed.

Lemma keys_nodup m : NoDup (keys m).
Proof. apply NoDup_fst_map_to_list. Qed.
End members.

(** ** A class of shared objects *)

(** The objects alive, with their members, and the counts of their owners. *)
Record Shared (A : Type) := MkSharedObjects { objects : gmap nat A; owners_of : counts_map }.
Arguments MkSharedObjects {_}.
Arguments objects {_}.
Arguments owners_of {_}.

Definition no_objects {A} : Shared A := MkSharedObjects ∅ ∅.

Definition make_shared {A} (o : nat) (x : A) (s : Shared A) : Shared A :=
  MkSharedObjects (<[o := x]> (objects s)) (retain o (owners_of s)).

(** One more reference to an object that has an owner. *)
Definition share {A} (o : nat) (s : Shared A) : option (Shared A) :=
  _ ← owners_of s !! o; Some (MkSharedObjects (objects s) (retain o (owners_of s))).

(** One reference less; the members of the object, which are to be destroyed, if it was the last. *)
Definition unshare {A} (o : nat) (s : Shared A) : option (Shared A * option A) :=
  '(c, last) ← release o (owners_of s);
  if last : bool
  then x ← objects s !! o; Some (MkSharedObjects (delete o (objects s)) c, Some x)
  else Some (MkSharedObjects (objects s) c, None).

(** The references to the objects alive are those of [l]. *)
Record owned {A} (s : Shared A) (l : list nat) : Prop := MkOwned {
  ow_counts : owners_of s = tally l;
  ow_alive : ∀ o, is_Some (objects s !! o) ↔ o ∈ l;
}.

Section shared.
Context {A : Type}.
Implicit Types (s : Shared A) (l : list nat).

#[global] Instance owned_proper s : Proper ((≡ₚ) ==> iff) (owned s).
Proof. intros l l' H. split; intros [H1 H2]; (split; [by rewrite H1, H|intros o; by rewrite H2, H]). Qed.

Lemma owned_none : owned (no_objects (A := A)) [].
Proof. split; [done|]. intros o. cbn. rewrite lookup_empty. split; [by intros [? ?]|by intros ?%not_elem_of_nil]. Qed.

Lemma owned_make s l o x : objects s !! o = None → owned s l → owned (make_shared o x s) (o :: l).
Proof.
  intros Ho [H1 H2]. split; cbn [make_shared objects owners_of]; [by rewrite H1|].
  intros o'. rewrite elem_of_cons, <-H2. destruct (decide (o' = o)) as [->|Hn].
  - rewrite lookup_insert_eq. split; eauto.
  - rewrite lookup_insert_ne by done. naive_solver.
Qed.

Lemma owned_share s l o : owned s l → o ∈ l → ∃ s', share o s = Some s' ∧ owned s' (o :: l) ∧ objects s' = objects s.
Proof.
  intros [H1 H2] Ho. unfold share. pose proof Ho as [n Hn]%tally_dom. rewrite H1, Hn. cbn [mbind option_bind].
  eexists. split; [done|]. split; [|done]. split; [done|]. intros o'. cbn. rewrite H2, elem_of_cons. naive_solver.
Qed.

Lemma owned_unshare s l o :
  owned s (o :: l) →
  ∃ s' x, objects s !! o = Some x ∧ owned s' l ∧
    ((o ∈ l ∧ unshare o s = Some (s', None) ∧ objects s' = objects s) ∨
     (o ∉ l ∧ unshare o s = Some (s', Some x) ∧ objects s' = delete o (objects s))).
Proof.
  intros [H1 H2]. assert (Hx : is_Some (objects s !! o)) by (apply H2; by left). destruct Hx as [x Hx].
  unfold unshare. rewrite H1, release_tally. cbn [mbind option_bind]. destruct (decide (o ∈ l)) as [Hin|Hout].
  - rewrite bool_decide_eq_false_2 by (intros H; by apply H). eexists _, x. split; [done|]. split; [|by left].
    split; [done|]. intros o'. cbn. rewrite H2, elem_of_cons. naive_solver.
  - rewrite bool_decide_eq_true_2 by done. rewrite Hx. cbn [mbind option_bind]. eexists _, x. split; [done|]. split; [|by right].
    split; [done|]. intros o'. cbn [objects]. destruct (decide (o' = o)) as [->|Hn].
    + rewrite lookup_delete_eq. split; [by intros [? ?]|done].
    + rewrite lookup_delete_ne, H2, elem_of_cons by done. naive_solver.
Qed.

Lemma owned_nil s : owned s [] → objects s = ∅.
Proof.
  intros [_ H]. apply map_eq. intros o. rewrite lookup_empty. apply eq_None_not_Some. rewrite H. apply not_elem_of_nil.
Qed.
End shared.
