(* ===== verification/NostdPtr.v ===== *)
(** * The smart pointers of the API

    nostd/shared_ptr.h, nostd/unique_ptr.h: classes with their own layout around the standard ones.  A
    nostd::shared_ptr is a buffer in which a wrapper lives that owns a std::shared_ptr; assignment destroys
    that wrapper and places another, so the lifetime of wrappers is part of the state here and using
    one that is not alive is a fault.

    The reference counts of std::shared_ptr are the control blocks of the store; deleting an object
    is recorded.  Objects own pointers: a variable can be a member of an object, which [home] tells, and
    deleting the object destroys its members, which can delete more, before the code that let go of it goes on.
    A member that is used after that is no longer alive, and writing where it was is a fault too. *)
From S2P Require Export Prelude.

(** ** The store *)

Abbreviation obj := nat.

(** Pointer variables of both classes by name.  A variable of [buffers] is one whose buffer has a live
    wrapper, with the pointer it holds; [next_obj] is the next object that [new] makes. *)
Record Store := MkStore {
  buffers : gmap nat (option obj);
  uniques : gmap nat (option obj);
  counts : gmap obj nat;
  deleted : list obj;
  next_obj : obj;
}.

Definition Store_empty : Store := MkStore ∅ ∅ ∅ [] 0.

Definition set_buffers (s : Store) (m : gmap nat (option obj)) : Store := MkStore m (uniques s) (counts s) (deleted s) (next_obj s).
Definition set_uniques (s : Store) (m : gmap nat (option obj)) : Store := MkStore (buffers s) m (counts s) (deleted s) (next_obj s).
Definition set_counts (s : Store) (c : gmap obj nat) (d : list obj) : Store := MkStore (buffers s) (uniques s) c d (next_obj s).

(** [new T] *)
Definition new_obj (s : Store) : Store * obj :=
  (MkStore (buffers s) (uniques s) (counts s) (deleted s) (S (next_obj s)), next_obj s).

(** std::shared_ptr: a new control block, one more owner, one less. *)
Definition count_new (s : Store) (p : option obj) : Store :=
  match p with Some o => set_counts s (<[o := 1]> (counts s)) (deleted s) | None => s end.

Definition count_copy (s : Store) (p : option obj) : option Store :=
  match p with
  | None => Some s
  | Some o => n ← counts s !! o; Some (set_counts s (<[o := S n]> (counts s)) (deleted s))
  end.

Definition count_release (s : Store) (p : option obj) : option Store :=
  match p with
  | None => Some s
  | Some o =>
      n ← counts s !! o;
      match n with
      | 0 => None
      | 1 => Some (set_counts s (delete o (counts s)) (deleted s ++ [o]))
      | S n => Some (set_counts s (<[o := n]> (counts s)) (deleted s))
      end
  end.

(** ** nostd::shared_ptr *)

(** [wrapper()]: the wrapper in the buffer, alive *)
Definition wrapper (s : Store) (x : nat) : option (option obj) := buffers s !! x.

(** [new (buffer.data) shared_ptr_wrapper{...}] *)
Definition place (s : Store) (x : nat) (p : option obj) : Store := set_buffers s (<[x := p]> (buffers s)).

Definition CopyTo (s : Store) (src dst : nat) : option Store :=
  ptr_ ← wrapper s src; s ← count_copy s ptr_; Some (place s dst ptr_).

Definition MoveTo (s : Store) (src dst : nat) : option Store :=
  ptr_ ← wrapper s src; Some (place (place s src None) dst ptr_).

Definition Get (s : Store) (x : nat) : option (option obj) := wrapper s x.

Definition Reset (s : Store) (x : nat) : option Store :=
  ptr_ ← wrapper s x; s ← count_release s ptr_; Some (place s x None).

Definition destroy_wrapper (s : Store) (x : nat) : option Store :=
  ptr_ ← wrapper s x; s ← count_release s ptr_; Some (set_buffers s (delete x (buffers s))).

Definition shared_default (s : Store) (x : nat) : Store := place s x None.
Definition shared_from_raw (s : Store) (x : nat) (p : option obj) : Store := place (count_new s p) x p.
Definition shared_move_construct (s : Store) (x other : nat) : option Store := MoveTo s other x.
Definition shared_copy_construct (s : Store) (x other : nat) : option Store := CopyTo s other x.

(** [operator bool], [operator*]: dereferencing null is a fault *)
Definition shared_bool (s : Store) (x : nat) : option bool := (λ p, bool_decide (p ≠ None)) <$> Get s x.
Definition shared_deref (s : Store) (x : nat) : option obj := mjoin (Get s x).

(** [operator==] *)
Definition shared_eq (s : Store) (x y : nat) : option bool :=
  p ← Get s x; q ← Get s y; Some (bool_decide (p = q)).

(** The temporary of [swap] lives in a buffer of its own. *)
Definition tmp_var (s : Store) : nat := fresh (dom (buffers s) : gset nat).

(** It is null when it is destroyed, so that nothing is deleted. *)
Definition shared_swap (s : Store) (x other : nat) : option Store :=
  let tmp := tmp_var s in
  s ← shared_move_construct s tmp other;
  s ← MoveTo s x other;
  s ← MoveTo s tmp x;
  destroy_wrapper s tmp.

(** ** nostd::unique_ptr *)

Definition unique_get (s : Store) (u : nat) : option (option obj) := uniques s !! u.
Definition unique_set (s : Store) (u : nat) (p : option obj) : Store := set_uniques s (<[u := p]> (uniques s)).

Definition delete_ptr (s : Store) (p : option obj) : Store :=
  match p with Some o => set_counts s (counts s) (deleted s ++ [o]) | None => s end.

(** The variable is gone, and what it owned. *)
Definition destroy_unique (s : Store) (u : nat) : option Store :=
  ptr_ ← unique_get s u; let s := delete_ptr s ptr_ in Some (set_uniques s (delete u (uniques s))).

Definition unique_release (s : Store) (u : nat) : option (Store * option obj) :=
  result ← unique_get s u; Some (unique_set s u None, result).

Definition unique_from_raw (s : Store) (u : nat) (p : option obj) : Store := unique_set s u p.

Definition unique_move_construct (s : Store) (u other : nat) : option Store :=
  '(s, p) ← unique_release s other; Some (unique_set s u p).

Definition unique_swap (s : Store) (u other : nat) : option Store :=
  p ← unique_get s u; q ← unique_get s other; Some (unique_set (unique_set s u q) other p).

(** [shared_ptr(unique_ptr<T> &&other)] *)
Definition shared_from_unique (s : Store) (x other : nat) : option Store :=
  '(s, p) ← unique_release s other; Some (shared_from_raw s x p).

(** ** Members of objects *)

(** A variable of either class, and what it holds when it is alive *)
Inductive var := Sh (x : nat) | Un (u : nat).

#[global] Instance var_eq_dec : EqDecision var.
Proof. solve_decision. Defined.

Definition Owners : Type := gmap nat (option obj) * gmap nat (option obj).

Definition owners (s : Store) : Owners := (buffers s, uniques s).

Definition holder (w : Owners) (v : var) : option (option obj) := match v with Sh x => w.1 !! x | Un u => w.2 !! u end.

Section Members.

(** The object that a variable is a member of; the variables of the program itself have none. *)
Variable home : var → option obj.

(** The storage of the variable: for a member, its object has been made and is not deleted. *)
Definition has_room (s : Store) (v : var) : bool :=
  match home v with Some o => (o <? next_obj s) && negb (bool_decide (o ∈ deleted s)) | None => true end.

Definition home_deleted (s : Store) (v : var) : bool :=
  match home v with Some o => bool_decide (o ∈ deleted s) | None => false end.

(** A member of a deleted object whose destructor is still to run *)
Definition orphan (s : Store) : option var :=
  List.find (home_deleted s) ((Sh <$> (map_to_list (buffers s)).*1) ++ (Un <$> (map_to_list (uniques s)).*1)).

Definition destroy_var (s : Store) (v : var) : option Store :=
  match v with Sh x => destroy_wrapper s x | Un u => destroy_unique s u end.

(** [delete] runs the destructors of the members, and those of what they own; each takes one variable away. *)
Fixpoint destructors_loop (fuel : nat) (s : Store) : option Store :=
  match fuel with
  | 0 => Some s
  | S fuel => match orphan s with Some v => s ← destroy_var s v; destructors_loop fuel s | None => Some s end
  end.

Definition run_destructors (s : Store) : option Store := destructors_loop (size (buffers s) + size (uniques s)) s.

Definition shared_destroy (s : Store) (x : nat) : option Store := s ← destroy_wrapper s x; run_destructors s.

(** The assignments place the new wrapper in the variable's own buffer, which must still be there. *)
Definition shared_move_assign (s : Store) (x other : nat) : option Store :=
  s ← destroy_wrapper s x; s ← run_destructors s;
  if has_room s (Sh x) then MoveTo s other x else None.

Definition shared_copy_assign (s : Store) (x other : nat) : option Store :=
  s ← destroy_wrapper s x; s ← run_destructors s;
  if has_room s (Sh x) then CopyTo s other x else None.

Definition shared_null_assign (s : Store) (x : nat) : option Store := s ← Reset s x; run_destructors s.

(** The pointer is written after the delete, so that the variable must have survived it.  (While the
    destructors run it still holds the old pointer, which nothing reads unless its own destructor runs.) *)
Definition unique_reset (s : Store) (u : nat) (ptr : option obj) : option Store :=
  ptr_ ← unique_get s u;
  s ← run_destructors (unique_set (delete_ptr s ptr_) u None);
  _ ← unique_get s u; Some (unique_set s u ptr).

Definition unique_move_assign (s : Store) (u other : nat) : option Store :=
  '(s, p) ← unique_release s other; unique_reset s u p.

Definition unique_destroy (s : Store) (u : nat) : option Store := s ← destroy_unique s u; run_destructors s.

(** ** Programs on pointers *)

Inductive ptr_op :=
  | NewShared (x : nat) | DefaultShared (x : nat) | CopyShared (x other : nat) | MoveShared (x other : nat)
  | FromUnique (x other : nat) | CopyAssign (x other : nat) | MoveAssign (x other : nat) | NullAssign (x : nat)
  | SwapShared (x other : nat) | DestroyShared (x : nat)
  | NewUnique (u : nat) | NullUnique (u : nat) | MoveUnique (u other : nat) | AssignUnique (u other : nat)
  | ResetUnique (u : nat) | SwapUnique (u other : nat) | DestroyUnique (u : nat).

Definition exec (o : ptr_op) (s : Store) : option Store :=
  match o with
  | NewShared x => let '(s, p) := new_obj s in Some (shared_from_raw s x (Some p))
  | DefaultShared x => Some (shared_default s x)
  | CopyShared x other => shared_copy_construct s x other
  | MoveShared x other => shared_move_construct s x other
  | FromUnique x other => shared_from_unique s x other
  | CopyAssign x other => shared_copy_assign s x other
  | MoveAssign x other => shared_move_assign s x other
  | NullAssign x => shared_null_assign s x
  | SwapShared x other => shared_swap s x other
  | DestroyShared x => shared_destroy s x
  | NewUnique u => let '(s, p) := new_obj s in Some (unique_from_raw s u (Some p))
  | NullUnique u => Some (unique_from_raw s u None)
  | MoveUnique u other => unique_move_construct s u other
  | AssignUnique u other => unique_move_assign s u other
  | ResetUnique u => unique_reset s u None
  | SwapUnique u other => unique_swap s u other
  | DestroyUnique u => unique_destroy s u
  end.

(** What the language's scoping gives: a variable is constructed once, where there is room for it, and used while it
    is alive; the program destroys its own variables, and the members of an object go with the object. *)
Definition alive (m : gmap nat (option obj)) (x : nat) : bool := match m !! x with Some _ => true | None => false end.

Definition scoped_op (o : ptr_op) (s : Store) : bool :=
  match o with
  | NewShared x | DefaultShared x => negb (alive (buffers s) x) && has_room s (Sh x)
  | CopyShared x other | MoveShared x other => negb (alive (buffers s) x) && has_room s (Sh x) && alive (buffers s) other
  | FromUnique x other => negb (alive (buffers s) x) && has_room s (Sh x) && alive (uniques s) other
  | CopyAssign x other | MoveAssign x other | SwapShared x other => alive (buffers s) x && alive (buffers s) other
  | NullAssign x => alive (buffers s) x
  | DestroyShared x => alive (buffers s) x && bool_decide (home (Sh x) = None)
  | NewUnique u | NullUnique u => negb (alive (uniques s) u) && has_room s (Un u)
  | MoveUnique u other => negb (alive (uniques s) u) && has_room s (Un u) && alive (uniques s) other
  | AssignUnique u other | SwapUnique u other => alive (uniques s) u && alive (uniques s) other
  | ResetUnique u => alive (uniques s) u
  | DestroyUnique u => alive (uniques s) u && bool_decide (home (Un u) = None)
  end.

(** ** The specification: who points where *)

Definition value (m : gmap nat (option obj)) (x : nat) : option obj := default None (m !! x).

(** What each operation means: copying, moving and swapping of pointers, [n] being a new object. *)
Definition ptr_spec (o : ptr_op) (n : obj) (w : Owners) : Owners :=
  let '(sh, un) := w in
  match o with
  | NewShared x => (<[x := Some n]> sh, un)
  | DefaultShared x | NullAssign x => (<[x := None]> sh, un)
  | CopyShared x other | CopyAssign x other => (<[x := value sh other]> sh, un)
  | MoveShared x other | MoveAssign x other => (<[x := value sh other]> (<[other := None]> sh), un)
  | FromUnique x other => (<[x := value un other]> sh, <[other := None]> un)
  | SwapShared x other => (<[x := value sh other]> (<[other := value sh x]> sh), un)
  | DestroyShared x => (delete x sh, un)
  | NewUnique u => (sh, <[u := Some n]> un)
  | NullUnique u | ResetUnique u => (sh, <[u := None]> un)
  | MoveUnique u other | AssignUnique u other => (sh, <[u := value un other]> (<[other := None]> un))
  | SwapUnique u other => (sh, <[other := value un u]> (<[u := value un other]> un))
  | DestroyUnique u => (sh, delete u un)
  end.

(** An object goes when each pointer to it is a member of an object that goes ([in_hand] are the objects that the running code
    holds itself): a cycle of pointers does not go. *)
Inductive gone (in_hand : list obj) (w : Owners) : obj → Prop :=
  gone_intro o :
    o ∉ in_hand →
    (∀ v, holder w v = Some (Some o) → is_Some (home v)) →
    (∀ v h, holder w v = Some (Some o) → home v = Some h → gone in_hand w h) →
    gone in_hand w o.

(** The variables that go with their objects, and the rest. *)
Definition lost (in_hand : list obj) (w : Owners) (v : var) : Prop := ∃ h, home v = Some h ∧ gone in_hand w h.

Record survivors (in_hand : list obj) (w w' : Owners) : Prop := MkSurvivors {
  sv_dead : ∀ v, holder w v = None → holder w' v = None;
  sv_alive : ∀ v p, holder w v = Some p →
    (holder w' v = Some p ∧ ¬ lost in_hand w v) ∨ (holder w' v = None ∧ lost in_hand w v);
}.

(** The objects that pointers hold, with multiplicity. *)
Definition pointed (m : gmap nat (option obj)) : list obj := omap id (map_to_list m).*2.

(** The counts are the numbers of shared owners, and every object ever made is in one place: counted, or held by one unique
    pointer, or deleted, once. *)
Record accounted (s : Store) : Prop := MkAccounted {
  ac_counts : ∀ o, counts s !! o = match count_occ Nat.eq_dec (pointed (buffers s)) o with 0 => None | n => Some n end;
  ac_places : (map_to_list (counts s)).*1 ++ pointed (uniques s) ++ deleted s ≡ₚ seq 0 (next_obj s);
}.

(** ** Keeping the accounts *)

Definition refs (p : option obj) : list obj := match p with Some o => [o] | None => [] end.

(** As [accounted], with references [E] and unique pointers [F] in the hands of the running code. *)
Record books_with (E F : list obj) (s : Store) : Prop := MkBooksWith {
  bw_counts : ∀ o, counts s !! o = match count_occ Nat.eq_dec (E ++ pointed (buffers s)) o with 0 => None | n => Some n end;
  bw_places : (map_to_list (counts s)).*1 ++ F ++ pointed (uniques s) ++ deleted s ≡ₚ seq 0 (next_obj s);
}.

Lemma accounted_books s : accounted s ↔ books_with [] [] s.
Proof. split; intros []; by split. Qed.

Lemma pointed_insert m x p : m !! x = None → pointed (<[x := p]> m) ≡ₚ refs p ++ pointed m.
Proof. intros H. unfold pointed. rewrite map_to_list_insert by done. by destruct p. Qed.

Lemma pointed_delete m x p : m !! x = Some p → pointed m ≡ₚ refs p ++ pointed (delete x m).
Proof. intros H. unfold pointed. rewrite <-(map_to_list_delete m x p H). by destruct p. Qed.

(** Changing a variable that holds [p] to hold [q]. *)
Lemma pointed_set m x p q : m !! x = Some p → ∃ R, pointed m ≡ₚ refs p ++ R ∧ pointed (<[x := q]> m) ≡ₚ refs q ++ R.
Proof.
  intros H. exists (pointed (delete x m)). split; [by apply pointed_delete|].
  rewrite <-insert_delete_eq. apply pointed_insert, lookup_delete_eq.
Qed.

Lemma count_occ_perm (l l' : list obj) o : l ≡ₚ l' → count_occ Nat.eq_dec l o = count_occ Nat.eq_dec l' o.
Proof. intros H. by apply Permutation_count_occ. Qed.

(** The books only depend on the collections. *)
Lemma books_ext E F s E' F' s' :
  counts s' = counts s → deleted s' = deleted s → next_obj s' = next_obj s →
  E' ++ pointed (buffers s') ≡ₚ E ++ pointed (buffers s) →
  F' ++ pointed (uniques s') ≡ₚ F ++ pointed (uniques s) →
  books_with E F s → books_with E' F' s'.
Proof.
  intros Hc Hd Hn Hb Hu [H1 H2]. split.
  - intros o. rewrite Hc, H1. by rewrite (count_occ_perm _ _ o Hb).
  - rewrite Hc, Hd, Hn, <-H2. apply Permutation_app_head. by rewrite !app_assoc, Hu.
Qed.

(** A wrapper is taken out of its buffer, placed in a free one, replaced in a live one. *)
Lemma take_books E F s x p :
  buffers s !! x = Some p → books_with E F s → books_with (refs p ++ E) F (set_buffers s (delete x (buffers s))).
Proof.
  intros Hx. apply books_ext; try done. cbn. rewrite (pointed_delete _ _ _ Hx), (Permutation_app_comm (refs p) E), <-app_assoc. done.
Qed.

Lemma place_books E F s x p : buffers s !! x = None → books_with (refs p ++ E) F s → books_with E F (place s x p).
Proof.
  intros Hx. apply books_ext; try done. cbn. rewrite pointed_insert by done.
  by rewrite (app_assoc E), (Permutation_app_comm E (refs p)), <-app_assoc.
Qed.

Lemma replace_books E F s x p q : buffers s !! x = Some p → books_with (refs q ++ E) F s → books_with (refs p ++ E) F (place s x q).
Proof.
  intros Hx. destruct (pointed_set _ _ _ q Hx) as (R & H1 & H2). apply books_ext; try done. cbn. rewrite H1, H2.
  rewrite !app_assoc. apply Permutation_app_tail. by rewrite (Permutation_app_comm (refs p) E), (Permutation_app_comm (refs q) E), <-!app_assoc, (Permutation_app_comm (refs q)).
Qed.

(** The same for unique pointers. *)
Lemma take_unique_books E F s u p :
  uniques s !! u = Some p → books_with E F s → books_with E (refs p ++ F) (set_uniques s (delete u (uniques s))).
Proof.
  intros Hx. apply books_ext; try done. cbn. rewrite (pointed_delete _ _ _ Hx), (Permutation_app_comm (refs p) F), <-app_assoc. done.
Qed.

Lemma place_unique_books E F s u p : uniques s !! u = None → books_with E (refs p ++ F) s → books_with E F (unique_set s u p).
Proof.
  intros Hx. apply books_ext; try done. cbn. rewrite pointed_insert by done.
  by rewrite (app_assoc F), (Permutation_app_comm F (refs p)), <-app_assoc.
Qed.

Lemma replace_unique_books E F s u p q :
  uniques s !! u = Some p → books_with E (refs q ++ F) s → books_with E (refs p ++ F) (unique_set s u q).
Proof.
  intros Hx. destruct (pointed_set _ _ _ q Hx) as (R & H1 & H2). apply books_ext; try done. cbn. rewrite H1, H2.
  rewrite !app_assoc. apply Permutation_app_tail. by rewrite (Permutation_app_comm (refs p) F), (Permutation_app_comm (refs q) F), <-!app_assoc, (Permutation_app_comm (refs q)).
Qed.

Lemma new_books E F s : books_with E F s → books_with E (next_obj s :: F) (new_obj s).1.
Proof.
  intros [H1 H2]. split; [exact H1|]. cbn [new_obj fst counts uniques deleted next_obj].
  rewrite seq_S, <-H2. cbn. by rewrite <-Permutation_middle, Permutation_cons_append.
Qed.

(** Nothing is deleted twice: an object in the hands of the code is neither counted nor deleted. *)
Lemma places_nodup E F s : books_with E F s → NoDup ((map_to_list (counts s)).*1 ++ F ++ pointed (uniques s) ++ deleted s).
Proof. intros [_ H]. rewrite H. apply NoDup_seq. Qed.

Lemma count_occ_app_l (l l' : list obj) o : count_occ Nat.eq_dec (l ++ l') o = count_occ Nat.eq_dec l o + count_occ Nat.eq_dec l' o.
Proof. apply count_occ_app. Qed.

(** The counts: more owners, one owner less, the last owner. *)
Lemma map_keys_insert_new (m : gmap obj nat) o n : m !! o = None → (map_to_list (<[o := n]> m)).*1 ≡ₚ o :: (map_to_list m).*1.
Proof. intros H. by rewrite map_to_list_insert. Qed.

Lemma map_keys_insert_old (m : gmap obj nat) o n k : m !! o = Some k → (map_to_list (<[o := n]> m)).*1 ≡ₚ (map_to_list m).*1.
Proof.
  intros H. rewrite <-insert_delete_eq, map_keys_insert_new by apply lookup_delete_eq.
  by rewrite <-(map_to_list_delete m o k H).
Qed.

Definition same_owners (s s' : Store) : Prop := buffers s' = buffers s ∧ uniques s' = uniques s ∧ next_obj s' = next_obj s.

Lemma occ_cons (l : list obj) o o' : count_occ Nat.eq_dec (o :: l) o' = (if decide (o = o') then 1 else 0) + count_occ Nat.eq_dec l o'.
Proof. destruct (decide (o = o')) as [->|Hn]; [by rewrite count_occ_cons_eq|by rewrite count_occ_cons_neq]. Qed.

(** The books with other counts of one object. *)
Lemma recount_books E F E' F' s o c d :
  books_with E F s →
  (∀ o', o' ≠ o → c !! o' = counts s !! o' ∧ count_occ Nat.eq_dec (E' ++ pointed (buffers s)) o' = count_occ Nat.eq_dec (E ++ pointed (buffers s)) o') →
  c !! o = match count_occ Nat.eq_dec (E' ++ pointed (buffers s)) o with 0 => None | n => Some n end →
  (map_to_list c).*1 ++ F' ++ d ≡ₚ (map_to_list (counts s)).*1 ++ F ++ deleted s →
  books_with E' F' (set_counts s c d).
Proof.
  intros [H1 H2] Hne Ho Hp. split.
  - intros o'. cbn. destruct (decide (o' = o)) as [->|Hn]; [exact Ho|]. destruct (Hne o' Hn) as [-> ->]. apply H1.
  - cbn. rewrite <-H2. rewrite (Permutation_app_comm (pointed _) d), (Permutation_app_comm (pointed _) (deleted s)).
    rewrite !app_assoc. apply Permutation_app_tail. by rewrite <-!app_assoc.
Qed.

Lemma count_new_books E F s p : books_with E (refs p ++ F) s → books_with (refs p ++ E) F (count_new s p) ∧ same_owners s (count_new s p).
Proof.
  destruct p as [o|]; [|done]. intros Hb. split; [|done]. cbn [refs app] in *.
  assert (Hno : counts s !! o = None).
  { pose proof (places_nodup _ _ _ Hb) as Hnd. destruct (counts s !! o) as [n|] eqn:E0; [|done]. exfalso.
    assert (o ∈ (map_to_list (counts s)).*1) by (apply list_elem_of_fmap; exists (o, n); split; [done|by apply elem_of_map_to_list]).
    apply list.NoDup_app in Hnd as (_ & Hx & _). apply (Hx o); [done|]. by left. }
  assert (Hz : count_occ Nat.eq_dec (E ++ pointed (buffers s)) o = 0).
  { pose proof (bw_counts _ _ _ Hb o) as Hc. rewrite Hno in Hc. by destruct (count_occ _ _ o). }
  eapply recount_books; [exact Hb| | |].
  - intros o' Hn. rewrite lookup_insert_ne by done. split; [done|]. cbn [app]. rewrite occ_cons, decide_False by congruence. done.
  - rewrite lookup_insert_eq. cbn [app]. rewrite occ_cons, decide_True by done. by rewrite Hz.
  - rewrite map_keys_insert_new by done. cbn [app]. by rewrite <-Permutation_middle.
Qed.

Lemma count_copy_books E F s p :
  books_with E F s → (∀ o, p = Some o → o ∈ E ++ pointed (buffers s)) →
  ∃ s', count_copy s p = Some s' ∧ books_with (refs p ++ E) F s' ∧ same_owners s s'.
Proof.
  intros Hb Hin. destruct p as [o|]; [|by exists s]. specialize (Hin o eq_refl). cbn [count_copy refs app].
  pose proof (bw_counts _ _ _ Hb o) as Hc.
  assert (Hpos : 0 < count_occ Nat.eq_dec (E ++ pointed (buffers s)) o) by (by apply count_occ_In, list_elem_of_In).
  destruct (count_occ _ (E ++ pointed (buffers s)) o) as [|n] eqn:En; [lia|]. rewrite Hc. cbn [mbind option_bind].
  eexists. split; [done|]. split; [|done]. eapply recount_books; [exact Hb| | |].
  - intros o' Hn. rewrite lookup_insert_ne by done. split; [done|]. cbn [app]. rewrite occ_cons, decide_False by congruence. done.
  - cbn [app]. rewrite lookup_insert_eq, occ_cons, decide_True by done. by rewrite En.
  - by erewrite map_keys_insert_old.
Qed.

Lemma count_release_books E F s p :
  books_with (refs p ++ E) F s → ∃ s', count_release s p = Some s' ∧ books_with E F s' ∧ same_owners s s'.
Proof.
  intros Hb. destruct p as [o|]; [|by exists s]. cbn [count_release refs app] in *.
  pose proof (bw_counts _ _ _ Hb o) as Hc. cbn [app] in Hc. rewrite occ_cons, decide_True in Hc by done.
  assert (Hother : ∀ o', o' ≠ o → count_occ Nat.eq_dec (E ++ pointed (buffers s)) o' = count_occ Nat.eq_dec ((o :: E) ++ pointed (buffers s)) o').
  { intros o' Hn. cbn [app]. rewrite occ_cons, decide_False by congruence. done. }
  destruct (count_occ _ (E ++ pointed (buffers s)) o) as [|n] eqn:En; cbn in Hc; rewrite Hc; cbn [mbind option_bind];
    eexists; (split; [done|]); (split; [|done]); (eapply recount_books; [exact Hb| | |]).
  - intros o' Hn. rewrite lookup_delete_ne by done. split; [done|by apply Hother].
  - by rewrite lookup_delete_eq, En.
  - rewrite <-(map_to_list_delete (counts s) o 1 Hc). cbn.
    by rewrite (app_assoc F), <-Permutation_cons_append, <-Permutation_middle.
  - intros o' Hn. rewrite lookup_insert_ne by done. split; [done|by apply Hother].
  - by rewrite lookup_insert_eq, En.
  - by erewrite map_keys_insert_old.
Qed.

Lemma delete_ptr_books E F s p : books_with E (refs p ++ F) s → books_with E F (delete_ptr s p) ∧ same_owners s (delete_ptr s p).
Proof.
  destruct p as [o|]; [|done]. intros [H1 H2]. split; [|done]. split; [exact H1|]. cbn in *.
  rewrite <-H2. rewrite !app_assoc, <-Permutation_cons_append. by rewrite <-Permutation_middle, <-!app_assoc.
Qed.

(** ** The operations *)

Lemma CopyTo_books E F s src dst p :
  buffers s !! src = Some p → buffers s !! dst = None → books_with E F s →
  ∃ s', CopyTo s src dst = Some s' ∧ books_with E F s' ∧
    buffers s' = <[dst := p]> (buffers s) ∧ uniques s' = uniques s ∧ next_obj s' = next_obj s.
Proof.
  intros Hs Hd Hb. destruct (count_copy_books E F s p Hb) as (s1 & E1 & Hb1 & H1 & H2 & H3).
  { intros o ->. rewrite (pointed_delete _ _ _ Hs). set_solver. }
  exists (place s1 dst p). unfold CopyTo, wrapper. rewrite Hs. cbn [mbind option_bind]. rewrite E1. cbn [mbind option_bind].
  split; [done|]. split; [apply place_books; [by rewrite H1|done]|]. cbn. by rewrite H1.
Qed.

Lemma MoveTo_books E F s src dst p :
  buffers s !! src = Some p → src ≠ dst → value (buffers s) dst = None → books_with E F s →
  ∃ s', MoveTo s src dst = Some s' ∧ books_with E F s' ∧
    buffers s' = <[dst := p]> (<[src := None]> (buffers s)) ∧ uniques s' = uniques s ∧ next_obj s' = next_obj s.
Proof.
  intros Hs Hne Hd Hb. exists (place (place s src None) dst p). unfold MoveTo, wrapper. rewrite Hs. split; [done|]. split; [|done].
  assert (Hb1 : books_with (refs p ++ E) F (place s src None)) by (by apply replace_books).
  destruct (buffers s !! dst) as [q|] eqn:Eq.
  - unfold value in Hd. rewrite Eq in Hd. cbn in Hd. subst q.
    apply (replace_books E F _ dst None p); [|done]. cbn. by rewrite lookup_insert_ne.
  - apply place_books; [|done]. cbn. by rewrite lookup_insert_ne.
Qed.

Lemma destroy_books E F s x p :
  buffers s !! x = Some p → books_with E F s →
  ∃ s', destroy_wrapper s x = Some s' ∧ books_with E F s' ∧
    buffers s' = delete x (buffers s) ∧ uniques s' = uniques s ∧ next_obj s' = next_obj s.
Proof.
  intros Hx Hb. unfold destroy_wrapper, wrapper. rewrite Hx. cbn [mbind option_bind].
  pose proof (take_books E F s x p Hx Hb) as Ht.
  destruct (count_release_books E F (set_buffers s (delete x (buffers s))) p Ht) as (s1 & E1 & Hb1 & H1 & H2 & H3).
  assert (E2 : ∃ s2, count_release s p = Some s2 ∧ s1 = set_buffers s2 (delete x (buffers s)) ∧ buffers s2 = buffers s ∧ uniques s2 = uniques s ∧ next_obj s2 = next_obj s).
  { destruct p as [o|]; cbn in E1 |- *; [|injection E1 as <-; by exists s].
    destruct (counts s !! o) as [[|[|n]]|]; cbn in E1 |- *; simplify_eq; by eexists. }
  destruct E2 as (s2 & -> & -> & H4 & H5 & H6). cbn [mbind option_bind]. rewrite H4.
  eexists. split; [done|]. split; [exact Hb1|]. done.
Qed.

Lemma Reset_books s x p :
  buffers s !! x = Some p → books_with [] [] s →
  ∃ s', Reset s x = Some s' ∧ books_with [] [] s' ∧
    buffers s' = <[x := None]> (buffers s) ∧ uniques s' = uniques s ∧ next_obj s' = next_obj s.
Proof.
  intros Hx Hb. destruct (destroy_books [] [] s x p Hx Hb) as (s1 & E1 & Hb1 & H1 & H2 & H3).
  unfold destroy_wrapper, Reset, wrapper in *. rewrite Hx in *. cbn [mbind option_bind] in *.
  destruct (count_release s p) as [s2|]; [|done]. cbn [mbind option_bind] in *. injection E1 as <-.
  eexists. split; [done|]. cbn in *. split; [|split; [|done]].
  - apply (place_books [] [] _ x None) in Hb1; [|apply lookup_delete_eq]. revert Hb1. unfold place, set_buffers. cbn.
    by rewrite insert_delete_eq.
  - rewrite <-(insert_delete_eq (buffers s2)), H1. apply insert_delete_eq.
Qed.

(** The temporary's buffer is free. *)
Lemma tmp_var_free s : buffers s !! tmp_var s = None.
Proof. apply (not_elem_of_dom (D := gset nat)). unfold tmp_var. apply is_fresh. Qed.

Lemma swap_books_ne s x other p q :
  buffers s !! x = Some p → buffers s !! other = Some q → x ≠ other → books_with [] [] s →
  ∃ s', shared_swap s x other = Some s' ∧ books_with [] [] s' ∧
    buffers s' = <[x := q]> (<[other := p]> (buffers s)) ∧ uniques s' = uniques s ∧ next_obj s' = next_obj s.
Proof.
  intros Hx Ho Hne Hb. unfold shared_swap, shared_move_construct. pose proof (tmp_var_free s) as Ht. set (t := tmp_var s) in *.
  assert (t ≠ x ∧ t ≠ other) as [Htx Hto] by (split; intros ->; congruence).
  destruct (MoveTo_books [] [] s other t q) as (s1 & -> & Hb1 & H1 & U1 & N1); [done|done|unfold value; by rewrite Ht|done|].
  cbn [mbind option_bind].
  destruct (MoveTo_books [] [] s1 x other p) as (s2 & -> & Hb2 & H2 & U2 & N2); [|done| |done|].
  { rewrite H1, lookup_insert_ne, lookup_insert_ne by done. done. }
  { unfold value. rewrite H1, lookup_insert_ne, lookup_insert_eq by done. done. }
  cbn [mbind option_bind].
  destruct (MoveTo_books [] [] s2 t x q) as (s3 & -> & Hb3 & H3 & U3 & N3); [|done| |done|].
  { rewrite H2, H1, !(lookup_insert_ne _ _ t) by done. apply lookup_insert_eq. }
  { unfold value. rewrite H2, lookup_insert_ne, lookup_insert_eq by done. done. }
  cbn [mbind option_bind].
  destruct (destroy_books [] [] s3 t None) as (s4 & -> & Hb4 & H4 & U4 & N4); [|done|].
  { rewrite H3, lookup_insert_ne by done. apply lookup_insert_eq. }
  exists s4. split; [done|]. split; [exact Hb4|]. split; [|split; congruence].
  rewrite H4, H3, H2, H1. apply map_eq. intros k.
  destruct (decide (k = t)) as [->|]; [by rewrite lookup_delete_eq, !lookup_insert_ne|]. rewrite lookup_delete_ne by done.
  destruct (decide (k = x)) as [->|]; [by rewrite !lookup_insert_eq|]. rewrite !(lookup_insert_ne _ x) by done.
  rewrite (lookup_insert_ne _ t) by done. destruct (decide (k = other)) as [->|]; [by rewrite !lookup_insert_eq|].
  by rewrite !lookup_insert_ne.
Qed.

(** Swapping a variable with itself leaves it as it is. *)
Lemma swap_self s x p :
  buffers s !! x = Some p → books_with [] [] s →
  ∃ s', shared_swap s x x = Some s' ∧ books_with [] [] s' ∧
    buffers s' = buffers s ∧ uniques s' = uniques s ∧ next_obj s' = next_obj s.
Proof.
  intros Hx Hb. unfold shared_swap, shared_move_construct. pose proof (tmp_var_free s) as Ht. set (t := tmp_var s) in *.
  assert (t ≠ x) by (intros ->; congruence).
  destruct (MoveTo_books [] [] s x t p) as (s1 & -> & Hb1 & H1 & U1 & N1); [done|done|unfold value; by rewrite Ht|done|].
  cbn [mbind option_bind]. assert (Hs1 : buffers s1 !! x = Some None) by (rewrite H1, lookup_insert_ne by done; apply lookup_insert_eq).
  assert (E2 : MoveTo s1 x x = Some s1).
  { unfold MoveTo, wrapper. rewrite Hs1. cbn [mbind option_bind]. unfold place, set_buffers. cbn. rewrite insert_insert_eq, insert_id by done. by destruct s1. }
  rewrite E2. cbn [mbind option_bind].
  destruct (MoveTo_books [] [] s1 t x p) as (s3 & -> & Hb3 & H3 & U3 & N3); [rewrite H1; apply lookup_insert_eq|done|unfold value; by rewrite Hs1|done|].
  cbn [mbind option_bind].
  destruct (destroy_books [] [] s3 t None) as (s4 & -> & Hb4 & H4 & U4 & N4); [rewrite H3, lookup_insert_ne by done; apply lookup_insert_eq|done|].
  exists s4. split; [done|]. split; [exact Hb4|]. split; [|split; congruence].
  rewrite H4, H3, H1. apply map_eq. intros k.
  destruct (decide (k = t)) as [->|]; [by rewrite lookup_delete_eq|]. rewrite lookup_delete_ne by done.
  destruct (decide (k = x)) as [->|]; [by rewrite lookup_insert_eq|]. by rewrite !lookup_insert_ne.
Qed.

Lemma swap_books s x other p q :
  buffers s !! x = Some p → buffers s !! other = Some q → books_with [] [] s →
  ∃ s', shared_swap s x other = Some s' ∧ books_with [] [] s' ∧
    buffers s' = <[x := q]> (<[other := p]> (buffers s)) ∧ uniques s' = uniques s ∧ next_obj s' = next_obj s.
Proof.
  intros Hx Ho Hb. destruct (decide (x = other)) as [<-|Hne]; [|by apply swap_books_ne]. rewrite Hx in Ho. injection Ho as <-.
  destruct (swap_self s x p Hx Hb) as (s' & E & Hb' & H1 & H2). exists s'. split; [done|]. split; [done|].
  by rewrite insert_insert_eq, insert_id.
Qed.

(** Unique pointers. *)
Lemma unique_release_books s u p :
  uniques s !! u = Some p → books_with [] [] s →
  ∃ s', unique_release s u = Some (s', p) ∧ books_with [] (refs p) s' ∧
    uniques s' = <[u := None]> (uniques s) ∧ buffers s' = buffers s ∧ next_obj s' = next_obj s.
Proof.
  intros Hu Hb. unfold unique_release, unique_get. rewrite Hu. eexists. split; [done|]. split; [|done].
  rewrite <-(app_nil_r (refs p)). by apply replace_unique_books.
Qed.

Lemma destroy_unique_books F s u p :
  uniques s !! u = Some p → books_with [] F s →
  ∃ s', destroy_unique s u = Some s' ∧ books_with [] F s' ∧
    buffers s' = buffers s ∧ uniques s' = delete u (uniques s) ∧ next_obj s' = next_obj s.
Proof.
  intros Hu Hb. unfold destroy_unique, unique_get. rewrite Hu. cbn [mbind option_bind]. eexists. split; [done|].
  pose proof (take_unique_books [] F s u p Hu Hb) as Ht. apply delete_ptr_books in Ht as [Ht _]. by destruct p.
Qed.

(** The old object of a unique pointer goes while [F] are in the hands of the code. *)
Lemma unique_drop_books F s u p :
  uniques s !! u = Some p → books_with [] F s →
  books_with [] F (unique_set (delete_ptr s p) u None) ∧
  owners (unique_set (delete_ptr s p) u None) = (buffers s, <[u := None]> (uniques s)) ∧
  next_obj (unique_set (delete_ptr s p) u None) = next_obj s.
Proof.
  intros Hu Hb. assert (Hb1 : books_with [] (refs p ++ F) (unique_set s u None)) by (by apply (replace_unique_books [] F s u p None)).
  apply delete_ptr_books in Hb1 as [Hb1 _]. by destruct p.
Qed.

(** ** What is deleted *)

Lemma pointed_holder m o : o ∈ pointed m ↔ ∃ x, m !! x = Some (Some o).
Proof.
  unfold pointed. rewrite list_elem_of_omap. split.
  - intros (p & ([x p'] & -> & Hin%elem_of_map_to_list)%list_elem_of_fmap & Hp). cbn in *. subst p'. by exists x.
  - intros [x Hx]. exists (Some o). split; [|done]. apply list_elem_of_fmap. exists (x, Some o). split; [done|]. by apply elem_of_map_to_list.
Qed.

Definition is_pointed (w : Owners) (o : obj) : Prop := ∃ v, holder w v = Some (Some o).

Lemma is_pointed_owners s o : is_pointed (owners s) o ↔ o ∈ pointed (buffers s) ∨ o ∈ pointed (uniques s).
Proof.
  rewrite !pointed_holder. split.
  - intros [[x|u] H]; [left|right]; by eexists.
  - intros [[x H]|[u H]]; [by exists (Sh x)|by exists (Un u)].
Qed.

(** Exactly what nothing holds has been deleted. *)
Lemma books_deleted F s o :
  books_with [] F s → o < next_obj s → (o ∈ deleted s ↔ (o ∉ F) ∧ (¬ is_pointed (owners s) o)).
Proof.
  intros Hb Ho. pose proof (places_nodup _ _ _ Hb) as Hnd. destruct Hb as [H1 H2].
  assert (Hin : o ∈ (map_to_list (counts s)).*1 ++ F ++ pointed (uniques s) ++ deleted s) by (rewrite H2; apply elem_of_seq; lia).
  assert (Hc : o ∈ (map_to_list (counts s)).*1 ↔ o ∈ pointed (buffers s)).
  { specialize (H1 o). cbn [app] in H1. rewrite list_elem_of_fmap. split.
    - intros ([o' n] & -> & Hn%elem_of_map_to_list). cbn in *. rewrite Hn in H1.
      destruct (count_occ _ _ o') as [|k] eqn:E; [done|]. apply list_elem_of_In, (count_occ_In Nat.eq_dec). lia.
    - intros Hp%list_elem_of_In%(count_occ_In Nat.eq_dec). destruct (count_occ _ _ o) as [|k]; [lia|].
      exists (o, S k). split; [done|]. by apply elem_of_map_to_list. }
  apply list.NoDup_app in Hnd as (_ & Hx & (_ & Hf & (_ & Hy & _)%list.NoDup_app)%list.NoDup_app).
  rewrite is_pointed_owners, <-Hc. set_solver.
Qed.

Lemma deleted_made E F s o : books_with E F s → o ∈ deleted s → o < next_obj s.
Proof. intros [_ H] Hin. assert (Ho : o ∈ seq 0 (next_obj s)) by (rewrite <-H; set_solver). apply elem_of_seq in Ho. lia. Qed.

(** ** What goes *)

(** Why an object that [w] keeps stays: it is kept there, or a variable that is not lost in [w'] holds it. *)
Definition kept (R : list obj) (w : Owners) (R' : list obj) (w' : Owners) (o : obj) : Prop :=
  ¬ gone R w o ∨ ∃ v, holder w v = Some (Some o) ∧ ¬ lost R' w' v.

Lemma gone_sub R w R' w' a :
  (∀ o, o ∈ R' → o ∈ R ∨ kept R w R' w' o) →
  (∀ v o, holder w' v = Some (Some o) → holder w v = Some (Some o) ∨ lost R' w' v ∨ kept R w R' w' o) →
  gone R w a → gone R' w' a.
Proof.
  intros HR Hw. induction 1 as [o Hin Hhome Hgone IH].
  assert (Hg : gone R w o) by (by constructor).
  assert (Hk : ¬ kept R w R' w' o).
  { intros [Hn|(v & Hv & Hl)]; [done|]. destruct (Hhome v Hv) as [h Hh]. apply Hl. exists h. eauto. }
  constructor.
  - intros Ho. by destruct (HR o Ho).
  - intros v Hv. destruct (Hw v o Hv) as [Hv'|[(h & Hh & _)|?]]; [eauto|by exists h|done].
  - intros v h Hv Hh. destruct (Hw v o Hv) as [Hv'|[(h' & Hh' & Hl)|?]]; [eauto| |done].
    rewrite Hh in Hh'. by injection Hh' as <-.
Qed.

Lemma gone_not_pointed R w o : (∀ v h, home v = Some h → is_Some (holder w v) → h ∈ R ∨ is_pointed w h) → gone R w o → (o ∉ R) ∧ (¬ is_pointed w o).
Proof.
  intros Hw. induction 1 as [o Hin Hhome Hgone IH]. split; [done|]. intros [v Hv]. destruct (Hhome v Hv) as [h Hh].
  destruct (IH v h Hv Hh) as [Hn1 Hn2]. destruct (Hw v h Hh); [by eexists|done..].
Qed.

Lemma gone_unpointed R w o : o ∉ R → ¬ is_pointed w o → gone R w o.
Proof. intros HR Hp. constructor; [done| |]; intros v; [intros Hv|intros h Hv]; destruct Hp; by exists v. Qed.

(** The survivors hold what was held, and the same objects go. *)
Lemma survivors_gone R w w' a : survivors R w w' → (gone R w a ↔ gone R w' a).
Proof.
  intros [Hd Ha]. split; apply gone_sub; try by left.
  - intros v o Hv. left. destruct (holder w v) as [p|] eqn:E; [|by rewrite Hd in Hv]. destruct (Ha v p E) as [[E' _]|[E' _]]; congruence.
  - intros v o Hv. destruct (Ha v _ Hv) as [[Hv' _]|[_ Hl]]; [by left|by right; left].
Qed.

(** The same with other variables: each is one of the old ones, or is kept and unchanged. *)
Lemma survivors_transfer R w0 w1 R' w w' :
  survivors R w0 w1 → (∀ o, gone R w0 o ↔ gone R' w o) →
  (∀ v, (holder w v = holder w0 v ∧ holder w' v = holder w1 v) ∨ (¬ lost R w0 v ∧ holder w' v = holder w v)) →
  survivors R' w w'.
Proof.
  intros [Hd Ha] Hg Hv. assert (Hl : ∀ v, lost R w0 v ↔ lost R' w v) by (intros v; unfold lost; by setoid_rewrite Hg).
  split.
  - intros v E. destruct (Hv v) as [[E1 E2]|[_ ->]]; [|done]. rewrite E2. apply Hd. congruence.
  - intros v p E. rewrite <-Hl. destruct (Hv v) as [[E1 E2]|[Hn E2]]; [rewrite E2; apply Ha; congruence|left; by rewrite E2].
Qed.

Definition take_out (w : Owners) (v : var) : Owners :=
  match v with Sh x => (delete x w.1, w.2) | Un u => (w.1, delete u w.2) end.

Lemma holder_take_out w v v' : holder (take_out w v) v' = if decide (v' = v) then None else holder w v'.
Proof.
  destruct (decide (v' = v)) as [->|Hne]; [destruct v; apply lookup_delete_eq|].
  destruct v, v'; cbn; try done; apply lookup_delete_ne; congruence.
Qed.

(** A member of an object that goes is taken out first. *)
Lemma survivors_take_out R w w' v h :
  home v = Some h → gone R w h → survivors R (take_out w v) w' → survivors R w w'.
Proof.
  intros Hh Hg Hs. assert (Hl : lost R w v) by (by exists h).
  assert (Hgone : ∀ o, gone R w o ↔ gone R (take_out w v) o).
  { intros o. split; apply gone_sub; try by left.
    - intros v' o'. rewrite holder_take_out. destruct (decide (v' = v)); [done|by left].
    - intros v' o' Hv'. rewrite holder_take_out. destruct (decide (v' = v)) as [->|]; [by right; left|by left]. }
  assert (Hlost : ∀ v', lost R w v' ↔ lost R (take_out w v) v') by (intros v'; unfold lost; by setoid_rewrite Hgone).
  destruct Hs as [Hd Ha]. split.
  - intros v' E. apply Hd. rewrite holder_take_out. by destruct (decide (v' = v)).
  - intros v' p E. destruct (decide (v' = v)) as [->|Hne].
    + right. split; [|done]. apply Hd. rewrite holder_take_out. by rewrite decide_True.
    + rewrite Hlost. apply Ha. rewrite holder_take_out. by rewrite decide_False.
Qed.

(** ** The destructors *)

(** Only objects that were made have members; at rest, only objects that are not deleted. *)
Definition homed (s : Store) : Prop := ∀ v h, home v = Some h → is_Some (holder (owners s) v) → h < next_obj s.
Definition at_home (s : Store) : Prop := ∀ v, is_Some (holder (owners s) v) → has_room s v = true.

Lemma has_room_spec s v : has_room s v = true ↔ ∀ h, home v = Some h → h < next_obj s ∧ h ∉ deleted s.
Proof.
  unfold has_room. destruct (home v) as [o|]; [|done]. rewrite andb_true_iff, Nat.ltb_lt, negb_true_iff, bool_decide_eq_false. naive_solver.
Qed.

Lemma at_home_homed s : at_home s → homed s.
Proof. intros H v h Hh Hv. by apply (proj1 (has_room_spec s v) (H v Hv)). Qed.

Lemma destroy_var_books F s v p :
  holder (owners s) v = Some p → books_with [] F s →
  ∃ s', destroy_var s v = Some s' ∧ books_with [] F s' ∧ owners s' = take_out (owners s) v ∧ next_obj s' = next_obj s.
Proof.
  intros Hv Hb. destruct v as [x|u]; cbn [destroy_var].
  - destruct (destroy_books [] F s x p Hv Hb) as (s' & E & Hb' & H1 & H2 & H3). exists s'. unfold owners. by rewrite H1, H2.
  - destruct (destroy_unique_books F s u p Hv Hb) as (s' & E & Hb' & H1 & H2 & H3). exists s'. unfold owners. by rewrite H1, H2.
Qed.

Definition variables (w : Owners) : nat := size w.1 + size w.2.

Lemma variables_take_out w v : is_Some (holder w v) → variables w = S (variables (take_out w v)).
Proof.
  intros [p Hv]. unfold variables. destruct v as [x|u]; cbn in *.
  - rewrite <-(insert_delete_id _ _ _ Hv) at 1. rewrite map_size_insert_None by apply lookup_delete_eq. lia.
  - rewrite <-(insert_delete_id _ _ _ Hv) at 1. rewrite map_size_insert_None by apply lookup_delete_eq. lia.
Qed.

Lemma orphan_Some s v : orphan s = Some v → is_Some (holder (owners s) v) ∧ ∃ h, home v = Some h ∧ h ∈ deleted s.
Proof.
  intros [Hin Hd]%List.find_some. split.
  - apply list_elem_of_In, list.elem_of_app in Hin as [(x & -> & ([y p] & -> & H%elem_of_map_to_list)%list_elem_of_fmap)%list_elem_of_fmap|
      (x & -> & ([y p] & -> & H%elem_of_map_to_list)%list_elem_of_fmap)%list_elem_of_fmap]; by exists p.
  - unfold home_deleted in Hd. destruct (home v) as [h|]; [|done]. apply bool_decide_eq_true in Hd. eauto.
Qed.

Lemma orphan_None s : orphan s = None → homed s → at_home s.
Proof.
  intros Ho Hs v Hv. apply has_room_spec. intros h Hh. split; [by eapply Hs|].
  assert (Hin : List.In v ((Sh <$> (map_to_list (buffers s)).*1) ++ (Un <$> (map_to_list (uniques s)).*1))).
  { apply list_elem_of_In, list.elem_of_app. destruct Hv as [p Hv]. destruct v as [x|u]; [left|right]; apply list_elem_of_fmap;
      eexists; (split; [done|]); apply list_elem_of_fmap; (eexists (_, p)); (split; [done|]); by apply elem_of_map_to_list. }
  pose proof (List.find_none _ _ Ho v Hin) as Hd. unfold home_deleted in Hd. rewrite Hh in Hd. by apply bool_decide_eq_false in Hd.
Qed.

Lemma at_home_pointed F s v h :
  books_with [] F s → at_home s → home v = Some h → is_Some (holder (owners s) v) → h ∈ F ∨ is_pointed (owners s) h.
Proof.
  intros Hb Hs Hh Hv. destruct (proj1 (has_room_spec s v) (Hs v Hv) h Hh) as [Hlt Hnd]. rewrite (books_deleted F s h Hb Hlt) in Hnd.
  destruct (decide (h ∈ F)); [by left|]. right. rewrite is_pointed_owners in *.
  destruct (decide (h ∈ pointed (buffers s))); [by left|]. destruct (decide (h ∈ pointed (uniques s))); [by right|]. exfalso. apply Hnd. by split; [|intros []].
Qed.

Lemma at_home_survivors F s : books_with [] F s → at_home s → survivors F (owners s) (owners s).
Proof.
  intros Hb Hs. split; [done|]. intros v p Hv. left. split; [done|]. intros (h & Hh & Hg).
  apply gone_not_pointed in Hg as [Hg1 Hg2]; [|intros v' h' Hh' Hv'; by eapply at_home_pointed].
  destruct (at_home_pointed F s v h Hb Hs Hh); [by eexists|done..].
Qed.

Lemma destructors_loop_ok fuel F s :
  variables (owners s) ≤ fuel → homed s → books_with [] F s →
  ∃ s', destructors_loop fuel s = Some s' ∧ books_with [] F s' ∧ at_home s' ∧
    survivors F (owners s) (owners s') ∧ next_obj s' = next_obj s.
Proof.
  revert s. induction fuel as [|fuel IH]; intros s Hf Hh Hb; cbn [destructors_loop].
  - assert (Hs : at_home s).
    { intros v Hv. apply variables_take_out in Hv. lia. }
    exists s. split; [done|]. split; [done|]. split; [done|]. split; [by apply at_home_survivors|done].
  - destruct (orphan s) as [v|] eqn:Ho.
    + apply orphan_Some in Ho as [[p Hv] (h & Hhv & Hd)].
      destruct (destroy_var_books F s v p Hv Hb) as (s1 & -> & Hb1 & H1 & H2). cbn [mbind option_bind].
      destruct (IH s1) as (s' & E & Hb' & Hs' & Hsur & Hn); [| |done|].
      * rewrite H1. rewrite (variables_take_out _ v) in Hf by (by exists p). lia.
      * intros v' h' Hh' Hv'. rewrite H2. apply (Hh v' h' Hh'). rewrite H1, holder_take_out in Hv'. by destruct (decide (v' = v)); [destruct Hv'|].
      * exists s'. split; [done|]. split; [done|]. split; [done|]. split; [|congruence]. rewrite H1 in Hsur.
        apply (survivors_take_out F _ _ v h Hhv); [|done]. apply (books_deleted F s h Hb) in Hd as [Hd1 Hd2]; [by apply gone_unpointed|].
        by eapply deleted_made.
    + pose proof (orphan_None s Ho Hh) as Hs. exists s. split; [done|]. split; [done|]. split; [done|]. split; [by apply at_home_survivors|done].
Qed.

Lemma run_destructors_ok F s :
  homed s → books_with [] F s →
  ∃ s', run_destructors s = Some s' ∧ books_with [] F s' ∧ at_home s' ∧ survivors F (owners s) (owners s') ∧ next_obj s' = next_obj s.
Proof. intros Hh Hb. unfold run_destructors. by apply destructors_loop_ok. Qed.

(** After them, a variable has room unless it is lost. *)
Lemma has_room_lost F s0 s v :
  books_with [] F s → at_home s → survivors F (owners s0) (owners s) → (∀ h, home v = Some h → h < next_obj s) →
  (has_room s v = true ↔ ¬ lost F (owners s0) v).
Proof.
  intros Hb Hs Hsur Hlt. rewrite has_room_spec. split.
  - intros Hroom (h & Hh & Hg). destruct (Hroom h Hh) as [_ Hnd]. apply (survivors_gone _ _ _ _ Hsur) in Hg.
    apply gone_not_pointed in Hg as [Hg1 Hg2]; [|intros v' h' Hh' Hv'; by eapply at_home_pointed].
    apply Hnd. by apply (books_deleted F s h Hb (Hlt h Hh)).
  - intros Hl h Hh. split; [by apply Hlt|]. intros Hd. apply (books_deleted F s h Hb (Hlt h Hh)) in Hd as [Hd1 Hd2].
    apply Hl. exists h. split; [done|]. apply (survivors_gone _ _ _ _ Hsur). by apply gone_unpointed.
Qed.

(** ** The operations implement the specification *)

Lemma alive_true m x : alive m x = true ↔ is_Some (m !! x).
Proof. unfold alive. destruct (m !! x); split; intros H; [by eexists|done|done|by destruct H]. Qed.

Lemma alive_false m x : negb (alive m x) = true ↔ m !! x = None.
Proof. unfold alive. by destruct (m !! x). Qed.

Lemma pointed_swap m u v p q : m !! u = Some p → m !! v = Some q → pointed (<[v := p]> (<[u := q]> m)) ≡ₚ pointed m.
Proof.
  intros Hu Hv. destruct (pointed_set m u p q Hu) as (R & H1 & H2).
  assert (Hv' : <[u := q]> m !! v = Some q).
  { destruct (decide (u = v)) as [->|]; [apply lookup_insert_eq|by rewrite lookup_insert_ne]. }
  destruct (pointed_set _ v q p Hv') as (R' & H3 & H4). rewrite H1, H4. apply Permutation_app_head.
  apply (Permutation_app_inv_l (refs q)). by rewrite <-H3, <-H2.
Qed.

Definition makes_object (o : ptr_op) : bool := match o with NewShared _ | NewUnique _ => true | _ => false end.

Definition implements (o : ptr_op) (s s' : Store) : Prop :=
  accounted s' ∧ at_home s' ∧ survivors [] (ptr_spec o (next_obj s) (owners s)) (owners s') ∧
  next_obj s' = (if makes_object o then S (next_obj s) else next_obj s).

(** An operation that lets no object go: what was pointed to still is. *)
Lemma quiet_implements o s s' :
  accounted s → at_home s → books_with [] [] s' →
  owners s' = ptr_spec o (next_obj s) (owners s) →
  next_obj s' = (if makes_object o then S (next_obj s) else next_obj s) →
  (∀ v, is_Some (holder (owners s') v) → is_Some (holder (owners s) v) ∨ has_room s v = true) →
  (∀ a, is_pointed (owners s) a → is_pointed (owners s') a) →
  implements o s s'.
Proof.
  intros Hacc%accounted_books Hs Hb Ho Hn Hv Hp.
  assert (Hs' : at_home s').
  { intros v Hvs. assert (Hroom : has_room s v = true) by (destruct (Hv v Hvs); [by apply Hs|done]).
    apply has_room_spec. intros h Hh. destruct (proj1 (has_room_spec s v) Hroom h Hh) as [Hlt Hnd].
    assert (Hlt' : h < next_obj s') by (rewrite Hn; destruct (makes_object o); lia). split; [done|].
    rewrite (books_deleted [] s' h Hb Hlt'). rewrite (books_deleted [] s h Hacc Hlt) in Hnd. intros [_ Hnp].
    apply Hnd. split; [set_solver|]. intros Hpt. by apply Hnp, Hp. }
  split; [by apply accounted_books|]. split; [done|]. split; [|done]. rewrite <-Ho. by apply at_home_survivors.
Qed.

Lemma holder_sh sh un x p v : holder (<[x := p]> sh, un) v = if decide (v = Sh x) then Some p else holder (sh, un) v.
Proof.
  destruct (decide (v = Sh x)) as [->|Hne]; [apply lookup_insert_eq|]. destruct v; cbn; [|done]. apply lookup_insert_ne. congruence.
Qed.

Lemma holder_un sh un u p v : holder (sh, <[u := p]> un) v = if decide (v = Un u) then Some p else holder (sh, un) v.
Proof.
  destruct (decide (v = Un u)) as [->|Hne]; [apply lookup_insert_eq|]. destruct v; cbn; [done|]. apply lookup_insert_ne. congruence.
Qed.

(** The variable [v] comes to hold [q] and nothing else changes, what it held being in [dst] or held by none. *)
Lemma pointed_stays w w' (f : var → var) :
  (∀ v a, holder w v = Some (Some a) → holder w' (f v) = Some (Some a)) → ∀ a, is_pointed w a → is_pointed w' a.
Proof. intros Hf a [v Hv]. exists (f v). by apply Hf. Qed.

(** Where a pointer is after a move from [src] to [dst]; after a swap. *)
Definition moved (src dst v : var) : var := if decide (v = src) then dst else v.
Definition swapped (x y v : var) : var := if decide (v = x) then y else if decide (v = y) then x else v.

Ltac holders := repeat (rewrite holder_sh || rewrite holder_un); unfold moved, swapped; repeat case_decide; simplify_eq/=; intros; try congruence; eauto.

Lemma exec_constructs o s :
  scoped_op o s = true → accounted s → at_home s →
  match o with
  | NewShared _ | DefaultShared _ | CopyShared _ _ | MoveShared _ _ | FromUnique _ _ | NewUnique _ | NullUnique _ | MoveUnique _ _ =>
      ∃ s', exec o s = Some s' ∧ implements o s s'
  | _ => True
  end.
Proof.
  intros Ho Hacc Hs. pose proof (proj1 (accounted_books s) Hacc) as Hb.
  destruct o as [x|x|x y|x y|x y|x y|x y|x|x y|x|u|u|u v|u v|u|u v|u]; try done; cbn [scoped_op exec] in *;
    rewrite ?andb_true_iff, ?alive_true, ?alive_false in Ho.
  - destruct Ho as [Hx Hroom].
    destruct (count_new_books [] [] (new_obj s).1 (Some (next_obj s)) (new_books _ _ _ Hb)) as [Hb1 (H1 & H2 & H3)].
    eexists. split; [done|]. apply quiet_implements; try done; [by apply place_books| |apply (pointed_stays _ _ id)];
      intros v; unfold owners; cbn; holders.
  - destruct Ho as [Hx Hroom]. eexists. split; [done|].
    apply quiet_implements; try done; [by apply place_books| |apply (pointed_stays _ _ id)];
      intros v; unfold owners; cbn; holders.
  - destruct Ho as [[Hx Hroom] [p Hy]]. destruct (CopyTo_books [] [] s y x p) as (s' & E1 & Hb1 & H1 & H2 & H3); [done..|].
    exists s'. split; [done|]. assert (E : owners s' = ptr_spec (CopyShared x y) (next_obj s) (owners s)).
    { unfold owners, ptr_spec, value. by rewrite Hy, H1, H2. }
    apply quiet_implements; try done; [|apply (pointed_stays _ _ id)]; intros v; rewrite E; unfold owners, ptr_spec; holders.
  - destruct Ho as [[Hx Hroom] [p Hy]]. destruct (MoveTo_books [] [] s y x p) as (s' & E1 & Hb1 & H1 & H2 & H3);
      [done|congruence|unfold value; by rewrite Hx|done|].
    exists s'. split; [done|]. assert (E : owners s' = ptr_spec (MoveShared x y) (next_obj s) (owners s)).
    { unfold owners, ptr_spec, value. by rewrite Hy, H1, H2. }
    apply quiet_implements; try done; [|apply (pointed_stays _ _ (moved (Sh y) (Sh x)))]; intros v; rewrite E;
      unfold owners, ptr_spec, value; rewrite ?Hy; holders.
  - destruct Ho as [[Hx Hroom] [p Hy]]. unfold shared_from_unique.
    destruct (unique_release_books s y p Hy Hb) as (s1 & -> & Hb1 & H1 & H2 & H3). cbn [mbind option_bind].
    rewrite <-(app_nil_r (refs p)) in Hb1. destruct (count_new_books [] [] s1 p Hb1) as [Hb2 (H4 & H5 & H6)].
    eexists. split; [done|].
    assert (E : owners (shared_from_raw s1 x p) = ptr_spec (FromUnique x y) (next_obj s) (owners s)).
    { unfold owners, ptr_spec, value. cbn. by rewrite Hy, H4, H5, H1, H2. }
    apply quiet_implements; try done; [|cbn; congruence| |apply (pointed_stays _ _ (moved (Un y) (Sh x)))].
    { apply place_books; [by rewrite H4, H2|done]. }
    all: intros v; rewrite E; unfold owners, ptr_spec, value; rewrite ?Hy; holders.
  - destruct Ho as [Hu Hroom]. eexists. split; [done|].
    apply quiet_implements; try done; [apply place_unique_books; [done|by apply new_books]| |apply (pointed_stays _ _ id)];
      intros v; unfold owners; cbn; holders.
  - destruct Ho as [Hu Hroom]. eexists. split; [done|].
    apply quiet_implements; try done; [by apply place_unique_books| |apply (pointed_stays _ _ id)];
      intros v; unfold owners; cbn; holders.
  - destruct Ho as [[Hu Hroom] [p Hv]]. unfold unique_move_construct.
    destruct (unique_release_books s v p Hv Hb) as (s1 & -> & Hb1 & H1 & H2 & H3). cbn [mbind option_bind].
    eexists. split; [done|]. assert (Huv : u ≠ v) by (intros ->; congruence).
    assert (E : owners (unique_set s1 u p) = ptr_spec (MoveUnique u v) (next_obj s) (owners s)).
    { unfold owners, ptr_spec, value. cbn. by rewrite Hv, H1, H2. }
    apply quiet_implements; try done; [| |apply (pointed_stays _ _ (moved (Un v) (Un u)))].
    { apply place_unique_books; [|by rewrite app_nil_r]. by rewrite H1, lookup_insert_ne. }
    all: intros z; rewrite E; unfold owners, ptr_spec, value; rewrite ?Hv; holders.
Qed.

Lemma exec_swaps o s :
  scoped_op o s = true → accounted s → at_home s →
  match o with SwapShared _ _ | SwapUnique _ _ => ∃ s', exec o s = Some s' ∧ implements o s s' | _ => True end.
Proof.
  intros Ho Hacc Hs. pose proof (proj1 (accounted_books s) Hacc) as Hb.
  destruct o as [x|x|x y|x y|x y|x y|x y|x|x y|x|u|u|u v|u v|u|u v|u]; try done; cbn [scoped_op exec] in *;
    rewrite ?andb_true_iff, ?alive_true in Ho; destruct Ho as [[p Hx] [q Hy]].
  - destruct (swap_books s x y p q) as (s' & E1 & Hb1 & H1 & H2 & H3); [done..|]. exists s'. split; [done|].
    assert (E : owners s' = ptr_spec (SwapShared x y) (next_obj s) (owners s)).
    { unfold owners, ptr_spec, value. by rewrite Hx, Hy, H1, H2. }
    apply quiet_implements; try done; [|apply (pointed_stays _ _ (swapped (Sh x) (Sh y)))]; intros v; rewrite E;
      unfold owners, ptr_spec, value; rewrite ?Hx, ?Hy; holders.
  - unfold unique_swap, unique_get. rewrite Hx, Hy. cbn [mbind option_bind]. eexists. split; [done|].
    set (s' := unique_set _ _ _). assert (E : owners s' = ptr_spec (SwapUnique u v) (next_obj s) (owners s)).
    { unfold owners, ptr_spec, value. by rewrite Hx, Hy. }
    apply quiet_implements; try done; [| |apply (pointed_stays _ _ (swapped (Un u) (Un v)))].
    { revert Hb. apply books_ext; try done. cbn. by apply pointed_swap. }
    all: intros z; rewrite E; unfold owners, ptr_spec, value; rewrite ?Hx, ?Hy; holders.
Qed.

(** Letting go, and then the destructors. *)
Lemma homed_sub s s1 :
  at_home s → next_obj s1 = next_obj s → (∀ v, is_Some (holder (owners s1) v) → is_Some (holder (owners s) v)) → homed s1.
Proof. intros Hs Hn Hv v h Hh H1. rewrite Hn. apply (at_home_homed s Hs v h Hh). by apply Hv. Qed.

Lemma release_implements o s s1 :
  at_home s → books_with [] [] s1 → owners s1 = ptr_spec o (next_obj s) (owners s) → next_obj s1 = next_obj s →
  makes_object o = false → (∀ v, is_Some (holder (owners s1) v) → is_Some (holder (owners s) v)) →
  ∃ s', run_destructors s1 = Some s' ∧ implements o s s'.
Proof.
  intros Hs Hb Ho Hn Hm Hv. destruct (run_destructors_ok [] s1 (homed_sub s s1 Hs Hn Hv) Hb) as (s' & E & Hb' & Hs' & Hsur & Hn').
  exists s'. split; [done|]. split; [by apply accounted_books|]. split; [done|]. rewrite <-Ho, Hm. split; [done|congruence].
Qed.

(** Objects before and after an assignment: [x] takes what [y] has, or had. *)
Lemma assign_survivors R w0 w1 R' w w' :
  survivors R w0 w1 →
  (∀ o, o ∈ R' → o ∈ R ∨ kept R w0 R' w o) → (∀ o, o ∈ R → o ∈ R' ∨ kept R' w R w0 o) →
  (∀ v o, holder w v = Some (Some o) → holder w0 v = Some (Some o) ∨ kept R w0 R' w o) →
  (∀ v o, holder w0 v = Some (Some o) → holder w v = Some (Some o) ∨ kept R' w R w0 o) →
  (∀ v, (holder w v = holder w0 v ∧ holder w' v = holder w1 v) ∨ (¬ lost R w0 v ∧ holder w' v = holder w v)) →
  survivors R' w w'.
Proof.
  intros Hs H1 H2 H3 H4 Hv. eapply survivors_transfer; [exact Hs| |exact Hv]. intros o. split; apply gone_sub; try done.
  - intros v a Hva. destruct (H3 v a Hva); auto.
  - intros v a Hva. destruct (H4 v a Hva); auto.
Qed.

(** The wrapper of [x] is destroyed and the destructors have run: both variables must have survived that. *)
Definition without_wrapper (w : Owners) (x : nat) : Owners := take_out w (Sh x).

Lemma assign_destroys s x :
  accounted s → at_home s → is_Some (buffers s !! x) →
  ∃ s1 s2, destroy_wrapper s x = Some s1 ∧ run_destructors s1 = Some s2 ∧ books_with [] [] s2 ∧ at_home s2 ∧
    survivors [] (without_wrapper (owners s) x) (owners s2) ∧ next_obj s2 = next_obj s ∧
    (has_room s2 (Sh x) = true ↔ ¬ lost [] (without_wrapper (owners s) x) (Sh x)).
Proof.
  intros Hacc%accounted_books Hs [p0 Hx].
  destruct (destroy_var_books [] s (Sh x) p0 Hx Hacc) as (s1 & E1 & Hb1 & H1 & H2). cbn [destroy_var] in E1.
  assert (Hh : homed s1).
  { apply (homed_sub s); [done..|]. intros v. rewrite H1, holder_take_out. destruct (decide (v = Sh x)); [intros []; done|done]. }
  destruct (run_destructors_ok [] s1 Hh Hb1) as (s2 & E2 & Hb2 & Hs2 & Hsur & Hn2). rewrite H1 in Hsur.
  exists s1, s2. do 5 (split; [done|]). split; [congruence|]. unfold without_wrapper. rewrite <-H1 in *.
  apply has_room_lost; try done. intros h Hh'. rewrite Hn2, H2.
  apply (at_home_homed s Hs (Sh x) h Hh'). by exists p0.
Qed.

(** A variable that has room comes to hold a pointer, and what was pointed to still is. *)
Lemma assign_at_home F s2 s' v0 :
  at_home s2 → books_with [] F s2 → books_with [] [] s' → has_room s2 v0 = true → next_obj s' = next_obj s2 →
  (∀ v, is_Some (holder (owners s') v) → v = v0 ∨ is_Some (holder (owners s2) v)) →
  (∀ a, a ∈ F ∨ is_pointed (owners s2) a → is_pointed (owners s') a) → at_home s'.
Proof.
  intros Hs Hb Hb' Hroom Hn Hv Hp v Hvs.
  assert (Hr : has_room s2 v = true) by (destruct (Hv v Hvs) as [->|]; [done|by apply Hs]).
  apply has_room_spec. intros h Hh. destruct (proj1 (has_room_spec s2 v) Hr h Hh) as [Hlt Hnd]. rewrite Hn. split; [done|].
  rewrite (books_deleted [] s' h Hb') by lia. rewrite (books_deleted F s2 h Hb Hlt) in Hnd. intros [_ Hnp].
  apply Hnd. split; intros Hpt; apply Hnp, Hp; auto.
Qed.

Lemma held_not_gone R w v o : holder w v = Some (Some o) → ¬ lost R w v → ¬ gone R w o.
Proof. intros Hv Hl Hg. inversion Hg as [? _ Hh Hgo]; subst. destruct (Hh v Hv) as [h E]. apply Hl. exists h. eauto. Qed.

Lemma in_hand_not_gone R w o : o ∈ R → ¬ gone R w o.
Proof. intros Ho Hg. by inversion Hg. Qed.

(** What survives an assignment from [y] to [x] that finds both alive. *)
Lemma assign_finds s x y p s2 :
  x ≠ y → buffers s !! y = Some p → survivors [] (without_wrapper (owners s) x) (owners s2) →
  ¬ lost [] (without_wrapper (owners s) x) (Sh y) → buffers s2 !! y = Some p ∧ buffers s2 !! x = None.
Proof.
  intros Hne Hy [Hd Ha] Hl. unfold without_wrapper in *. split.
  - destruct (Ha (Sh y) p) as [[E _]|[_ ?]]; [|exact E|done]. rewrite holder_take_out, decide_False by congruence. exact Hy.
  - apply (Hd (Sh x)). by rewrite holder_take_out, decide_True.
Qed.

Lemma copy_assign_implements s x y :
  accounted s → at_home s → is_Some (buffers s !! x) → is_Some (buffers s !! y) → x ≠ y →
  ¬ lost [] (without_wrapper (owners s) x) (Sh x) → ¬ lost [] (without_wrapper (owners s) x) (Sh y) →
  ∃ s', shared_copy_assign s x y = Some s' ∧ implements (CopyAssign x y) s s'.
Proof.
  intros Hacc Hs Hx [p Hy] Hne Hlx Hly.
  destruct (assign_destroys s x Hacc Hs Hx) as (s1 & s2 & E1 & E2 & Hb2 & Hs2 & Hsur & Hn & Hroom).
  destruct (assign_finds s x y p s2 Hne Hy Hsur Hly) as [Hy2 Hx2].
  unfold shared_copy_assign. rewrite E1. cbn [mbind option_bind]. rewrite E2. cbn [mbind option_bind]. rewrite (proj2 Hroom Hlx).
  destruct (CopyTo_books [] [] s2 y x p Hy2 Hx2 Hb2) as (s' & -> & Hb' & H1 & H2 & H3).
  assert (E' : owners s' = (<[x := p]> (buffers s2), uniques s2)) by (unfold owners; by rewrite H1, H2).
  exists s'. split; [done|]. split; [by apply accounted_books|]. split; [|split; [|cbn; congruence]].
  - apply (assign_at_home [] s2 s' (Sh x)); try done; [by apply Hroom|..].
    + intros v. rewrite E'. holders.
    + intros a [[]%list.not_elem_of_nil|[v Hv]]. exists v. rewrite E'. revert Hv. unfold owners. holders.
  - unfold ptr_spec, owners at 1, value. rewrite Hy. cbn [default from_option id].
    eapply assign_survivors; [exact Hsur|set_solver|set_solver|..]; intros v; [intros o|intros o|];
      rewrite ?E'; unfold without_wrapper; rewrite ?holder_take_out; holders.
    right. left. apply (held_not_gone _ _ (Sh y)); [|exact Hly]. cbn. rewrite lookup_delete_ne by done. congruence.
Qed.

Lemma move_assign_implements s x y :
  accounted s → at_home s → is_Some (buffers s !! x) → is_Some (buffers s !! y) → x ≠ y →
  ¬ lost [] (without_wrapper (owners s) x) (Sh x) → ¬ lost [] (without_wrapper (owners s) x) (Sh y) →
  ∃ s', shared_move_assign s x y = Some s' ∧ implements (MoveAssign x y) s s'.
Proof.
  intros Hacc Hs Hx [p Hy] Hne Hlx Hly.
  destruct (assign_destroys s x Hacc Hs Hx) as (s1 & s2 & E1 & E2 & Hb2 & Hs2 & Hsur & Hn & Hroom).
  destruct (assign_finds s x y p s2 Hne Hy Hsur Hly) as [Hy2 Hx2].
  unfold shared_move_assign. rewrite E1. cbn [mbind option_bind]. rewrite E2. cbn [mbind option_bind]. rewrite (proj2 Hroom Hlx).
  destruct (MoveTo_books [] [] s2 y x p Hy2) as (s' & -> & Hb' & H1 & H2 & H3); [done|unfold value; by rewrite Hx2|done|].
  assert (E' : owners s' = (<[x := p]> (<[y := None]> (buffers s2)), uniques s2)) by (unfold owners; by rewrite H1, H2).
  exists s'. split; [done|]. split; [by apply accounted_books|]. split; [|split; [|cbn; congruence]].
  - apply (assign_at_home [] s2 s' (Sh x)); try done; [by apply Hroom|..].
    + intros v. rewrite E'. holders.
    + intros a [[]%list.not_elem_of_nil|[v Hv]]. exists (moved (Sh y) (Sh x) v). rewrite E'. revert Hv. unfold owners. holders.
  - unfold ptr_spec, owners at 1, value. rewrite Hy. cbn [default from_option id].
    eapply assign_survivors; [exact Hsur|set_solver|set_solver|..]; intros v; [intros o|intros o|];
      rewrite ?E'; unfold without_wrapper; rewrite ?holder_take_out; holders.
    + right. left. apply (held_not_gone _ _ (Sh y)); [|exact Hly]. cbn. rewrite lookup_delete_ne by done. congruence.
    + right. right. exists (Sh x). split; [cbn; rewrite lookup_insert_eq; congruence|exact Hlx].
Qed.

(** A unique pointer lets go of its object while it is given [p]. *)
Lemma unique_reset_ok s u p :
  at_home s → books_with [] (refs p) s → is_Some (uniques s !! u) →
  ¬ lost (refs p) (buffers s, <[u := None]> (uniques s)) (Un u) →
  ∃ s', unique_reset s u p = Some s' ∧ accounted s' ∧ at_home s' ∧
    survivors [] (buffers s, <[u := p]> (uniques s)) (owners s') ∧ next_obj s' = next_obj s.
Proof.
  intros Hs Hb [p1 Hu] Hl. unfold unique_reset, unique_get. rewrite Hu. cbn [mbind option_bind].
  destruct (unique_drop_books (refs p) s u p1 Hu Hb) as (Hb1 & H1 & Hn1). set (s1 := unique_set _ _ _) in *.
  assert (Hh : homed s1).
  { apply (homed_sub s); [done..|]. intros v. rewrite H1. unfold owners. holders. }
  destruct (run_destructors_ok _ s1 Hh Hb1) as (s2 & -> & Hb2 & Hs2 & Hsur & Hn2). rewrite H1 in Hsur. cbn [mbind option_bind].
  assert (Hu2 : uniques s2 !! u = Some None).
  { destruct (sv_alive _ _ _ Hsur (Un u) None) as [[E _]|[_ ?]]; [cbn; apply lookup_insert_eq|exact E|done]. }
  rewrite Hu2. cbn [mbind option_bind]. eexists. split; [done|].
  assert (Hb' : books_with [] [] (unique_set s2 u p)).
  { apply (replace_unique_books [] [] s2 u None p Hu2). by rewrite app_nil_r. }
  assert (E' : owners (unique_set s2 u p) = (buffers s2, <[u := p]> (uniques s2))) by done.
  split; [by apply accounted_books|]. split; [|split; [|cbn; congruence]].
  - apply (assign_at_home (refs p) s2 _ (Un u)); try done; [apply Hs2; by exists None|..].
    + intros v. rewrite E'. unfold owners. holders.
    + intros a [Ha|[v Hv]].
      * destruct p as [o|]; [|set_solver]. apply list_elem_of_singleton in Ha as ->. exists (Un u). rewrite E'. holders.
      * exists v. rewrite E'. revert Hv. unfold owners. holders.
  - rewrite E'. eapply assign_survivors; [exact Hsur|set_solver|..].
    + intros o Ho. right. right. destruct p as [o'|]; [|set_solver]. apply list_elem_of_singleton in Ho as ->.
      exists (Un u). split; [cbn; apply lookup_insert_eq|done].
    + intros v o. holders. right. left. apply in_hand_not_gone. simplify_eq/=. set_solver.
    + intros v o. holders.
    + intros v. unfold owners. holders.
Qed.

(** ** Programs *)

(** What an operation asks for beside scoping.  Assigning to [x] destroys its wrapper first: [other] must be another
    variable, and neither it nor [x] may be a member of an object that goes with that.  A unique pointer that is reset
    or assigned must not be a member of what it owned. *)
Definition op_ok (o : ptr_op) (s : Store) : Prop :=
  scoped_op o s = true ∧
  match o with
  | CopyAssign x other | MoveAssign x other =>
      let w := without_wrapper (owners s) x in x ≠ other ∧ (¬ lost [] w (Sh x)) ∧ (¬ lost [] w (Sh other))
  | AssignUnique u other =>
      ¬ lost (refs (value (uniques s) other)) (buffers s, <[u := None]> (<[other := None]> (uniques s))) (Un u)
  | ResetUnique u => ¬ lost [] (buffers s, <[u := None]> (uniques s)) (Un u)
  | _ => True
  end.

Lemma exec_assigns o s :
  op_ok o s → accounted s → at_home s →
  match o with CopyAssign _ _ | MoveAssign _ _ | AssignUnique _ _ => ∃ s', exec o s = Some s' ∧ implements o s s' | _ => True end.
Proof.
  intros [Ho Hok] Hacc Hs.
  destruct o as [x|x|x y|x y|x y|x y|x y|x|x y|x|u|u|u v|u v|u|u v|u]; try done; cbn [scoped_op exec] in *;
    rewrite ?andb_true_iff, ?alive_true in Ho; destruct Ho as [Hx Hy].
  - destruct Hok as (Hne & Hlx & Hly). by apply copy_assign_implements.
  - destruct Hok as (Hne & Hlx & Hly). by apply move_assign_implements.
  - destruct Hy as [p Hv]. unfold value in Hok. rewrite Hv in Hok. unfold unique_move_assign.
    destruct (unique_release_books s v p Hv) as (s1 & E1 & Hb1 & H1 & H2 & H3); [by apply accounted_books|].
    assert (Hs1 : at_home s1).
    { unfold unique_release, unique_get in E1. rewrite Hv in E1. injection E1 as <-. intros z Hz.
      apply Hs. revert Hz. unfold owners. cbn. holders. }
    rewrite E1. cbn [mbind option_bind].
    destruct (unique_reset_ok s1 u p Hs1 Hb1) as (s' & E & Hacc' & Hs' & Hsur & Hn).
    { rewrite H1. destruct (decide (u = v)) as [->|]; [rewrite lookup_insert_eq; by eexists|by rewrite lookup_insert_ne]. }
    { by rewrite H1, H2. }
    exists s'. split; [done|]. split; [done|]. split; [done|]. split; [|cbn; congruence].
    unfold ptr_spec, owners at 1, value. rewrite Hv. rewrite H1, H2 in Hsur. exact Hsur.
Qed.

Lemma exec_releases o s :
  op_ok o s → accounted s → at_home s →
  match o with
  | NullAssign _ | DestroyShared _ | ResetUnique _ | DestroyUnique _ => ∃ s', exec o s = Some s' ∧ implements o s s'
  | _ => True
  end.
Proof.
  intros [Ho Hok] Hacc Hs. pose proof (proj1 (accounted_books s) Hacc) as Hb.
  destruct o as [x|x|x y|x y|x y|x y|x y|x|x y|x|u|u|u v|u v|u|u v|u]; try done; cbn [scoped_op exec] in *;
    rewrite ?andb_true_iff, ?alive_true in Ho.
  - destruct Ho as [p Hx]. destruct (Reset_books s x p Hx Hb) as (s1 & E1 & Hb1 & H1 & H2 & H3).
    assert (E : owners s1 = (<[x := None]> (buffers s), uniques s)) by (unfold owners; by rewrite H1, H2).
    unfold shared_null_assign. rewrite E1. cbn [mbind option_bind]. apply release_implements; try done.
    intros v. rewrite E. unfold owners. holders.
  - destruct Ho as [[p Hx] _]. destruct (destroy_var_books [] s (Sh x) p Hx Hb) as (s1 & E1 & Hb1 & H1 & H2).
    unfold shared_destroy. cbn [destroy_var] in E1. rewrite E1. cbn [mbind option_bind]. apply release_implements; try done.
    intros v. rewrite H1, holder_take_out. destruct (decide (v = Sh x)); [intros []; done|done].
  - destruct (unique_reset_ok s u None Hs Hb Ho Hok) as (s' & E & Hacc' & Hs' & Hsur & Hn).
    exists s'. split; [done|]. by split.
  - destruct Ho as [[p Hu] _]. destruct (destroy_var_books [] s (Un u) p Hu Hb) as (s1 & E1 & Hb1 & H1 & H2).
    unfold unique_destroy. cbn [destroy_var] in E1. rewrite E1. cbn [mbind option_bind]. apply release_implements; try done.
    intros v. rewrite H1, holder_take_out. destruct (decide (v = Un u)); [intros []; done|done].
Qed.

Lemma exec_implements o s :
  op_ok o s → accounted s → at_home s → ∃ s', exec o s = Some s' ∧ implements o s s'.
Proof.
  intros Ho Hacc Hs. pose proof (exec_constructs o s (proj1 Ho) Hacc Hs) as H1. pose proof (exec_swaps o s (proj1 Ho) Hacc Hs) as H2.
  pose proof (exec_assigns o s Ho Hacc Hs) as H3. pose proof (exec_releases o s Ho Hacc Hs) as H4. by destruct o.
Qed.

Fixpoint run_ops (ops : list ptr_op) (s : Store) : option Store :=
  match ops with
  | [] => Some s
  | o :: ops => s ← exec o s; run_ops ops s
  end.

Fixpoint program_ok (ops : list ptr_op) (s : Store) : Prop :=
  match ops with
  | [] => True
  | o :: ops => op_ok o s ∧ match exec o s with Some s => program_ok ops s | None => True end
  end.

(** Each operation does what it means, and then what is no longer held goes with its members. *)
Fixpoint run_spec (ops : list ptr_op) (n : obj) (w w' : Owners) : Prop :=
  match ops with
  | [] => w' = w
  | o :: ops => ∃ w1, survivors [] (ptr_spec o n w) w1 ∧ run_spec ops (if makes_object o then S n else n) w1 w'
  end.

Lemma run_implements ops s :
  accounted s → at_home s → program_ok ops s →
  ∃ s', run_ops ops s = Some s' ∧ accounted s' ∧ at_home s' ∧ run_spec ops (next_obj s) (owners s) (owners s').
Proof.
  revert s. induction ops as [|o ops IH]; intros s Hacc Hs; cbn [run_ops program_ok run_spec]; [by exists s|].
  intros [Ho Hrest]. destruct (exec_implements o s Ho Hacc Hs) as (s1 & E & Hacc1 & Hs1 & Hw & Hn). rewrite E in *. cbn [mbind option_bind].
  destruct (IH s1 Hacc1 Hs1 Hrest) as (s' & E' & Hacc' & Hs' & Hw'). exists s'. do 3 (split; [done|]).
  exists (owners s1). split; [done|]. by rewrite <-Hn.
Qed.

(** C36: The pointer classes do what they say, for variables of the program and for members of the objects that they point
    to: a program of operations on variables in scope finds every wrapper it uses alive, copies, moves and swaps the
    pointers as [ptr_spec] says, deletes the objects that only members of deleted objects still hold with their members and
    nothing else, and keeps the accounts: the count of an object is the number of its shared owners, and every object
    is shared, uniquely owned or deleted, and deleted once.  The assignments of a nostd::shared_ptr to itself are
    excepted, and those from or to a member that goes with the object which the assigned variable lets go of, and
    the reset of a unique pointer that is a member of what it owns. *)
Theorem pointers_accounted ops s :
  accounted s → at_home s → program_ok ops s →
  ∃ s', run_ops ops s = Some s' ∧ accounted s' ∧ at_home s' ∧ run_spec ops (next_obj s) (owners s) (owners s').
Proof. apply run_implements. Qed.

(** The exceptions are faults: the assignments that [op_ok] excludes find a dead wrapper, or no room. *)
Lemma assign_faults s x y :
  accounted s → at_home s → is_Some (buffers s !! x) →
  x = y ∨ lost [] (without_wrapper (owners s) x) (Sh y) ∨ lost [] (without_wrapper (owners s) x) (Sh x) →
  shared_copy_assign s x y = None ∧ shared_move_assign s x y = None.
Proof.
  intros Hacc Hs Hx H. destruct (assign_destroys s x Hacc Hs Hx) as (s1 & s2 & E1 & E2 & Hb2 & Hs2 & Hsur & Hn & Hroom).
  unfold shared_copy_assign, shared_move_assign. rewrite E1. cbn [mbind option_bind]. rewrite E2. cbn [mbind option_bind].
  destruct (has_room s2 (Sh x)) eqn:Er; [|done].
  assert (Hy : buffers s2 !! y = None); [|unfold CopyTo, MoveTo, wrapper; by rewrite Hy].
  destruct H as [->|[Hl|Hl]]; [| |by destruct (proj1 Hroom eq_refl)].
  - apply (sv_dead _ _ _ Hsur (Sh y)). unfold without_wrapper. by rewrite holder_take_out, decide_True.
  - destruct (holder (without_wrapper (owners s) x) (Sh y)) as [p|] eqn:E; [|exact (sv_dead _ _ _ Hsur (Sh y) E)].
    by destruct (sv_alive _ _ _ Hsur (Sh y) p E) as [[_ ?]|[E' _]].
Qed.

(** nostd::unique_ptr releases before it resets, so that assigning one to itself changes nothing. *)
Lemma unique_self_assign s u :
  accounted s → at_home s → is_Some (uniques s !! u) →
  ∃ s', unique_move_assign s u u = Some s' ∧ accounted s' ∧ ∀ v, holder (owners s') v = holder (owners s) v.
Proof.
  intros Hacc Hs [p Hu]. pose proof (at_home_survivors [] s (proj1 (accounted_books s) Hacc) Hs) as [_ Hall].
  destruct (exec_assigns (AssignUnique u u) s) as (s' & E & Hacc' & _ & Hsur & _); [|done|done|].
  - split; [cbn; apply andb_true_iff; rewrite alive_true; split; by exists p|].
    unfold value. rewrite Hu, insert_insert_eq. intros (h & Hh & Hg). destruct (Hall (Un u) p Hu) as [[_ Hl]|[E0 _]]; [|cbn in E0; congruence].
    apply Hl. exists h. split; [done|]. revert Hg. apply gone_sub; [intros o []%list.not_elem_of_nil|]. intros v o.
    change (owners s) with (buffers s, uniques s). holders. right. right. left. apply in_hand_not_gone.
    cbn in *. rewrite Hu in *. simplify_eq. set_solver.
  - exists s'. split; [exact E|]. split; [done|]. assert (Ew : ptr_spec (AssignUnique u u) (next_obj s) (owners s) = owners s).
    { unfold ptr_spec, owners, value. rewrite Hu, insert_insert_eq. cbn. by rewrite insert_id. }
    rewrite Ew in Hsur. destruct Hsur as [Hd Ha]. intros v. destruct (holder (owners s) v) as [q|] eqn:Eq; [|by apply Hd].
    destruct (Ha v q Eq) as [[-> _]|[_ Hl]]; [done|]. by destruct (Hall v q Eq) as [[_ ?]|[? _]]; [|congruence].
Qed.

Lemma accounted_empty : accounted Store_empty.
Proof. by split. Qed.

Lemma at_home_empty : at_home Store_empty.
Proof. by intros [x|u] []. Qed.

End Members.

(** A list of two objects: shared pointer 10 and unique pointer 5 are members, of the first object and of the second. *)
Definition example_home (v : var) : option obj :=
  match v with Sh 10 => Some 0 | Un 5 => Some 1 | _ => None end.

(** [p = p->next], copied or moved, when [p] is the only pointer to its object: the member that is read went
    with the object. *)
Example own_member_faults :
  (s ← run_ops example_home [NewShared 0; NewShared 10] Store_empty; shared_copy_assign example_home s 0 10) = None ∧
  (s ← run_ops example_home [NewShared 0; NewShared 10] Store_empty; shared_move_assign example_home s 0 10) = None.
Proof. by vm_compute. Qed.

(** By way of another variable, [q = p->next; p = q], it deletes the first object; the second goes when both are assigned,
    and what its member owns. *)
Definition example_program : list ptr_op :=
  [NewShared 0; NewShared 10; NewUnique 5; CopyShared 1 10; CopyAssign 0 1; SwapShared 0 1; SwapShared 0 0; NullAssign 1;
   NewUnique 0; FromUnique 2 0; MoveAssign 0 2; DestroyUnique 0].

Lemma pointers_accounted_witness :
  (deleted <$> run_ops example_home example_program Store_empty) = Some [0; 1; 2] ∧
  (owners <$> run_ops example_home example_program Store_empty) = Some ({[0 := Some 3; 1 := None; 2 := None]}, ∅) ∧
  ∃ s', run_ops example_home example_program Store_empty = Some s' ∧ accounted s' ∧ at_home example_home s' ∧
    run_spec example_home example_program 0 (∅, ∅) (owners s').
Proof.
  split; [by vm_compute|]. split; [by vm_compute|].
  apply (pointers_accounted example_home example_program Store_empty accounted_empty (at_home_empty _)).
  vm_compute. repeat split; try discriminate; intros (h & [=] & _).
Defined.
