(* ===== verification/GlobalProvider.v ===== *)
(** * The global providers

    trace/provider.h, metrics/provider.h, logs/provider.h: a static nostd::shared_ptr behind static
    functions that get and set it under one spin lock (logs/provider.h has two of them behind the same
    lock).  Setting destroys the wrapper in the buffer and then places another, so only the lock keeps a
    reader from finding no wrapper there: the sections of SpinLock.v run on the store of NostdPtr.v, the
    setter's being cut between the two halves.  The providers have no such pointers as members here. *)
From S2P Require Export NostdPtr SpinLock.

(** ** The sections *)

(** The static variables: the provider, and the event logger provider of logs/provider.h. *)
Definition PROVIDER : nat := 0.
Definition EVENT_PROVIDER : nat := 1.

(** [GetTracerProvider()] and its like copy the static into a new variable of the caller, [Set...(tp)] assigns the
    caller's variable [tp]. *)
Inductive provider_op := GetGlobal (static : nat) | SetGlobal (static tp : nat).

(** The store, and the pointers that were returned; [None] is the use of a dead wrapper. *)
Definition Providers : Type := option (Store * list (option nat)).

Definition get_section (static : nat) (w : Store * list (option nat)) : Providers :=
  let '(s, returned) := w in
  p ← wrapper s static;
  s ← shared_copy_construct s (tmp_var s) static;
  Some (s, returned ++ [p]).

Definition first_half (o : provider_op) (x : Providers) : Providers * unit :=
  (match o with
   | GetGlobal static => x ≫= get_section static
   | SetGlobal static tp => '(s, returned) ← x; s ← destroy_wrapper s static; Some (s, returned)
   end, tt).

Definition second_half (o : provider_op) (_ : unit) (x : Providers) : Providers :=
  match o with
  | GetGlobal _ => x
  | SetGlobal static tp => '(s, returned) ← x; s ← CopyTo s tp static; Some (s, returned)
  end.

(** No variable is a member of an object. *)
Definition no_members (v : var) : option obj := None.

(** Before any section: the static locals are made by the first call, each with a no-op provider; the callers have
    the providers they will set in variables of their own. *)
Definition static_locals (s : Store) : option Store := run_ops no_members [NewShared PROVIDER; NewShared EVENT_PROVIDER] s.

(** ** What they do *)

Definition static_var (g : nat) : bool := (g =? PROVIDER) || (g =? EVENT_PROVIDER).

(** The operation names a static, and its argument is a variable of the caller. *)
Definition proper (s : Store) (o : provider_op) : Prop :=
  match o with
  | GetGlobal g => static_var g = true
  | SetGlobal g tp => static_var g = true ∧ static_var tp = false ∧ is_Some (buffers s !! tp)
  end.

(** The specification: the two pointers, and what was returned. *)
Definition spec_state : Type := (nat → option nat) * list (option nat).

Definition spec_op (s0 : Store) (st : spec_state) (o : provider_op) : spec_state :=
  match o with
  | GetGlobal g => (st.1, st.2 ++ [st.1 g])
  | SetGlobal g tp => (λ g', if g' =? g then value (buffers s0) tp else st.1 g', st.2)
  end.

(** The store [x] is that state; the variables of the callers are untouched. *)
Definition realizes (s0 : Store) (x : Providers) (st : spec_state) : Prop :=
  ∃ s, x = Some (s, st.2) ∧ accounted s ∧
    (∀ g, static_var g = true → buffers s !! g = Some (st.1 g)) ∧
    (∀ v, static_var v = false → is_Some (buffers s0 !! v) → buffers s !! v = buffers s0 !! v).

Lemma static_live s g (p : nat → option nat) x :
  (∀ g, static_var g = true → buffers s !! g = Some (p g)) → buffers s !! x = None → static_var g = true → x ≠ g.
Proof. intros Hg Hx Hs ->. by rewrite Hg in Hx. Qed.

Lemma whole_get s0 x st g :
  static_var g = true → realizes s0 x st → realizes s0 (whole first_half second_half x (GetGlobal g)) (spec_op s0 st (GetGlobal g)).
Proof.
  intros Hg (s & -> & Hacc & Hst & Hvars). unfold whole, first_half, second_half. cbn [mbind option_bind].
  unfold get_section, wrapper, shared_copy_construct. rewrite (Hst g Hg). cbn [mbind option_bind].
  destruct (CopyTo_books [] [] s g (tmp_var s) (st.1 g)) as (s' & -> & Hb & H1 & H2 & H3);
    [by apply Hst|apply tmp_var_free|by apply accounted_books|]. cbn [mbind option_bind].
  exists s'. split; [done|]. split; [by apply accounted_books|]. split.
  - intros g' Hg'. rewrite H1, lookup_insert_ne; [by apply Hst|]. eapply static_live; [exact Hst|apply tmp_var_free|done].
  - intros v Hv Hs. rewrite H1, lookup_insert_ne; [by apply Hvars|]. intros E. pose proof (tmp_var_free s) as Hf.
    rewrite E, Hvars in Hf by done. rewrite Hf in Hs. by destruct Hs.
Qed.

(** Between the halves of a setter there is no wrapper in the static's buffer. *)
Lemma set_first s0 x st g tp :
  static_var g = true → realizes s0 x st →
  ∃ s s', x = Some (s, st.2) ∧ (first_half (SetGlobal g tp) x).1 = Some (s', st.2) ∧ books_with [] [] s' ∧
    buffers s' = delete g (buffers s).
Proof.
  intros Hg (s & -> & Hacc & Hst & Hvars).
  destruct (destroy_books [] [] s g (st.1 g)) as (s' & E & Hb & H1 & _); [by apply Hst|by apply accounted_books|].
  exists s, s'. unfold first_half. cbn [fst mbind option_bind]. by rewrite E.
Qed.

Lemma whole_set s0 x st g tp :
  proper s0 (SetGlobal g tp) → realizes s0 x st →
  realizes s0 (whole first_half second_half x (SetGlobal g tp)) (spec_op s0 st (SetGlobal g tp)).
Proof.
  intros (Hg & Htp & [p Hp]) Hr. destruct (set_first s0 x st g tp Hg Hr) as (s & s' & -> & E & Hb & H1).
  destruct Hr as (s1 & [= <-] & Hacc & Hst & Hvars). assert (Hne : tp ≠ g) by (intros ->; congruence).
  unfold whole. destruct (first_half (SetGlobal g tp) (Some (s, st.2))) as [x' u] eqn:Ef. cbn [fst] in E. subst x'.
  unfold second_half. cbn [mbind option_bind].
  destruct (CopyTo_books [] [] s' tp g p) as (s2 & -> & Hb2 & H4 & H5 & H6).
  { rewrite H1, lookup_delete_ne by done. by rewrite Hvars by eauto. }
  { rewrite H1. apply lookup_delete_eq. }
  { done. }
  exists s2. split; [done|]. split; [by apply accounted_books|]. cbn [spec_op fst snd]. split.
  - intros g' Hg'. rewrite H4, H1. destruct (Nat.eqb_spec g' g) as [->|Hn].
    + rewrite lookup_insert_eq. unfold value. by rewrite Hp.
    + rewrite lookup_insert_ne, lookup_delete_ne by done. by apply Hst.
  - intros v Hv Hs. rewrite H4, H1. assert (v ≠ g) by (intros ->; congruence).
    rewrite lookup_insert_ne, lookup_delete_ne by done. by apply Hvars.
Qed.

Lemma whole_spec s0 x st o :
  proper s0 o → realizes s0 x st → realizes s0 (whole first_half second_half x o) (spec_op s0 st o).
Proof. destruct o; [apply whole_get|apply whole_set]. Qed.

Lemma sections_spec s0 x st os :
  Forall (proper s0) os → realizes s0 x st →
  realizes s0 (foldl (whole first_half second_half) x os) (foldl (spec_op s0) st os).
Proof.
  revert x st. induction os as [|o os IH]; intros x st; [done|]. intros [Ho Hos]%list.Forall_cons Hr. cbn [foldl].
  apply IH; [done|]. by apply whole_spec.
Qed.

(** ** Any number of threads *)

(** The process before the threads start. *)
Definition prepared_store (s0 : Store) (p : nat → option nat) : Prop := realizes s0 (Some (s0, [])) (p, []).

Definition proper_programs (s0 : Store) (programs : gmap nat (list provider_op)) : Prop :=
  ∀ t os, programs !! t = Some os → Forall (proper s0) os.

Lemma history_proper s0 programs w :
  proper_programs s0 programs → lock_inv first_half second_half (Some (s0, [])) programs w → Forall (proper s0) (history w).*2.
Proof.
  intros Hp Hinv. apply list.Forall_forall. intros o ([t o'] & -> & Hin)%list_elem_of_fmap. cbn [snd].
  pose proof (inv_history _ _ _ _ _ Hinv t) as Hh. pose proof (inv_of_thread _ _ _ _ _ Hinv t) as Hn.
  assert (Ho : o' ∈ of_thread t (history w)).
  { unfold of_thread. apply list_elem_of_fmap. exists (t, o'). split; [done|].
    apply list_elem_of_In, List.filter_In. split; [by apply list_elem_of_In|]. cbn. apply Nat.eqb_refl. }
  destruct (threads w !! t) as [th|]; [|rewrite Hn in Ho by done; set_solver].
  cbn in Hh. specialize (Hp t _ (eq_sym Hh)). rewrite list.Forall_forall in Hp. apply Hp. set_solver.
Qed.

Lemma remaining_proper s0 programs w t th :
  proper_programs s0 programs → lock_inv first_half second_half (Some (s0, [])) programs w →
  threads w !! t = Some th → Forall (proper s0) (remaining th).
Proof.
  intros Hp Hinv Ht. pose proof (inv_history _ _ _ _ _ Hinv t) as Hh. rewrite Ht in Hh. cbn in Hh.
  specialize (Hp t _ (eq_sym Hh)). by apply list.Forall_app in Hp as [_ ?].
Qed.

Definition ProviderWorld : Type := @World Providers provider_op unit.

Definition outcome_of (s0 : Store) (p : nat → option nat) (w : ProviderWorld) : spec_state :=
  foldl (spec_op s0) (p, []) (history w).*2.

(** At no moment of any interleaving is a dead wrapper used. *)
Lemma providers_safe s0 p programs w :
  prepared_store s0 p → proper_programs s0 programs →
  rtc (client_step first_half second_half) (start (Some (s0, [])) programs) w → is_Some (object w).
Proof.
  intros Hs Hp Hr%client_reachable_inv. pose proof (history_proper _ _ _ Hp Hr) as Hh.
  pose proof (sections_spec s0 _ _ _ Hh Hs) as Hset.
  change (realizes s0 (settled first_half second_half (Some (s0, [])) w) (outcome_of s0 p w)) in Hset.
  assert (Hsome : is_Some (settled first_half second_half (Some (s0, [])) w)).
  { destruct Hset as (s & -> & _). eauto. }
  pose proof (inv_object _ _ _ _ _ Hr) as Ho. destruct (flag w); [|destruct Ho as [-> _]; exact Hsome].
  destruct Ho as (t & th & Ht & Hhold & Hok & _). destruct th as [todo|pc o todo|o todo|u o todo|todo]; try done;
    cbn in Hok; try (rewrite Hok; exact Hsome).
  pose proof (remaining_proper _ _ _ _ _ Hp Hr Ht) as Hrem. cbn in Hrem. apply list.Forall_cons in Hrem as [Hpo _].
  destruct o as [g|g tp]; cbn in Hpo.
  - destruct (whole_get s0 _ _ g Hpo Hset) as (s' & E & _). unfold whole in E. rewrite Hok in E. cbn in E. rewrite E. eauto.
  - destruct (set_first s0 _ _ g tp (proj1 Hpo) Hset) as (s & s' & _ & E & _). rewrite Hok in E. cbn in E. rewrite E. eauto.
Qed.

(** C37: Whatever threads get and set the global providers, and however the single accesses to the spin lock
    and the halves of their sections interleave, no call ever uses a wrapper that another
    is replacing; when they are done, every getter returned, and each static holds, what the calls made one after
    another in the order of their sections give, and the reference counts and deletions add up. *)
Theorem providers_atomic s0 p programs w :
  prepared_store s0 p → proper_programs s0 programs →
  rtc (client_step first_half second_half) (start (Some (s0, [])) programs) w →
  is_Some (object w) ∧
  (finished w → realizes s0 (object w) (outcome_of s0 p w) ∧ ∀ t, of_thread t (history w) = default [] (programs !! t)).
Proof.
  intros Hs Hp Hr. split; [by eapply providers_safe|]. intros Hfin.
  destruct (sections_atomic _ _ _ _ _ Hr Hfin) as [-> Ht]. split; [|done].
  apply sections_spec; [|done]. eapply history_proper; [done|by apply client_reachable_inv].
Qed.

(** A getter returns null only if null was set. *)
Lemma never_null s0 st os :
  (∀ g, st.1 g ≠ None) → Forall (λ q, q ≠ None) st.2 →
  Forall (λ o, match o with SetGlobal _ tp => value (buffers s0) tp ≠ None | _ => True end) os →
  Forall (λ q, q ≠ None) (foldl (spec_op s0) st os).2.
Proof.
  revert st. induction os as [|o os IH]; intros st Hg Hr; [done|]. intros [Ho Hos]%list.Forall_cons. cbn [foldl].
  apply IH; [|..|done]; destruct o as [g|g tp]; cbn [spec_op fst snd]; try done.
  - intros g'. by destruct (g' =? g).
  - apply list.Forall_app. split; [done|]. by repeat constructor.
Qed.

(** Setting a null provider is accepted, and getters return it, against the promise that they never do. *)
Lemma null_provider_returned s0 st g tp :
  value (buffers s0) tp = None → (foldl (spec_op s0) st [SetGlobal g tp; GetGlobal g]).2 = st.2 ++ [None].
Proof. intros H. cbn. by rewrite Nat.eqb_refl, H. Qed.

(** Two statics, and one caller's provider. *)
Definition example_store : Store :=
  match (s ← static_locals Store_empty; run_ops no_members [NewShared 2; DefaultShared 3] s) with Some s => s | None => Store_empty end.

Definition example_pointers (g : nat) : option nat := if g =? 1 then Some 1 else Some 0.

Lemma example_store_ok : prepared_store example_store example_pointers.
Proof.
  assert (Hacc : accounted example_store).
  { destruct (run_implements no_members [NewShared 0; NewShared 1; NewShared 2; DefaultShared 3] Store_empty accounted_empty
      (at_home_empty _)) as (s & E & Hs & _); [by vm_compute; repeat split|]. assert (Es : s = example_store); [|by rewrite <-Es]. apply (inj Some). rewrite <-E. by vm_compute. }
  exists example_store. split; [done|]. split; [exact Hacc|split].
  - intros g [Hg|Hg]%orb_prop; apply Nat.eqb_eq in Hg as ->; by vm_compute.
  - done.
Qed.

Definition example_programs : gmap nat (list provider_op) :=
  {[ 1 := [GetGlobal PROVIDER; GetGlobal PROVIDER]; 2 := [SetGlobal PROVIDER 2] ]}.

Lemma example_programs_proper : proper_programs example_store example_programs.
Proof.
  intros t os. unfold example_programs. rewrite lookup_insert_Some. intros [[<- <-]|[_ [<- <-]%lookup_singleton_Some]];
    repeat constructor; by eexists.
Qed.

(** Thread 1 gets; thread 2 takes the lock and destroys the old wrapper, and replaces it while thread 1 waits. *)
Definition example_end : ProviderWorld :=
  default (start None ∅) (run_schedule first_half second_half (start (Some (example_store, [])) example_programs)
    [1;1;1;1;1; 2;2;2; 1;1;1;1; 2;2; 1;1;1;1;1]).

Lemma example_end_reachable :
  rtc (client_step first_half second_half) (start (Some (example_store, [])) example_programs) example_end.
Proof.
  apply (run_schedule_rtc first_half second_half _ [1;1;1;1;1; 2;2;2; 1;1;1;1; 2;2; 1;1;1;1;1]). by vm_compute.
Defined.

Lemma example_end_finished : finished example_end.
Proof.
  intros t th. assert (E : threads example_end = {[1 := Outside []; 2 := Outside []]}) by (by vm_compute).
  rewrite E, lookup_insert_Some. by intros [[_ <-]|[_ [_ <-]%lookup_singleton_Some]].
Defined.

Lemma providers_atomic_witness :
  (snd <$> object example_end) = Some [Some 0; Some 2] ∧ is_Some (object example_end) ∧
  realizes example_store (object example_end) (outcome_of example_store example_pointers example_end).
Proof.
  destruct (providers_atomic example_store example_pointers example_programs example_end example_store_ok
    example_programs_proper example_end_reachable) as [H1 H2].
  split; [by vm_compute|]. split; [exact H1|]. apply H2, example_end_finished.
Defined.
