(* ===== verification/RuntimeContext.v ===== *)
(** * The runtime context

    context/runtime_context.h: the current context of a thread is the top of a stack that
    grows by doubling; [Attach] pushes and hands out a token, [Detach] pops down to the
    token's context.  Contexts are compared by the address of their first node, so a context
    is its head pointer here, as in Context.Heap; every thread has its own stack. *)
From S2P Require Export Context.
Import Heap.

(** ** ThreadLocalContextStorage::Stack

    [base_] is the allocated array, null before the first push.  An access outside it is
    [None]. *)
Record Stack := MkStack {
  size_ : nat;
  capacity_ : nat;
  base_ : option (list head);
}.

Definition Stack_new : Stack := MkStack 0 0 None.

Definition base_read (s : Stack) (i : nat) : option head := b ← base_ s; b !! i.

Definition base_write (s : Stack) (i : nat) (c : head) : option Stack :=
  b ← base_ s;
  if i <? length b then Some (MkStack (size_ s) (capacity_ s) (Some (<[i := c]> b))) else None.

Definition Pop (s : Stack) : option Stack :=
  if size_ s =? 0 then Some s
  else
    s ← base_write s (size_ s - 1) None;
    Some (MkStack (size_ s - 1) (capacity_ s) (base_ s)).

Definition Top (s : Stack) : option head :=
  if size_ s =? 0 then Some None else base_read s (size_ s - 1).

Definition Token := head.

(** [Token::operator==(const Context &)] *)
Definition Token_eq (token : Token) (c : head) : bool := bool_decide (token = c).

(** [for (pos = size_; pos > 0; --pos)] *)
Fixpoint Contains_loop (s : Stack) (token : Token) (pos : nat) : option bool :=
  match pos with
  | O => Some false
  | S p =>
      c ← base_read s p;
      if Token_eq token c then Some true else Contains_loop s token p
  end.

Definition Contains (s : Stack) (token : Token) : option bool := Contains_loop s token (size_ s).

(** The copy loop [temp[i] = base_[i]]. *)
Fixpoint copy_loop (old temp : list head) (i n : nat) : option (list head) :=
  match n with
  | O => Some temp
  | S n' =>
      c ← old !! i;
      if i <? length temp then copy_loop old (<[i := c]> temp) (S i) n' else None
  end.

Definition Resize (s : Stack) (new_capacity : nat) : option Stack :=
  let old_size := size_ s - 1 in
  let new_capacity := if new_capacity =? 0 then 2 else new_capacity in
  let temp := replicate new_capacity (None : head) in
  temp ← match base_ s with
         | Some b => copy_loop b temp 0 (old_size `min` new_capacity)
         | None => Some temp
         end;
  Some (MkStack (size_ s) new_capacity (Some temp)).

Definition Push (s : Stack) (c : head) : option Stack :=
  let s := MkStack (S (size_ s)) (capacity_ s) (base_ s) in
  s ← (if capacity_ s <? size_ s then Resize s (size_ s * 2) else Some s);
  base_write s (size_ s - 1) c.

(** ** RuntimeContextStorage: what a context store offers *)

Class RuntimeContextStorage (S : Type) := {
  storage_GetCurrent : S → option head;
  storage_Attach : S → head → option (S * Token);
  storage_Detach : S → Token → option (S * bool);
}.

(** [while (!(token == Top())) Pop();] *)
Fixpoint Detach_loop (fuel : nat) (s : Stack) (token : Token) : option Stack :=
  match fuel with
  | O => None
  | S f =>
      c ← Top s;
      if Token_eq token c then Some s
      else s ← Pop s; Detach_loop f s token
  end.

Definition Detach (s : Stack) (token : Token) : option (Stack * bool) :=
  c ← Top s;
  if Token_eq token c then s ← Pop s; Some (s, true)
  else
    found ← Contains s token;
    if negb found then Some (s, false)
    else
      s ← Detach_loop (S (size_ s)) s token;
      s ← Pop s;
      Some (s, true).

Definition Attach (s : Stack) (c : head) : option (Stack * Token) := s ← Push s c; Some (s, c).

#[export] Instance ThreadLocalContextStorage : RuntimeContextStorage Stack := {
  storage_GetCurrent := Top;
  storage_Attach := Attach;
  storage_Detach := Detach;
}.

(** ** RuntimeContext: the static interface over the registered storage *)

Section runtime.
Context {St : Type} `{RuntimeContextStorage St}.

Definition rc_GetCurrent (st : St) : option head := storage_GetCurrent st.
Definition rc_Attach (st : St) (c : head) : option (St * Token) := storage_Attach st c.
Definition rc_Detach (st : St) (token : Token) : option (St * bool) := storage_Detach st token.

(** [~Token] detaches. *)
Definition Token_destroy (st : St) (token : Token) : option St := '(st, _) ← rc_Detach st token; Some st.

(** [context] is the optional pointer argument. *)
Definition rc_SetValue (h : heap) (st : St) (key : bytes) (value : ContextValue) (context : option head)
    : option (heap * head) :=
  temp_context ← match context with None => rc_GetCurrent st | Some c => Some c end;
  Some (h_SetValue h temp_context key value).

Definition rc_GetValue (fuel : nat) (h : heap) (st : St) (key : bytes) (context : option head)
    : option ContextValue :=
  temp_context ← match context with None => rc_GetCurrent st | Some c => Some c end;
  h_GetValue fuel h temp_context key.
End runtime.

(** ** The contexts on the stack, the top last *)

Definition contents (s : Stack) : list head :=
  match base_ s with Some b => take (size_ s) b | None => [] end.

(** The array is as long as its capacity, and its unused part holds only default contexts, so
    nothing popped is kept alive. *)
Definition stack_wf (s : Stack) : Prop :=
  match base_ s with
  | None => size_ s = 0 ∧ capacity_ s = 0
  | Some b => length b = capacity_ s ∧ size_ s ≤ capacity_ s ∧ 2 ≤ capacity_ s ∧
              drop (size_ s) b = replicate (capacity_ s - size_ s) None
  end.

Lemma length_contents s : stack_wf s → length (contents s) = size_ s.
Proof.
  unfold stack_wf, contents. destruct (base_ s) as [b|]; [|simpl; lia].
  intros (Hl & Hs & _). rewrite length_take. lia.
Qed.

Lemma stack_wf_new : stack_wf Stack_new.
Proof. done. Qed.

Lemma contents_lookup s i : stack_wf s → i < size_ s → base_read s i = contents s !! i.
Proof.
  unfold stack_wf, base_read, contents. destruct (base_ s) as [b|]; [|lia]. intros _ Hi.
  cbn [mbind option_bind]. by rewrite lookup_take_lt.
Qed.

Lemma Top_spec s : stack_wf s → Top s = Some (default None (list.last (contents s))).
Proof.
  intros Hwf. unfold Top. pose proof (length_contents s Hwf) as Hl. destruct (size_ s =? 0) eqn:E; bprop.
  - assert (contents s = []) as -> by (apply length_zero_iff_nil; lia). done.
  - rewrite contents_lookup by (done || lia). rewrite last_lookup, Hl.
    replace (pred (size_ s)) with (size_ s - 1) by lia.
    destruct (contents s !! (size_ s - 1)) as [c|] eqn:Ec; [done|].
    apply lookup_ge_None in Ec. lia.
Qed.

Lemma Pop_spec s :
  stack_wf s → ∃ s', Pop s = Some s' ∧ stack_wf s' ∧ contents s' = take (size_ s - 1) (contents s) ∧
    size_ s' = size_ s - 1.
Proof.
  intros Hwf. unfold Pop. destruct (size_ s =? 0) eqn:E; bprop.
  - exists s. split_and!; [done|done| |lia]. rewrite take_ge; [done|]. rewrite length_contents by done. lia.
  - unfold base_write, stack_wf, contents in *. destruct (base_ s) as [b|]; [|lia].
    destruct Hwf as (Hl & Hs & Hc & Hd). cbn [mbind option_bind].
    rewrite (proj2 (Nat.ltb_lt _ _)) by lia. cbn [mbind option_bind size_ capacity_ base_].
    eexists. split; [done|]. cbn [size_ capacity_ base_]. split_and!.
    + by rewrite length_insert.
    + lia.
    + done.
    + rewrite (drop_S (A := head) _ (None : head)) by (apply list_lookup_insert_eq; lia).
      rewrite drop_insert_lt by lia. replace (S (size_ s - 1)) with (size_ s) by lia.
      rewrite Hd. replace (capacity_ s - (size_ s - 1)) with (S (capacity_ s - size_ s)) by lia. done.
    + rewrite take_insert_ge by lia. rewrite take_take. by rewrite Nat.min_l by lia.
    + done.
Qed.

Lemma copy_loop_spec n old temp i :
  i + n ≤ length old → i + n ≤ length temp →
  copy_loop old temp i n = Some (take i temp ++ take n (drop i old) ++ drop (i + n) temp).
Proof.
  revert temp i. induction n as [|n IH]; intros temp i Ho Ht; cbn [copy_loop].
  - rewrite take_0, Nat.add_0_r. cbn [app]. by rewrite take_drop.
  - destruct (lookup_lt_is_Some_2 old i) as [c Hc]; [lia|]. rewrite Hc. cbn [mbind option_bind].
    rewrite (proj2 (Nat.ltb_lt _ _)) by lia. rewrite IH by (rewrite ?length_insert; lia). f_equal.
    rewrite (drop_S old c i) by done. cbn [take].
    rewrite (take_S_r _ _ c) by (apply list_lookup_insert_eq; lia).
    rewrite take_insert_ge, drop_insert_lt by lia. rewrite <-app_assoc. cbn [app].
    by replace (S i + n) with (i + S n) by lia.
Qed.

Lemma Push_spec s c :
  stack_wf s → ∃ s', Push s c = Some s' ∧ stack_wf s' ∧ contents s' = contents s ++ [c] ∧
    size_ s' = S (size_ s).
Proof.
  intros Hwf. unfold Push. cbn [size_ capacity_ base_].
  set (s1 := MkStack (S (size_ s)) (capacity_ s) (base_ s)).
  assert (Hres : ∃ b k, (if capacity_ s <? S (size_ s) then Resize s1 (S (size_ s) * 2) else Some s1) =
    Some (MkStack (S (size_ s)) k (Some b)) ∧ length b = k ∧ S (size_ s) ≤ k ∧ 2 ≤ k ∧
    take (size_ s) b = contents s ∧ drop (size_ s) b = replicate (k - size_ s) None).
  { destruct (capacity_ s <? S (size_ s)) eqn:E; bprop.
    - unfold Resize. cbn [size_ base_ s1]. change (S (size_ s) * 2 =? 0) with false. cbn iota.
      set (k := S (size_ s) * 2). replace (S (size_ s) - 1) with (size_ s) by lia.
      rewrite Nat.min_l by lia. unfold stack_wf, contents in *. destruct (base_ s) as [b|] eqn:Eb.
      + destruct Hwf as (Hl & Hs & _). rewrite copy_loop_spec by (rewrite ?length_replicate; lia).
        cbn [mbind option_bind]. eexists _, k. split; [done|]. rewrite take_0, drop_0. cbn [app Nat.add].
        rewrite drop_replicate. split_and!; [|lia|lia| |].
        * rewrite length_app, length_take, length_replicate. lia.
        * rewrite take_app_length' by (rewrite length_take; lia). done.
        * by rewrite drop_app_length' by (rewrite length_take; lia).
      + destruct Hwf as [Hs _]. cbn [mbind option_bind]. eexists _, k. split; [done|].
        rewrite length_replicate, Hs. split_and!; [done|lia|lia|by rewrite take_0|].
        rewrite drop_0. by replace (k - 0) with k by lia.
    - unfold stack_wf, contents in *. subst s1. destruct (base_ s) as [b|]; [|lia].
      destruct Hwf as (Hl & Hs & Hc & Hd). exists b, (capacity_ s). split_and!; try done; lia. }
  destruct Hres as (b & k & -> & Hl & Hk & H2 & Ht & Hd). cbn [mbind option_bind size_].
  unfold base_write. cbn [base_ mbind option_bind]. replace (S (size_ s) - 1) with (size_ s) by lia.
  rewrite (proj2 (Nat.ltb_lt _ _)) by lia. eexists. split; [done|].
  unfold stack_wf, contents. cbn [base_ size_ capacity_]. fold (contents s). split_and!; try done.
  - by rewrite length_insert.
  - rewrite drop_insert_lt by lia.
    replace (S (size_ s)) with (size_ s + 1) by lia. rewrite <-drop_drop, Hd, drop_replicate. f_equal. lia.
  - rewrite (take_S_r _ _ c) by (apply list_lookup_insert_eq; lia).
    rewrite take_insert_ge by lia. by rewrite Ht.
Qed.

Lemma Contains_loop_spec s token n :
  stack_wf s → n ≤ size_ s →
  Contains_loop s token n = Some (bool_decide (token ∈ take n (contents s))).
Proof.
  intros Hwf. induction n as [|n IH]; intros Hn; cbn [Contains_loop]; [done|].
  destruct (lookup_lt_is_Some_2 (contents s) n) as [c Hc]; [rewrite length_contents by done; lia|].
  rewrite contents_lookup, Hc by (done || lia). cbn [mbind option_bind].
  rewrite (take_S_r _ _ c) by done. unfold Token_eq. destruct (decide (token = c)) as [->|Hne].
  - rewrite !bool_decide_true by set_solver. done.
  - rewrite (bool_decide_false (token = c)) by done. rewrite IH by lia. f_equal.
    apply bool_decide_ext. set_solver.
Qed.

Lemma Contains_spec s token : stack_wf s → Contains s token = Some (bool_decide (token ∈ contents s)).
Proof.
  intros Hwf. unfold Contains. rewrite Contains_loop_spec by done.
  by rewrite take_ge by (by rewrite length_contents).
Qed.

(** What remains below the last occurrence of the token, from the top down. *)
Fixpoint below (token : Token) (r : list head) : option (list head) :=
  match r with
  | [] => None
  | c :: r' => if decide (token = c) then Some r' else below token r'
  end.

(** Detaching, as a function on the contexts of the stack: everything from the last occurrence
    of the token on goes.  On an empty stack the token of a default context still succeeds. *)
Definition detach_spec (l : list head) (token : Token) : list head * bool :=
  match below token (reverse l) with
  | Some r => (reverse r, true)
  | None => (l, bool_decide (l = [] ∧ token = None))
  end.

Lemma below_None token r : below token r = None ↔ token ∉ r.
Proof. induction r as [|c r IH]; simpl; [set_solver|]. case_decide; [set_solver|]. rewrite IH. set_solver. Qed.

Lemma contents_snoc s : stack_wf s → size_ s ≠ 0 →
  ∃ l c, contents s = l ++ [c] ∧ take (size_ s - 1) (contents s) = l.
Proof.
  intros Hwf Hs. pose proof (length_contents s Hwf) as Hl.
  destruct (exists_last (l := contents s)) as (l & c & E); [by intros E; rewrite E in Hl; simpl in Hl|].
  exists l, c. split; [done|]. rewrite E in *. rewrite length_app in Hl. simpl in Hl.
  by rewrite take_app_length' by lia.
Qed.

Lemma Detach_loop_spec fuel s token :
  stack_wf s → token ∈ contents s → size_ s < fuel →
  ∃ s' r, Detach_loop fuel s token = Some s' ∧ stack_wf s' ∧
    contents s' = reverse r ++ [token] ∧ below token (reverse (contents s)) = Some r.
Proof.
  revert s. induction fuel as [|f IH]; intros s Hwf Hin Hf; [lia|]. cbn [Detach_loop].
  assert (Hs : size_ s ≠ 0).
  { rewrite <-(length_contents s Hwf). by destruct (contents s); [apply not_elem_of_nil in Hin|]. }
  rewrite Top_spec by done. cbn [mbind option_bind].
  destruct (contents_snoc s Hwf Hs) as (l & c & E & Et). rewrite E, list.last_snoc. cbn [from_option id].
  rewrite reverse_snoc. cbn [below]. unfold Token_eq. destruct (decide (token = c)) as [->|Hne].
  - rewrite bool_decide_true by done. exists s, (reverse l). split_and!; [done|done| |done].
    by rewrite reverse_involutive.
  - rewrite bool_decide_false by done. destruct (Pop_spec s Hwf) as (s1 & -> & Hwf1 & Hc1 & Hs1).
    cbn [mbind option_bind]. rewrite Et in Hc1.
    assert (Hin1 : token ∈ contents s1) by (rewrite Hc1; rewrite E in Hin; set_solver).
    destruct (IH s1 Hwf1 Hin1 ltac:(lia)) as (s' & r & -> & Hwf' & Hc' & Hb).
    exists s', r. rewrite <-Hc1. by split_and!.
Qed.

Lemma Detach_spec s token :
  stack_wf s →
  ∃ s', Detach s token = Some (s', (detach_spec (contents s) token).2) ∧ stack_wf s' ∧
    contents s' = (detach_spec (contents s) token).1.
Proof.
  intros Hwf. unfold Detach, detach_spec. rewrite Top_spec by done. cbn [mbind option_bind].
  destruct (Pop_spec s Hwf) as (s1 & Hpop & Hwf1 & Hc1 & Hs1). unfold Token_eq.
  destruct (decide (size_ s = 0)) as [H0|H0].
  - assert (E : contents s = []) by (apply length_zero_iff_nil; by rewrite length_contents).
    rewrite E in *. cbn [list.last from_option reverse]. rewrite reverse_nil. cbn [below fst snd].
    destruct (decide (token = None)) as [->|Hne].
    + rewrite !bool_decide_true by done. rewrite Hpop. cbn [mbind option_bind].
      exists s1. split_and!; [done|done|]. by rewrite Hc1, take_nil.
    + rewrite !bool_decide_false by naive_solver. rewrite Contains_spec, E by done. cbn [mbind option_bind].
      rewrite bool_decide_false by set_solver. exists s. by split_and!.
  - destruct (contents_snoc s Hwf H0) as (l & c & E & Et). rewrite E, list.last_snoc, reverse_snoc.
    cbn [from_option id below]. destruct (decide (token = c)) as [->|Hne].
    + rewrite bool_decide_true by done. rewrite Hpop. cbn [mbind option_bind fst snd].
      exists s1. split_and!; [done|done|]. by rewrite Hc1, Et, reverse_involutive.
    + rewrite bool_decide_false by done. rewrite Contains_spec by done. cbn [mbind option_bind].
      destruct (decide (token ∈ contents s)) as [Hin|Hni].
      * rewrite bool_decide_true by done. cbn [negb].
        destruct (Detach_loop_spec (S (size_ s)) s token Hwf Hin ltac:(lia)) as (s2 & r & -> & Hwf2 & Hc2 & Hb).
        cbn [mbind option_bind]. destruct (Pop_spec s2 Hwf2) as (s3 & -> & Hwf3 & Hc3 & _).
        cbn [mbind option_bind]. rewrite E, reverse_snoc in Hb. cbn [below] in Hb.
        rewrite decide_False in Hb by done. rewrite Hb. cbn [fst snd].
        exists s3. split_and!; [done|done|]. rewrite Hc3, Hc2.
        pose proof (length_contents s2 Hwf2) as Hl. rewrite Hc2, length_app in Hl. cbn [length] in Hl.
        apply take_app_length'. unfold Token in *. lia.
      * rewrite bool_decide_false by done. cbn [negb].
        assert (Hb : below token (reverse l) = None).
        { apply below_None. rewrite E in Hni. set_solver. }
        rewrite Hb. cbn [fst snd]. exists s. split_and!; [|done|done].
        rewrite bool_decide_false; [done|]. intros [H _]. by destruct l.
Qed.

(** ** Any use of the runtime context *)

Inductive rt_op := OpAttach (c : head) | OpDetach (token : Token).

Definition rt_step (s : Stack) (o : rt_op) : option Stack :=
  match o with
  | OpAttach c => '(s, _) ← rc_Attach s c; Some s
  | OpDetach t => '(s, _) ← rc_Detach s t; Some s
  end.

Definition rt_spec (l : list head) (o : rt_op) : list head :=
  match o with
  | OpAttach c => l ++ [c]
  | OpDetach t => (detach_spec l t).1
  end.

Lemma rt_step_spec s o :
  stack_wf s → ∃ s', rt_step s o = Some s' ∧ stack_wf s' ∧ contents s' = rt_spec (contents s) o.
Proof.
  intros Hwf. destruct o as [c|t]; cbn [rt_step rt_spec].
  - destruct (Push_spec s c Hwf) as (s' & Hp & Hwf' & Hc & _). exists s'.
    unfold rc_Attach. cbn [storage_Attach ThreadLocalContextStorage]. unfold Attach. by rewrite Hp.
  - destruct (Detach_spec s t Hwf) as (s' & Hd & Hwf' & Hc). exists s'.
    unfold rc_Detach. cbn [storage_Detach ThreadLocalContextStorage]. by rewrite Hd.
Qed.

(** C34: Whatever sequence of attachments and detachments a thread makes, in any order and with any
    tokens: no access leaves the array, the loops end, the array keeps nothing that was popped,
    and the stack holds what the specification says, its top being the current context. *)
Theorem runtime_stack_refines ops :
  ∃ s, foldl (λ o op, s ← o; rt_step s op) (Some Stack_new) ops = Some s ∧ stack_wf s ∧
    contents s = foldl rt_spec [] ops ∧
    rc_GetCurrent s = Some (default None (list.last (foldl rt_spec [] ops))).
Proof.
  induction ops as [|o ops IH] using rev_ind.
  - exists Stack_new. by split_and!.
  - destruct IH as (s & Hs & Hwf & Hc & _). rewrite !foldl_snoc, Hs. cbn [mbind option_bind].
    destruct (rt_step_spec s o Hwf) as (s' & -> & Hwf' & Hc'). exists s'. rewrite <-Hc.
    split_and!; [done..|]. rewrite <-Hc'. by apply Top_spec.
Qed.

(** Detaching the token of a context undoes its attachment and everything attached since,
    provided the same context was not attached again in between. *)
Theorem attach_detach_scope s c cs :
  stack_wf s → c ∉ cs →
  ∃ s1 s2, foldl (λ o c, s ← o; rt_step s (OpAttach c)) (Some s) (c :: cs) = Some s1 ∧
    rc_GetCurrent s1 = Some (default c (list.last cs)) ∧
    rc_Detach s1 c = Some (s2, true) ∧ contents s2 = contents s ∧ rc_GetCurrent s2 = rc_GetCurrent s.
Proof.
  intros Hwf Hni.
  assert (H : ∀ l s, stack_wf s → ∃ s1, foldl (λ o c, s ← o; rt_step s (OpAttach c)) (Some s) l = Some s1 ∧
    stack_wf s1 ∧ contents s1 = contents s ++ l).
  { clear. intros l. induction l as [|d l IH]; intros s Hwf; [exists s; by rewrite app_nil_r|]. cbn [foldl].
    cbn [mbind option_bind]. destruct (rt_step_spec s (OpAttach d) Hwf) as (s' & -> & Hwf' & Hc).
    destruct (IH s' Hwf') as (s1 & -> & Hwf1 & Hc1). exists s1. split_and!; [done..|].
    rewrite Hc1, Hc. cbn [rt_spec]. by rewrite <-app_assoc. }
  destruct (H (c :: cs) s Hwf) as (s1 & -> & Hwf1 & Hc1). exists s1.
  destruct (Detach_spec s1 c Hwf1) as (s2 & Hd & Hwf2 & Hc2). exists s2.
  assert (Hb : detach_spec (contents s1) c = (contents s, true)).
  { unfold detach_spec. rewrite Hc1, reverse_app, reverse_cons.
    assert (E : ∀ r, c ∉ r → below c ((r ++ [c]) ++ reverse (contents s)) = Some (reverse (contents s))).
    { clear. intros r. induction r as [|d r IH]; intros Hr; cbn [app below]; [by rewrite decide_True|].
      rewrite decide_False by set_solver. apply IH. set_solver. }
    rewrite E by (by rewrite elem_of_reverse). by rewrite reverse_involutive. }
  rewrite Hb in Hd, Hc2. cbn [fst snd] in *. split_and!; [done| |done|done|].
  - unfold rc_GetCurrent. cbn [storage_GetCurrent ThreadLocalContextStorage].
    rewrite Top_spec, Hc1 by done. f_equal. rewrite last_app_cons, list.last_cons. by destruct (list.last cs).
  - unfold rc_GetCurrent. cbn [storage_GetCurrent ThreadLocalContextStorage].
    by rewrite !Top_spec, Hc2 by done.
Qed.

Lemma attach_detach_scope_witness :
  ∃ s1 s2, foldl (λ o c, s ← o; rt_step s (OpAttach c)) (Some Stack_new) [Some 1; Some 2; Some 3; None]%positive = Some s1 ∧
    rc_GetCurrent s1 = Some None ∧
    rc_Detach s1 (Some 1%positive) = Some (s2, true) ∧ contents s2 = [] ∧ rc_GetCurrent s2 = Some None.
Proof.
  apply (attach_detach_scope Stack_new (Some 1) [Some 2; Some 3; None])%positive.
  - exact stack_wf_new.
  - by apply (bool_decide_unpack (¬ _)).
Defined.
