(* ===== verification/ActiveSpan.v ===== *)
(** * The active span of a thread

    trace/scope.h, and the parts of trace/tracer.h that find and set the active span: a [Scope] attaches a context derived
    from the current one in which the span is set, and its token detaches it when the scope is destroyed.
    Contexts are the linked nodes of Context.v (Module Heap), the stack is the growing array of RuntimeContext.v.

    The specification is a stack of contexts with the scopes they belong to. *)
From S2P Require Export RuntimeContext.
Import Heap.

(** ** Scopes *)

(** [Scope(span)] *)
Definition Scope_new (h : heap) (st : Stack) (span : Span) : option (heap * Stack * Token) :=
  c ← rc_GetCurrent st;
  let '(h, c) := h_SetValue h c kSpanKey (CVspan span) in
  '(st, token_) ← rc_Attach st c;
  Some (h, st, token_).

(** [~Scope]: [token_]'s unique_ptr deletes the token, which detaches. *)
Definition Scope_destroy (st : Stack) (token_ : Token) : option Stack := Token_destroy st token_.

Definition WithActiveSpan (h : heap) (st : Stack) (span : Span) : option (heap * Stack * Token) := Scope_new h st span.

Definition GetCurrentSpan (fuel : nat) (h : heap) (st : Stack) : option Span :=
  active_span ← rc_GetValue fuel h st kSpanKey None;
  Some (match active_span with CVspan span => span | _ => DefaultSpan GetInvalid end).

(** Anything else a thread puts in its current context, baggage for one: the value is set and the context attached. *)
Definition attach_value (h : heap) (st : Stack) (key : bytes) (value : ContextValue) : option (heap * Stack * Token) :=
  '(h, c) ← rc_SetValue h st key value None;
  '(st, token_) ← rc_Attach st c;
  Some (h, st, token_).

(** ** A thread's use of them *)

(** [Leave i] destroys the [i]-th scope or token made, in any order, more than once even. *)
Inductive scope_op := Enter (span : Span) | Put (key : bytes) (value : ContextValue) | Leave (i : nat).

Record Thread := MkThread { th_heap : heap; th_stack : Stack; th_tokens : list Token }.

Definition Thread_new : Thread := MkThread heap_empty Stack_new [].

Definition scope_step (t : Thread) (o : scope_op) : option Thread :=
  match o with
  | Enter span =>
      '(h, st, tok) ← WithActiveSpan (th_heap t) (th_stack t) span; Some (MkThread h st (th_tokens t ++ [tok]))
  | Put key value =>
      '(h, st, tok) ← attach_value (th_heap t) (th_stack t) key value; Some (MkThread h st (th_tokens t ++ [tok]))
  | Leave i =>
      tok ← th_tokens t !! i; st ← Scope_destroy (th_stack t) tok; Some (MkThread (th_heap t) st (th_tokens t))
  end.

(** ** The specification *)

(** The open scopes, innermost first, with their contexts; and how many scopes there were. *)
Record Scopes := MkScopes { open_scopes : list (nat * Context); made : nat }.

Definition current (s : Scopes) : Context := match open_scopes s with [] => Context_default | (_, c) :: _ => c end.

(** Leaving a scope closes it and those inside it; leaving one that is closed changes nothing. *)
Fixpoint close (i : nat) (l : list (nat * Context)) : option (list (nat * Context)) :=
  match l with
  | [] => None
  | (j, _) :: l' => if decide (i = j) then Some l' else close i l'
  end.

Definition spec_scope (s : Scopes) (o : scope_op) : Scopes :=
  match o with
  | Enter span => MkScopes ((made s, SetSpan (current s) span) :: open_scopes s) (S (made s))
  | Put key value => MkScopes ((made s, ctx_SetValue (current s) key value) :: open_scopes s) (S (made s))
  | Leave i => MkScopes (default (open_scopes s) (close i (open_scopes s))) (made s)
  end.

(** Only scopes that were made are left. *)
Definition leaves_ok (n : nat) (o : scope_op) : bool := match o with Leave i => i <? n | _ => true end.

Fixpoint script_ok (n : nat) (ops : list scope_op) : bool :=
  match ops with
  | [] => true
  | o :: ops => leaves_ok n o && script_ok (match o with Leave _ => n | _ => S n end) ops
  end.

(** ** The refinement *)

(** The thread's stack is the open scopes, by their tokens. *)
Record scopes_rel (t : Thread) (s : Scopes) : Prop := MkScopesRel {
  sr_heap : heap_wf (th_heap t);
  sr_stack : stack_wf (th_stack t);
  sr_made : length (th_tokens t) = made s;
  sr_tokens : NoDup (th_tokens t) ∧ Forall (λ tok, ∃ p, tok = Some p ∧ (p < fresh_loc (th_heap t))%positive) (th_tokens t);
  sr_open : Forall2 (λ tok (jc : nat * Context), th_tokens t !! jc.1 = Some tok ∧ is_list (th_heap t) tok jc.2 ∧ length jc.2 ≤ made s)
              (reverse (contents (th_stack t))) (open_scopes s);
}.

Lemma scopes_rel_new : scopes_rel Thread_new (MkScopes [] 0).
Proof.
  split; [|exact stack_wf_new|done|by repeat constructor|constructor]. intros p _. apply lookup_empty.
Qed.

(** The current context. *)
Lemma current_rel t s :
  scopes_rel t s → ∃ c, rc_GetCurrent (th_stack t) = Some c ∧ is_list (th_heap t) c (current s) ∧ length (current s) ≤ made s.
Proof.
  intros [Hh Hs Hm Ht Ho]. unfold rc_GetCurrent. cbn [storage_GetCurrent ThreadLocalContextStorage]. rewrite Top_spec by done.
  eexists. split; [done|]. unfold current. rewrite <-(reverse_involutive (contents (th_stack t))).
  inversion Ho as [E1 E2|tok [j c] l l' (Hj & Hc & Hl) Hrest E1 E2].
  - rewrite reverse_nil. split; [constructor|cbn; lia].
  - rewrite reverse_cons, list.last_snoc. by split.
Qed.

(** Attaching a context made by one [SetValue]. *)
Lemma attach_rel t s c key value :
  scopes_rel t s → rc_GetCurrent (th_stack t) = Some c →
  is_list (th_heap t) c (current s) → length (current s) ≤ made s →
  ∃ h st tok, h_SetValue (th_heap t) c key value = (h, tok) ∧ rc_Attach (th_stack t) tok = Some (st, tok) ∧
    scopes_rel (MkThread h st (th_tokens t ++ [tok])) (MkScopes ((made s, ctx_SetValue (current s) key value) :: open_scopes s) (S (made s))).
Proof.
  intros [Hh Hs Hm [Hnd Ht] Ho] Hc Hlist Hlen. pose proof (h_SetValue_spec _ _ _ key value Hh Hlist) as Hset.
  assert (Etok : ∃ h, h_SetValue (th_heap t) c key value = (h, Some (fresh_loc (th_heap t))) ∧ fresh_loc h = Pos.succ (fresh_loc (th_heap t)))
    by (by eexists).
  destruct Etok as (h & E & Hf). rewrite E in *. destruct Hset as (Hh' & Hag & Hl').
  destruct (Push_spec (th_stack t) (Some (fresh_loc (th_heap t))) Hs) as (st & Hp & Hs' & Hct & _).
  exists h, st, (Some (fresh_loc (th_heap t))). split; [done|].
  split; [unfold rc_Attach; cbn [storage_Attach ThreadLocalContextStorage]; unfold Attach; by rewrite Hp|].
  split; cbn [th_heap th_stack th_tokens open_scopes made]; [done|done|rewrite length_app; cbn; lia| |].
  - split.
    + apply list.NoDup_app. split; [done|]. split; [|repeat constructor; set_solver].
      intros tok Hin. rewrite list.Forall_forall in Ht. destruct (Ht tok Hin) as (p & -> & Hp').
      intros [= ->]%list_elem_of_singleton. lia.
    + apply list.Forall_app. split; [|repeat constructor; eexists; split; [done|lia]].
      eapply list.Forall_impl; [exact Ht|]. intros tok (p & -> & Hp'). eexists. split; [done|lia].
  - rewrite Hct, reverse_snoc. constructor.
    + cbn [fst snd]. split; [|split; [exact Hl'|cbn; lia]].
      by apply list_lookup_middle.
    + eapply Forall2_impl; [|exact Ho]. intros tok [j cj] (Hj & Hcj & Hlj). cbn [fst snd] in *. split; [|split; [|lia]].
      * by apply lookup_app_l_Some.
      * by apply (is_list_agree (th_heap t)).
Qed.

(** Detaching a token. *)
Lemma close_below (tokens : list Token) i tok (P : Token → nat * Context → Prop) r l :
  NoDup tokens → tokens !! i = Some tok → (∀ t jc, P t jc → tokens !! jc.1 = Some t) → Forall2 P r l →
  match below tok r, close i l with
  | Some r', Some l' => Forall2 P r' l'
  | None, None => True
  | _, _ => False
  end.
Proof.
  intros Hnd Hi HP. induction 1 as [|t [j c] r l Hp Hrest IH]; cbn [below close]; [done|].
  pose proof (HP _ _ Hp) as Hj. cbn [fst] in Hj. destruct (decide (tok = t)) as [->|Hne].
  - rewrite decide_True; [done|]. by apply (NoDup_lookup tokens i j t).
  - rewrite decide_False; [exact IH|]. intros ->. congruence.
Qed.

Lemma leave_rel t s i :
  scopes_rel t s → i < made s →
  ∃ t', scope_step t (Leave i) = Some t' ∧ scopes_rel t' (spec_scope s (Leave i)).
Proof.
  intros [Hh Hs Hm [Hnd Ht] Ho] Hi. cbn [scope_step]. destruct (lookup_lt_is_Some_2 (th_tokens t) i ltac:(lia)) as [tok Htok].
  rewrite Htok. cbn [mbind option_bind]. unfold Scope_destroy, Token_destroy, rc_Detach. cbn [storage_Detach ThreadLocalContextStorage].
  destruct (Detach_spec (th_stack t) tok Hs) as (st & -> & Hs' & Hc). cbn [mbind option_bind]. eexists. split; [done|].
  split; cbn [th_heap th_stack th_tokens spec_scope open_scopes made]; try done.
  pose proof (close_below (th_tokens t) i tok _ _ _ Hnd Htok (λ t jc H, proj1 H) Ho) as Hb.
  rewrite Hc. unfold detach_spec. destruct (below tok (reverse (contents (th_stack t)))) as [r|], (close i (open_scopes s)) as [l|]; try done.
  cbn [fst default]. by rewrite reverse_involutive.
Qed.

Lemma scope_step_rel t s o :
  scopes_rel t s → leaves_ok (made s) o = true → ∃ t', scope_step t o = Some t' ∧ scopes_rel t' (spec_scope s o).
Proof.
  intros Hr Ho. destruct (current_rel t s Hr) as (c & Hc & Hl & Hlen). destruct o as [span|key value|i].
  - destruct (attach_rel t s c kSpanKey (CVspan span) Hr Hc Hl Hlen) as (h & st & tok & E1 & E2 & Hr').
    cbn [scope_step]. unfold WithActiveSpan, Scope_new. rewrite Hc. cbn [mbind option_bind]. rewrite E1, E2. cbn [mbind option_bind].
    eexists. split; [done|exact Hr'].
  - destruct (attach_rel t s c key value Hr Hc Hl Hlen) as (h & st & tok & E1 & E2 & Hr').
    cbn [scope_step]. unfold attach_value, rc_SetValue. rewrite Hc. cbn [mbind option_bind]. rewrite E1. cbn [mbind option_bind]. rewrite E2.
    eexists. split; [done|exact Hr'].
  - apply leave_rel; [done|]. by apply Nat.ltb_lt.
Qed.

Definition run_scopes (ops : list scope_op) (t : Thread) : option Thread := foldl (λ o op, t ← o; scope_step t op) (Some t) ops.

Lemma run_scopes_rel ops t s :
  scopes_rel t s → script_ok (made s) ops = true → ∃ t', run_scopes ops t = Some t' ∧ scopes_rel t' (foldl spec_scope s ops).
Proof.
  revert t s. induction ops as [|o ops IH]; intros t s Hr; [by exists t|]. cbn [script_ok]. intros [Ho Hrest]%andb_prop.
  destruct (scope_step_rel t s o Hr Ho) as (t1 & E & Hr1). unfold run_scopes. cbn [foldl mbind option_bind]. rewrite E.
  apply (IH t1 (spec_scope s o) Hr1). by destruct o.
Qed.

(** C35: The active span: whatever scopes a thread opens around one another, whatever other values it attaches,
    and in whatever order (or how often) it destroys them, no access leaves the stack's array or the
    context's nodes, and the current span is the one of the innermost open scope that set one, the invalid span
    if there is none; destroying a scope closes the scopes inside it with it, and destroying a closed one does nothing. *)
Theorem active_span_spec ops :
  script_ok 0 ops = true →
  ∃ t, run_scopes ops Thread_new = Some t ∧
    GetCurrentSpan (S (length ops)) (th_heap t) (th_stack t) = Some (GetSpan (current (foldl spec_scope (MkScopes [] 0) ops))).
Proof.
  intros Hok. destruct (run_scopes_rel ops Thread_new (MkScopes [] 0) scopes_rel_new Hok) as (t & E & Hr). exists t. split; [done|].
  destruct (current_rel _ _ Hr) as (c & Hc & Hl & Hlen). unfold GetCurrentSpan, rc_GetValue. rewrite Hc. cbn [mbind option_bind].
  erewrite h_GetValue_spec; [done|exact Hl|].
  assert (Hm : ∀ ops s, made (foldl spec_scope s ops) ≤ made s + length ops).
  { clear. intros ops. induction ops as [|o ops IH]; intros s; cbn [foldl length]; [lia|]. specialize (IH (spec_scope s o)).
    destruct o; cbn in *; lia. }
  specialize (Hm ops (MkScopes [] 0)). cbn in Hm. lia.
Qed.

Definition example_span (n : nat) : Span := OtherSpan n GetInvalid.

(** The outer scope is destroyed while the inner one is open, the inner one after it. *)
Definition example_scopes : list scope_op :=
  [Enter (example_span 1); Put (B "baggage") CVmonostate; Enter (example_span 2); Leave 0; Enter (example_span 3); Leave 2].

Lemma active_span_spec_witness :
  GetSpan (current (foldl spec_scope (MkScopes [] 0) example_scopes)) = example_span 3 ∧
  ∃ t, run_scopes example_scopes Thread_new = Some t ∧
    GetCurrentSpan 7 (th_heap t) (th_stack t) = Some (GetSpan (current (foldl spec_scope (MkScopes [] 0) example_scopes))).
Proof. split; [by vm_compute|]. apply (active_span_spec example_scopes). by vm_compute. Defined.

(** Opening a scope, doing anything well nested, and destroying it brings the span before it back. *)
Lemma scope_restores span ops s :
  (∀ o, o ∈ ops → match o with Leave i => made s < i | _ => True end) → Forall (λ jc, jc.1 < made s) (open_scopes s) →
  open_scopes (foldl spec_scope s (Enter span :: ops ++ [Leave (made s)])) = open_scopes s.
Proof.
  intros Hops Hs. cbn [foldl]. rewrite foldl_snoc. set (s1 := spec_scope s (Enter span)).
  assert (H : ∀ ops s', (∀ o, o ∈ ops → match o with Leave i => made s < i | _ => True end) →
    (∃ l, open_scopes s' = l ++ open_scopes s1 ∧ Forall (λ jc, jc.1 > made s) l) → made s < made s' →
    ∃ l, open_scopes (foldl spec_scope s' ops) = l ++ open_scopes s1 ∧ Forall (λ jc, jc.1 > made s) l).
  { clear Hops. intros ops'. induction ops' as [|o ops' IH]; intros s' Ho (l & E & Hl) Hm; [by exists l|]. cbn [foldl].
    apply IH; [intros o' H; apply Ho; by right| |].
    - specialize (Ho o ltac:(by left)). destruct o as [sp|k v|i]; cbn [spec_scope open_scopes].
      + exists ((made s', SetSpan (current s') sp) :: l). rewrite E. split; [done|]. by constructor.
      + exists ((made s', ctx_SetValue (current s') k v) :: l). rewrite E. split; [done|]. by constructor.
      + rewrite E. clear E. induction Hl as [|[j c] l Hj Hl IHl]; cbn [app close].
        * exists []. split; [|done]. cbn. rewrite decide_False by lia. cbn in Ho.
          assert (Hc : close i (open_scopes s) = None).
          { clear -Hs Ho. induction Hs as [|[j c] l Hj Hl IH]; cbn; [done|]. cbn in Hj. rewrite decide_False by lia. exact IH. }
          by rewrite Hc.
        * destruct (decide (i = j)); [by exists l|]. cbn in *.
          destruct (close i (l ++ _)) as [l2|]; cbn in *; [exact IHl|]. exists ((j, c) :: l). split; [done|]. by constructor.
    - destruct o; cbn; lia. }
  destruct (H ops s1 Hops) as (l & E & Hl); [by exists []|cbn; lia|]. cbn [spec_scope open_scopes]. rewrite E. clear -Hl.
  assert (Hcl : close (made s) (l ++ open_scopes s1) = Some (open_scopes s)); [|by rewrite Hcl].
  induction Hl as [|[j c] l Hj Hl IH]; cbn [app close]; cbn in *; [by rewrite decide_True|].
  rewrite decide_False by lia. exact IH.
Qed.
