(* ===== verification/Dice.v ===== *)
(** * The dice server

    roll-dice/main.cpp: the request handlers and the route table.  The web framework, which
    parses the request and finds the handler, is not under src/: a request is its query
    parameters.  [rand] is the C library's generator, a parameter with its state. *)
From S2P Require Export Cxx.

(** A request, as the handlers use it. *)
Record IncomingRequest := MkIncomingRequest { getQueryParameter : bytes → option bytes }.

(** A response, and for how many seconds the handler slept before it. *)
Record OutgoingResponse := MkOutgoingResponse {
  status : Z;
  body : bytes;
  slept : Z;
}.

(** [ResponseFactory::createResponse] with a C string. *)
Definition createResponse (st : Z) (text : bytes) : OutgoingResponse := MkOutgoingResponse st (cstr text) 0.

Definition sleep_for (seconds : Z) (r : OutgoingResponse) : OutgoingResponse :=
  MkOutgoingResponse (status r) (body r) (slept r + seconds).

(** The double quote of the JSON texts. *)
Definition Q : bytes := ["034"%char].

Definition help : bytes :=
  concat [B "{"; Q; B "service"; Q; B ":"; Q; B "dice-server"; Q; B ","; Q; B "endpoints"; Q; B ":{";
    Q; B "GET /rolldice"; Q; B ":"; Q; B "roll 1-6"; Q; B ",";
    Q; B "GET /rolldice?sides=N"; Q; B ":"; Q; B "roll 1..N"; Q; B ",";
    Q; B "GET /rolldice/slow?delay=2"; Q; B ":"; Q; B "sleep then roll"; Q; B ",";
    Q; B "GET /rolldice/error"; Q; B ":"; Q; B "returns 500"; Q; B ",";
    Q; B "GET /rolldice/big?sides=100"; Q; B ":"; Q; B "large JSON"; Q; B ",";
    Q; B "POST /rolldice"; Q; B ":"; Q; B "body optional {\"; Q; B "sides\"; Q; B ":6}"; Q; B "}}"].

(** A parameter that is present, not empty, and a number of the range replaces the default;
    the exceptions of [std::stoi] are swallowed. *)
Definition int_parameter (p : option bytes) (lo hi dflt : Z) : Z :=
  match p with
  | Some s =>
      if 0 <? length s then
        match stoi (cstr s) with
        | Some n => if (lo <=? n)%Z && (n <=? hi)%Z then n else dflt
        | None => dflt
        end
      else dflt
  | None => dflt
  end.

Section handlers.
Context {Gen : Type} (rand : Gen → Z * Gen).

(** [(rand() % sides) + 1], with C's remainder. *)
Definition roll (sides : Z) (g : Gen) : Z * Gen := let '(r, g) := rand g in ((Z.rem r sides + 1)%Z, g).

Definition RootHandler (_ : IncomingRequest) (g : Gen) : OutgoingResponse * Gen :=
  (createResponse 200 help, g).

Definition RolldiceHandler (request : IncomingRequest) (g : Gen) : OutgoingResponse * Gen :=
  let sides := int_parameter (getQueryParameter request (B "sides")) 1 1000 6 in
  let '(r, g) := roll sides g in
  (createResponse 200 (to_string r), g).

Definition RolldiceSlowHandler (request : IncomingRequest) (g : Gen) : OutgoingResponse * Gen :=
  let sides := int_parameter (getQueryParameter request (B "sides")) 1 1000 6 in
  let delaySec := int_parameter (getQueryParameter request (B "delay")) 0 60 1 in
  let '(r, g) := roll sides g in
  let text := concat [B "{"; Q; B "roll"; Q; B ":"; Q; to_string r; Q; B ","; Q; B "sides"; Q; B ":"; Q; to_string sides;
                      Q; B ","; Q; B "delay_sec"; Q; B ":"; Q; to_string delaySec; Q; B "}"] in
  (sleep_for delaySec (createResponse 200 text), g).

Definition RolldiceErrorHandler (_ : IncomingRequest) (g : Gen) : OutgoingResponse * Gen :=
  (createResponse 500 (concat [B "{"; Q; B "error"; Q; B ":"; Q; B "dice exploded"; Q; B "}"]), g).

(** [for (int i = 0; i < 200; ++i)]: [n] iterations are left, [oss] is the stream so far. *)
Fixpoint history_loop (n : nat) (i : Z) (sides : Z) (oss : bytes) (g : Gen) : bytes * Gen :=
  match n with
  | O => (oss, g)
  | S n =>
      let oss := if (i =? 0)%Z then oss else oss ++ B "," in
      let '(r, g) := roll sides g in
      history_loop n (i + 1) sides (oss ++ to_string r) g
  end.

Definition RolldiceBigHandler (request : IncomingRequest) (g : Gen) : OutgoingResponse * Gen :=
  let sides := int_parameter (getQueryParameter request (B "sides")) 1 500 100 in
  let '(r, g) := roll sides g in
  let oss := concat [B "{"; Q; B "roll"; Q; B ":"; to_string r; B ","; Q; B "sides"; Q; B ":"; to_string sides;
                     B ","; Q; B "history"; Q; B ":["] in
  let '(oss, g) := history_loop 200 0 sides oss g in
  (createResponse 200 (oss ++ B "]}"), g).

Definition RolldicePostHandler (_ : IncomingRequest) (g : Gen) : OutgoingResponse * Gen :=
  let sides := 6%Z in
  let '(r, g) := roll sides g in
  let text := concat [B "{"; Q; B "roll"; Q; B ":"; Q; to_string r; Q; B ","; Q; B "sides"; Q; B ":"; Q; to_string sides;
                      Q; B "}"] in
  (createResponse 200 text, g).

(** The routes, in the order they are registered. *)
Definition routes : list (bytes * bytes * (IncomingRequest → Gen → OutgoingResponse * Gen)) :=
  [(B "GET", B "/", RootHandler);
   (B "GET", B "/rolldice", RolldiceHandler);
   (B "GET", B "/rolldice/", RolldiceHandler);
   (B "GET", B "/rolldice/slow", RolldiceSlowHandler);
   (B "GET", B "/rolldice/error", RolldiceErrorHandler);
   (B "GET", B "/rolldice/big", RolldiceBigHandler);
   (B "POST", B "/rolldice", RolldicePostHandler);
   (B "POST", B "/rolldice/", RolldicePostHandler)].

(** ** The rolls

    [rand] answers a number between 0 and [RAND_MAX], which is [INT_MAX]. *)
Context (rand_range : ∀ g, (0 ≤ (rand g).1 ≤ INT_MAX)%Z).

Lemma roll_range sides g : (1 ≤ sides)%Z → (1 ≤ (roll sides g).1 ≤ sides)%Z.
Proof using rand_range.
  intros Hs. unfold roll. pose proof (rand_range g). destruct (rand g) as [r g']. cbn [fst] in *.
  pose proof (Z.rem_bound_pos r sides). lia.
Qed.

(** [n] rolls in a row. *)
Fixpoint rolls (n : nat) (sides : Z) (g : Gen) : list Z * Gen :=
  match n with
  | O => ([], g)
  | S n => let '(r, g) := roll sides g in let '(l, g) := rolls n sides g in (r :: l, g)
  end.

Lemma rolls_range n sides g :
  (1 ≤ sides)%Z → length (rolls n sides g).1 = n ∧ Forall (λ r, 1 ≤ r ≤ sides)%Z (rolls n sides g).1.
Proof using rand_range.
  intros Hs. revert g. induction n as [|n IH]; intros g; cbn [rolls]; [done|].
  pose proof (roll_range sides g Hs). destruct (roll sides g) as [r g1]. specialize (IH g1).
  destruct (rolls n sides g1) as [l g2]. cbn [fst length] in *. destruct IH as [-> IH]. split; [done|by constructor].
Qed.
End handlers.

Lemma int_parameter_range p lo hi dflt : (lo ≤ dflt ≤ hi)%Z → (lo ≤ int_parameter p lo hi dflt ≤ hi)%Z.
Proof.
  intros Hd. unfold int_parameter. destruct p as [s|]; [|done]. case_match; [|done].
  destruct (stoi (cstr s)) as [n|]; [|done]. case_match; bprop; lia.
Qed.

Lemma int_parameter_decimal n lo hi dflt :
  (0 ≤ n ≤ INT_MAX)%Z → int_parameter (Some (to_string n)) lo hi dflt =
    (if (lo <=? n)%Z && (n <=? hi)%Z then n else dflt).
Proof.
  intros Hn. unfold int_parameter. rewrite cstr_id by (apply to_string_no_nul; lia).
  rewrite stoi_to_string by done. destruct (to_string_nonneg n) as (_ & _ & Hne); [lia|].
  destruct (to_string n) eqn:E; [done|]. cbn [length]. done.
Qed.

Lemma concat_no_nul l : Forall no_nul l → no_nul (concat l).
Proof. induction 1; simpl; [by constructor|]. by apply list.Forall_app. Qed.

#[export] Hint Resolve to_string_no_nul no_nulb_spec concat_no_nul : otel.

Ltac no_nul_list :=
  apply concat_no_nul;
  repeat (apply list.Forall_cons; split;
          [first [apply to_string_no_nul; lia | apply no_nulb_spec; vm_compute; reflexivity]|]);
  apply list.Forall_nil; exact I.

(** ** What a number asked for in the query gives *)

(** [sides] as the documentation of the route says: the number when it is in range, else the
    default; and any text that is not a number, or one too big for an [int], counts as absent. *)
Lemma int_parameter_absent s lo hi dflt :
  stoi (cstr s) = None → int_parameter (Some s) lo hi dflt = dflt.
Proof. intros H. unfold int_parameter. rewrite H. by case_match. Qed.

(** ** The plain roll *)

Section responses.
Context {Gen : Type} (rand : Gen → Z * Gen).
Context (rand_range : ∀ g, (0 ≤ (rand g).1 ≤ INT_MAX)%Z).

Lemma roll_decimal sides g :
  (1 ≤ sides ≤ 1000)%Z →
  ∃ r g', roll rand sides g = (r, g') ∧ (1 ≤ r ≤ sides)%Z ∧ stoi (to_string r) = Some r ∧ cstr (to_string r) = to_string r.
Proof using rand_range.
  intros Hs. pose proof (roll_range rand rand_range sides g) as Hr. destruct (roll rand sides g) as [r g'].
  exists r, g'. cbn [fst] in Hr. split_and!; [done|lia|lia| |].
  - apply stoi_to_string. unfold INT_MAX. lia.
  - apply cstr_id, to_string_no_nul. lia.
Qed.

(** A roll is a decimal number from 1 to the sides asked for; asking for [n] sides gives [n]
    when it is from 1 to 1000, and six otherwise, whatever text is asked for. *)
Theorem rolldice_range request g :
  ∃ r sides, status (RolldiceHandler rand request g).1 = 200%Z ∧
    stoi (body (RolldiceHandler rand request g).1) = Some r ∧ (1 ≤ r ≤ sides)%Z ∧ (1 ≤ sides ≤ 1000)%Z ∧
    (∀ n, (0 ≤ n ≤ INT_MAX)%Z → getQueryParameter request (B "sides") = Some (to_string n) →
       sides = (if (1 <=? n)%Z && (n <=? 1000)%Z then n else 6)%Z) ∧
    (match getQueryParameter request (B "sides") with
     | None => True
     | Some s => stoi (cstr s) = None
     end → sides = 6%Z).
Proof using rand_range.
  unfold RolldiceHandler. set (p := getQueryParameter request (B "sides")).
  pose proof (int_parameter_range p 1 1000 6 ltac:(lia)) as Hs.
  destruct (roll_decimal (int_parameter p 1 1000 6) g Hs) as (r & g' & -> & Hr & Hd & Hc).
  exists r, (int_parameter p 1 1000 6). cbn [fst status body createResponse]. rewrite Hc.
  split_and!; [done|done|lia|lia|lia|lia| |].
  - intros n Hn ->. by apply int_parameter_decimal.
  - destruct p as [s|]; [apply int_parameter_absent|done].
Qed.

(** ** The large response *)

(** [s1,s2,...] as the loop writes it. *)
Fixpoint comma_separated (l : list bytes) : bytes :=
  match l with
  | [] => []
  | [s] => s
  | s :: l => s ++ B "," ++ comma_separated l
  end.

Lemma comma_separated_cons s l : l ≠ [] → comma_separated (s :: l) = s ++ B "," ++ comma_separated l.
Proof. by destruct l. Qed.

Lemma history_loop_spec n i sides oss g :
  (0 ≤ i)%Z → 1 ≤ n →
  history_loop rand n i sides oss g =
    ((if (i =? 0)%Z then oss else oss ++ B ",") ++ comma_separated (to_string <$> (rolls rand n sides g).1),
     (rolls rand n sides g).2).
Proof.
  revert i oss g. induction n as [|n IH]; intros i oss g Hi Hn; [lia|]. cbn [history_loop rolls].
  destruct (roll rand sides g) as [r g1]. destruct n as [|n].
  - cbn [history_loop rolls fst snd]. done.
  - rewrite IH by lia. rewrite (proj2 (Z.eqb_neq (i + 1) 0)) by lia.
    destruct (rolls rand (S n) sides g1) as [l g2] eqn:E. cbn [fst snd]. f_equal.
    rewrite fmap_cons, comma_separated_cons.
    + by rewrite !(assoc_L (++)).
    + cbn [rolls] in E. destruct (roll rand sides g1) as [r' g'], (rolls rand n sides g') as [l' g'']. by simplify_eq.
Qed.

(** The large answer: the roll, the sides, and a history of exactly two hundred further rolls,
    all in range; it is not cut short by the C string it passes through. *)
Theorem rolldice_big_history request g :
  ∃ r sides history,
    (RolldiceBigHandler rand request g).1 = MkOutgoingResponse 200
      (concat [B "{"; Q; B "roll"; Q; B ":"; to_string r; B ","; Q; B "sides"; Q; B ":"; to_string sides;
               B ","; Q; B "history"; Q; B ":["] ++ comma_separated (to_string <$> history) ++ B "]}") 0 ∧
    (1 ≤ sides ≤ 500)%Z ∧ (1 ≤ r ≤ sides)%Z ∧ length history = 200 ∧ Forall (λ x, 1 ≤ x ≤ sides)%Z history.
Proof using rand_range.
  unfold RolldiceBigHandler. set (p := getQueryParameter request (B "sides")).
  pose proof (int_parameter_range p 1 500 100 ltac:(lia)) as Hs. set (sides := int_parameter p 1 500 100) in *.
  pose proof (roll_range rand rand_range sides g) as Hr. destruct (roll rand sides g) as [r g1]. cbn [fst] in Hr.
  rewrite history_loop_spec by lia. change (0 =? 0)%Z with true. cbn iota.
  destruct (rolls_range rand rand_range 200 sides g1) as [Hl Hf]; [lia|].
  exists r, sides, (rolls rand 200 sides g1).1. cbn [fst]. split_and!; [|lia|lia|lia|lia|done|done].
  unfold createResponse. rewrite <-(assoc_L (++)). rewrite cstr_id; [done|].
  apply list.Forall_app. split; [no_nul_list|]. apply list.Forall_app. split; [|by apply no_nulb_spec; vm_compute].
  clear Hl. induction Hf as [|x l Hx Hf IH]; [by constructor|].
  destruct l as [|y l]; [apply to_string_no_nul; lia|]. rewrite fmap_cons, comma_separated_cons by done.
  apply list.Forall_app. split; [apply to_string_no_nul; lia|]. apply list.Forall_app. split; [by apply no_nulb_spec|done].
Qed.

(** ** Every route *)

(** Whatever the route and the request: only the error route answers 500, only the slow route
    sleeps, and never more than a minute. *)
Theorem routes_spec method path h request g :
  (method, path, h) ∈ routes rand →
  status (h request g).1 = (if beq path (B "/rolldice/error") then 500 else 200)%Z ∧
  (0 ≤ slept (h request g).1 ≤ (if beq path (B "/rolldice/slow") then 60 else 0))%Z ∧
  no_nul (body (h request g).1).
Proof.
  intros H. unfold routes in H. rewrite !elem_of_cons, elem_of_nil in H.
  pose proof (int_parameter_range (getQueryParameter request (B "delay")) 0 60 1 ltac:(lia)) as Hd.
  destruct_or!; simplify_eq;
    unfold RootHandler, RolldiceErrorHandler, RolldiceHandler, RolldiceSlowHandler, RolldiceBigHandler, RolldicePostHandler;
    try destruct (roll rand _ g) as [r g1]; try destruct (history_loop _ _ _ _ _ _) as [o g2];
    cbn [fst status slept body createResponse sleep_for];
    repeat match goal with |- context [beq (B ?a) (B ?b)] =>
      let v := eval vm_compute in (beq (B a) (B b)) in change (beq (B a) (B b)) with v end;
    (split_and!; [done|lia|lia|apply cstr_no_nul]).
Qed.
End responses.

(** ** A generator to run the handlers with *)

(** The linear congruential generator of the C standard's example. *)
Definition lcg (g : Z) : Z * Z :=
  let g := ((g * 1103515245 + 12345) mod 2 ^ 31)%Z in ((g / 65536) mod 32768, g)%Z.

Lemma lcg_range g : (0 ≤ (lcg g).1 ≤ INT_MAX)%Z.
Proof.
  unfold lcg, INT_MAX. cbn [fst]. pose proof (Z.mod_pos_bound ((g * 1103515245 + 12345) mod 2 ^ 31 / 65536) 32768).
  lia.
Qed.

Lemma rolldice_range_witness :
  (∀ g, (0 ≤ (lcg g).1 ≤ INT_MAX)%Z) ∧
  ∃ r sides, stoi (body (RolldiceHandler lcg (MkIncomingRequest (λ _, Some (B "20"))) 1%Z).1) = Some r ∧
    (1 ≤ r ≤ sides)%Z ∧ sides = 20%Z.
Proof.
  split; [exact lcg_range|].
  destruct (rolldice_range lcg lcg_range (MkIncomingRequest (λ _, Some (B "20"))) 1%Z) as (r & sides & _ & Hb & Hr & _ & H & _).
  exists r, sides. split; [exact Hb|]. split; [exact Hr|]. apply (H 20%Z); [unfold INT_MAX; lia|reflexivity].
Defined.

Lemma rolldice_big_history_witness :
  (∀ g, (0 ≤ (lcg g).1 ≤ INT_MAX)%Z) ∧
  ∃ history, length history = 200 ∧ Forall (λ x, 1 ≤ x ≤ 500)%Z history.
Proof.
  split; [exact lcg_range|].
  destruct (rolldice_big_history lcg lcg_range (MkIncomingRequest (λ _, None)) 1%Z) as (r & sides & l & _ & Hs & _ & Hl & Hf).
  exists l. split; [exact Hl|]. eapply list.Forall_impl; [exact Hf|]. simpl. lia.
Defined.

Lemma routes_spec_witness :
  (B "GET", B "/rolldice/error", RolldiceErrorHandler) ∈ routes lcg ∧
  status (RolldiceErrorHandler (MkIncomingRequest (λ _, None)) 1%Z).1 = 500%Z.
Proof.
  assert (H : (B "GET", B "/rolldice/error", RolldiceErrorHandler) ∈ routes lcg).
  { unfold routes. do 4 apply list_elem_of_further. apply list_elem_of_here. }
  split; [exact H|]. exact (proj1 (routes_spec lcg _ _ _ (MkIncomingRequest (λ _, None)) 1%Z H)).
Defined.
