(* ===== verification/Ads.v ===== *)
(** * The ADS demo: server, clients and their small preload

    ads_server.cpp (and its copy under docker/), ads_client.cpp, docker/src/ads_client and
    libotel_preload.cpp.  The programs are the sequences of calls they make on the kernel,
    whose answers are arguments. *)
From S2P Require Export PreloadSpans.

(** ** What the programs do to the outside *)

Inductive event :=
  | EPrint (text : bytes)
  | EError (text : bytes)
  | ESend (fd : Z) (data : bytes)
  | EClose (fd : Z).

(** [char buffer[1024] = {0};] after a read that stored [data]. *)
Definition buffer_size : nat := 1024.
Definition buffer_after (data : bytes) : bytes := data ++ drop (length data) (replicate buffer_size NUL).

(** ** ads_server.cpp *)

(** The rest of [handle_client] once [read] answered [bytes] and stored [data]. *)
Definition respond (client_socket : Z) (nbytes : Z) (data : bytes) : list event :=
  if (0 <? nbytes)%Z then
    let request := take (Z.to_nat nbytes) (buffer_after data) in
    [EPrint (B "Received: " ++ request);
     ESend client_socket (B "Hello from ADS! You sent: " ++ request)]
  else [].

Definition handle_client (client_socket : Z) (nbytes : Z) (data : bytes) : list event :=
  respond client_socket nbytes data ++ [EClose client_socket].

(** The accept loop hands every descriptor to a thread of its own; the calls of the threads
    interleave.  A thread has the calls it has still to make. *)
Inductive thread := Reading (fd : Z) | Doing (es : list event).

Record Server := MkServer {
  threads : list thread;
  trace : list (nat * event);
}.

Definition Server_init : Server := MkServer [] [].

Inductive server_step : Server → Server → Prop :=
  | step_accept fd ts tr :
      server_step (MkServer ts tr) (MkServer (ts ++ [Reading fd]) tr)
  | step_read i fd nbytes data ts tr :
      ts !! i = Some (Reading fd) → (nbytes ≤ Z.of_nat buffer_size)%Z →
      length data = Z.to_nat nbytes →
      server_step (MkServer ts tr) (MkServer (<[i := Doing (handle_client fd nbytes data)]> ts) tr)
  | step_do i e es ts tr :
      ts !! i = Some (Doing (e :: es)) →
      server_step (MkServer ts tr) (MkServer (<[i := Doing es]> ts) (tr ++ [(i, e)])).

(** The calls one thread made. *)
Definition of_thread (i : nat) (tr : list (nat * event)) : list event :=
  omap (λ '(j, e), if decide (i = j) then Some e else None) tr.

(** What a thread did and has to do is what the sequential handler does for some answer. *)
Definition thread_ok (tr : list (nat * event)) (i : nat) (t : thread) : Prop :=
  match t with
  | Reading _ => of_thread i tr = []
  | Doing es => ∃ fd nbytes data, length data = Z.to_nat nbytes ∧ (nbytes ≤ Z.of_nat buffer_size)%Z ∧
                  of_thread i tr ++ es = handle_client fd nbytes data
  end.

Definition server_inv (s : Server) : Prop :=
  (∀ i t, threads s !! i = Some t → thread_ok (trace s) i t) ∧
  (∀ i e, (i, e) ∈ trace s → i < length (threads s)).

Lemma of_thread_app i a b : of_thread i (a ++ b) = of_thread i a ++ of_thread i b.
Proof. apply omap_app. Qed.

Lemma of_thread_fresh i tr : (∀ j e, (j, e) ∈ tr → j < i) → of_thread i tr = [].
Proof.
  induction tr as [|[j e] tr IH]; intros H; [done|]. unfold of_thread. rewrite omap_cons_eq.
  pose proof (H j e ltac:(left)). rewrite decide_False by lia. apply IH. intros j' e' Hin. apply (H j' e'). by right.
Qed.

Lemma server_step_inv s s' : server_inv s → server_step s s' → server_inv s'.
Proof.
  intros [Ht Hl] Hs. destruct Hs as [fd ts tr|i fd nbytes data ts tr Hi Hn Hd|i e es ts tr Hi];
    cbn [threads trace] in *; split; cbn [threads trace].
  - intros i t [Hi|[Hlen [Hz <-]%list_lookup_singleton_Some]]%lookup_app_Some; [by apply Ht|].
    cbn [thread_ok]. apply of_thread_fresh. intros j e Hin. specialize (Hl j e Hin). lia.
  - intros i e Hin. rewrite length_app. specialize (Hl i e Hin). lia.
  - intros j t [(<- & <- & _)|[Hne Hj]]%list_lookup_insert_Some; [|by apply Ht].
    specialize (Ht _ _ Hi). cbn [thread_ok] in *. exists fd, nbytes, data. rewrite Ht. by split_and!.
  - intros j e Hin. rewrite length_insert. by apply (Hl j e).
  - intros j t [(<- & <- & _)|[Hne Hj]]%list_lookup_insert_Some.
    + specialize (Ht _ _ Hi). cbn [thread_ok] in *. rewrite of_thread_app.
      replace (of_thread i [(i, e)]) with [e] by (unfold of_thread; rewrite omap_cons_eq; by rewrite decide_True).
      rewrite <-(assoc_L (++)). exact Ht.
    + specialize (Ht _ _ Hj). assert (E : of_thread j (tr ++ [(i, e)]) = of_thread j tr).
      { rewrite of_thread_app. unfold of_thread at 2. rewrite omap_cons_eq, decide_False by done. apply app_nil_r. }
      destruct t; cbn [thread_ok] in *; by rewrite E.
  - intros j e' [Hin|Hin]%elem_of_app; rewrite length_insert; [by apply (Hl j e')|].
    apply list_elem_of_singleton in Hin. simplify_eq. by eapply lookup_lt_Some.
Qed.

(** Every client is served as if it were alone: whatever the interleaving, a thread that has
    finished made the calls of the sequential handler on the bytes it read, in order, the last
    of them closing the socket, and answered on its own socket only, with the bytes it read. *)
Theorem server_serves_each s i :
  rtc server_step Server_init s → threads s !! i = Some (Doing []) →
  ∃ fd data, length data ≤ buffer_size ∧
    of_thread i (trace s) =
      (if decide (data = []) then []
       else [EPrint (B "Received: " ++ data); ESend fd (B "Hello from ADS! You sent: " ++ data)]) ++ [EClose fd].
Proof.
  intros Hr Hi. assert (Hinv : server_inv s).
  { assert (H0 : server_inv Server_init) by (split; [done|by intros i' e H%elem_of_nil]).
    revert H0. clear Hi. induction Hr as [|s1 s2 s3 Hs _ IH]; [done|]. intros H0. apply IH. by eapply server_step_inv. }
  destruct Hinv as [Ht _]. destruct (Ht i _ Hi) as (fd & nbytes & data & Hd & Hn & E).
  rewrite app_nil_r in E. exists fd, data. unfold buffer_size in *. split; [lia|]. rewrite E.
  unfold handle_client, respond. f_equal. unfold buffer_after. case_decide as Hnil.
  - subst. simpl in Hd. destruct (0 <? nbytes)%Z eqn:Hz; [|done]. bprop. lia.
  - destruct (0 <? nbytes)%Z eqn:Hz; bprop.
    + by rewrite take_app_length' by done.
    + destruct data; [done|]. simpl in Hd. lia.
Qed.

Lemma server_serves_each_witness :
  ∃ s, rtc server_step Server_init s ∧ threads s !! 1 = Some (Doing []) ∧
    ∃ fd data, length data ≤ buffer_size ∧
      of_thread 1 (trace s) =
        (if decide (data = []) then []
         else [EPrint (B "Received: " ++ data); ESend fd (B "Hello from ADS! You sent: " ++ data)]) ++ [EClose fd].
Proof.
  set (b := handle_client 8 2 (B "hi")).
  set (s := MkServer [Reading 7%Z; Doing []] ((λ e, (1, e)) <$> b)).
  assert (Hr : rtc server_step Server_init s).
  { eapply rtc_l; [apply (step_accept 7)|]. eapply rtc_l; [apply (step_accept 8)|].
    eapply rtc_l; [apply (step_read 1 8 2 (B "hi")); [reflexivity|unfold buffer_size; lia|reflexivity]|].
    eapply rtc_l; [eapply (step_do 1); reflexivity|]. eapply rtc_l; [eapply (step_do 1); reflexivity|].
    eapply rtc_l; [eapply (step_do 1); reflexivity|]. apply rtc_refl. }
  exists s. split; [exact Hr|]. split; [reflexivity|]. exact (server_serves_each s 1 Hr eq_refl).
Defined.

(** ** The clients *)

Definition client_msg : bytes := B "Hello ADS Server!".

(** Printing [buffer] reads to the first NUL; without one it leaves the array. *)
Definition print_buffer (b : bytes) : option bytes := if existsb (ceq NUL) b then Some (cstr b) else None.

(** ads_client.cpp: no answer is checked. *)
Definition client_main (sock : Z) (data : bytes) : option (list event * Z) :=
  text ← print_buffer (buffer_after data);
  Some ([ESend sock client_msg; EPrint (B "Server responded: " ++ text); EClose sock], 0%Z).

(** docker/src/ads_client: the socket, the name resolution and the connection are checked. *)
Definition docker_client_main (sock : Z) (resolved : bool) (connected : Z) (data : bytes) : option (list event * Z) :=
  if (sock <? 0)%Z then Some ([EError (B "socket")], 1%Z)
  else if negb resolved then Some ([EError (B "Error: could not resolve host")], 1%Z)
  else if (connected <? 0)%Z then Some ([EError (B "connect")], 1%Z)
  else
    text ← print_buffer (buffer_after data);
    Some ([ESend sock client_msg; EPrint (B "Server responded: " ++ text); EClose sock], 0%Z).

Lemma print_buffer_spec data :
  no_nul data → length data < buffer_size → print_buffer (buffer_after data) = Some data.
Proof.
  intros Hn Hl. unfold print_buffer, buffer_after. rewrite drop_replicate.
  destruct (buffer_size - length data) as [|k] eqn:E; [lia|]. cbn [replicate].
  replace (existsb (ceq NUL) (data ++ NUL :: replicate k NUL)) with true.
  - f_equal. unfold cstr. rewrite take_while_stop by done. apply cstr_id, Hn.
  - symmetry. apply existsb_exists. exists NUL. split; [|done]. apply list_elem_of_In. set_solver.
Qed.

(** The server's answer to what it read, as sent. *)
Definition sent (es : list event) : bytes := concat (omap (λ e, match e with ESend _ d => Some d | _ => None end) es).

(** A client talks to a server: whatever part [a] of the message the server's one read returns,
    and whatever part [b] of the answer the client's one read returns, the client prints it,
    closes its socket and succeeds; nothing leaves the buffers. *)
Theorem ads_session a rest b rest' sock fd :
  client_msg = a ++ rest → a ≠ [] →
  sent (handle_client fd (Z.of_nat (length a)) a) = b ++ rest' →
  b ++ rest' = B "Hello from ADS! You sent: " ++ a ∧
  client_main sock b = Some ([ESend sock client_msg; EPrint (B "Server responded: " ++ b); EClose sock], 0%Z) ∧
  docker_client_main (Z.abs sock) true 0 b =
    Some ([ESend (Z.abs sock) client_msg; EPrint (B "Server responded: " ++ b); EClose (Z.abs sock)], 0%Z).
Proof.
  intros Ha Hne Hb.
  assert (Hs : sent (handle_client fd (Z.of_nat (length a)) a) = B "Hello from ADS! You sent: " ++ a).
  { unfold handle_client, respond. destruct a as [|c a]; [done|]. rewrite (proj2 (Z.ltb_lt _ _)) by (simpl; lia).
    unfold buffer_after. rewrite Nat2Z.id, take_app_length. unfold sent. cbn [app]. rewrite !omap_cons_eq.
    cbn [concat]. rewrite app_nil_r. done. }
  rewrite Hs in Hb. split; [done|].
  assert (Hlen : length (b ++ rest') + length rest = 43).
  { rewrite <-Hb, length_app. assert (Hm : length client_msg = length (a ++ rest)) by by rewrite Ha.
    rewrite length_app in Hm. change (length client_msg) with 17 in Hm.
    change (length (B "Hello from ADS! You sent: ")) with 26. lia. }
  assert (Hn : no_nul b).
  { assert (H : no_nul (b ++ rest')); [|by apply (proj1 (list.Forall_app _ _ _)) in H as [? ?]].
    rewrite <-Hb. apply list.Forall_app. split; [by apply no_nulb_spec; vm_compute|].
    assert (H : no_nul client_msg) by by apply no_nulb_spec; vm_compute. rewrite Ha in H. by apply (proj1 (list.Forall_app _ _ _)) in H as [? ?]. }
  rewrite length_app in Hlen.
  assert (Hp : print_buffer (buffer_after b) = Some b).
  { apply print_buffer_spec; [done|]. unfold buffer_size. lia. }
  unfold client_main, docker_client_main. rewrite Hp. split; [done|].
  by rewrite (proj2 (Z.ltb_ge _ _)) by lia.
Qed.

Lemma ads_session_witness :
  client_msg = B "Hello ADS" ++ B " Server!" ∧
  client_main 5 (B "Hello from") =
    Some ([ESend 5 client_msg; EPrint (B "Server responded: " ++ B "Hello from"); EClose 5], 0%Z).
Proof.
  split; [reflexivity|].
  exact (proj1 (proj2 (ads_session (B "Hello ADS") (B " Server!") (B "Hello from") (B " ADS! You sent: Hello ADS") 5 9
    eq_refl ltac:(discriminate) eq_refl))).
Defined.
