(* ===== verification/SimplePreload.v ===== *)
(** * The small preload of the ADS demo

    src/libotel_preload.cpp: hooks for [accept] and [read] that record one short span per
    successful call.  The tracing API and its log of calls are those of Preload. *)
From S2P Require Export PreloadSpans.

(** The globals, and the log of the calls on spans. *)
Record State := MkState {
  real_accept : bool;
  real_read : bool;
  tracer : bool;
  otel_initialized : bool;
  calls : list call;
  next_span : nat;
  messages : list bytes;
}.

Definition State_init : State := MkState false false false false [] 0 [].

(** [init_tracing_lazy]: the flag is set first, a failure is printed. *)
Definition init_tracing_lazy (env : Env) (s : State) : State :=
  if otel_initialized s then s
  else
    match create env with
    | CreateReturns =>
        MkState (real_accept s) (real_read s) true true (calls s) (next_span s)
          (messages s ++ [B "[OTEL PRELOAD] Tracing initialized (lazy)"])
    | _ =>
        MkState (real_accept s) (real_read s) (tracer s) true (calls s) (next_span s)
          (messages s ++ [B "[OTEL PRELOAD] Failed to initialize tracing: "])
    end.

(** [auto span = tracer->StartSpan(name); span->AddEvent(text); span->End();] and the end of
    the block, which releases the span. *)
Definition record_span (name text : bytes) (s : State) : State :=
  let span := next_span s in
  MkState (real_accept s) (real_read s) (tracer s) (otel_initialized s)
    (calls s ++ [CStartSpan span name StartSpanOptions_default; CAddEvent span text; CEnd span; CRelease span])
    (S span) (messages s).

(** A null function pointer crashes: [None]. *)
Definition accept (env : Env) (sockfd : Z) (s : State) : option (Z * State) :=
  let s := init_tracing_lazy env s in
  let s := MkState (real_accept s || dlsym env (B "accept")) (real_read s) (tracer s) (otel_initialized s)
             (calls s) (next_span s) (messages s) in
  if negb (real_accept s) then None
  else
    let client := os_accept env sockfd in
    if negb (client =? -1)%Z && tracer s
    then Some (client, record_span (B "accept_connection") (B "Accepted client socket: " ++ to_string client) s)
    else Some (client, s).

Definition read (env : Env) (fd : Z) (count : nat) (s : State) : option (Z * State) :=
  let s := init_tracing_lazy env s in
  let s := MkState (real_accept s) (real_read s || dlsym env (B "read")) (tracer s) (otel_initialized s)
             (calls s) (next_span s) (messages s) in
  if negb (real_read s) then None
  else
    let bytes := (os_read env fd count).1 in
    if (0 <? bytes)%Z && tracer s
    then Some (bytes, record_span (B "read_from_socket")
                        (B "Read " ++ to_string bytes ++ B " bytes from fd: " ++ to_string fd) s)
    else Some (bytes, s).

(** ** Runs of hooks *)

Inductive op := OpAccept (env : Env) (sockfd : Z) | OpRead (env : Env) (fd : Z) (count : nat).

(** The environment of a call, its answer without the hook, whether a span is due. *)
Definition op_env (o : op) : Env := match o with OpAccept env _ | OpRead env _ _ => env end.
Definition op_result (o : op) : Z :=
  match o with OpAccept env fd => os_accept env fd | OpRead env fd count => (os_read env fd count).1 end.
Definition op_due (o : op) : bool :=
  match o with OpAccept _ _ => negb (op_result o =? -1)%Z | OpRead _ _ _ => (0 <? op_result o)%Z end.
Definition op_run (o : op) (s : State) : option (Z * State) :=
  match o with OpAccept env fd => accept env fd s | OpRead env fd count => read env fd count s end.

Fixpoint run (ops : list op) (s : State) : option (list Z * State) :=
  match ops with
  | [] => Some ([], s)
  | o :: ops => '(r, s) ← op_run o s; '(rs, s) ← run ops s; Some (r :: rs, s)
  end.

Definition symbols (env : Env) : Prop := dlsym env (B "accept") = true ∧ dlsym env (B "read") = true.

(** No span is left open, and the tracer is there once the first initialisation made it. *)
Definition inv (s : State) : Prop := log_ok [] [] (next_span s) (calls s).

Lemma record_span_inv name text s : inv s → inv (record_span name text s).
Proof.
  unfold inv, record_span. cbn [calls next_span]. intros H.
  apply (log_start _ _ _ _ name StartSpanOptions_default) in H. rewrite <-?(assoc_L (++)) in H.
  apply (log_op _ _ _ _ (CAddEvent (next_span s) text) (next_span s)) in H; [|left|done..].
  apply log_end in H. apply log_release_ended in H. rewrite <-!(assoc_L (++)) in H. exact H.
Qed.

(** Whether the first call's initialisation succeeds decides for the whole run. *)
Definition enabled (s : State) (ops : list op) : bool :=
  if otel_initialized s then tracer s
  else match ops with
       | [] => tracer s
       | o :: _ => match create (op_env o) with CreateReturns => true | _ => tracer s end
       end.

Definition due_count (on : bool) (ops : list op) : nat := if on then length (filter (λ o, op_due o = true) ops) else 0.

(** The hook once its symbol is resolved. *)
Lemma op_run_eq o s :
  symbols (op_env o) →
  ∃ s1 name text, op_run o s =
    Some (op_result o, if op_due o && tracer s1 then record_span name text s1 else s1) ∧
    otel_initialized s1 = true ∧ tracer s1 = enabled s [o] ∧ next_span s1 = next_span s ∧ calls s1 = calls s.
Proof.
  intros [Ha Hr]. unfold enabled.
  destruct o as [env fd|env fd count]; cbn [op_env op_run op_due op_result] in *;
    [unfold accept|unfold read]; unfold init_tracing_lazy; rewrite ?Ha, ?Hr;
    destruct (otel_initialized s) eqn:Ei; try destruct (create env);
    cbn [real_accept real_read tracer otel_initialized calls next_span];
    rewrite ?orb_true_r; cbn [negb];
    match goal with
    | |- ∃ s1 _ _, (if _ then Some (_, record_span ?name ?text ?s2) else _) = _ ∧ _ =>
        exists s2, name, text; split_and!; [by destruct (_ && _)|done..]
    end.
Qed.

Lemma op_run_spec o s :
  symbols (op_env o) →
  ∃ s', op_run o s = Some (op_result o, s') ∧ otel_initialized s' = true ∧ tracer s' = enabled s [o] ∧
    next_span s' = due_count (enabled s [o]) [o] + next_span s ∧ (inv s → inv s').
Proof.
  intros (s1 & name & text & -> & Hi & Ht & Hn & Hc)%(op_run_eq o s). unfold due_count.
  assert (Hinv : inv s → inv s1) by (unfold inv; by rewrite Hn, Hc).
  eexists. split; [done|]. rewrite <-Ht, filter_cons, filter_nil, <-Hn. unfold record_span in *.
  destruct (op_due o), (tracer s1) eqn:Et; cbn [andb]; try rewrite decide_True by done;
    try rewrite decide_False by done; cbn [otel_initialized tracer next_span length]; split_and!; auto.
  intros H. by apply record_span_inv, Hinv.
Qed.

Lemma enabled_step s s' o ops :
  otel_initialized s' = true → tracer s' = enabled s [o] → enabled s' ops = enabled s (o :: ops).
Proof. unfold enabled. intros -> ->. done. Qed.

(** Whatever the hooks are called with, the program gets the answers of the real calls, and
    every span is over when its hook returns: started, ended and released once, one for each
    connection accepted and each read that returned data, or none at all when the first call
    could not set the tracer up. *)
Theorem small_preload_run ops :
  Forall (λ o, symbols (op_env o)) ops →
  ∃ s, run ops State_init = Some (op_result <$> ops, s) ∧
    next_span s = due_count (enabled State_init ops) ops ∧
    ∀ id, phase_of (calls s) id = if decide (id < next_span s) then Released else Unborn.
Proof.
  intros Hops.
  enough (H : ∀ s, inv s → ∃ s', run ops s = Some (op_result <$> ops, s') ∧
    next_span s' = due_count (enabled s ops) ops + next_span s ∧ inv s').
  { destruct (H State_init log_empty) as (s & Hr & Hn & _ & _ & Hp). exists s. split_and!; [done| |].
    - by rewrite Hn, Nat.add_0_r.
    - intros id. rewrite Hp. unfold expected. by rewrite !(decide_False (P := id ∈ [])) by set_solver. }
  induction Hops as [|o ops Ho _ IH]; intros s Hinv; cbn [run].
  - exists s. unfold due_count. by destruct (enabled _ _).
  - destruct (op_run_spec o s Ho) as (s1 & -> & Hi & Ht & Hn & Hinv1). cbn [mbind option_bind].
    destruct (IH s1 (Hinv1 Hinv)) as (s2 & -> & Hn2 & Hinv2). cbn [mbind option_bind].
    exists s2. split_and!; [done| |done]. rewrite Hn2, Hn, (enabled_step s s1 o ops Hi Ht).
    unfold due_count, enabled in *. rewrite !filter_cons.
    destruct (otel_initialized s), (tracer s), (create (op_env o)); cbn [length filter list_filter]; try lia;
      case_decide; cbn [length]; lia.
Qed.

Lemma small_preload_run_witness :
  let env := MkEnv (λ _, None) CreateReturns (λ _, true) (λ _, 7%Z) (λ _ _, (3%Z, B "abc")) (λ _ _ count, Z.of_nat count)
               (λ _, 0%Z) in
  Forall (λ o, symbols (op_env o)) [OpAccept env 3; OpRead env 7 10] ∧
  ∃ s, run [OpAccept env 3; OpRead env 7 10] State_init = Some ([7%Z; 3%Z], s) ∧ next_span s = 2.
Proof.
  intros env. assert (H : Forall (λ o, symbols (op_env o)) [OpAccept env 3; OpRead env 7 10]).
  { constructor; [split; reflexivity|]. constructor; [split; reflexivity|constructor]. }
  split; [exact H|]. destruct (small_preload_run _ H) as (s & Hr & Hn & _). exists s. split; [exact Hr|exact Hn].
Defined.
