(* ===== verification/DockerPreload.v ===== *)
(** * The preload of the containerised ADS server

    docker/src/ads_server/libotel_preload.cpp: the initialisation, the service name, the
    sampler, the symbol table and the table of connections, which the file fills with stub
    functions that no hook calls.  The tracing SDK, the dynamic linker, the kernel and [atof]
    are arguments; a [double] is what [atof] answers. *)
From S2P Require Export Preload.

(** ** Environment helpers *)

(** [v && *v ? v : defv] *)
Definition getenv_str (env : Env) (k defv : bytes) : bytes :=
  match c_getenv env k with
  | Some (c :: v) => c :: v
  | _ => defv
  end.

(** [fgets(buf, sizeof(buf), f)]: at most [size - 1] characters, to the end of the line, which
    is kept; [None] at the end of the file. *)
Definition fgets (size : nat) (contents : bytes) : option bytes :=
  match contents with
  | [] => None
  | _ => let line := match index_of (ceq "010") contents with
                     | Some i => take (S i) contents
                     | None => contents
                     end in
         Some (take (size - 1) line)
  end.

Definition chop_newline (buf : bytes) : bytes :=
  let n := length buf in
  if (0 <? n) && ceq (nth (n - 1) buf NUL) "010" then take (n - 1) buf else buf.

(** [comm] is what [/proc/self/comm] holds, when it opens. *)
Definition get_service_name (env : Env) (comm : option bytes) : bytes :=
  match c_getenv env (B "OTEL_SERVICE_NAME") with
  | Some (c :: s) => c :: s
  | _ =>
      match comm with
      | Some contents =>
          match fgets 256 contents with
          | Some buf => chop_newline (cstr buf)
          | None => B "unknown-cpp-process"
          end
      | None => B "unknown-cpp-process"
      end
  end.

(** ** Addresses *)

(** [getnameinfo(sa, ...)] for a non-null [sa], as numeric strings, when it succeeds. *)
Definition addr_to_ip_port (nameinfo : option (bytes * bytes)) (ip_port : bytes * Z) : bytes * Z :=
  match nameinfo with
  | Some (host, serv) => (cstr host, atoi (cstr serv))
  | None => ip_port
  end.

(** [peer] is [getpeername] followed by [getnameinfo] on the address it stored. *)
Definition capture_peer_from_fd (peer : Z → option (option (bytes * bytes))) (fd : Z) (ip_port : bytes * Z) : bytes * Z :=
  match peer fd with
  | Some nameinfo => addr_to_ip_port nameinfo ip_port
  | None => ip_port
  end.

(** ** The globals *)

Record ConnSpan := MkConnSpan {
  cs_span : option nat;
  peer_ip : bytes;
  peer_port : Z;
  is_client : bool;
}.

Section docker.
(** [double]s: what [atof] answers, compared with zero and one. *)
Context {double : Type} (atof : bytes → double) (dlt : double → double → bool) (d0 d1 : double).

Inductive Sampler := AlwaysOnSampler | TraceIdRatioBasedSampler (ratio : double).

Record DockerState := MkDockerState {
  g_inited : bool;
  g_tracer : bool;
  dk_provider : option (bytes * Sampler);
  g_fd_spans : gmap Z ConnSpan;
  real_symbols : list (bytes * bool);
  stderr_writes : list bytes;
  dk_flushes : nat;
  dk_calls : list call;
}.

Definition DockerState_init : DockerState := MkDockerState false false None ∅ [] [] 0 [].

(** [resolve(name)] writes to the standard error when the symbol is missing: 31 characters of
    a text of 32. *)
Definition resolve_messages (env : Env) (name : bytes) : list bytes :=
  if dlsym env name then []
  else [take 31 (B "[otel-preload] dlsym failed for "); name; ["010"%char]].

Definition real_names : list bytes :=
  [B "accept"; B "read"; B "write"; B "recv"; B "send"; B "close"; B "connect"; B "pthread_create"].

(** [OTEL_TRACES_SAMPLER] *)
Definition choose_sampler (env : Env) : Sampler :=
  match c_getenv env (B "OTEL_TRACES_SAMPLER") with
  | Some smp =>
      if beq smp (B "ratio") then
        match c_getenv env (B "OTEL_TRACES_SAMPLER_ARG") with
        | Some arg =>
            let ratio := atof arg in
            let ratio := if dlt ratio d0 then d0 else ratio in
            let ratio := if dlt d1 ratio then d1 else ratio in
            TraceIdRatioBasedSampler ratio
        | None => TraceIdRatioBasedSampler d1
        end
      else AlwaysOnSampler
  | None => AlwaysOnSampler
  end.

Definition init_tracing_once (env : Env) (comm : option bytes) (s : DockerState) : DockerState :=
  if g_inited s then s
  else
    let provider := Some (get_service_name env comm, choose_sampler env) in
    let failed := take 32 (B "[otel-preload] OTEL init failed" ++ ["010"%char]) in
    match create env with
    | CreateThrows =>
        MkDockerState true (g_tracer s) (dk_provider s) (g_fd_spans s) (real_symbols s)
          (stderr_writes s ++ [failed]) (dk_flushes s) (dk_calls s)
    | GetTracerThrows =>
        MkDockerState true (g_tracer s) provider (g_fd_spans s) (real_symbols s)
          (stderr_writes s ++ [failed]) (dk_flushes s) (dk_calls s)
    | CreateReturns =>
        MkDockerState true true provider (g_fd_spans s) ((λ name, (name, dlsym env name)) <$> real_names)
          (stderr_writes s ++ concat (resolve_messages env <$> real_names)
             ++ [take 41 (B "[otel-preload] OpenTelemetry initialized" ++ ["010"%char])])
          (dk_flushes s) (dk_calls s)
    end.

(** [get_tracer]: the global provider always answers some tracer. *)
Definition get_tracer (s : DockerState) : DockerState :=
  if g_tracer s then s
  else MkDockerState (g_inited s) true (dk_provider s) (g_fd_spans s) (real_symbols s) (stderr_writes s)
         (dk_flushes s) (dk_calls s).

(** [shutdown_tracing]: flush and shut down when the global provider is the SDK's. *)
Definition shutdown_tracing (s : DockerState) : DockerState :=
  match dk_provider s with
  | Some _ => MkDockerState (g_inited s) (g_tracer s) (dk_provider s) (g_fd_spans s) (real_symbols s) (stderr_writes s)
                (S (dk_flushes s)) (dk_calls s)
  | None => s
  end.

Definition set_common_net_attrs (span : nat) (fd : Z) (op : bytes) (s : DockerState) : DockerState :=
  MkDockerState (g_inited s) (g_tracer s) (dk_provider s) (g_fd_spans s) (real_symbols s) (stderr_writes s) (dk_flushes s)
    (dk_calls s ++ [CSetAttribute span (B "syscall") (AVstring (cstr op));
                    CSetAttribute span (B "net.sock.fd") (AVint fd)]).

Definition with_fd_spans (s : DockerState) (m : gmap Z ConnSpan) : DockerState :=
  MkDockerState (g_inited s) (g_tracer s) (dk_provider s) m (real_symbols s) (stderr_writes s) (dk_flushes s) (dk_calls s).

Definition start_fd_span_if_needed (fd : Z) (is_client : bool) (ip : bytes) (port : Z) (s : DockerState) : DockerState :=
  with_fd_spans s (<[fd := MkConnSpan None ip port is_client]> (g_fd_spans s)).

Definition annotate_bytes (fd : Z) (direction : bytes) (n : Z) (s : DockerState) : DockerState := s.

Definition end_fd_span (fd : Z) (s : DockerState) : DockerState := with_fd_spans s (delete fd (g_fd_spans s)).

(** ** Properties *)

(** The ratio given to the sampler is between zero and one, whatever the variable holds,
    provided it is a number ([double]s compare as the hypotheses say; a NaN is none). *)
Lemma choose_sampler_spec env :
  dlt d1 d0 = false → dlt d0 d0 = false → dlt d1 d1 = false →
  match choose_sampler env with
  | AlwaysOnSampler => c_getenv env (B "OTEL_TRACES_SAMPLER") ≠ Some (B "ratio")
  | TraceIdRatioBasedSampler r => c_getenv env (B "OTEL_TRACES_SAMPLER") = Some (B "ratio") ∧
                                  dlt r d0 = false ∧ dlt d1 r = false
  end.
Proof.
  intros H10 H00 H11. unfold choose_sampler. destruct (c_getenv env (B "OTEL_TRACES_SAMPLER")) as [smp|]; [|done].
  destruct (beq smp (B "ratio")) eqn:E; bprop; [subst|congruence].
  destruct (c_getenv env (B "OTEL_TRACES_SAMPLER_ARG")) as [arg|]; [|done]. split; [done|].
  destruct (dlt (atof arg) d0) eqn:E0; [by rewrite H10|].
  destruct (dlt d1 (atof arg)) eqn:E1; [done|]. done.
Qed.

(** Initialising is done once: the first call sets the flag and says on the standard error how
    it went; any later one, in whatever environment, changes nothing. *)
Theorem docker_init_once env env' comm comm' s :
  g_inited s = false → dlt d1 d0 = false → dlt d0 d0 = false → dlt d1 d1 = false →
  let s' := init_tracing_once env comm s in
  g_inited s' = true ∧ init_tracing_once env' comm' s' = s' ∧ g_fd_spans s' = g_fd_spans s ∧
  (g_tracer s = false → (g_tracer s' = true ↔ create env = CreateReturns)) ∧
  (create env ≠ CreateThrows → ∃ sampler, dk_provider s' = Some (get_service_name env comm, sampler) ∧
     ∀ r, sampler = TraceIdRatioBasedSampler r → dlt r d0 = false ∧ dlt d1 r = false) ∧
  (create env = CreateReturns →
     (∀ name b, (name, b) ∈ real_symbols s' → b = dlsym env name) ∧ (real_symbols s').*1 = real_names ∧
     list.last (stderr_writes s') = Some (B "[otel-preload] OpenTelemetry initialized" ++ ["010"%char])).
Proof.
  intros Hi H10 H00 H11. cbv zeta. pose proof (choose_sampler_spec env H10 H00 H11) as Hs.
  unfold init_tracing_once. rewrite Hi.
  destruct (create env); cbn [g_inited g_fd_spans g_tracer dk_provider real_symbols stderr_writes];
    (split_and!; [done|done|done|intros Hg; rewrite ?Hg; split; congruence| |]);
    try (intros _; eexists; split; [done|]; intros r Hr; rewrite Hr in Hs; by destruct Hs as (_ & ? & ?));
    try done.
  intros _. split_and!.
  - intros name b H. apply list_elem_of_fmap in H as (n & [= -> ->] & _). done.
  - done.
  - by rewrite (assoc_L (++)), list.last_snoc.
Qed.

End docker.

(** The service name is the variable when it is set, else the first line of the process's
    [comm] (up to 255 characters, and to its first NUL) without its newline. *)
Theorem get_service_name_spec env line rest :
  no_nul line → Forall (λ c, c ≠ "010"%char) line → length line < 255 →
  get_service_name env (Some (line ++ "010"%char :: rest)) =
    (if decide (c_getenv env (B "OTEL_SERVICE_NAME") = None ∨ c_getenv env (B "OTEL_SERVICE_NAME") = Some []) then line
     else default [] (c_getenv env (B "OTEL_SERVICE_NAME"))).
Proof.
  intros Hn Hl Hlen. unfold get_service_name.
  assert (Hf : fgets 256 (line ++ "010"%char :: rest) = Some (line ++ ["010"%char])).
  { unfold fgets. rewrite index_of_hit; [|eapply list.Forall_impl; [exact Hl|]; intros c Hc; by apply ceq_false|done].
    assert (E : take (S (length line)) (line ++ "010"%char :: rest) = line ++ ["010"%char]).
    { replace (S (length line)) with (length (line ++ ["010"%char])) by (rewrite length_app; simpl; lia).
      change ("010"%char :: rest) with (["010"%char] ++ rest). rewrite (assoc_L (++)). apply take_app_length. }
    rewrite E. rewrite take_ge by (rewrite length_app; simpl; lia). by destruct line. }
  assert (Hc : chop_newline (cstr (line ++ ["010"%char])) = line).
  { rewrite cstr_id by (apply list.Forall_app; split; [done|by constructor]). unfold chop_newline.
    rewrite length_app. cbn [length]. rewrite (proj2 (Nat.ltb_lt _ _)) by lia.
    replace (length line + 1 - 1) with (length line) by lia. rewrite app_nth2, Nat.sub_diag by lia.
    cbn [nth]. rewrite ceq_refl. cbn [andb]. apply take_app_length. }
  rewrite Hf, Hc. destruct (c_getenv env (B "OTEL_SERVICE_NAME")) as [[|c v]|];
    [by rewrite decide_True by auto|by rewrite decide_False by naive_solver|by rewrite decide_True by auto].
Qed.

Definition docker_env (name : bytes) : Env :=
  MkEnv (λ k, if beq k (B "OTEL_TRACES_SAMPLER") then Some (B "ratio")
              else if beq k (B "OTEL_SERVICE_NAME") then Some name else None)
    CreateReturns (λ _, true) (λ _, 7%Z) (λ _ _, (0%Z, [])) (λ _ _ count, Z.of_nat count) (λ _, 0%Z).

Lemma docker_init_once_witness :
  g_inited (DockerState_init (double := Z)) = false ∧
  g_tracer (init_tracing_once (λ _, 5%Z) Z.ltb 0%Z 1%Z (docker_env (B "ads")) None (DockerState_init (double := Z))) = true.
Proof.
  split; [reflexivity|].
  pose proof (docker_init_once (λ _, 5%Z) Z.ltb 0%Z 1%Z (docker_env (B "ads")) (docker_env []) None None
    (DockerState_init (double := Z)) eq_refl eq_refl eq_refl eq_refl) as (_ & _ & _ & H & _).
  apply (H eq_refl). reflexivity.
Defined.

Lemma get_service_name_spec_witness :
  no_nul (B "ads_server") ∧ get_service_name (docker_env []) (Some (B "ads_server" ++ ["010"%char])) = B "ads_server".
Proof.
  assert (H : no_nul (B "ads_server")) by (apply no_nulb_spec; reflexivity). split; [exact H|].
  refine (eq_trans (get_service_name_spec (docker_env []) (B "ads_server") [] H _ _) _).
  - apply (bool_decide_unpack _). vm_compute. exact I.
  - apply Nat.ltb_lt. reflexivity.
  - vm_compute. reflexivity.
Defined.
