(* ===== verification/UrlParser.v ===== *)
(** * URLs of the HTTP exporters

    ext/http/common/url_parser.h: UrlParser and UrlDecoder.  A [substr] past the end of the
    string would throw, so parsing answers an option; [port_] is an option because the
    constructor can leave it unset. *)
From S2P Require Export Cxx.

Record Url := MkUrl {
  url_ : bytes;
  host_ : bytes;
  scheme_ : bytes;
  path_ : bytes;
  port_ : option Z;
  query_ : bytes;
  success_ : bool;
}.

(** The loop of [FindPortPosition]: [i] is the index of the first character of [s]. *)
Fixpoint FindPortPosition_loop (s : bytes) (i sub_expression_counter : nat) : option nat :=
  match s with
  | [] => None
  | c :: s' =>
      if (0 =? sub_expression_counter) && ceq c ":" then Some i
      else if ceq c "[" then FindPortPosition_loop s' (S i) (S sub_expression_counter)
      else if ceq c "]" then FindPortPosition_loop s' (S i) (sub_expression_counter - 1)
      else if (0 =? sub_expression_counter) && ceq c "/" then None
      else FindPortPosition_loop s' (S i) sub_expression_counter
  end.

Definition FindPortPosition (url : bytes) (offset : nat) : option nat :=
  FindPortPosition_loop (drop offset url) offset 0.

(** The port, and whether it is one: otherwise [success_] becomes false. *)
Definition GetPort (s : bytes) : Z * bool :=
  let r := strtol10 (cstr s) in
  if (st_end r =? 0) || negb (st_end r =? length s) || st_erange r || (st_value r <? 0)%Z || (65535 <? st_value r)%Z
  then (0%Z, false) else (st_value r, true).

Definition parse_scheme (url : bytes) : option (bytes * nat) :=
  match find_sub (B "://") url 0 with
  | None => Some (B "http", 0)
  | Some pos => scheme ← substr url 0 (Some (pos - 0)); Some (scheme, pos + 3)
  end.

Definition skip_credentials (url : bytes) (cpos : nat) : nat :=
  match find_char "@" url cpos with
  | Some pos1 =>
      match find_char "/" url cpos with
      | None => pos1 + 1
      | Some pos2 => if pos1 <? pos2 then pos1 + 1 else cpos
      end
  | None => cpos
  end.

Definition default_port (scheme : bytes) : option Z :=
  if beq scheme (B "http") then Some 80%Z
  else if beq scheme (B "https") then Some 443%Z
  else None.

(** From the first ["/"] or ["?"] on. *)
Definition parse_path (url host scheme : bytes) (port : option Z) (success : bool) (cpos : nat) : option Url :=
  c ← url !! cpos;
  if ceq c "/" then
    match find_char "?" url cpos with
    | None => path ← substr url cpos None; Some (MkUrl url host scheme path port [] success)
    | Some pos =>
        path ← substr url cpos (Some (pos - cpos));
        query ← substr url (pos + 1) None;
        Some (MkUrl url host scheme path port query success)
    end
  else
    query ← (if ceq c "?" then substr url cpos None else Some []);
    Some (MkUrl url host scheme (B "/") port query success).

(** The host without a port, or the port after the host. *)
Definition parse_rest (url scheme : bytes) (port : option Z) (host : bytes) (is_port : bool) (cpos : nat) : option Url :=
  match find_if_from (λ c, ceq c "/" || ceq c "?") url cpos with
  | None =>
      t ← substr url cpos None;
      if is_port then let '(p, ok) := GetPort t in Some (MkUrl url host scheme (B "/") (Some p) [] ok)
      else Some (MkUrl url t scheme (B "/") port [] true)
  | Some pos =>
      t ← substr url cpos (Some (pos - cpos));
      if is_port then let '(p, ok) := GetPort t in parse_path url host scheme (Some p) ok pos
      else parse_path url t scheme port true pos
  end.

Definition parse_authority (url scheme : bytes) (cpos : nat) : option Url :=
  match FindPortPosition url cpos with
  | None => parse_rest url scheme (default_port scheme) [] false cpos
  | Some pos =>
      host ← substr url cpos (Some (pos - cpos));
      parse_rest url scheme None host true (pos + 1)
  end.

(** The constructor. *)
Definition UrlParser (url : bytes) : option Url :=
  if length url =? 0 then Some (MkUrl url [] [] [] None [] true)
  else
    '(scheme, cpos) ← parse_scheme url;
    parse_authority url scheme (skip_credentials url cpos).

(** ** UrlDecoder *)

Definition hex_to_int (ch : ascii) : option Z :=
  if in_range "0" "9" ch then Some (code ch - code "0")%Z
  else if in_range "a" "f" ch then Some (code ch - code "a" + 10)%Z
  else if in_range "A" "F" ch then Some (code ch - code "A" + 10)%Z
  else None.

(** [None]: the text is malformed and is returned as it came. *)
Fixpoint Decode_loop (s result : bytes) : option bytes :=
  match s with
  | [] => Some result
  | c :: s' =>
      if ceq c "%" then
        match s' with
        | h :: l :: s'' =>
            hi ← hex_to_int h;
            lo ← hex_to_int l;
            Decode_loop s'' (result ++ [chr (Z.lor (Z.shiftl hi 4) lo)])
        | _ => None
        end
      else Decode_loop s' (result ++ [c])
  end.

Definition Decode (encoded : bytes) : bytes := default encoded (Decode_loop encoded []).

(** ** Positions in a string cut in two *)

Section positions.
Context (pre rest : bytes).

Lemma find_if_from_app p :
  find_if_from p (pre ++ rest) (length pre) = (λ i, length pre + i) <$> index_of p rest.
Proof. unfold find_if_from. by rewrite drop_app_length. Qed.

Lemma substr_app k : substr (pre ++ rest) (length pre) (Some (length pre + k - length pre)) = Some (take k rest).
Proof.
  rewrite substr_spec by (rewrite length_app; lia). rewrite drop_app_length.
  by replace (length pre + k - length pre) with k by lia.
Qed.

Lemma substr_app_end : substr (pre ++ rest) (length pre) None = Some rest.
Proof. rewrite substr_spec by (rewrite length_app; lia). by rewrite drop_app_length. Qed.

Lemma FindPortPosition_app : FindPortPosition (pre ++ rest) (length pre) = FindPortPosition_loop rest (length pre) 0.
Proof. unfold FindPortPosition. by rewrite drop_app_length. Qed.
End positions.

(** ** Parsing never fails *)

Lemma FindPortPosition_loop_lt s i n pos : FindPortPosition_loop s i n = Some pos → i ≤ pos < i + length s.
Proof.
  revert i n. induction s as [|c s IH]; intros i n; cbn [FindPortPosition_loop length]; [done|].
  destruct (_ && ceq c ":"); [intros [= <-]; lia|]. destruct (ceq c "["); [intros H%IH; lia|].
  destruct (ceq c "]"); [intros H%IH; lia|]. destruct (_ && ceq c "/"); [done|]. intros H%IH. lia.
Qed.

Lemma find_char_lt c s pos i : find_char c s pos = Some i → pos ≤ i < length s.
Proof. apply find_if_from_lt. Qed.

Lemma GetPort_range s : (0 ≤ (GetPort s).1 ≤ 65535)%Z.
Proof. unfold GetPort. case_match; cbn [fst]; [lia|]. bprop. lia. Qed.

Lemma parse_path_total url host scheme port success pos :
  pos < length url → ∃ path query, parse_path url host scheme port success pos = Some (MkUrl url host scheme path port query success).
Proof.
  intros Hp. unfold parse_path. destruct (lookup_lt_is_Some_2 url pos Hp) as [c ->]. cbn [mbind option_bind].
  destruct (ceq c "/").
  - destruct (find_char "?" url pos) as [q|] eqn:E.
    + apply find_char_lt in E. rewrite !substr_spec by lia. cbn [mbind option_bind]. eauto.
    + rewrite substr_spec by lia. cbn [mbind option_bind]. eauto.
  - destruct (ceq c "?"); [rewrite substr_spec by lia|]; cbn [mbind option_bind]; eauto.
Qed.

(** What is true of whatever is parsed. *)
Definition url_ok (url scheme : bytes) (port : option Z) (is_port : bool) (u : Url) : Prop :=
  url_ u = url ∧ scheme_ u = scheme ∧ (is_port = false → port_ u = port ∧ success_ u = true) ∧
  (is_port = true → ∃ p, port_ u = Some p ∧ (0 ≤ p ≤ 65535)%Z).

Lemma parse_rest_total url scheme port host is_port cpos :
  cpos ≤ length url → ∃ u, parse_rest url scheme port host is_port cpos = Some u ∧ url_ok url scheme port is_port u.
Proof.
  intros Hc. unfold parse_rest, url_ok. destruct (find_if_from _ url cpos) as [pos|] eqn:E.
  - apply find_if_from_lt in E. rewrite substr_spec by lia. cbn [mbind option_bind]. destruct is_port.
    + pose proof (GetPort_range (take (pos - cpos) (drop cpos url))) as Hr. destruct (GetPort _) as [p ok].
      destruct (parse_path_total url host scheme (Some p) ok pos) as (path & query & ->); [lia|].
      eexists. split; [done|]. cbn [url_ scheme_ port_ success_]. split_and!; [done..|eauto].
    + destruct (parse_path_total url (take (pos - cpos) (drop cpos url)) scheme port true pos) as (path & query & ->); [lia|].
      eexists. split; [done|]. by split_and!.
  - rewrite substr_spec by lia. cbn [mbind option_bind]. destruct is_port.
    + pose proof (GetPort_range (drop cpos url)) as Hr. destruct (GetPort _) as [p ok].
      eexists. split; [done|]. cbn [url_ scheme_ port_ success_]. split_and!; [done..|eauto].
    + eexists. split; [done|]. by split_and!.
Qed.

Lemma parse_authority_total url scheme cpos :
  cpos ≤ length url → ∃ u, parse_authority url scheme cpos = Some u ∧
    url_ok url scheme (default_port scheme) (match FindPortPosition url cpos with Some _ => true | None => false end) u.
Proof.
  intros Hc. unfold parse_authority. destruct (FindPortPosition url cpos) as [pos|] eqn:E.
  - apply FindPortPosition_loop_lt in E. rewrite length_drop in E. rewrite substr_spec by lia. cbn [mbind option_bind].
    destruct (parse_rest_total url scheme None (take (pos - cpos) (drop cpos url)) true (pos + 1)) as (u & -> & H1 & H2 & _ & H4); [lia|].
    exists u. by split_and!.
  - by apply parse_rest_total.
Qed.

Lemma skip_credentials_le url cpos : cpos ≤ length url → skip_credentials url cpos ≤ length url.
Proof.
  intros Hc. unfold skip_credentials. destruct (find_char "@" url cpos) as [pos1|] eqn:E; [|done].
  apply find_char_lt in E. destruct (find_char "/" url cpos) as [pos2|]; [|lia]. case_match; lia.
Qed.

Lemma parse_scheme_total url :
  ∃ scheme cpos, parse_scheme url = Some (scheme, cpos) ∧ cpos ≤ length url.
Proof.
  unfold parse_scheme. destruct (find_sub (B "://") url 0) as [pos|] eqn:E.
  - apply find_sub_end in E as [_ E]; [|done]. change (length (B "://")) with 3 in E.
    rewrite substr_spec by lia. cbn [mbind option_bind]. eexists _, _. split; [done|]. lia.
  - eexists _, _. split; [done|]. lia.
Qed.

(** Whatever the text: no position is ever past the end, a port that was found fits sixteen
    bits, an invalid one is zero and makes the parse a failure, and the port is left unset only
    when there is none and the scheme is not one of the two known ones. *)
Theorem UrlParser_total url :
  url ≠ [] → ∃ u, UrlParser url = Some u ∧ url_ u = url ∧
    (∀ p, port_ u = Some p → (0 ≤ p ≤ 65535)%Z) ∧
    (port_ u = None → scheme_ u ≠ B "http" ∧ scheme_ u ≠ B "https" ∧ success_ u = true).
Proof.
  intros Hne. unfold UrlParser. destruct (length url =? 0) eqn:E; bprop; [by apply length_zero_iff_nil in E|].
  destruct (parse_scheme_total url) as (scheme & cpos & -> & Hc). cbn [mbind option_bind].
  destruct (parse_authority_total url scheme (skip_credentials url cpos)) as (u & -> & Hu & Hs & Hf & Ht);
    [by apply skip_credentials_le|].
  exists u. rewrite Hs. assert (Hd : ∀ p, default_port scheme = Some p → (0 ≤ p ≤ 65535)%Z).
  { unfold default_port. intros p. destruct (beq _ _); [intros [= <-]; lia|]. destruct (beq _ _); [intros [= <-]; lia|done]. }
  split_and!; [done|done| |]; destruct (FindPortPosition _ _).
  - destruct (Ht eq_refl) as (p & -> & Hp). intros p' [= <-]. done.
  - destruct (Hf eq_refl) as [-> _]. exact Hd.
  - destruct (Ht eq_refl) as (p & -> & Hp). done.
  - destruct (Hf eq_refl) as [-> Hsuc]. unfold default_port. destruct (beq scheme (B "http")) eqn:E1; [done|].
    destruct (beq scheme (B "https")) eqn:E2; [done|]. bprop. intros _. by split_and!.
Qed.

Lemma UrlParser_total_witness :
  B "ftp://h" ≠ [] ∧ ∃ u, UrlParser (B "ftp://h") = Some u ∧ url_ u = B "ftp://h".
Proof.
  assert (H : B "ftp://h" ≠ []) by discriminate. split; [exact H|].
  destruct (UrlParser_total (B "ftp://h") H) as (u & Hu & Hurl & _). exists u. split; [exact Hu|exact Hurl].
Defined.

(** ** Parsing what a URL is printed from *)

Definition avoids (s bad : bytes) : Prop := Forall (λ c, existsb (ceq c) bad = false) s.

(** A name or address without delimiters, or anything without them between brackets. *)
Definition host_ok (h : bytes) : Prop :=
  avoids h (B ":/?@[]") ∨ ∃ x, h = "["%char :: x ++ ["]"%char] ∧ avoids x (B "/?@[]").

Record UrlParts := MkUrlParts {
  p_scheme : bytes;
  p_user : option bytes;
  p_host : bytes;
  p_port : option Z;
  p_path : bytes;
  p_query : option bytes;
}.

(** The path starts with a slash or is empty, and there is no query without a path. *)
Definition parts_ok (p : UrlParts) : Prop :=
  avoids (p_scheme p) (B ":") ∧
  (∀ u, p_user p = Some u → avoids u (B "/@")) ∧
  host_ok (p_host p) ∧
  (∀ n, p_port p = Some n → (0 ≤ n ≤ 65535)%Z) ∧
  avoids (p_path p) (B "?") ∧
  ((p_path p = [] ∧ p_query p = None) ∨ ∃ t, p_path p = "/"%char :: t).

Definition opt_text {A} (f : A → bytes) (o : option A) : bytes := match o with Some a => f a | None => [] end.

(** scheme://user@host:port/path?query *)
Definition tail_text (p : UrlParts) : bytes := p_path p ++ opt_text (λ q, B "?" ++ q) (p_query p).
Definition host_text (p : UrlParts) : bytes :=
  p_host p ++ opt_text (λ n, B ":" ++ to_string n) (p_port p) ++ tail_text p.
Definition print_url (p : UrlParts) : bytes :=
  p_scheme p ++ B "://" ++ opt_text (λ u, u ++ B "@") (p_user p) ++ host_text p.

Lemma avoids_check s bad : forallb (λ c, negb (existsb (ceq c) bad)) s = true → avoids s bad.
Proof. intros H%forallb_Forall. eapply list.Forall_impl; [exact H|]. simpl. intros c Hc. by bprop. Qed.

Lemma avoids_ne c x bad : existsb (ceq c) bad = false → existsb (ceq x) bad = true → ceq c x = false.
Proof. intros H1 H2. apply ceq_false. intros ->. congruence. Qed.

Lemma avoids_weaken s bad bad' :
  avoids s bad → forallb (λ c, existsb (ceq c) bad) bad' = true → avoids s bad'.
Proof.
  intros Hs Hb%forallb_Forall. eapply list.Forall_impl; [exact Hs|]. simpl. intros c Hc.
  apply not_true_is_false. intros (x & Hx & ->%ceq_true)%existsb_exists.
  rewrite list.Forall_forall in Hb. apply list_elem_of_In, Hb in Hx. congruence.
Qed.

Lemma avoids_index p s bad r :
  avoids s bad → (∀ c, p c = true → existsb (ceq c) bad = true) →
  index_of p (s ++ r) = (λ i, length s + i) <$> index_of p r.
Proof.
  intros Hs Hp. apply index_of_app_l. eapply list.Forall_impl; [exact Hs|]. simpl. intros c Hc.
  destruct (p c) eqn:E; [|done]. apply Hp in E. congruence.
Qed.

Lemma FindPortPosition_plain s r i n :
  avoids s (B ":/[]") ∨ (0 < n ∧ avoids s (B "[]")) →
  FindPortPosition_loop (s ++ r) i n = FindPortPosition_loop r (i + length s) n.
Proof.
  revert i. induction s as [|c s IH]; intros i H; [by rewrite Nat.add_0_r|].
  cbn [app FindPortPosition_loop length].
  assert (H' : avoids s (B ":/[]") ∨ (0 < n ∧ avoids s (B "[]"))).
  { destruct H as [H|[? H]]; apply list.Forall_cons in H as [_ H]; auto. }
  assert (Hb : ceq c "[" = false ∧ ceq c "]" = false).
  { destruct H as [H|[_ H]]; apply list.Forall_cons in H as [H _]; split; by apply (avoids_ne _ _ _ H). }
  destruct Hb as [-> ->].
  assert (Hz : (0 =? n) && ceq c ":" = false ∧ (0 =? n) && ceq c "/" = false).
  { destruct H as [H|[Hn _]]; [|by destruct n; [lia|]]. apply list.Forall_cons in H as [H _].
    rewrite !andb_false_iff. split; right; by apply (avoids_ne _ _ _ H). }
  destruct Hz as [-> ->]. rewrite IH by done. f_equal. lia.
Qed.

Lemma FindPortPosition_host h r i :
  host_ok h → FindPortPosition_loop (h ++ r) i 0 = FindPortPosition_loop r (i + length h) 0.
Proof.
  intros [H|(x & -> & H)].
  - apply FindPortPosition_plain. left. by apply (avoids_weaken _ _ _ H).
  - cbn [app FindPortPosition_loop]. change (ceq "[" ":") with false. cbn [andb Nat.eqb]. rewrite ceq_refl.
    rewrite <-(assoc_L (++)). rewrite FindPortPosition_plain.
    + cbn [app FindPortPosition_loop]. change (ceq "]" ":") with false. change (ceq "]" "[") with false.
      cbn [andb Nat.eqb]. rewrite ceq_refl. cbn [Nat.sub]. f_equal. cbn [length]. rewrite length_app. simpl. lia.
    + right. split; [lia|]. by apply (avoids_weaken _ _ _ H).
Qed.

Lemma GetPort_to_string n : (0 ≤ n ≤ 65535)%Z → GetPort (to_string n) = (n, true).
Proof.
  intros Hn. destruct (to_string_nonneg n) as (Hv & Hall & Hne); [lia|]. unfold GetPort.
  rewrite cstr_id by (apply to_string_no_nul; lia).
  assert (E : strtol10 (to_string n) = StrtolResult n (length (to_string n)) false).
  { rewrite <-(app_nil_r (to_string n)) at 1. rewrite strtol10_digits by (rewrite ?Hv; unfold LONG_MAX; (done || lia)).
    by rewrite Hv. }
  rewrite E. cbn [st_end st_value st_erange]. rewrite Nat.eqb_refl.
  destruct (length (to_string n) =? 0) eqn:El; bprop; [by apply length_zero_iff_nil in El|]. cbn [orb negb].
  rewrite (proj2 (Z.ltb_ge _ _)) by lia. by rewrite (proj2 (Z.ltb_ge _ _)) by lia.
Qed.

Lemma digits_avoid s bad :
  Forall (λ c, isdigit c = true) s → forallb (λ c, negb (isdigit c)) bad = true → avoids s bad.
Proof.
  intros Hs Hb%forallb_Forall. eapply list.Forall_impl; [exact Hs|]. simpl. intros c Hc.
  apply not_true_is_false. intros (x & Hx & <-%ceq_true)%existsb_exists.
  rewrite list.Forall_forall in Hb. apply list_elem_of_In, Hb in Hx. by rewrite Hc in Hx.
Qed.

Definition path_of (p : UrlParts) : bytes := match p_path p with [] => B "/" | t => t end.
Definition query_of (p : UrlParts) : bytes := default [] (p_query p).

Lemma avoids_find c s bad r :
  avoids s bad → existsb (ceq c) bad = true →
  index_of (ceq c) (s ++ r) = (λ i, length s + i) <$> index_of (ceq c) r.
Proof. intros Hs Hb. apply (avoids_index _ _ bad _ Hs). by intros x <-%ceq_true. Qed.

Lemma parse_path_text pre p host scheme port ok t :
  p_path p = "/"%char :: t → avoids (p_path p) (B "?") →
  parse_path (pre ++ tail_text p) host scheme port ok (length pre) =
    Some (MkUrl (pre ++ tail_text p) host scheme (path_of p) port (query_of p) ok).
Proof.
  destruct p as [sc us ho po path query]. unfold path_of, query_of, tail_text. cbn [p_path p_query].
  intros -> Ha. unfold parse_path.
  assert (Hc : ∀ r, (pre ++ ("/"%char :: t) ++ r) !! length pre = Some "/"%char).
  { intros r. exact (list_lookup_middle pre (t ++ r) "/"%char (length pre) eq_refl). }
  rewrite Hc. cbn [mbind option_bind].
  rewrite ceq_refl. unfold find_char. rewrite find_if_from_app, (avoids_find _ _ _ _ Ha) by done.
  destruct query as [q|]; cbn [opt_text default].
  - change (index_of (ceq "?") (B "?" ++ q)) with (Some 0). cbn [fmap option_fmap option_map].
    rewrite Nat.add_0_r, substr_app, take_app_length. cbn [mbind option_bind].
    replace (length pre + length ("/"%char :: t) + 1) with (length (pre ++ ("/"%char :: t) ++ B "?"))
      by (rewrite !length_app; simpl; lia).
    replace (pre ++ ("/"%char :: t) ++ B "?" ++ q) with ((pre ++ ("/"%char :: t) ++ B "?") ++ q) at 1
      by by rewrite <-!(assoc_L (++)).
    rewrite substr_app_end. done.
  - cbn [index_of fmap option_fmap option_map]. rewrite substr_app_end. by rewrite app_nil_r.
Qed.

Definition tail_ok (p : UrlParts) : Prop :=
  avoids (p_path p) (B "?") ∧ ((p_path p = [] ∧ p_query p = None) ∨ ∃ t, p_path p = "/"%char :: t).

Lemma parse_rest_text pre txt p scheme port host (is_port : bool) :
  avoids txt (B "/?") → tail_ok p →
  parse_rest (pre ++ txt ++ tail_text p) scheme port host is_port (length pre) =
    Some (let url := pre ++ txt ++ tail_text p in
          if is_port then MkUrl url host scheme (path_of p) (Some (GetPort txt).1) (query_of p) (GetPort txt).2
          else MkUrl url txt scheme (path_of p) port (query_of p) true).
Proof.
  intros Ht [Ha Hp]. unfold parse_rest. rewrite find_if_from_app.
  rewrite (avoids_index _ _ _ _ Ht) by (intros c [H|H]%orb_true_iff; apply ceq_true in H; by subst).
  destruct Hp as [[Hp Hq]|[t Hp]].
  - unfold tail_text, path_of, query_of. rewrite Hp, Hq. cbn [opt_text app index_of fmap option_fmap option_map default].
    rewrite substr_app_end, app_nil_r. cbn [mbind option_bind]. destruct is_port; [|done]. by destruct (GetPort txt).
  - assert (E : index_of (λ c, ceq c "/" || ceq c "?") (tail_text p) = Some 0).
    { unfold tail_text. rewrite Hp. done. }
    rewrite E. cbn [fmap option_fmap option_map]. rewrite Nat.add_0_r, substr_app, take_app_length.
    cbn [mbind option_bind]. rewrite (assoc_L (++)). rewrite <-length_app.
    destruct is_port; [destruct (GetPort txt) as [n ok]; cbn [fst snd]|]; by apply (parse_path_text _ _ _ _ _ _ t).
Qed.

Lemma parse_authority_text pre p scheme :
  host_ok (p_host p) → (∀ n, p_port p = Some n → (0 ≤ n ≤ 65535)%Z) → tail_ok p →
  avoids (p_host p) (B "/?") →
  parse_authority (pre ++ host_text p) scheme (length pre) =
    Some (MkUrl (pre ++ host_text p) (p_host p) scheme (path_of p)
            (match p_port p with Some n => Some n | None => default_port scheme end) (query_of p) true).
Proof.
  intros Hh Hn Hp Hhost. unfold parse_authority. rewrite FindPortPosition_app.
  unfold host_text at 1. rewrite FindPortPosition_host by done.
  destruct (p_port p) as [n|] eqn:En; cbn [opt_text].
  - change (FindPortPosition_loop ((B ":" ++ to_string n) ++ tail_text p) (length pre + length (p_host p)) 0)
      with (Some (length pre + length (p_host p))). unfold host_text. rewrite En. cbn [opt_text].
    rewrite substr_app, take_app_length. cbn [mbind option_bind]. specialize (Hn n eq_refl).
    destruct (to_string_nonneg n) as (_ & Hd & _); [lia|].
    pose proof (parse_rest_text (pre ++ p_host p ++ B ":") (to_string n) p scheme None (p_host p) true
                  (digits_avoid _ (B "/?") Hd eq_refl) Hp) as E.
    rewrite !length_app in E. change (length (B ":")) with 1 in E. rewrite Nat.add_assoc in E.
    rewrite <-!(assoc_L (++)) in *. rewrite E. by rewrite GetPort_to_string.
  - cbn [app].
    assert (E : FindPortPosition_loop (tail_text p) (length pre + length (p_host p)) 0 = None).
    { unfold tail_text. destruct Hp as [_ [[-> ->]|[t ->]]]; done. }
    rewrite E. unfold host_text. rewrite En. cbn [opt_text app].
    by rewrite (parse_rest_text pre (p_host p) p scheme _ _ false).
Qed.

Lemma host_ok_avoids h : host_ok h → avoids h (B "/?@").
Proof.
  intros [H|(x & -> & H)].
  - by apply (avoids_weaken _ _ _ H).
  - constructor; [done|]. apply list.Forall_app. split; [by apply (avoids_weaken _ _ _ H)|by repeat constructor].
Qed.

Lemma skip_credentials_text pre p :
  parts_ok p →
  skip_credentials (pre ++ opt_text (λ u, u ++ B "@") (p_user p) ++ host_text p) (length pre) =
    length (pre ++ opt_text (λ u, u ++ B "@") (p_user p)).
Proof.
  intros (_ & Hu & Hh & Hn & _ & Hp). unfold skip_credentials, find_char. rewrite !find_if_from_app, length_app.
  apply host_ok_avoids in Hh. destruct (p_user p) as [u|]; cbn [opt_text app length].
  - specialize (Hu u eq_refl). rewrite <-!(assoc_L (++)), !(avoids_find _ _ _ _ Hu) by done.
    change (index_of (ceq "@") (B "@" ++ host_text p)) with (Some 0).
    change (index_of (ceq "/") (B "@" ++ host_text p)) with (S <$> index_of (ceq "/") (host_text p)).
    cbn [fmap option_fmap option_map]. rewrite length_app. change (length (B "@")) with 1.
    destruct (index_of (ceq "/") (host_text p)) as [k|]; cbn [option_map fmap option_fmap]; [|lia].
    rewrite (proj2 (Nat.ltb_lt _ _)) by lia. lia.
  - rewrite Nat.add_0_r.
    assert (Hd : avoids (p_host p ++ opt_text (λ n, B ":" ++ to_string n) (p_port p)) (B "/@")).
    { apply list.Forall_app. split; [by apply (avoids_weaken _ _ _ Hh)|]. destruct (p_port p) as [n|]; [|constructor].
      specialize (Hn n eq_refl). destruct (to_string_nonneg n) as (_ & Hd & _); [lia|].
      constructor; [done|]. by apply digits_avoid. }
    unfold host_text. rewrite (assoc_L (++)), !(avoids_find _ _ _ _ Hd) by done. unfold tail_text.
    destruct Hp as [[-> ->]|[t ->]]; [done|]. cbn [app]. change (index_of (ceq "/") ("/"%char :: ?r)) with (Some 0).
    set (r := t ++ _). change (index_of (ceq "/") ("/"%char :: r)) with (Some 0).
    change (index_of (ceq "@") ("/"%char :: r)) with (S <$> index_of (ceq "@") r).
    destruct (index_of (ceq "@") r) as [k|]; cbn [fmap option_fmap option_map]; [|done].
    by rewrite (proj2 (Nat.ltb_ge _ _)) by lia.
Qed.

Lemma find_sub_at_scheme s r pos :
  avoids s (B ":") → find_sub_at (B "://") (s ++ B "://" ++ r) pos = Some (pos + length s).
Proof.
  revert pos. induction s as [|c s IH]; intros pos H.
  - cbn [app length]. rewrite Nat.add_0_r. done.
  - apply list.Forall_cons in H as [Hc H]. cbn [app find_sub_at].
    replace (is_prefix (B "://") (c :: s ++ B "://" ++ r)) with false.
    + rewrite IH by done. cbn [length]. f_equal. lia.
    + symmetry. cbn [B String.list_ascii_of_string is_prefix].
      replace (ceq ":" c) with false; [done|]. symmetry. apply ceq_false. intros <-. done.
Qed.

(** C39: Printing a URL from its parts and parsing it gives the parts back except the credentials, which are
    skipped since no field holds them: the scheme, the host without the brackets' contents being searched, the port or the
    scheme's default, "/" for an empty path, and the query without its question mark.  A query needs a path before it
    ([query_colon_is_port] shows what happens to one that follows the host). *)
Theorem UrlParser_roundtrip p :
  parts_ok p →
  UrlParser (print_url p) =
    Some (MkUrl (print_url p) (p_host p) (p_scheme p) (path_of p)
            (match p_port p with Some n => Some n | None => default_port (p_scheme p) end) (query_of p) true).
Proof.
  intros Hok. pose proof Hok as (Hs & Hu & Hh & Hn & Ha & Hp). unfold UrlParser.
  assert (Hlen : (length (print_url p) =? 0) = false).
  { apply Nat.eqb_neq. unfold print_url. rewrite !length_app. simpl. lia. }
  assert (Ef : find_sub (B "://") (print_url p) 0 = Some (length (p_scheme p))).
  { unfold find_sub. rewrite (proj2 (Nat.ltb_ge _ _)) by lia. by apply find_sub_at_scheme. }
  assert (Et : take (length (p_scheme p)) (print_url p) = p_scheme p) by apply take_app_length.
  rewrite Hlen. unfold parse_scheme. rewrite Ef, Nat.sub_0_r, substr_spec, drop_0, Et by lia. cbn [mbind option_bind]. set (pre := p_scheme p ++ B "://").
  assert (E : print_url p = pre ++ opt_text (λ u, u ++ B "@") (p_user p) ++ host_text p).
  { unfold print_url, pre. by rewrite <-(assoc_L (++)). }
  replace (length (p_scheme p) + 3) with (length pre) by (unfold pre; by rewrite length_app).
  rewrite E, skip_credentials_text by done. rewrite (assoc_L (++)).
  apply parse_authority_text; [done|done|by split|]. apply host_ok_avoids in Hh. by apply (avoids_weaken _ _ _ Hh).
Qed.

Lemma UrlParser_roundtrip_witness :
  let p := MkUrlParts (B "https") (Some (B "me:secret")) (B "[::1]") (Some 4318%Z) (B "/v1/traces") (Some (B "a=b?c:d@e")) in
  parts_ok p ∧
  UrlParser (B "https://me:secret@[::1]:4318/v1/traces?a=b?c:d@e") =
    Some (MkUrl (B "https://me:secret@[::1]:4318/v1/traces?a=b?c:d@e") (B "[::1]") (B "https") (B "/v1/traces")
            (Some 4318%Z) (B "a=b?c:d@e") true).
Proof.
  intros p. assert (H : parts_ok p).
  { unfold parts_ok, p. cbn [p_scheme p_user p_host p_port p_path p_query]. split_and!.
    - by apply avoids_check.
    - intros u [= <-]. by apply avoids_check.
    - right. exists (B "::1"). split; [done|]. by apply avoids_check.
    - intros n [= <-]. lia.
    - by apply avoids_check.
    - right. by exists (B "v1/traces"). }
  split; [exact H|]. exact (UrlParser_roundtrip p H).
Defined.

(** A query right after the host is searched for the port, so a colon in it is taken for one,
    although the parser accepts such URLs: here the host is wrong and the parse fails. *)
Example query_colon_is_port :
  UrlParser (B "http://h?t=a:b") = Some (MkUrl (B "http://h?t=a:b") (B "h?t=a") (B "http") (B "/") (Some 0%Z) [] false)
  ∧ UrlParser (B "http://h/?t=a:b") = Some (MkUrl (B "http://h/?t=a:b") (B "h") (B "http") (B "/") (Some 80%Z) (B "t=a:b") true)
  ∧ UrlParser (B "http://h?t=a") = Some (MkUrl (B "http://h?t=a") (B "h") (B "http") (B "/") (Some 80%Z) (B "?t=a") true)
  ∧ UrlParser (B "h:8080?") = Some (MkUrl (B "h:8080?") (B "h") (B "http") (B "/") (Some 8080%Z) (B "?") true).
Proof. split_and!; vm_compute; reflexivity. Qed.

(** ** UrlDecoder *)

(** Percent encoding of the characters that are not kept, with digits of either case. *)
Definition hex_digit (upper : bool) (d : Z) : ascii :=
  if (d <? 10)%Z then chr (48 + d) else chr (d - 10 + (if upper then 65 else 97)).

Definition percent (upper : bool) (c : ascii) : bytes :=
  ["%"%char; hex_digit upper (code c / 16); hex_digit upper (code c mod 16)].

Definition percent_encode (keep upper : ascii → bool) (s : bytes) : bytes :=
  s ≫= λ c, if keep c && negb (ceq c "%") then [c] else percent (upper c) c.

Lemma percent_decode upper c r result :
  Decode_loop (percent upper c ++ r) result = Decode_loop r (result ++ [c]).
Proof.
  assert (H : (λ c, bool_decide (hex_to_int (hex_digit upper (code c / 16)) = Some (code c / 16)%Z) &&
                    bool_decide (hex_to_int (hex_digit upper (code c mod 16)) = Some (code c mod 16)%Z) &&
                    ceq (chr (Z.lor (Z.shiftl (code c / 16) 4) (code c mod 16))) c) c = true).
  { destruct upper; ascii_cases c. }
  cbn beta in H. bprop. cbn [percent app Decode_loop]. rewrite ceq_refl.
  repeat match goal with H : hex_to_int _ = _ |- _ => rewrite H; clear H; cbn [mbind option_bind] end.
  by match goal with H : chr _ = c |- _ => rewrite H end.
Qed.

Lemma Decode_loop_encode keep upper s result :
  Decode_loop (percent_encode keep upper s) result = Some (result ++ s).
Proof.
  revert result. induction s as [|c s IH]; intros result; [by rewrite app_nil_r|].
  unfold percent_encode. rewrite bind_cons. fold (percent_encode keep upper s).
  destruct (keep c && negb (ceq c "%")) eqn:E.
  - bprop. cbn [app Decode_loop]. rewrite (proj2 (ceq_false c "%")) by done. rewrite IH.
    by rewrite <-(assoc_L (++)).
  - rewrite percent_decode, IH. by rewrite <-(assoc_L (++)).
Qed.

Lemma Decode_loop_bad s result :
  (∃ a r, s = percent_encode (λ _, true) (λ _, true) a ++ "%"%char :: r ∧
     match r with h :: l :: _ => hex_to_int h = None ∨ hex_to_int l = None | _ => True end) →
  Decode_loop s result = None.
Proof.
  intros (a & r & -> & Hr). revert result. induction a as [|c a IH]; intros result.
  - cbn [percent_encode mbind list_bind app Decode_loop]. rewrite ceq_refl. destruct r as [|h [|l r]]; [done..|].
    destruct Hr as [-> | ->]; [done|]. by destruct (hex_to_int h).
  - unfold percent_encode. rewrite bind_cons. fold (percent_encode (λ _, true) (λ _, true) a).
    rewrite <-(assoc_L (++)). cbn [andb]. destruct (negb (ceq c "%")) eqn:E.
    + bprop. cbn [app Decode_loop]. rewrite (proj2 (ceq_false c "%")) by done. apply IH.
    + rewrite percent_decode. apply IH.
Qed.

(** Decoding undoes percent encoding, whichever characters were encoded and with digits of
    either case; and a text with a percent sign that is not followed by two hexadecimal digits
    comes back untouched, encoded parts included. *)
Theorem UrlDecoder_spec keep upper s a r :
  Decode (percent_encode keep upper s) = s ∧
  (match r with h :: l :: _ => hex_to_int h = None ∨ hex_to_int l = None | _ => True end →
   Decode (percent_encode (λ _, true) (λ _, true) a ++ "%"%char :: r) = percent_encode (λ _, true) (λ _, true) a ++ "%"%char :: r).
Proof.
  split; unfold Decode; [by rewrite Decode_loop_encode|]. intros Hr. rewrite Decode_loop_bad; [done|]. eauto.
Qed.

Lemma UrlDecoder_spec_witness :
  hex_to_int "g" = None ∧ Decode (B "a b%252%2gc") = B "a b%252%2gc".
Proof.
  split; [reflexivity|].
  exact (proj2 (UrlDecoder_spec (λ _, true) (λ _, true) [] (B "a b%2") (B "2gc")) (or_intror eq_refl)).
Defined.
