(* ===== verification/HttpClient.v ===== *)
(** * Requests, responses and headers of the HTTP client

    ext/http/client/http_client.h and the inline part of client/curl/http_client_curl.h: the headers,
    a multimap whose keys are compared without regard to case, the request and response objects, and
    the synchronous client.  The operation that talks to the network is a parameter. *)
From S2P Require Export Cxx.
From stdpp Require Import sorting.

(** ** Headers *)

(** [::tolower] of a signed character. *)
Definition lower_value (c : ascii) : Z := schar (tolower c).

(** [std::lexicographical_compare] on the lower-case characters. *)
Fixpoint cmp_ic (s1 s2 : bytes) : bool :=
  match s1, s2 with
  | [], [] => false
  | [], _ :: _ => true
  | _ :: _, [] => false
  | c1 :: s1, c2 :: s2 =>
      if (lower_value c1 <? lower_value c2)%Z then true
      else if (lower_value c2 <? lower_value c1)%Z then false
      else cmp_ic s1 s2
  end.

(** A multimap in the order of its keys, equal keys in the order of their insertion. *)
Abbreviation Headers := (list (bytes * bytes)).

Definition before (name : bytes) (h : Headers) : Headers := take_while (λ e, cmp_ic e.1 name) h.
Definition from_lower (name : bytes) (h : Headers) : Headers := drop_while (λ e, cmp_ic e.1 name) h.
Definition equal_range (name : bytes) (h : Headers) : Headers := take_while (λ e, negb (cmp_ic name e.1)) (from_lower name h).
Definition from_upper (name : bytes) (h : Headers) : Headers := drop_while (λ e, negb (cmp_ic name e.1)) (from_lower name h).

(** [insert] puts an element behind those with an equal key. *)
Definition headers_insert (name value : bytes) (h : Headers) : Headers :=
  before name h ++ equal_range name h ++ (name, value) :: from_upper name h.
(** [erase(range.first, range.second)] *)
Definition headers_erase_range (name : bytes) (h : Headers) : Headers := before name h ++ from_upper name h.

(** ** Options *)

Inductive Method := MGet | MPost | MPut | MOptions | MHead | MPatch | MDelete.

Inductive SessionState :=
  | CreateFailed | Created | Destroyed | Connecting | ConnectFailed | Connected | Sending | SendFailed
  | SResponse | SSLHandshakeFailed | TimedOut | NetworkError | ReadError | WriteError | Cancelled.

#[export] Instance SessionState_eq_dec : EqDecision SessionState.
Proof. solve_decision. Defined.

Inductive Compression := kNone | kGzip.

Record HttpSslOptions := MkSslOptions {
  use_ssl : bool;
  ssl_insecure_skip_verify : bool;
  ssl_ca_cert_path : bytes;
  ssl_ca_cert_string : bytes;
  ssl_client_key_path : bytes;
  ssl_client_key_string : bytes;
  ssl_client_cert_path : bytes;
  ssl_client_cert_string : bytes;
  ssl_min_tls : bytes;
  ssl_max_tls : bytes;
  ssl_cipher : bytes;
  ssl_cipher_suite : bytes;
}.

Definition no_ssl : HttpSslOptions := MkSslOptions false false [] [] [] [] [] [] [] [] [] [].

(** The scheme is looked for in the memory of the view, up to a NUL. *)
Definition HttpSslOptions_new (url_memory : bytes) (skip_verify : bool) (ca_path ca_string key_path key_string cert_path cert_string
    min_tls max_tls cipher cipher_suite : bytes) : HttpSslOptions :=
  MkSslOptions (beq (take 6 (cstr url_memory)) (B "https:")) skip_verify ca_path ca_string key_path key_string cert_path
    cert_string min_tls max_tls cipher cipher_suite.

(** Durations and factors are floating-point numbers, of which the code here only keeps the bits. *)
Record RetryPolicy := MkRetryPolicy {
  max_attempts : Z;
  initial_backoff : Z;
  max_backoff : Z;
  backoff_multiplier : Z;
}.

(** ** Requests *)
Record Request := MkRequest {
  method_ : Method;
  ssl_options_ : HttpSslOptions;
  rq_body_ : bytes;
  rq_headers_ : Headers;
  uri_ : bytes;
  timeout_ms_ : Z;
  compression_ : Compression;
  is_log_enabled_ : bool;
  retry_policy_ : RetryPolicy;
}.

Definition Request_new : Request :=
  MkRequest MGet no_ssl [] [] (B "/") 5000 kNone false (MkRetryPolicy 0 0 0 0).

Definition SetMethod (method : Method) (r : Request) : Request :=
  MkRequest method (ssl_options_ r) (rq_body_ r) (rq_headers_ r) (uri_ r) (timeout_ms_ r) (compression_ r) (is_log_enabled_ r) (retry_policy_ r).
Definition SetSslOptions (o : HttpSslOptions) (r : Request) : Request :=
  MkRequest (method_ r) o (rq_body_ r) (rq_headers_ r) (uri_ r) (timeout_ms_ r) (compression_ r) (is_log_enabled_ r) (retry_policy_ r).
(** The body is moved out of the caller's object. *)
Definition SetBody (body : bytes) (r : Request) : Request * bytes :=
  (MkRequest (method_ r) (ssl_options_ r) body (rq_headers_ r) (uri_ r) (timeout_ms_ r) (compression_ r) (is_log_enabled_ r) (retry_policy_ r), []).
Definition set_headers (h : Headers) (r : Request) : Request :=
  MkRequest (method_ r) (ssl_options_ r) (rq_body_ r) h (uri_ r) (timeout_ms_ r) (compression_ r) (is_log_enabled_ r) (retry_policy_ r).
Definition AddHeader (name value : bytes) (r : Request) : Request := set_headers (headers_insert name value (rq_headers_ r)) r.
Definition ReplaceHeader (name value : bytes) (r : Request) : Request :=
  AddHeader name value (set_headers (headers_erase_range name (rq_headers_ r)) r).
Definition SetUri (uri : bytes) (r : Request) : Request :=
  MkRequest (method_ r) (ssl_options_ r) (rq_body_ r) (rq_headers_ r) uri (timeout_ms_ r) (compression_ r) (is_log_enabled_ r) (retry_policy_ r).
Definition SetTimeoutMs (t : Z) (r : Request) : Request :=
  MkRequest (method_ r) (ssl_options_ r) (rq_body_ r) (rq_headers_ r) (uri_ r) t (compression_ r) (is_log_enabled_ r) (retry_policy_ r).
Definition SetCompression (c : Compression) (r : Request) : Request :=
  MkRequest (method_ r) (ssl_options_ r) (rq_body_ r) (rq_headers_ r) (uri_ r) (timeout_ms_ r) c (is_log_enabled_ r) (retry_policy_ r).
Definition EnableLogging (b : bool) (r : Request) : Request :=
  MkRequest (method_ r) (ssl_options_ r) (rq_body_ r) (rq_headers_ r) (uri_ r) (timeout_ms_ r) (compression_ r) b (retry_policy_ r).
Definition SetRetryPolicy (p : RetryPolicy) (r : Request) : Request :=
  MkRequest (method_ r) (ssl_options_ r) (rq_body_ r) (rq_headers_ r) (uri_ r) (timeout_ms_ r) (compression_ r) (is_log_enabled_ r) p.

(** ** Responses *)
Record Response := MkResponse { rs_headers_ : Headers; rs_body_ : bytes; status_code_ : Z }.

Definition Response_new : Response := MkResponse [] [] 200.

Section for_each.
Context {S : Type} (callable : S → bytes → bytes → S * bool).

Fixpoint for_each_header (s : S) (h : Headers) : S * bool :=
  match h with
  | [] => (s, true)
  | (name, value) :: h => let '(s, go_on) := callable s name value in if go_on : bool then for_each_header s h else (s, false)
  end.

Definition ForEachHeader (r : Response) (s : S) : S * bool := for_each_header s (rs_headers_ r).
Definition ForEachHeader_named (r : Response) (name : bytes) (s : S) : S * bool := for_each_header s (equal_range name (rs_headers_ r)).
End for_each.

(** A result always has a response to show: the empty one, of status 0, when there is none. *)
Definition NoopResponse : Response := MkResponse [] [] 0.
Record Result := MkResult { response_ : option Response; session_state_ : SessionState }.
Definition Result_ok (r : Result) : bool := bool_decide (session_state_ r = SResponse).
Definition GetResponse (r : Result) : Response := default NoopResponse (response_ r).

(** ** The synchronous client

    What is observed of an operation once it was sent. *)
Record Operation := MkOperation {
  GetSessionState : SessionState;
  WasAborted : bool;
  GetResponseCode : Z;
  GetResponseHeaders : Headers;
  GetResponseBody : bytes;
}.

Section sync_client.
Context (SendSync : Method → bytes → HttpSslOptions → Headers → bytes → Compression → Operation) (CURL_LAST : Z).

Definition finish_operation (o : Operation) : Result :=
  let session_state := if WasAborted o then Cancelled else GetSessionState o in
  let response :=
    if (CURL_LAST <=? GetResponseCode o)%Z then MkResponse (GetResponseHeaders o) (GetResponseBody o) (GetResponseCode o)
    else Response_new in
  MkResult (Some response) session_state.

(** The URL is taken for a C string. *)
Definition Sync_Get (url_memory : bytes) (o : HttpSslOptions) (h : Headers) (c : Compression) : Result :=
  finish_operation (SendSync MGet (cstr url_memory) o h [] c).
Definition Sync_Post (url_memory : bytes) (o : HttpSslOptions) (body : bytes) (h : Headers) (c : Compression) : Result :=
  finish_operation (SendSync MPost (cstr url_memory) o h body c).
Definition GetNoSsl (url_memory : bytes) (h : Headers) (c : Compression) : Result := Sync_Get url_memory no_ssl h c.
Definition PostNoSsl (url_memory : bytes) (body : bytes) (h : Headers) (c : Compression) : Result :=
  Sync_Post url_memory no_ssl body h c.
End sync_client.

(** ** The order of names *)

Definition folded (s : bytes) : list Z := lower_value <$> s.

(** Names that differ in the case of letters only. *)
Definition same_name (s t : bytes) : bool := bool_decide (folded s = folded t).

Lemma cmp_ic_same s t : cmp_ic s t = true → folded s ≠ folded t.
Proof.
  revert t. induction s as [|a s IH]; intros [|b t]; [done..|]. cbn [cmp_ic folded fmap list_fmap].
  destruct (Z.ltb_spec (lower_value a) (lower_value b)); [intros _ [=]; lia|].
  destruct (Z.ltb_spec (lower_value b) (lower_value a)); [done|]. intros Hc [= _ Hst]. by apply (IH t).
Qed.

Lemma cmp_ic_total s t : cmp_ic s t = false → cmp_ic t s = false → folded s = folded t.
Proof.
  revert t. induction s as [|a s IH]; intros [|b t]; [done..|]. cbn [cmp_ic folded fmap list_fmap].
  destruct (Z.ltb_spec (lower_value a) (lower_value b)); [done|].
  destruct (Z.ltb_spec (lower_value b) (lower_value a)); [done|]. intros H1 H2. f_equal; [lia|by apply IH].
Qed.

Lemma cmp_ic_proper s s' t t' : folded s = folded s' → folded t = folded t' → cmp_ic s t = cmp_ic s' t'.
Proof.
  revert s' t t'. induction s as [|a s IH]; intros [|a' s'] t t'; try done; destruct t as [|b t], t' as [|b' t']; try done.
  intros [= Ha Hs] [= Hb Ht]. cbn [cmp_ic]. rewrite Ha, Hb. repeat destruct (_ <? _)%Z; [done..|]. by apply IH.
Qed.

Lemma cmp_ic_trans s t u : cmp_ic s t = true → cmp_ic t u = true → cmp_ic s u = true.
Proof.
  revert t u. induction s as [|a s IH]; intros [|b t] [|c u]; try done. cbn [cmp_ic].
  destruct (Z.ltb_spec (lower_value a) (lower_value b)), (Z.ltb_spec (lower_value b) (lower_value c)),
    (Z.ltb_spec (lower_value a) (lower_value c)); try done; try lia;
    destruct (Z.ltb_spec (lower_value b) (lower_value a)), (Z.ltb_spec (lower_value c) (lower_value b)),
    (Z.ltb_spec (lower_value c) (lower_value a)); try done; try lia. apply IH.
Qed.

Lemma cmp_ic_asym s t : cmp_ic s t = true → cmp_ic t s = false.
Proof.
  intros H. destruct (cmp_ic t s) eqn:H'; [|done]. pose proof (cmp_ic_trans _ _ _ H H') as Hc. by apply cmp_ic_same in Hc.
Qed.

(** [name_le s t]: [t] is not before [s]. *)
Definition name_le (s t : bytes) : Prop := cmp_ic t s = false.

Lemma name_le_trans s t u : name_le s t → name_le t u → name_le s u.
Proof.
  unfold name_le. intros H1 H2. destruct (cmp_ic u s) eqn:H; [|done]. destruct (cmp_ic s t) eqn:Hst.
  - by rewrite (cmp_ic_trans _ _ _ H Hst) in H2.
  - pose proof (cmp_ic_total s t Hst H1) as He. rewrite (cmp_ic_proper u u s t eq_refl He) in H. congruence.
Qed.

Lemma lt_le_trans s t u : cmp_ic s t = true → name_le t u → cmp_ic s u = true.
Proof.
  intros H1 H2. destruct (cmp_ic t u) eqn:E; [by apply (cmp_ic_trans s t u)|].
  pose proof (cmp_ic_total t u E H2) as He. by rewrite <-(cmp_ic_proper s s t u eq_refl He).
Qed.

(** ** Multimaps in order *)

Definition entry_le (e e' : bytes * bytes) : Prop := name_le e.1 e'.1.
Definition headers_wf (h : Headers) : Prop := StronglySorted entry_le h.

Definition named (name : bytes) (h : Headers) : Headers := List.filter (λ e, same_name name e.1) h.

Lemma named_app name h h' : named name (h ++ h') = named name h ++ named name h'.
Proof. apply List.filter_app. Qed.

Lemma same_name_ext n n' : folded n = folded n' → same_name n = same_name n'.
Proof. intros H. unfold same_name. by rewrite H. Qed.

(** Behind an element that is not before the name nothing is. *)
Lemma from_lower_ge name h : headers_wf h → Forall (λ e, cmp_ic e.1 name = false) (from_lower name h).
Proof.
  induction 1 as [|e h Hs IH Hle]; [constructor|]. unfold from_lower in *. cbn [drop_while]. destruct (cmp_ic e.1 name) eqn:E; [done|].
  apply list.Forall_cons. split; [done|]. eapply list.Forall_impl; [exact Hle|]. intros e' He'. by apply (name_le_trans name e.1 e'.1).
Qed.

Lemma from_upper_gt name h : headers_wf h → Forall (λ e, cmp_ic name e.1 = true) (from_upper name h).
Proof.
  intros Hwf. unfold from_upper.
  assert (Hs : headers_wf (from_lower name h)).
  { unfold headers_wf in *. rewrite <-(take_drop_while (λ e, cmp_ic e.1 name) h) in Hwf. by apply StronglySorted_app_1_r in Hwf. }
  induction Hs as [|e l Hs IH Hle]; [constructor|]. cbn [drop_while]. destruct (cmp_ic name e.1) eqn:E; cbn [negb]; [|done].
  apply list.Forall_cons. split; [done|]. eapply list.Forall_impl; [exact Hle|]. intros e' He'. by apply (lt_le_trans name e.1 e'.1).
Qed.

Lemma split_headers name h : h = before name h ++ equal_range name h ++ from_upper name h.
Proof. unfold before, equal_range, from_upper. rewrite take_drop_while. unfold from_lower. by rewrite take_drop_while. Qed.

Record split_at (name : bytes) (b e u : Headers) : Prop := MkSplit {
  split_before : Forall (λ x, cmp_ic x.1 name = true) b;
  split_equal : Forall (λ x, folded name = folded x.1) e;
  split_upper : Forall (λ x, cmp_ic name x.1 = true) u;
}.

Lemma headers_split name h : headers_wf h → split_at name (before name h) (equal_range name h) (from_upper name h).
Proof.
  intros Hwf. split; [apply take_while_all| |by apply from_upper_gt]. unfold equal_range.
  pose proof (take_while_all (λ e : bytes * bytes, negb (cmp_ic name e.1)) (from_lower name h)) as H1.
  pose proof (from_lower_ge name h Hwf) as H2. rewrite <-(take_drop_while (λ e, negb (cmp_ic name e.1))) in H2.
  apply list.Forall_app in H2 as [H2 _]. apply list.Forall_forall. intros e He. rewrite list.Forall_forall in H1, H2.
  specialize (H1 e He). specialize (H2 e He). apply negb_true_iff in H1. by apply cmp_ic_total.
Qed.

Lemma named_none name h : Forall (λ x : bytes * bytes, folded name ≠ folded x.1) h → named name h = [].
Proof.
  induction 1 as [|x h Hx _ IH]; [done|]. unfold named in *. cbn [List.filter]. unfold same_name at 1.
  by rewrite bool_decide_eq_false_2.
Qed.

Lemma named_all name h : Forall (λ x : bytes * bytes, folded name = folded x.1) h → named name h = h.
Proof.
  induction 1 as [|x h Hx _ IH]; [done|]. unfold named in *. cbn [List.filter]. unfold same_name at 1.
  by rewrite bool_decide_eq_true_2, IH.
Qed.

Lemma split_named name b e u :
  split_at name b e u → named name b = [] ∧ named name e = e ∧ named name u = [].
Proof.
  intros [Hb He Hu]. split_and!; [apply named_none|by apply named_all|apply named_none].
  - eapply list.Forall_impl; [exact Hb|]. intros x Hx%cmp_ic_same Heq. by apply Hx.
  - eapply list.Forall_impl; [exact Hu|]. intros x Hx%cmp_ic_same. done.
Qed.

Lemma equal_range_named name h : headers_wf h → equal_range name h = named name h.
Proof.
  intros Hwf. destruct (split_named _ _ _ _ (headers_split name h Hwf)) as (Hb & He & Hu).
  rewrite (split_headers name h) at 2. by rewrite !named_app, Hb, He, Hu, app_nil_r.
Qed.

Lemma insert_wf name value b e u :
  split_at name b e u → headers_wf (b ++ e ++ u) → headers_wf (b ++ e ++ (name, value) :: u).
Proof.
  intros [Hb He Hu]. unfold headers_wf. rewrite !StronglySorted_app. rewrite !list.Forall_forall in Hb, He, Hu.
  intros (Hbeu & Hsb & Heu & Hse & Hsu).
  assert (Hnu : ∀ x, x ∈ u → entry_le (name, value) x) by (intros x Hx; by apply cmp_ic_asym, Hu).
  split_and!; [|done| |done|].
  - intros x y Hx [Hy|[->|Hy]%elem_of_cons]%elem_of_app; [apply Hbeu; set_solver| |apply Hbeu; set_solver].
    by apply cmp_ic_asym, Hb.
  - intros x y Hx [->|Hy]%elem_of_cons; [|by apply Heu]. unfold entry_le, name_le. cbn [fst].
    rewrite (cmp_ic_proper name name x.1 name eq_refl (eq_sym (He x Hx))). destruct (cmp_ic name name) eqn:E; [|done].
    by apply cmp_ic_same in E.
  - constructor; [done|]. by apply list.Forall_forall.
Qed.

Lemma erase_wf (b e u : Headers) : headers_wf (b ++ e ++ u) → headers_wf (b ++ u).
Proof.
  unfold headers_wf. rewrite !StronglySorted_app. intros (Hbeu & Hsb & Heu & Hse & Hsu). split_and!; [|done..].
  intros x y Hx Hy. apply Hbeu; set_solver.
Qed.

Lemma headers_insert_spec name value h :
  headers_wf h →
  headers_wf (headers_insert name value h) ∧
  ∀ n, named n (headers_insert name value h) = named n h ++ (if same_name n name then [(name, value)] else []).
Proof.
  intros Hwf. pose proof (headers_split name h Hwf) as Hs. unfold headers_insert. split.
  - apply insert_wf; [done|]. by rewrite <-split_headers.
  - intros n. rewrite (split_headers name h) at 4. rewrite !named_app. unfold named at 3. cbn [List.filter fst].
    destruct (same_name n name) eqn:E; [|by rewrite app_nil_r].
    assert (Hn : folded n = folded name) by (by apply bool_decide_eq_true in E).
    destruct (split_named _ _ _ _ Hs) as (_ & _ & Hu). unfold named in *. rewrite (same_name_ext n name Hn), Hu.
    by rewrite !app_nil_r, <-app_assoc.
Qed.

Lemma headers_erase_range_spec name h :
  headers_wf h →
  headers_wf (headers_erase_range name h) ∧
  ∀ n, named n (headers_erase_range name h) = if same_name n name then [] else named n h.
Proof.
  intros Hwf. pose proof (headers_split name h Hwf) as Hs. unfold headers_erase_range. split.
  - apply (erase_wf _ (equal_range name h)). by rewrite <-split_headers.
  - intros n. destruct (split_named _ _ _ _ Hs) as (Hb & He & Hu). rewrite named_app. destruct (same_name n name) eqn:E.
    + assert (Hn : folded n = folded name) by (by apply bool_decide_eq_true in E).
      unfold named in *. by rewrite (same_name_ext n name Hn), Hb, Hu.
    + rewrite (split_headers name h) at 3. rewrite !named_app, (named_none n (equal_range name h)); [done|].
      eapply list.Forall_impl; [exact (split_equal _ _ _ _ Hs)|]. intros x Hx Heq. apply bool_decide_eq_false in E. congruence.
Qed.

(** ** Requests as they are built *)

Inductive header_call := CallAddHeader (name value : bytes) | CallReplaceHeader (name value : bytes).

Definition header_apply (r : Request) (c : header_call) : Request :=
  match c with
  | CallAddHeader name value => AddHeader name value r
  | CallReplaceHeader name value => ReplaceHeader name value r
  end.

(** The headers of a name, as the calls say: an addition goes behind, a replacement stands alone. *)
Definition expected (name : bytes) (cs : list header_call) : Headers :=
  foldl (λ l c, match c with
                | CallAddHeader n v => if same_name name n then l ++ [(n, v)] else l
                | CallReplaceHeader n v => if same_name name n then [(n, v)] else l
                end) [] cs.

(** Whatever headers are added and replaced, asking for a name gives, in the order they were given
    and whatever the case of its letters, those added to it since it was last replaced, and no other;
    the headers stay in order. *)
Theorem request_headers cs name {S} (callable : S → bytes → bytes → S * bool) s :
  let r := foldl header_apply Request_new cs in
  headers_wf (rq_headers_ r) ∧
  ForEachHeader_named callable (MkResponse (rq_headers_ r) [] 200) name s = for_each_header callable s (expected name cs).
Proof.
  assert (H : headers_wf (rq_headers_ (foldl header_apply Request_new cs)) ∧
              ∀ n, named n (rq_headers_ (foldl header_apply Request_new cs)) = expected n cs).
  { induction cs as [|c cs [Hwf Hn]] using rev_ind; [split; [constructor|done]|]. unfold expected in *. setoid_rewrite foldl_snoc.
    destruct c as [n v|n v]; cbn [header_apply ReplaceHeader AddHeader set_headers rq_headers_].
    - destruct (headers_insert_spec n v _ Hwf) as [Hwf' Hn']. split; [done|]. intros m. rewrite Hn', Hn.
      destruct (same_name m n); [done|]. by rewrite app_nil_r.
    - destruct (headers_erase_range_spec n _ Hwf) as [Hwf1 Hn1]. destruct (headers_insert_spec n v _ Hwf1) as [Hwf' Hn'].
      split; [done|]. intros m. rewrite Hn', Hn1. by destruct (same_name m n); rewrite ?app_nil_r, ?Hn. }
  cbv zeta. destruct H as [Hwf Hn]. split; [done|]. unfold ForEachHeader_named. cbn [rs_headers_].
  by rewrite equal_range_named, Hn.
Qed.

(** A request that failed has no answer, but the response that is made for it says 200; only the state
    of the session tells. *)
Example failed_request_says_ok :
  let r := Sync_Get (λ _ _ _ _ _ _, MkOperation ConnectFailed false 7 [] []) 99 (B "http://nowhere/") no_ssl [] kNone in
  status_code_ (GetResponse r) = 200%Z ∧ Result_ok r = false.
Proof. split; reflexivity. Qed.
