(* ===== verification/DistributedTrace.v ===== *)
(** * A trace across two services

    The client's side - the current span injected as W3C headers (HttpTraceContext) into the headers of a request
    (HttpClient) - and the server's - the preloaded tracer reading the request from a socket (PreloadHooks) - put
    together: the text between them is the request as it is sent. *)
From S2P Require Export PreloadHooks HttpClient.

(** ** Carriers of requests *)

(** A carrier whose content is sent as header lines: [wire] are these lines in their order, [wire_ok] what keeps them
    well formed, and setting a header makes it the one a reader finds. *)
Class WireCarrier (C : Type) `{TextMapCarrier C} := {
  wire : C → list (bytes * bytes);
  wire_ok : C → Prop;
  wire_ok_headers c : wire_ok c → Forall header_ok (wire c);
  wire_ok_Set c k v : wire_ok c → header_ok (k, v) → wire_ok (carrier_Set c k v);
  wire_Set c k v k' : wire_ok c →
    last_header (wire (carrier_Set c k v)) k' = if decide (header_key k = header_key k') then Some v else last_header (wire c) k';
}.

(** *** The headers of the HTTP client's requests *)

(** The two foldings of case, that of the client's multimap and that of the server's map, identify the same names. *)
Lemma folded_key s t : folded s = folded t ↔ header_key s = header_key t.
Proof.
  unfold folded, header_key. assert (Hinj : Inj (=) (=) schar).
  { intros a b. unfold schar. pose proof (code_range a). pose proof (code_range b).
    destruct (Z.ltb_spec (code a) 128), (Z.ltb_spec (code b) 128); intros E; apply code_inj; lia. }
  change (lower_value <$> s) with ((schar ∘ lower) <$> s). change (lower_value <$> t) with ((schar ∘ lower) <$> t).
  rewrite !list_fmap_compose. split; [by intros ?%(inj (fmap schar))|by intros ->].
Qed.

Lemma same_name_key s t : same_name s t = bool_decide (header_key s = header_key t).
Proof. apply bool_decide_ext, folded_key. Qed.

Lemma last_header_app h h' k : last_header (h ++ h') k = match last_header h' k with Some v => Some v | None => last_header h k end.
Proof.
  unfold last_header. rewrite foldl_app. generalize (foldl (λ acc kv, if decide (header_key kv.1 = header_key k) then Some kv.2 else acc) None h).
  induction h' as [|e h' IH] using rev_ind; intros o; [done|]. rewrite !foldl_snoc, IH. by destruct (decide _).
Qed.

(** What a reader finds depends on the lines of that name only. *)
Lemma last_header_named h k : last_header h k = last_header (named k h) k.
Proof.
  induction h as [|e h IH]; [done|]. change (e :: h) with ([e] ++ h). rewrite named_app, !last_header_app, IH.
  destruct (last_header (named k h) k); [done|]. unfold named. cbn [List.filter app]. rewrite same_name_key.
  destruct (decide (header_key k = header_key e.1)) as [E|E].
  - by rewrite bool_decide_eq_true_2.
  - rewrite bool_decide_eq_false_2 by done. unfold last_header. cbn [foldl]. by rewrite decide_False by congruence.
Qed.

Lemma headers_insert_incl name value h : headers_insert name value h ≡ₚ (name, value) :: h.
Proof. unfold headers_insert. rewrite (split_headers name h) at 4. rewrite !(assoc_L (++)). by rewrite <-Permutation_middle. Qed.

Lemma headers_erase_incl name h : headers_erase_range name h ⊆ h.
Proof. unfold headers_erase_range. rewrite (split_headers name h) at 3. set_solver. Qed.

#[export] Instance request_carrier : TextMapCarrier Request := {
  carrier_Get r k := match equal_range k (rq_headers_ r) with e :: _ => e.2 | [] => [] end;
  carrier_Set r k v := ReplaceHeader k v r;
}.

#[export] Instance request_wire : WireCarrier Request.
Proof.
  refine {| wire := rq_headers_; wire_ok r := headers_wf (rq_headers_ r) ∧ Forall header_ok (rq_headers_ r) |}.
  - by intros c [_ ?].
  - intros c k v [Hwf Hok] Hkv. cbn [carrier_Set request_carrier ReplaceHeader AddHeader set_headers rq_headers_]. destruct (headers_erase_range_spec k _ Hwf) as [Hwf1 _].
    split; [by apply headers_insert_spec|]. rewrite headers_insert_incl. constructor; [done|].
    rewrite list.Forall_forall in *. intros e He. by apply Hok, (headers_erase_incl k).
  - intros c k v k' [Hwf _]. cbn [carrier_Set request_carrier ReplaceHeader AddHeader set_headers rq_headers_].
    destruct (headers_erase_range_spec k _ Hwf) as [Hwf1 Hn1].
    destruct (headers_insert_spec k v _ Hwf1) as [_ Hn]. rewrite last_header_named, Hn, Hn1, same_name_key.
    destruct (decide (header_key k = header_key k')) as [E|E].
    + rewrite bool_decide_eq_true_2 by done. unfold last_header. cbn. by rewrite decide_True.
    + rewrite bool_decide_eq_false_2 by congruence. by rewrite app_nil_r, <-last_header_named.
Defined.

(** ** The injected headers are well-formed header lines *)

Lemma not_space_no_cr s : Forall (λ c, isspace c = false) s → no_cr s.
Proof. intros H. eapply list.Forall_impl; [exact H|]. by intros c Hc ->. Qed.

Lemma hex_not_space kHex rep : kHex = kHex_lower ∨ kHex = kHex_upper → Forall u8 rep → Forall (λ c, isspace c = false) (base16 kHex rep).
Proof.
  intros Hk Hr. pose proof (IsValidHex_base16 kHex Hk rep Hr) as H. unfold IsValidHex in H. apply forallb_Forall in H.
  eapply list.Forall_impl; [exact H|]. intros c Hc. by destruct (hex_digit_plain c Hc) as (_ & _ & ?).
Qed.

Lemma trace_parent_header sc : SpanContext_wf sc → header_ok (kTraceParent, trace_parent_text sc).
Proof.
  intros ((_ & Ht) & (_ & Hs) & Hf & _). split_and!; [by apply no_cr_bool| |by repeat constructor|by intros c v [= <- _]].
  apply not_space_no_cr. unfold trace_parent_text. cbn [snd]. change (B "00") with ["0"; "0"]%char.
  repeat (apply list.Forall_cons; split; [done|]). apply list.Forall_app. split; [apply hex_not_space; auto|].
  apply list.Forall_cons; split; [done|]. apply list.Forall_app. split; [apply hex_not_space; auto|].
  apply list.Forall_cons; split; [done|]. apply hex_not_space; [auto|]. constructor; [exact Hf|constructor].
Qed.

Lemma key_not_space k : IsValidKey k = true → k ≠ [] ∧ Forall (λ c, isspace c = false) k.
Proof.
  intros [Hne Hk]%IsValidKey_chars. split; [done|]. eapply list.Forall_impl; [exact Hk|]. by intros c (_ & _ & _ & ?)%key_char_ok.
Qed.

Lemma member_no_cr kv : valid_pair kv = true → no_cr (member_text kv).
Proof.
  destruct kv as [k v]. unfold valid_pair, member_text. cbn [fst snd].
  intros [[_ Hk]%key_not_space (_ & Hv & _)%IsValidValue_chars]%andb_true_iff.
  apply list.Forall_app. split; [by apply not_space_no_cr|]. apply list.Forall_cons. split; [done|].
  eapply list.Forall_impl; [exact Hv|]. intros c Hc ->. apply value_char_ok in Hc as (_ & _ & Hc). by specialize (Hc eq_refl).
Qed.

Lemma trace_state_header ts : ts_wf ts → header_ok (kTraceState, ToHeader ts).
Proof.
  intros [_ Hv]. rewrite ToHeader_join. split_and!; [by apply no_cr_bool| |by repeat constructor|]; cbn [snd].
  - destruct Hv as [|kv l Hkv Hl]; [constructor|]. rewrite fmap_cons. cbn [join]. apply list.Forall_app.
    split; [by apply member_no_cr|]. induction Hl as [|kv' l Hkv' _ IH]; [constructor|].
    rewrite fmap_cons, bind_cons. apply list.Forall_app. split; [|done]. apply list.Forall_cons. split; [done|]. by apply member_no_cr.
  - intros c v E. destruct Hv as [|[k w] l Hkv _]; [done|]. rewrite fmap_cons in E. cbn [join] in E.
    unfold valid_pair in Hkv. apply andb_true_iff in Hkv as [[Hne Hk]%key_not_space _]. cbn [fst] in *.
    destruct k as [|d k]; [done|]. injection E as <- _. inversion Hk as [|? ? Hd]. by destruct (ceq " " d) eqn:Ed; [apply ceq_true in Ed as <-|].
Qed.

Section client.
Context {C : Type} `{WireCarrier C}.

(** What the request of a client with a valid current span carries. *)
Lemma Inject_wire (c : C) sc :
  SpanContext_wf sc → wire_ok c → (ToHeader (trace_state_ sc) = [] → last_header (wire c) kTraceState = None) →
  let c' := InjectImpl c sc in
  wire_ok c' ∧ last_header (wire c') kTraceParent = Some (trace_parent_text sc) ∧
  default [] (last_header (wire c') kTraceState) = ToHeader (trace_state_ sc).
Proof using All.
  intros Hwf Hok Hts. unfold InjectImpl. rewrite trace_parent_of_text by (done || by rewrite length_replicate).
  assert (Hne : header_key kTraceParent ≠ header_key kTraceState) by (by vm_compute).
  assert (Hok1 : wire_ok (carrier_Set c kTraceParent (trace_parent_text sc))) by (by apply wire_ok_Set, trace_parent_header).
  cbv zeta. destruct (length (ToHeader (trace_state_ sc)) =? 0) eqn:E; cbn [negb].
  - apply Nat.eqb_eq, length_zero_iff_nil in E. split; [done|]. rewrite !wire_Set by done.
    rewrite decide_True, decide_False by done. by rewrite (Hts E), E.
  - split; [apply wire_ok_Set; [done|apply trace_state_header, Hwf]|]. rewrite !wire_Set by done.
    rewrite decide_False, !decide_True by congruence. done.
Qed.
End client.

(** ** The request at the server *)

Lemma find_crlf line r : no_cr line → find_sub CRLF (line ++ CRLF ++ r) 0 = Some (length line).
Proof.
  unfold find_sub. cbn [Nat.ltb Nat.leb]. rewrite drop_0. induction 1 as [|c l Hc _ IH]; [done|]. cbn [app find_sub_at].
  assert (E : is_prefix CRLF (c :: l ++ CRLF ++ r) = false) by (cbn [is_prefix CRLF]; by rewrite (proj2 (ceq_false _ _))).
  by rewrite E, find_sub_at_shift, IH.
Qed.

Lemma find_sub_hit n a b : find_sub n (a ++ n ++ b) 0 ≠ None.
Proof.
  unfold find_sub. cbn [Nat.ltb Nat.leb]. rewrite drop_0. generalize 0. induction a as [|c a IH]; intros pos; cbn [app].
  - assert (E : is_prefix n (n ++ b) = true) by (apply is_prefix_spec; by eexists).
    destruct (n ++ b); cbn [find_sub_at]; by rewrite E.
  - cbn [find_sub_at]. destruct (is_prefix _ _); [done|apply IH].
Qed.

(** A request line of version 1.x for a path, perhaps with a query. *)
Record line_ok (method path query : bytes) : Prop := {
  lk_method : method ≠ [];
  lk_method_word : Forall (λ c, isspace c = false) method;
  lk_path : ∃ r, path = "/"%char :: r;
  lk_path_word : Forall (λ c, isspace c = false ∧ ceq "?" c = false) path;
  lk_query_word : Forall (λ c, isspace c = false) query;
  lk_query : query = [] ∨ ∃ q, query = "?"%char :: q;
}.

Definition request_line (method path query : bytes) : bytes := method ++ " "%char :: path ++ query ++ B " HTTP/1.1".

Lemma request_line_no_cr method path query : line_ok method path query → no_cr (request_line method path query).
Proof.
  intros [_ Hm _ Hp Hq _]. unfold request_line. apply list.Forall_app. split; [by apply not_space_no_cr|].
  apply list.Forall_cons; split; [done|]. apply list.Forall_app. split; [apply not_space_no_cr; eapply list.Forall_impl; [exact Hp|]; by intros ? []|].
  apply list.Forall_app. split; [by apply not_space_no_cr|]. by repeat constructor.
Qed.

Lemma rendered_request_line method path query hs body :
  line_ok method path query →
  let text := render_request (request_line method path query) hs body in
  request_line_of text = Some (method, path) ∧ http_like text method path = true.
Proof.
  intros Hl. pose proof (request_line_no_cr _ _ _ Hl) as Hcr. destruct Hl as [Hm Hmw [pr Hpr] Hpw Hqw Hq]. cbv zeta. split.
  - unfold request_line_of, render_request. rewrite find_crlf by done. rewrite substr_spec by lia. cbn [mbind option_bind].
    rewrite Nat.sub_0_r || idtac. rewrite drop_0, take_app_length. unfold request_line.
    rewrite parse_request_line_words; [done|done|done| |done|done|done|]; [by rewrite Hpr|by intros c r' [= <- _]].
  - unfold http_like. destruct method as [|m0 ms]; [done|]. rewrite Hpr. cbn [length Nat.eqb negb Nat.leb nth andb].
    change (ceq "/" "/") with true. cbn [andb].
    destruct (find_sub (B "HTTP/1.") _ 0) eqn:E; [done|]. exfalso.
    apply (find_sub_hit (B "HTTP/1.") ((m0 :: ms) ++ " "%char :: path ++ query ++ B " ")
      (B "1" ++ CRLF ++ concat ((λ kv, render_header kv ++ CRLF) <$> hs) ++ CRLF ++ body)).
    rewrite <-E. f_equal. unfold render_request, request_line. rewrite Hpr. cbn. repeat (rewrite <-app_assoc; cbn). done.
Qed.

(** ** Across the wire *)

(** Without a traceparent header there is no parent. *)
Lemma Extract_nothing {C} `{TextMapCarrier C} (c : C) ctx : carrier_Get c kTraceParent = [] → HttpTraceContext_Extract c ctx = Some ctx.
Proof.
  intros E. destruct (Extract_cases c ctx) as (ctx' & -> & [(v & t & s & f & r & ts & Hw & _)|[-> _]]); [|done].
  rewrite E in Hw. destruct Hw as (Hw & _). exfalso. revert Hw. change (trim []) with (@nil ascii). by destruct v.
Qed.

Section two_services.
Context {C : Type} `{WireCarrier C} (c : C).

(** The parent that the server's propagator finds in the request of the client. *)
Lemma Extract_across ctx line body sc :
  GetContext (GetSpan ctx) = sc → SpanContext_wf sc → wire_ok c → no_cr line →
  last_header (wire c) kTraceParent = None → last_header (wire c) kTraceState = None →
  ∃ parent,
    HttpTraceContext_Extract (MkHeaderCarrier (Some (headers_spec (render_request line (wire (Inject HttpTraceContext c ctx)) body))))
      Context_default = Some parent ∧
    Forall header_ok (wire (Inject HttpTraceContext c ctx)) ∧
    if SpanContext_IsValid sc
    then ∃ ts, parent = SetSpan Context_default (DefaultSpan (SpanContext_new (trace_id_ sc) (span_id_ sc) (trace_flags_ sc) true ts)) ∧
           ts_pairs ts = ts_pairs (trace_state_ sc)
    else parent = Context_default.
Proof using All.
  intros Hsc Hwf Hok Hl Htp Hts. cbn [Inject HttpTraceContext]. unfold HttpTraceContext_Inject. rewrite Hsc.
  destruct (SpanContext_IsValid sc) eqn:Hv; cbn [negb].
  - destruct (Inject_wire c sc Hwf Hok ltac:(done)) as (Hok' & Hp & Hs). pose proof (wire_ok_headers _ Hok') as Hh.
    destruct (Extract_injected (MkHeaderCarrier (Some (headers_spec (render_request line (wire (InjectImpl c sc)) body)))) Context_default sc Hwf Hv)
      as (ts & E & Hpairs).
    + cbn [carrier_Get header_carrier]. by rewrite headers_spec_rendered, Hp.
    + cbn [carrier_Get header_carrier]. by rewrite headers_spec_rendered, Hs.
    + eexists. split; [exact E|]. split; [done|]. by exists ts.
  - exists Context_default. pose proof (wire_ok_headers _ Hok) as Hh. split; [|done]. apply Extract_nothing.
    cbn [carrier_Get header_carrier]. by rewrite headers_spec_rendered, Htp.
Qed.
End two_services.

(** C9: A trace continues across services: when a client sends a request carrying its current span, injected as W3C
    headers through any carrier whose content is sent as header lines, and the preloaded server reads the request on a free
    descriptor, the server span is named after the method and the path and its parent is the client's span - same trace,
    span identifier, flags and trace state, marked remote; without a valid current span at the client it has no parent. *)
Theorem distributed_trace {C : Type} `{WireCarrier C} (c : C) ctx sc env fd count s a p method path query body :
  GetContext (GetSpan ctx) = sc → SpanContext_wf sc → wire_ok c →
  last_header (wire c) kTraceParent = None → last_header (wire c) kTraceState = None →
  ready s a p → fd_span_map s !! fd = None → line_ok method path query →
  let text := render_request (request_line method path query) (wire (Inject HttpTraceContext c ctx)) body in
  os_read env fd count = (Z.of_nat (length text), text) →
  ∃ parent s', hook_read env fd count s = Ret (Z.of_nat (length text)) s' ∧
    fd_span_map s' !! fd = Some (MkFdSpanContext (next_span s) method path) ∧
    (∃ more, calls s' = calls s ++
       CStartSpan (next_span s) (method ++ B " " ++ path) (MkStartSpanOptions kServer (ParentContext parent)) :: more) ∧
    if SpanContext_IsValid sc
    then ∃ ts, parent = SetSpan Context_default (DefaultSpan (SpanContext_new (trace_id_ sc) (span_id_ sc) (trace_flags_ sc) true ts)) ∧
           ts_pairs ts = ts_pairs (trace_state_ sc)
    else parent = Context_default.
Proof.
  intros Hsc Hwf Hok Htp Hts Hr Hfd Hl text Hos.
  destruct (Extract_across c ctx (request_line method path query) body sc Hsc Hwf Hok (request_line_no_cr _ _ _ Hl) Htp Hts)
    as (parent & E & _ & Hparent).
  destruct (rendered_request_line method path query (wire (Inject HttpTraceContext c ctx)) body Hl) as [Hline Hhttp].
  assert (Hn : (0 < Z.of_nat (length text))%Z).
  { destruct Hl as [Hm _ _ _ _ _]. unfold text, render_request, request_line. destruct method; [done|]. cbn. lia. }
  assert (Htake : take (Z.to_nat (Z.of_nat (length text))) text = text) by (by rewrite Nat2Z.id, firstn_all).
  exists parent. eexists. split.
  { eapply (hook_read_request_run env fd count s a p _ text); rewrite ?Htake; done. }
  split; [apply lookup_insert_eq|]. split; [|done]. eexists. reflexivity.
Qed.

(** *** A run: a request of the HTTP client, read by the preloaded dice server *)

Definition example_request : Request := AddHeader (B "User-Agent") (B "probe") (AddHeader (B "Host") (B "dice:9090") Request_new).

Definition example_context : Context := SetSpan Context_default (DefaultSpan example_span_context).

Definition example_text : bytes :=
  render_request (request_line (B "GET") (B "/rolldice") (B "?n=2")) (wire (Inject HttpTraceContext example_request example_context)) [].

Definition wire_env : Env :=
  MkEnv (getenv init_env) (create init_env) (dlsym init_env) (os_accept init_env)
    (λ _ _, (Z.of_nat (length example_text), example_text)) (os_write init_env) (os_close init_env).

Example example_text_lines :
  crlf_lines [] example_text =
    [B "GET /rolldice?n=2 HTTP/1.1"; B "Host: dice:9090";
     B "traceparent: 00-0102030405060708090a0b0c0d0e0f10-aaabacadaeafb0b1-01";
     B "tracestate: congo@t1=t61rcWkgMzE,rojo=00f067aa0ba902b7"; B "User-Agent: probe"; []].
Proof. vm_compute. reflexivity. Qed.

Lemma distributed_trace_witness :
  ∃ parent s' ts, hook_read wire_env 7 4096 (with_real_calls example_ready) = Ret (Z.of_nat (length example_text)) s' ∧
    fd_span_map s' !! 7%Z = Some (MkFdSpanContext 0 (B "GET") (B "/rolldice")) ∧
    parent = SetSpan Context_default (DefaultSpan (SpanContext_new (TraceId_new (seqZ 1 16)) (SpanId_new (seqZ 170 8)) (TraceFlags_new 1) true ts)) ∧
    ts_pairs ts = [(B "congo@t1", B "t61rcWkgMzE"); (B "rojo", B "00f067aa0ba902b7")].
Proof.
  assert (Hr : ready (with_real_calls example_ready) (B "localhost") 9090).
  { split; [| |split; [|exists (B "9090"); split]| | |]; vm_compute; reflexivity. }
  assert (Hok : wire_ok example_request).
  { split; [|apply headers_ok_bool; vm_compute; reflexivity]. repeat (apply headers_insert_spec). constructor. }
  assert (Hl : line_ok (B "GET") (B "/rolldice") (B "?n=2")).
  { split; [done|by repeat constructor|by eexists|by repeat constructor|by repeat constructor|right; by eexists]. }
  destruct (distributed_trace example_request example_context example_span_context wire_env 7 4096 (with_real_calls example_ready)
    (B "localhost") 9090 (B "GET") (B "/rolldice") (B "?n=2") [] eq_refl example_span_context_wf Hok eq_refl eq_refl Hr eq_refl Hl eq_refl)
    as (parent & s' & Hread & Hmap & _ & Hparent).
  destruct Hparent as (ts & Hp & Hts). exists parent, s', ts.
  exact (conj Hread (conj Hmap (conj Hp Hts))).
Defined.
