(* ===== verification/CircularBuffer.v ===== *)
(** * The lock-free buffer of the batch exporters

    sdk/common/atomic_unique_ptr.h, circular_buffer_range.h and circular_buffer.h: many
    producers add, one consumer peeks and consumes.  Each atomic access of the code is one step
    of a relation that interleaves the threads; memory is sequentially consistent here, where
    the code asks for release and relaxed orders.  A pointer is a number, null is [None], and a
    weak compare-exchange may fail for no reason.  Counters wrap at 64 bits. *)
From S2P Require Export Cxx.

Definition w64 (z : Z) : Z := (z mod 2 ^ 64)%Z.

(** ** AtomicUniquePtr: the cell and the caller's [unique_ptr] *)

Definition Get (ptr_ : option nat) : option nat := ptr_.
Definition IsNull (ptr_ : option nat) : bool := match ptr_ with None => true | Some _ => false end.

(** The cell afterwards, the owner afterwards, the answer. *)
Definition SwapIfNull (spurious : bool) (ptr_ owner : option nat) : option nat * option nat * bool :=
  match ptr_ with
  | Some _ => (ptr_, owner, false)
  | None => if spurious then (None, owner, false) else (owner, None, negb (IsNull owner))
  end.

Definition Swap (ptr_ other : option nat) : option nat * option nat := (other, ptr_).

(** The cell afterwards, and what is deleted. *)
Definition Reset (ptr_ ptr : option nat) : option nat * option nat := (ptr, ptr_).

(** ** CircularBufferRange: two spans of the array, by offset and length *)

Record span := MkSpan { sp_data : nat; sp_size : nat }.
Record CircularBufferRange := MkRange { first_ : span; second_ : span }.

Definition span_empty : span := MkSpan 0 0.
Definition span_elems (s : span) : list nat := seq (sp_data s) (sp_size s).

(** The offsets of the elements, in order. *)
Definition range_elems (r : CircularBufferRange) : list nat := span_elems (first_ r) ++ span_elems (second_ r).

Definition range_size (r : CircularBufferRange) : nat := sp_size (first_ r) + sp_size (second_ r).
Definition range_empty (r : CircularBufferRange) : bool := sp_size (first_ r) =? 0.

(** One of the loops of [ForEach]: stops at the first element the callback refuses. *)
Fixpoint for_each_span {St} (callback : nat → St → St * bool) (l : list nat) (s : St) : St * bool :=
  match l with
  | [] => (s, true)
  | v :: l =>
      let '(s, ok) := callback v s in
      if ok then for_each_span callback l s else (s, false)
  end.

Definition ForEach {St} (callback : nat → St → St * bool) (r : CircularBufferRange) (s : St) : St * bool :=
  let '(s, ok) := for_each_span callback (span_elems (first_ r)) s in
  if negb ok then (s, false)
  else for_each_span callback (span_elems (second_ r)) s.

(** [assert(n <= size())] is the caller's. *)
Definition Take (r : CircularBufferRange) (n : nat) : CircularBufferRange :=
  if n <=? sp_size (first_ r) then MkRange (MkSpan (sp_data (first_ r)) n) span_empty
  else MkRange (first_ r) (MkSpan (sp_data (second_ r)) (n - sp_size (first_ r))).

(** ** CircularBuffer *)

Record CircularBuffer := MkCB {
  data_ : list (option nat);
  head_ : Z;
  tail_ : Z;
}.

Definition capacity_ (b : CircularBuffer) : Z := Z.of_nat (length (data_ b)).

Definition CircularBuffer_new (max_size : nat) : CircularBuffer := MkCB (replicate (max_size + 1) None) 0 0.

Definition max_size (b : CircularBuffer) : Z := (capacity_ b - 1)%Z.
Definition cb_empty (b : CircularBuffer) : bool := (head_ b =? tail_ b)%Z.
Definition cb_size (b : CircularBuffer) : Z := w64 (head_ b - tail_ b).
Definition consumption_count (b : CircularBuffer) : Z := tail_ b.
Definition production_count (b : CircularBuffer) : Z := head_ b.

(** The slot of a position. *)
Definition slot (cap p : Z) : nat := Z.to_nat (p mod cap).

Definition PeekImpl (b : CircularBuffer) : CircularBufferRange :=
  let tail_index := slot (capacity_ b) (tail_ b) in
  let head_index := slot (capacity_ b) (head_ b) in
  if head_index =? tail_index then MkRange span_empty span_empty
  else if tail_index <? head_index then MkRange (MkSpan tail_index (head_index - tail_index)) span_empty
  else MkRange (MkSpan tail_index (length (data_ b) - tail_index)) (MkSpan 0 head_index).

Definition Peek (b : CircularBuffer) : CircularBufferRange := PeekImpl b.

Definition with_cell (b : CircularBuffer) (i : nat) (c : option nat) : CircularBuffer :=
  MkCB (<[i := c]> (data_ b)) (head_ b) (tail_ b).

(** [head - tail >= capacity_ - 1] on what the producer read. *)
Definition is_full (b : CircularBuffer) (head tail : Z) : bool := (capacity_ b - 1 <=? w64 (head - tail))%Z.

(** ** The threads

    A producer inside [Add]: the object it was called with, its [unique_ptr], and the local
    variables read so far, at each point of the loop where it is about to touch memory. *)
Inductive producer :=
  | Idle
  | AtLoop (x : nat) (ptr : option nat)
  | HasTail (x : nat) (ptr : option nat) (tail : Z)
  | HasHead (x : nat) (ptr : option nat) (tail head : Z)
  | Swapped (x : nat) (ptr : option nat) (tail head : Z)
  | Undoing (x : nat) (ptr : option nat) (tail head : Z).

(** The consumer inside [Consume(n)]: after the assertion, with its range, and resetting the
    elements of the range that are left. *)
Inductive consumer :=
  | CIdle
  | CChecked (n : nat)
  | CRange (n : nat) (r : CircularBufferRange)
  | CReset (rest : list nat).

(** [added], [consumed] and [returned] record what happened: the objects in the order their
    additions took effect, those given to the consumer, and the answers of [Add]. *)
Record World := MkWorld {
  buf : CircularBuffer;
  producers : list producer;
  cons : consumer;
  fresh : nat;
  added : list nat;
  consumed : list nat;
  returned : list (nat * bool);
}.

Definition World_init (max_size : nat) : World := MkWorld (CircularBuffer_new max_size) [] CIdle 0 [] [] [].

Definition set_buf (w : World) (b : CircularBuffer) : World :=
  MkWorld b (producers w) (cons w) (fresh w) (added w) (consumed w) (returned w).
Definition set_pc (w : World) (k : nat) (p : producer) : World :=
  MkWorld (buf w) (<[k := p]> (producers w)) (cons w) (fresh w) (added w) (consumed w) (returned w).
Definition set_cons (w : World) (c : consumer) : World :=
  MkWorld (buf w) (producers w) c (fresh w) (added w) (consumed w) (returned w).
Definition answer (w : World) (k x : nat) (r : bool) : World :=
  MkWorld (buf w) (<[k := Idle]> (producers w)) (cons w) (fresh w) (added w) (consumed w) (returned w ++ [(x, r)]).

(** One step of a producer; [spurious] is whether a weak compare-exchange fails for no reason. *)
Definition producer_step (w : World) (k : nat) (spurious : bool) : option World :=
  pc ← producers w !! k;
  let b := buf w in
  match pc with
  | Idle => None
  | AtLoop x ptr => Some (set_pc w k (HasTail x ptr (tail_ b)))
  | HasTail x ptr tail =>
      let head := head_ b in
      if is_full b head tail then Some (answer w k x false)
      else Some (set_pc w k (HasHead x ptr tail head))
  | HasHead x ptr tail head =>
      let head_index := slot (capacity_ b) head in
      cell ← data_ b !! head_index;
      let '(cell, ptr, ok) := SwapIfNull spurious cell ptr in
      let w := set_buf w (with_cell b head_index cell) in
      Some (set_pc w k (if ok then Swapped x ptr tail head else AtLoop x ptr))
  | Swapped x ptr tail head =>
      let new_head := w64 (head + 1) in
      if negb spurious && (head_ b =? head)%Z then
        let w := MkWorld (MkCB (data_ b) new_head (tail_ b)) (producers w) (cons w) (fresh w) (added w ++ [x])
                   (consumed w) (returned w) in
        Some (answer w k x true)
      else Some (set_pc w k (Undoing x ptr tail head))
  | Undoing x ptr tail head =>
      let head_index := slot (capacity_ b) head in
      cell ← data_ b !! head_index;
      let '(cell, ptr) := Swap cell ptr in
      Some (set_pc (set_buf w (with_cell b head_index cell)) k (AtLoop x ptr))
  end.

(** One step of the consumer inside [Consume]. *)
Definition consumer_step (w : World) : option World :=
  let b := buf w in
  match cons w with
  | CIdle => None
  | CChecked n => Some (set_cons w (CRange n (Take (PeekImpl b) n)))
  | CRange n r =>
      Some (set_cons (set_buf w (MkCB (data_ b) (head_ b) (w64 (tail_ b + Z.of_nat n)))) (CReset (range_elems r)))
  | CReset [] => Some (set_cons w CIdle)
  | CReset (i :: rest) =>
      cell ← data_ b !! i;
      let '(cell, deleted) := Reset cell None in
      Some (MkWorld (with_cell b i cell) (producers w) (CReset rest) (fresh w) (added w)
              (consumed w ++ option_list deleted) (returned w))
  end.

Inductive world_step : World → World → Prop :=
  | step_spawn w : world_step w (MkWorld (buf w) (producers w ++ [Idle]) (cons w) (fresh w) (added w) (consumed w) (returned w))
  | step_add w k :
      producers w !! k = Some Idle →
      world_step w (MkWorld (buf w) (<[k := AtLoop (fresh w) (Some (fresh w))]> (producers w)) (cons w) (S (fresh w))
                      (added w) (consumed w) (returned w))
  | step_producer w k spurious w' : producer_step w k spurious = Some w' → world_step w w'
  | step_consume w n :
      cons w = CIdle → (Z.of_nat n ≤ cb_size (buf w))%Z → world_step w (set_cons w (CChecked n))
  | step_consumer w w' : consumer_step w = Some w' → world_step w w'.

(** ** Slots *)

Lemma slot_lt cap p : (0 < cap)%Z → (Z.of_nat (slot cap p) < cap)%Z.
Proof. intros Hc. unfold slot. pose proof (Z.mod_pos_bound p cap Hc). lia. Qed.

Lemma slot_apart cap p q : (0 < cap)%Z → (p < q < p + cap)%Z → slot cap p ≠ slot cap q.
Proof.
  intros Hc Hpq E. unfold slot in E. pose proof (Z.mod_pos_bound p cap Hc). pose proof (Z.mod_pos_bound q cap Hc).
  assert (Em : (q mod cap = p mod cap)%Z) by lia.
  assert (Hd : ((q - p) mod cap = 0)%Z) by (rewrite Zminus_mod, Em, Z.sub_diag; apply Z.mod_0_l; lia).
  rewrite Z.mod_small in Hd by lia. lia.
Qed.

Lemma slot_period cap p : slot cap (p + cap) = slot cap p.
Proof. unfold slot. replace (p + cap)%Z with (p + 1 * cap)%Z by lia. by rewrite Z_mod_plus_full. Qed.

Lemma slot_add cap t j :
  (0 < cap)%Z → (0 ≤ j ≤ cap)%Z →
  slot cap (t + j) = if decide (t mod cap + j < cap)%Z then slot cap t + Z.to_nat j
                     else slot cap t + Z.to_nat j - Z.to_nat cap.
Proof.
  intros Hc Hj. unfold slot. pose proof (Z.mod_pos_bound t cap Hc) as Ht.
  rewrite <-Zplus_mod_idemp_l. case_decide as Hd.
  - rewrite Z.mod_small by lia. lia.
  - destruct (decide (t mod cap + j = cap + cap)%Z) as [E|E]; [lia|].
    rewrite <-(Z_mod_plus_full _ (-1)). rewrite Z.mod_small by lia. lia.
Qed.

(** What the consumer sees: the slots of the positions from the tail to the head, in order. *)
Lemma PeekImpl_spec b :
  (0 < capacity_ b)%Z → (tail_ b ≤ head_ b)%Z → (head_ b - tail_ b < capacity_ b)%Z →
  range_elems (PeekImpl b) = slot (capacity_ b) <$> seqZ (tail_ b) (head_ b - tail_ b).
Proof.
  intros Hc Ho Hd. set (cap := capacity_ b) in *. set (d := (head_ b - tail_ b)%Z) in *.
  assert (Hh : head_ b = (tail_ b + d)%Z) by lia.
  pose proof (slot_lt cap (tail_ b) Hc) as Ht. pose proof (slot_lt cap (head_ b) Hc) as Hhl.
  pose proof (slot_add cap (tail_ b) d Hc ltac:(lia)) as Hs. rewrite <-Hh in Hs.
  assert (Hs' : (tail_ b mod cap + d < cap)%Z ∧ slot cap (head_ b) = slot cap (tail_ b) + Z.to_nat d ∨
                (cap <= tail_ b mod cap + d)%Z ∧ slot cap (head_ b) = slot cap (tail_ b) + Z.to_nat d - Z.to_nat cap)
    by (case_decide; [left|right]; split; (done || lia)).
  clear Hs.
  assert (Em : Z.of_nat (slot cap (tail_ b)) = (tail_ b mod cap)%Z).
  { unfold slot. pose proof (Z.mod_pos_bound (tail_ b) cap Hc). lia. }
  assert (Hcap : Z.to_nat cap = length (data_ b)) by (unfold cap, capacity_; lia).
  apply list_eq. intros i. rewrite list_lookup_fmap.
  assert (Hlen : length (range_elems (PeekImpl b)) = Z.to_nat d).
  { unfold PeekImpl, range_elems, span_elems. fold cap.
    destruct (slot cap (head_ b) =? slot cap (tail_ b)) eqn:E1; bprop.
    - cbn. lia.
    - destruct (slot cap (tail_ b) <? slot cap (head_ b)) eqn:E2; bprop; cbn [first_ second_ sp_data sp_size];
        rewrite length_app, !length_seq; cbn [sp_size span_empty]; lia. }
  destruct (decide (i < Z.to_nat d)) as [Hi|Hi].
  2: { rewrite lookup_ge_None_2 by lia. by rewrite lookup_seqZ_ge by lia. }
  rewrite lookup_seqZ_lt by lia. cbn [fmap option_fmap option_map].
  rewrite slot_add by lia. unfold PeekImpl, range_elems, span_elems. fold cap.
  destruct (slot cap (head_ b) =? slot cap (tail_ b)) eqn:E1; bprop.
  - exfalso. lia.
  - destruct (slot cap (tail_ b) <? slot cap (head_ b)) eqn:E2; bprop; cbn [first_ second_ sp_data sp_size].
    + rewrite decide_True by lia.
      rewrite lookup_app_l by (rewrite length_seq; lia). rewrite lookup_seq_lt by lia. f_equal. lia.
    + case_decide.
      * rewrite lookup_app_l by (rewrite length_seq; lia). rewrite lookup_seq_lt by lia. f_equal. lia.
      * rewrite lookup_app_r by (rewrite length_seq; lia). rewrite length_seq, lookup_seq_lt by lia. f_equal. lia.
Qed.

Lemma Take_spec r n : n ≤ range_size r → range_elems (Take r n) = take n (range_elems r).
Proof.
  unfold range_size, Take, range_elems. intros Hn. destruct (n <=? sp_size (first_ r)) eqn:E; bprop;
    cbn [first_ second_]; unfold span_elems; cbn [sp_data sp_size span_empty].
  - rewrite take_app_le by (rewrite length_seq; lia). cbn [seq]. rewrite app_nil_r.
    rewrite take_seq. by rewrite Nat.min_l by lia.
  - rewrite take_app_ge by (rewrite length_seq; lia). f_equal. rewrite length_seq, take_seq. by rewrite Nat.min_l by lia.
Qed.

(** ** The invariant

    Positions from [ctail] on (the tail, less what the consumer has not reset yet) to the head
    are live: their slots hold the objects added there.  A producer between its swap and the
    end of its attempt holds one more slot, outside the live ones. *)

Definition pending (c : consumer) : Z := match c with CReset rest => Z.of_nat (length rest) | _ => 0 end.
Definition ctail (b : CircularBuffer) (c : consumer) : Z := (tail_ b - pending c)%Z.

Definition holds (pc : producer) : option (nat * Z) :=
  match pc with Swapped x _ _ h | Undoing x _ _ h => Some (x, h) | _ => None end.

Definition locals_ok (b : CircularBuffer) (t h : Z) : Prop :=
  (0 ≤ t ≤ tail_ b ∧ t ≤ h ≤ head_ b ∧ h - t < capacity_ b - 1)%Z.

Definition pc_ok (b : CircularBuffer) (pc : producer) : Prop :=
  match pc with
  | Idle => True
  | AtLoop x ptr => ptr = Some x
  | HasTail x ptr t => ptr = Some x ∧ (0 ≤ t ≤ tail_ b)%Z
  | HasHead x ptr t h => ptr = Some x ∧ locals_ok b t h
  | Swapped x ptr t h | Undoing x ptr t h => ptr = None ∧ locals_ok b t h
  end.

Definition cons_ok (b : CircularBuffer) (c : consumer) : Prop :=
  match c with
  | CIdle => True
  | CChecked n => (tail_ b + Z.of_nat n ≤ head_ b)%Z
  | CRange n r => (tail_ b + Z.of_nat n ≤ head_ b)%Z ∧
                  range_elems r = slot (capacity_ b) <$> seqZ (tail_ b) (Z.of_nat n)
  | CReset rest => rest = slot (capacity_ b) <$> seqZ (ctail b c) (Z.of_nat (length rest))
  end.

Definition live (b : CircularBuffer) (c : consumer) (p : Z) : Prop := (ctail b c ≤ p < head_ b)%Z.

Record Inv (b : CircularBuffer) (ps : list producer) (c : consumer) (ad co : list nat) : Prop := MkInv {
  i_cap : (0 < capacity_ b)%Z;
  i_head : head_ b = Z.of_nat (length ad);
  i_order : (0 ≤ ctail b c ∧ tail_ b ≤ head_ b)%Z;
  i_room : (head_ b - tail_ b ≤ capacity_ b - 1 ∧ head_ b - ctail b c ≤ capacity_ b)%Z;
  i_live : ∀ p, live b c p → data_ b !! slot (capacity_ b) p = Some (ad !! Z.to_nat p);
  i_held : ∀ k pc x h, ps !! k = Some pc → holds pc = Some (x, h) →
    data_ b !! slot (capacity_ b) h = Some (Some x) ∧
    ∀ p, live b c p → slot (capacity_ b) p ≠ slot (capacity_ b) h;
  i_apart : ∀ k k' pc pc' x h x' h', k ≠ k' → ps !! k = Some pc → ps !! k' = Some pc' →
    holds pc = Some (x, h) → holds pc' = Some (x', h') → slot (capacity_ b) h ≠ slot (capacity_ b) h';
  i_pcs : ∀ k pc, ps !! k = Some pc → pc_ok b pc;
  i_cons : cons_ok b c;
  i_consumed : co = take (Z.to_nat (ctail b c)) ad;
  i_why : ∀ i y, data_ b !! i = Some (Some y) →
    (∃ p, live b c p ∧ slot (capacity_ b) p = i) ∨
    (∃ k pc x h, ps !! k = Some pc ∧ holds pc = Some (x, h) ∧ slot (capacity_ b) h = i);
}.

Lemma pending_nonneg c : (0 ≤ pending c)%Z.
Proof. destruct c; simpl; lia. Qed.

Lemma Inv_slot b ps c ad co p : Inv b ps c ad co → slot (capacity_ b) p < length (data_ b).
Proof. intros H. pose proof (slot_lt (capacity_ b) p (i_cap _ _ _ _ _ H)). unfold capacity_ in *. lia. Qed.

Lemma capacity_with_cell b i cell : capacity_ (with_cell b i cell) = capacity_ b.
Proof. unfold capacity_, with_cell. cbn [data_]. by rewrite length_insert. Qed.

(** A producer moves without touching the buffer, holding what it held. *)
Lemma Inv_move b ps c ad co k pc pc' :
  Inv b ps c ad co → ps !! k = Some pc → holds pc' = holds pc → pc_ok b pc' → Inv b (<[k := pc']> ps) c ad co.
Proof.
  intros H Hk Hh Hok.
  assert (Hold : ∀ j q y, <[k := pc']> ps !! j = Some q → holds q = Some y → ∃ q0, ps !! j = Some q0 ∧ holds q0 = Some y).
  { intros j q y [(<- & <- & _)|[Hne Hj]]%list_lookup_insert_Some Hy; [|eauto].
    rewrite Hh in Hy. eauto. }
  destruct H as [Hcap Hhead Hord Hroom Hlive Hheld Hap Hpcs Hcons Hco Hwhy]. split; try done.
  - intros j q x h Hj Hq. destruct (Hold _ _ _ Hj Hq) as (q0 & Hj0 & Hq0). by apply (Hheld j q0).
  - intros j j' q q' x h x' h' Hne Hj Hj' Hq Hq'. destruct (Hold _ _ _ Hj Hq) as (q0 & Hj0 & Hq0).
    destruct (Hold _ _ _ Hj' Hq') as (q1 & Hj1 & Hq1). by apply (Hap j j' q0 q1 x h x' h').
  - intros j q [(<- & <- & _)|[Hne Hj]]%list_lookup_insert_Some; [done|by apply (Hpcs j)].
  - intros i y Hi. destruct (Hwhy i y Hi) as [?|(j & q & x & h & Hj & Hq & Hs)]; [by left|right].
    destruct (decide (j = k)) as [->|Hne].
    + exists k, pc', x, h. rewrite Hk in Hj. injection Hj as ->. split_and!; [|by rewrite Hh|done].
      apply list_lookup_insert_eq. by eapply lookup_lt_Some.
    + exists j, q, x, h. by rewrite list_lookup_insert_ne by done.
Qed.

Lemma Inv_spawn b ps c ad co : Inv b ps c ad co → Inv b (ps ++ [Idle]) c ad co.
Proof.
  intros H.
  assert (Hold : ∀ j q, (ps ++ [Idle]) !! j = Some q → ps !! j = Some q ∨ q = Idle).
  { intros j q [Hj|[_ [_ <-]%list_lookup_singleton_Some]]%lookup_app_Some; auto. }
  destruct H as [Hcap Hhead Hord Hroom Hlive Hheld Hap Hpcs Hcons Hco Hwhy]. split; try done.
  - intros j q x h Hj Hq. destruct (Hold _ _ Hj) as [Hj'| ->]; [by apply (Hheld j q)|done].
  - intros j j' q q' x h x' h' Hne Hj Hj' Hq Hq'. destruct (Hold _ _ Hj) as [Hj0| ->]; [|done].
    destruct (Hold _ _ Hj') as [Hj1| ->]; [|done]. by apply (Hap j j' q q' x h x' h').
  - intros j q Hj. destruct (Hold _ _ Hj) as [Hj'| ->]; [by apply (Hpcs j)|done].
  - intros i y Hi. destruct (Hwhy i y Hi) as [?|(j & q & x & h & Hj & Hq & Hs)]; [by left|right].
    exists j, q, x, h. by rewrite (lookup_app_l_Some _ _ _ _ Hj).
Qed.

(** The swap found the slot null. *)
Lemma Inv_swap b ps c ad co k x t h :
  Inv b ps c ad co → ps !! k = Some (HasHead x (Some x) t h) → data_ b !! slot (capacity_ b) h = Some None →
  Inv (with_cell b (slot (capacity_ b) h) (Some x)) (<[k := Swapped x None t h]> ps) c ad co.
Proof.
  intros H Hk Hnull. pose proof (Inv_slot _ _ _ _ _ h H) as Hlt.
  destruct H as [Hcap Hhead Hord Hroom Hlive Hheld Hap Hpcs Hcons Hco Hwhy].
  assert (Hfree : ∀ p, live b c p → slot (capacity_ b) p ≠ slot (capacity_ b) h).
  { intros p Hp E. specialize (Hlive p Hp). rewrite E, Hnull in Hlive. injection Hlive as Hl.
    symmetry in Hl. apply lookup_ge_None in Hl. destruct Hp. lia. }
  assert (Hothers : ∀ j q y g, ps !! j = Some q → holds q = Some (y, g) → slot (capacity_ b) g ≠ slot (capacity_ b) h).
  { intros j q y g Hj Hq E. destruct (Hheld j q y g Hj Hq) as [Hd _]. rewrite E, Hnull in Hd. done. }
  split; rewrite ?capacity_with_cell; try done.
  - intros p Hp. cbn [with_cell data_]. rewrite list_lookup_insert_ne by (by apply not_eq_sym, Hfree). by apply Hlive.
  - intros j q y g [(<- & <- & _)|[Hne Hj]]%list_lookup_insert_Some Hq.
    + cbn [holds] in Hq. injection Hq as <- <-. cbn [with_cell data_]. by rewrite list_lookup_insert_eq.
    + cbn [with_cell data_]. rewrite list_lookup_insert_ne by (by eapply not_eq_sym, Hothers). by apply (Hheld j q).
  - intros j j' q q' y g y' g' Hne [(<- & <- & _)|[Hnj Hj]]%list_lookup_insert_Some
      [(Hkk & <- & _)|[Hnj' Hj']]%list_lookup_insert_Some Hq Hq'; cbn [holds] in *.
    + by subst.
    + injection Hq as <- <-. by eapply not_eq_sym, Hothers.
    + injection Hq' as <- <-. by eapply Hothers.
    + by apply (Hap j j' q q' y g y' g').
  - intros j q [(<- & <- & _)|[Hne Hj]]%list_lookup_insert_Some.
    + specialize (Hpcs _ _ Hk). cbn [pc_ok] in *. unfold locals_ok in *. rewrite capacity_with_cell. by destruct Hpcs.
    + specialize (Hpcs _ _ Hj). destruct q; cbn [pc_ok] in *; unfold locals_ok in *; by rewrite ?capacity_with_cell.
  - destruct c; cbn [cons_ok] in *; rewrite ?capacity_with_cell; done.
  - intros i y [(<- & _ & _)|[Hne Hi]]%list_lookup_insert_Some.
    + right. exists k, (Swapped x None t h), x, h. split_and!; [|done|done].
      apply list_lookup_insert_eq. by eapply lookup_lt_Some.
    + destruct (Hwhy i y Hi) as [?|(j & q & x' & h' & Hj & Hq & Hs)]; [by left|right].
      exists j, q, x', h'. destruct (decide (j = k)) as [->|Hjk]; [by rewrite Hk in Hj; injection Hj as <-|].
      by rewrite list_lookup_insert_ne by done.
Qed.

(** The head moved on: the slot held becomes live. *)
Lemma Inv_publish b ps c ad co k x t :
  Inv b ps c ad co → ps !! k = Some (Swapped x None t (head_ b)) → (Z.of_nat (length (ad ++ [x])) < 2 ^ 64)%Z →
  Inv (MkCB (data_ b) (w64 (head_ b + 1)) (tail_ b)) (<[k := Idle]> ps) c (ad ++ [x]) co.
Proof.
  intros H Hk Hb. rewrite length_app in Hb. cbn [length] in Hb.
  destruct H as [Hcap Hhead Hord Hroom Hlive Hheld Hap Hpcs Hcons Hco Hwhy].
  assert (Hw : w64 (head_ b + 1) = (head_ b + 1)%Z) by (unfold w64; apply Z.mod_small; lia). rewrite Hw.
  destruct (Hheld k _ x (head_ b) Hk eq_refl) as [Hd Hfree].
  pose proof (Hpcs _ _ Hk) as [_ Hloc]. unfold locals_ok in Hloc.
  assert (Hct : ∀ h', ctail (MkCB (data_ b) h' (tail_ b)) c = ctail b c) by done.
  assert (Hlt : (head_ b - ctail b c < capacity_ b)%Z).
  { destruct (decide (head_ b - ctail b c = capacity_ b)%Z) as [E|]; [|lia]. exfalso.
    apply (Hfree (ctail b c)); [unfold live; lia|]. rewrite <-(slot_period _ (ctail b c)). f_equal. lia. }
  split; rewrite ?Hct; unfold capacity_ in *; cbn [data_ head_ tail_]; try done; try lia.
  - rewrite length_app. cbn [length]. lia.
  - intros p [Hp1 Hp2]. rewrite Hct in Hp1. cbn [head_] in Hp2. destruct (decide (p = head_ b)) as [->|Hne].
    + rewrite Hd. f_equal. rewrite Hhead, Nat2Z.id. symmetry. by apply list_lookup_middle.
    + rewrite Hlive by (split; lia). f_equal. rewrite lookup_app_l; [done|]. lia.
  - intros j q y g [(<- & <- & _)|[Hne Hj]]%list_lookup_insert_Some Hq; [done|].
    destruct (Hheld j q y g Hj Hq) as [Hdj Hfj]. split; [done|]. intros p [Hp1 Hp2]. rewrite Hct in Hp1. cbn [head_] in Hp2.
    destruct (decide (p = head_ b)) as [->|Hnp]; [|apply Hfj; split; lia].
    by apply (Hap k j (Swapped x None t (head_ b)) q x (head_ b) y g).
  - intros j j' q q' y g y' g' Hne [(<- & <- & _)|[Hnj Hj]]%list_lookup_insert_Some; [done|].
    intros [(<- & <- & _)|[Hnj' Hj']]%list_lookup_insert_Some; [done|]. by apply (Hap j j' q q' y g y' g').
  - intros j q [(<- & <- & _)|[Hne Hj]]%list_lookup_insert_Some; [done|].
    specialize (Hpcs _ _ Hj). destruct q; cbn [pc_ok] in *; unfold locals_ok, capacity_ in *; cbn [data_ head_ tail_];
      naive_solver lia.
  - destruct c; cbn [cons_ok] in *; unfold capacity_ in *; cbn [data_ head_ tail_]; naive_solver lia.
  - rewrite take_app_le; [done|]. pose proof (pending_nonneg c). unfold ctail in *. lia.
  - intros i y Hi. unfold live. rewrite Hct. cbn [head_].
    destruct (Hwhy i y Hi) as [(p & [Hp1 Hp2] & Hs)|(j & q & x' & h' & Hj & Hq & Hs)].
    + left. exists p. split; [lia|done].
    + destruct (decide (j = k)) as [->|Hjk].
      * left. exists (head_ b). rewrite Hk in Hj. injection Hj as <-. cbn [holds] in Hq. injection Hq as <- <-.
        pose proof (pending_nonneg c). unfold ctail in *. split; [lia|done].
      * right. exists j, q, x', h'. by rewrite list_lookup_insert_ne by done.
Qed.

(** The attempt failed: the slot held is given back. *)
Lemma Inv_undo b ps c ad co k x t h :
  Inv b ps c ad co → ps !! k = Some (Undoing x None t h) →
  Inv (with_cell b (slot (capacity_ b) h) None) (<[k := AtLoop x (Some x)]> ps) c ad co.
Proof.
  intros H Hk. destruct H as [Hcap Hhead Hord Hroom Hlive Hheld Hap Hpcs Hcons Hco Hwhy].
  destruct (Hheld k _ x h Hk eq_refl) as [_ Hfree].
  split; rewrite ?capacity_with_cell; try done.
  - intros p Hp. cbn [with_cell data_]. rewrite list_lookup_insert_ne by (by apply not_eq_sym, Hfree). by apply Hlive.
  - intros j q y g [(<- & <- & _)|[Hne Hj]]%list_lookup_insert_Some Hq; [done|]. cbn [with_cell data_].
    rewrite list_lookup_insert_ne by (by apply (Hap k j (Undoing x None t h) q x h y g)). by apply (Hheld j q).
  - intros j j' q q' y g y' g' Hne [(<- & <- & _)|[Hnj Hj]]%list_lookup_insert_Some; [done|].
    intros [(<- & <- & _)|[Hnj' Hj']]%list_lookup_insert_Some; [done|]. by apply (Hap j j' q q' y g y' g').
  - intros j q [(<- & <- & _)|[Hne Hj]]%list_lookup_insert_Some; [done|].
    specialize (Hpcs _ _ Hj). destruct q; cbn [pc_ok] in *; unfold locals_ok in *; by rewrite ?capacity_with_cell.
  - destruct c; cbn [cons_ok] in *; rewrite ?capacity_with_cell; done.
  - intros i y [(_ & ? & _)|[Hne Hi]]%list_lookup_insert_Some; [done|].
    destruct (Hwhy i y Hi) as [?|(j & q & x' & h' & Hj & Hq & Hs)]; [by left|right].
    exists j, q, x', h'. destruct (decide (j = k)) as [->|Hjk]; [|by rewrite list_lookup_insert_ne by done].
    rewrite Hk in Hj. injection Hj as <-. cbn [holds] in Hq. by injection Hq as <- <-.
Qed.

(** The consumer moves without touching the buffer. *)
Lemma Inv_cons b ps c c' ad co : Inv b ps c ad co → pending c' = pending c → cons_ok b c' → Inv b ps c' ad co.
Proof.
  intros [Hcap Hhead Hord Hroom Hlive Hheld Hap Hpcs Hcons Hco Hwhy] Hp Hok.
  assert (Hct : ctail b c' = ctail b c) by (unfold ctail; by rewrite Hp).
  split; unfold live in *; rewrite ?Hct; done.
Qed.

Lemma Inv_bump b ps ad co n r :
  Inv b ps (CRange n r) ad co → (Z.of_nat (length ad) < 2 ^ 64)%Z →
  Inv (MkCB (data_ b) (head_ b) (w64 (tail_ b + Z.of_nat n))) ps (CReset (range_elems r)) ad co.
Proof.
  intros [Hcap Hhead Hord Hroom Hlive Hheld Hap Hpcs [Hn Hr] Hco Hwhy] Hb. unfold ctail in *. cbn [pending] in *.
  assert (Hw : w64 (tail_ b + Z.of_nat n) = (tail_ b + Z.of_nat n)%Z) by (unfold w64; apply Z.mod_small; lia).
  assert (Hlen : length (range_elems r) = n) by (rewrite Hr, length_fmap, length_seqZ; lia).
  assert (Hct : ctail (MkCB (data_ b) (head_ b) (w64 (tail_ b + Z.of_nat n))) (CReset (range_elems r)) = (tail_ b - 0)%Z).
  { unfold ctail. cbn [tail_ pending]. rewrite Hlen, Hw. lia. }
  split; unfold live, capacity_ in *; rewrite ?Hct; cbn [data_ head_ tail_]; rewrite ?Hw; try done; try lia.
  - intros j q Hj. specialize (Hpcs j q Hj). destruct q; cbn [pc_ok] in *; unfold locals_ok, capacity_ in *;
      cbn [data_ head_ tail_]; naive_solver lia.
  - cbn [cons_ok]. rewrite Hw in Hct. rewrite Hct, Hlen. unfold capacity_. cbn [data_]. rewrite Z.sub_0_r. exact Hr.
Qed.

(** The oldest live slot is emptied. *)
Lemma Inv_reset b ps ad co i rest :
  Inv b ps (CReset (i :: rest)) ad co →
  ∃ x, data_ b !! i = Some (Some x) ∧ Inv (with_cell b i None) ps (CReset rest) ad (co ++ [x]).
Proof.
  intros [Hcap Hhead Hord Hroom Hlive Hheld Hap Hpcs Hcons Hco Hwhy]. cbn [cons_ok] in Hcons.
  set (q := ctail b (CReset (i :: rest))) in *.
  assert (Hct : ctail (with_cell b i None) (CReset rest) = (q + 1)%Z).
  { subst q. unfold ctail, with_cell. cbn [tail_ pending length]. lia. }
  assert (Hq : (q < tail_ b)%Z) by (subst q; unfold ctail; cbn [pending length]; lia).
  rewrite seqZ_cons in Hcons by (cbn [length]; lia). cbn [fmap list_fmap] in Hcons. injection Hcons as Hi Hrest.
  assert (Hql : live b (CReset (i :: rest)) q) by (unfold live; fold q; lia).
  pose proof (Hlive q Hql) as Hd. rewrite <-Hi in Hd.
  destruct (lookup_lt_is_Some_2 ad (Z.to_nat q)) as [x Hx]; [lia|]. rewrite Hx in Hd. exists x. split; [done|].
  assert (Hlv : ∀ p, live (with_cell b i None) (CReset rest) p → live b (CReset (i :: rest)) p ∧ i ≠ slot (capacity_ b) p).
  { intros p [Hp1 Hp2]. rewrite Hct in Hp1. cbn [with_cell head_] in Hp2. split; [unfold live; fold q; lia|].
    rewrite Hi. apply slot_apart; [done|]. lia. }
  split; rewrite ?capacity_with_cell, ?Hct; cbn [with_cell data_ head_ tail_]; try done; try lia.
  - intros p Hp. destruct (Hlv p Hp). rewrite list_lookup_insert_ne by done. by apply Hlive.
  - intros j pc y g Hj Hpc. destruct (Hheld j pc y g Hj Hpc) as [Hdj Hfj]. split.
    + rewrite list_lookup_insert_ne; [done|]. rewrite Hi. by apply Hfj.
    + intros p Hp. apply Hfj. by apply Hlv.
  - intros j pc Hj. specialize (Hpcs j pc Hj). destruct pc; cbn [pc_ok] in *; unfold locals_ok in *;
      by rewrite ?capacity_with_cell.
  - cbn [cons_ok]. rewrite capacity_with_cell. fold (with_cell b i None). rewrite Hct. rewrite Hrest at 1. f_equal.
    f_equal; cbn [length]; lia.
  - rewrite Hco. replace (Z.to_nat (q + 1)) with (S (Z.to_nat q)) by lia. by rewrite (take_S_r _ _ x).
  - intros j y [(_ & ? & _)|[Hne Hj]]%list_lookup_insert_Some; [done|].
    destruct (Hwhy j y Hj) as [(p & [Hp1 Hp2] & Hs)|Hheldj]; [left|by right].
    exists p. split; [|done]. unfold live. fold (with_cell b i None). rewrite Hct. cbn [with_cell head_].
    fold q in Hp1. destruct (decide (p = q)) as [->|]; [congruence|lia].
Qed.

(** ** Every step keeps the invariant *)

Definition winv (w : World) : Prop :=
  (Z.of_nat (length (added w)) < 2 ^ 64)%Z → Inv (buf w) (producers w) (cons w) (added w) (consumed w).

Lemma Inv_init m : Inv (CircularBuffer_new m) [] CIdle [] [].
Proof.
  unfold CircularBuffer_new. split; unfold live, ctail, capacity_; cbn [data_ head_ tail_ pending length take cons_ok];
    rewrite ?length_replicate; try done; try lia.
  intros i y [Hi _]%lookup_replicate. done.
Qed.

Lemma Inv_locals b ps c ad co k pc : Inv b ps c ad co → ps !! k = Some pc → pc_ok b pc.
Proof. intros H. by apply (i_pcs _ _ _ _ _ H). Qed.

(** The test for a full buffer, when the counters did not wrap. *)
Lemma is_full_spec b ps c ad co t :
  Inv b ps c ad co → (Z.of_nat (length ad) < 2 ^ 64)%Z → (0 ≤ t ≤ tail_ b)%Z →
  is_full b (head_ b) t = (capacity_ b - 1 <=? head_ b - t)%Z.
Proof.
  intros H Hb Ht. pose proof (i_head _ _ _ _ _ H). pose proof (i_order _ _ _ _ _ H). unfold is_full, w64.
  by rewrite Z.mod_small by lia.
Qed.

Lemma producer_step_inv w k spurious w' : winv w → producer_step w k spurious = Some w' → winv w'.
Proof.
  intros Hw Hs Hb. unfold producer_step in Hs. destruct (producers w !! k) as [pc|] eqn:Hk; [|done].
  cbn [mbind option_bind] in Hs. destruct pc as [|x ptr|x ptr t|x ptr t h|x ptr t h|x ptr t h].
  - done.
  - injection Hs as <-. cbn in *. specialize (Hw Hb). pose proof (Inv_locals _ _ _ _ _ _ _ Hw Hk) as Hl.
    apply (Inv_move _ _ _ _ _ k (AtLoop x ptr)); [done..|]. pose proof (i_order _ _ _ _ _ Hw).
    pose proof (pending_nonneg (cons w)). unfold ctail in *. cbn [pc_ok] in *. split; [done|lia].
  - destruct (is_full _ _ _) eqn:Ef; injection Hs as <-; cbn in Hb; specialize (Hw Hb);
      pose proof (Inv_locals _ _ _ _ _ _ _ Hw Hk) as [Hptr Ht];
      apply (Inv_move _ _ _ _ _ k (HasTail x ptr t)); try done.
    rewrite (is_full_spec _ _ _ _ _ _ Hw Hb Ht) in Ef. bprop. pose proof (i_order _ _ _ _ _ Hw).
    cbn [pc_ok set_pc buf]. unfold locals_ok. split; [done|lia].
  - destruct (data_ (buf w) !! slot (capacity_ (buf w)) h) as [cell|] eqn:Hc; [|done]. cbn [mbind option_bind] in Hs.
    destruct cell as [y|]; [|destruct spurious]; cbn [SwapIfNull] in Hs; injection Hs as <-; cbn in Hb; specialize (Hw Hb);
      pose proof (Inv_locals _ _ _ _ _ _ _ Hw Hk) as [-> Hl]; cbn [IsNull negb].
    1, 2: cbn; unfold with_cell; rewrite list_insert_id by done; destruct (buf w);
      by apply (Inv_move _ _ _ _ _ k (HasHead x (Some x) t h)).
    by apply Inv_swap.
  - destruct (negb spurious && (head_ (buf w) =? h)%Z) eqn:E; injection Hs as <-; cbn in Hb.
    + bprop. subst h. assert (Hb' : (Z.of_nat (length (added w)) < 2 ^ 64)%Z) by (rewrite length_app in Hb; lia).
      specialize (Hw Hb'). pose proof (Inv_locals _ _ _ _ _ _ _ Hw Hk) as [-> Hl]. cbn. by apply (Inv_publish _ _ _ _ _ k x t).
    + specialize (Hw Hb). pose proof (Inv_locals _ _ _ _ _ _ _ Hw Hk) as Hl. by apply (Inv_move _ _ _ _ _ k (Swapped x ptr t h)).
  - destruct (data_ (buf w) !! slot (capacity_ (buf w)) h) as [cell|] eqn:Hc; [|done]. cbn [mbind option_bind Swap] in Hs.
    injection Hs as <-. cbn in Hb. specialize (Hw Hb). pose proof (Inv_locals _ _ _ _ _ _ _ Hw Hk) as [-> Hl].
    destruct (i_held _ _ _ _ _ Hw k _ x h Hk eq_refl) as [Hd _]. rewrite Hc in Hd. injection Hd as ->.
    by apply (Inv_undo _ _ _ _ _ k x t h).
Qed.

Lemma consumer_step_inv w w' : winv w → consumer_step w = Some w' → winv w'.
Proof.
  intros Hw Hs Hb. unfold consumer_step in Hs. destruct (cons w) as [|n|n r|[|i rest]] eqn:Ec; [done|..].
  - injection Hs as <-. cbn in *. specialize (Hw Hb). rewrite Ec in Hw. apply (Inv_cons _ _ (CChecked n)); [done|done|].
    destruct (i_room _ _ _ _ _ Hw) as [Hr _]. pose proof (i_cons _ _ _ _ _ Hw) as Hn. cbn [cons_ok] in *. split; [done|].
    pose proof (i_order _ _ _ _ _ Hw) as [_ Ho].
    pose proof (PeekImpl_spec (buf w) (i_cap _ _ _ _ _ Hw) Ho ltac:(lia)) as Hp.
    rewrite Take_spec, Hp.
    + rewrite <-fmap_take. f_equal. unfold seqZ. rewrite <-fmap_take, take_seq. rewrite Nat2Z.id. by rewrite Nat.min_l by lia.
    + assert (Hsz : range_size (PeekImpl (buf w)) = length (range_elems (PeekImpl (buf w)))).
      { unfold range_size, range_elems, span_elems. by rewrite length_app, !length_seq. }
      rewrite Hsz, Hp, length_fmap, length_seqZ. lia.
  - injection Hs as <-. cbn in *. specialize (Hw Hb). rewrite Ec in Hw. by apply Inv_bump.
  - injection Hs as <-. cbn in *. specialize (Hw Hb). rewrite Ec in Hw. by apply (Inv_cons _ _ (CReset [])).
  - destruct (data_ (buf w) !! i) as [cell|] eqn:Hc; [|done]. cbn [mbind option_bind Reset] in Hs. injection Hs as <-.
    cbn in Hb. specialize (Hw Hb). rewrite Ec in Hw. destruct (Inv_reset _ _ _ _ _ _ Hw) as (x & Hx & Hi).
    rewrite Hc in Hx. injection Hx as ->. exact Hi.
Qed.

Lemma world_step_inv w w' : winv w → world_step w w' → winv w'.
Proof.
  intros Hw Hs. destruct Hs as [w|w k Hk|w k sp w' Hs|w n Hc Hn|w w' Hs]; [..|by eapply consumer_step_inv].
  - intros Hb. by apply Inv_spawn, Hw.
  - intros Hb. by apply (Inv_move _ _ _ _ _ k Idle); [by apply Hw|..].
  - by eapply producer_step_inv.
  - intros Hb. specialize (Hw Hb). cbn in *. rewrite Hc in Hw. apply (Inv_cons _ _ CIdle); [done|done|]. cbn [cons_ok].
    pose proof (i_order _ _ _ _ _ Hw) as [H0 Ho]. pose proof (i_head _ _ _ _ _ Hw). unfold cb_size, w64, ctail in *.
    cbn [pending] in *. rewrite Z.mod_small in Hn by lia. lia.
Qed.

Lemma reachable_inv m w : rtc world_step (World_init m) w → winv w.
Proof.
  assert (H0 : winv (World_init m)) by (intros _; apply Inv_init). intros H. revert H0.
  induction H as [|w1 w2 w3 Hs _ IH]; [done|]. intros H0. apply IH. by eapply world_step_inv.
Qed.

(** ** Each object is added at most once *)

Definition arg (pc : producer) : option nat :=
  match pc with
  | Idle => None
  | AtLoop x _ | HasTail x _ _ | HasHead x _ _ _ | Swapped x _ _ _ | Undoing x _ _ _ => Some x
  end.

Definition busy (ps : list producer) : list nat := omap arg ps.

(** The objects whose [Add] answered true, in the order of the answers. *)
Definition accepted (rs : list (nat * bool)) : list nat := omap (λ '(x, r), if r : bool then Some x else None) rs.

Definition ids_ok (w : World) : Prop :=
  NoDup (busy (producers w) ++ (returned w).*1) ∧
  Forall (λ x, x < fresh w) (busy (producers w) ++ (returned w).*1) ∧
  added w = accepted (returned w).

Lemma busy_insert ps k pc :
  ps !! k = Some pc → ∃ R, ∀ pc', busy (<[k := pc']> ps) ≡ₚ option_list (arg pc') ++ R.
Proof.
  intros Hk. exists (busy (take k ps ++ drop (S k) ps)). intros pc'.
  rewrite insert_take_drop by (by eapply lookup_lt_Some). unfold busy. rewrite !omap_app, omap_cons_eq.
  destruct (arg pc') as [x|]; cbn [option_list app]; [|done]. by rewrite <-Permutation_middle.
Qed.

Lemma busy_split ps k pc :
  ps !! k = Some pc → ∃ R, busy ps ≡ₚ option_list (arg pc) ++ R ∧
    ∀ pc', busy (<[k := pc']> ps) ≡ₚ option_list (arg pc') ++ R.
Proof.
  intros Hk. destruct (busy_insert ps k pc Hk) as [R HR]. exists R. split; [|done].
  rewrite <-(HR pc). by rewrite list_insert_id.
Qed.

Lemma ids_move w w' k pc pc' :
  ids_ok w → producers w !! k = Some pc → arg pc' = arg pc →
  producers w' = <[k := pc']> (producers w) → fresh w' = fresh w → added w' = added w → returned w' = returned w → ids_ok w'.
Proof.
  unfold ids_ok. intros Hi Hk Ha -> -> -> ->. destruct (busy_split _ _ _ Hk) as (R & HR & HR').
  rewrite (HR' pc'), Ha, <-HR. exact Hi.
Qed.

Lemma ids_answer w w' k pc x r :
  ids_ok w → producers w !! k = Some pc → arg pc = Some x →
  producers w' = <[k := Idle]> (producers w) → fresh w' = fresh w → returned w' = returned w ++ [(x, r)] →
  added w' = (if r : bool then added w ++ [x] else added w) → ids_ok w'.
Proof.
  unfold ids_ok. intros (Hn & Hf & Hadd) Hk Ha -> -> -> ->. destruct (busy_split _ _ _ Hk) as (R & HR & HR').
  rewrite HR, Ha in Hn, Hf. cbn [option_list app] in *.
  assert (E : busy (<[k := Idle]> (producers w)) ++ (returned w ++ [(x, r)]).*1 ≡ₚ x :: R ++ (returned w).*1).
  { rewrite (HR' Idle). cbn [arg option_list app]. rewrite fmap_app. cbn [fmap list_fmap fst].
    by rewrite (assoc_L (++)), <-Permutation_cons_append. }
  rewrite E. split_and!; [done|done|]. unfold accepted. rewrite omap_app. fold (accepted (returned w)). rewrite <-Hadd.
  rewrite omap_cons_eq. destruct r; [done|]. by rewrite app_nil_r.
Qed.

Lemma producer_step_ids w k spurious w' : ids_ok w → producer_step w k spurious = Some w' → ids_ok w'.
Proof.
  intros Hi Hs. unfold producer_step in Hs. destruct (producers w !! k) as [pc|] eqn:Hk; [|done].
  cbn [mbind option_bind] in Hs. destruct pc as [|x ptr|x ptr t|x ptr t h|x ptr t h|x ptr t h]; try done.
  - injection Hs as <-. by apply (ids_move w _ k (AtLoop x ptr) (HasTail x ptr (tail_ (buf w)))).
  - destruct (is_full _ _ _); injection Hs as <-; [by apply (ids_answer w _ k (HasTail x ptr t) x false)|
      by apply (ids_move w _ k (HasTail x ptr t) (HasHead x ptr t (head_ (buf w))))].
  - destruct (data_ _ !! _) as [cell|]; [|done]. cbn [mbind option_bind] in Hs.
    destruct (SwapIfNull spurious cell ptr) as [[cell' ptr'] ok]. injection Hs as <-.
    apply (ids_move w _ k (HasHead x ptr t h) (if ok then Swapped x ptr' t h else AtLoop x ptr')); try done. by destruct ok.
  - destruct (_ && _); injection Hs as <-; [by apply (ids_answer w _ k (Swapped x ptr t h) x true)|
      by apply (ids_move w _ k (Swapped x ptr t h) (Undoing x ptr t h))].
  - destruct (data_ _ !! _) as [cell|]; [|done]. cbn [mbind option_bind Swap] in Hs. injection Hs as <-.
    by apply (ids_move w _ k (Undoing x ptr t h) (AtLoop x cell)).
Qed.

Lemma world_step_ids w w' : ids_ok w → world_step w w' → ids_ok w'.
Proof.
  intros Hi Hs. destruct Hs as [w|w k Hk|w k sp w' Hs|w n Hc Hn|w w' Hs].
  - unfold ids_ok, busy in *. cbn [producers returned fresh added]. rewrite omap_app. cbn [omap list_omap arg].
    by rewrite app_nil_r.
  - unfold ids_ok in *. cbn [producers returned fresh added]. destruct Hi as (Hn & Hf & Ha).
    destruct (busy_split _ _ _ Hk) as (R & HR & HR'). rewrite HR in Hn, Hf. rewrite HR'.
    cbn [arg option_list app] in *. split_and!; [|constructor; [lia|]|done].
    + constructor; [|done]. intros Hin. rewrite list.Forall_forall in Hf. specialize (Hf _ Hin). lia.
    + eapply list.Forall_impl; [exact Hf|]. simpl. lia.
  - by eapply producer_step_ids.
  - exact Hi.
  - unfold consumer_step in Hs. destruct (cons w) as [|n|n r|[|i rest]]; try done; try (injection Hs as <-; exact Hi).
    destruct (data_ _ !! _); [|done]. cbn [mbind option_bind Reset] in Hs. injection Hs as <-. exact Hi.
Qed.

Lemma world_step_capacity w w' : world_step w w' → length (data_ (buf w')) = length (data_ (buf w)).
Proof.
  intros Hs. destruct Hs as [w|w k Hk|w k sp w' Hs|w n Hc Hn|w w' Hs]; [done|done| |done|].
  - unfold producer_step in Hs. destruct (producers w !! k) as [pc|]; [|done]. cbn [mbind option_bind] in Hs.
    destruct pc as [|x ptr|x ptr t|x ptr t h|x ptr t h|x ptr t h]; try done.
    + by injection Hs as <-.
    + destruct (is_full _ _ _); by injection Hs as <-.
    + destruct (data_ _ !! _) as [cell|]; [|done]. cbn [mbind option_bind] in Hs.
      destruct (SwapIfNull sp cell ptr) as [[cell' ptr'] ok]. injection Hs as <-. apply length_insert.
    + destruct (_ && _); by injection Hs as <-.
    + destruct (data_ _ !! _) as [cell|]; [|done]. cbn [mbind option_bind Swap] in Hs. injection Hs as <-. apply length_insert.
  - unfold consumer_step in Hs. destruct (cons w) as [|n|n r|[|i rest]]; try done; try by injection Hs as <-.
    destruct (data_ _ !! _); [|done]. cbn [mbind option_bind Reset] in Hs. injection Hs as <-. apply length_insert.
Qed.

Lemma reachable_ids m w : rtc world_step (World_init m) w → ids_ok w ∧ capacity_ (buf w) = Z.of_nat (m + 1).
Proof.
  assert (H0 : ids_ok (World_init m) ∧ length (data_ (buf (World_init m))) = m + 1).
  { split; [by split_and!; [constructor|constructor|]|]. cbn. by rewrite length_replicate. }
  intros H. enough (H1 : ids_ok w ∧ length (data_ (buf w)) = m + 1) by (unfold capacity_; destruct H1; split; [done|lia]).
  revert H0. induction H as [|w1 w2 w3 Hs _ IH]; [done|]. intros [Hi Hl]. apply IH.
  split; [by eapply world_step_ids|]. by rewrite (world_step_capacity _ _ Hs).
Qed.

(** ** What the buffer promises *)

Lemma Inv_kept b ps c ad co :
  Inv b ps c ad co → ad = co ++ drop (Z.to_nat (ctail b c)) ad ∧
  Z.of_nat (length (drop (Z.to_nat (ctail b c)) ad)) = (head_ b - ctail b c)%Z.
Proof.
  intros H. pose proof (i_head _ _ _ _ _ H). pose proof (i_order _ _ _ _ _ H). pose proof (pending_nonneg c).
  rewrite (i_consumed _ _ _ _ _ H). split; [by rewrite take_drop|]. rewrite length_drop. unfold ctail in *. lia.
Qed.

Lemma Inv_peek b ps ad co :
  Inv b ps CIdle ad co →
  (λ i, data_ b !! i) <$> range_elems (PeekImpl b) = (λ x, Some (Some x)) <$> drop (Z.to_nat (tail_ b)) ad.
Proof.
  intros H. pose proof (i_head _ _ _ _ _ H) as Hh. destruct (i_order _ _ _ _ _ H) as [H0 Ho].
  destruct (i_room _ _ _ _ _ H) as [Hr _]. unfold ctail in H0. cbn [pending] in H0.
  rewrite PeekImpl_spec by (done || apply (i_cap _ _ _ _ _ H) || lia).
  apply list_eq. intros i. rewrite !list_lookup_fmap, lookup_drop.
  destruct (decide (i < Z.to_nat (head_ b - tail_ b))) as [Hi|Hi].
  - rewrite lookup_seqZ_lt by lia. cbn [fmap option_fmap option_map].
    rewrite (i_live _ _ _ _ _ H) by (unfold live, ctail; cbn [pending]; lia).
    replace (Z.to_nat (tail_ b + Z.of_nat i)) with (Z.to_nat (tail_ b) + i) by lia.
    destruct (lookup_lt_is_Some_2 ad (Z.to_nat (tail_ b) + i)) as [x Hx]; [lia|]. by rewrite Hx.
  - rewrite lookup_seqZ_ge by lia. by rewrite (proj2 (lookup_ge_None ad _)) by lia.
Qed.

(** C12: Whatever the threads do and however they interleave, short of 2^64 additions: the objects
    added are those whose [Add] answered true, each once and in that order; the consumer got a
    prefix of them, and the rest is in the buffer.  When it is not consuming, at most
    [max_size] are left, and [Peek] shows exactly them, in order. *)
Theorem circular_buffer_fifo m w :
  rtc world_step (World_init m) w → (Z.of_nat (length (added w)) < 2 ^ 64)%Z →
  added w = accepted (returned w) ∧ NoDup (returned w).*1 ∧
  ∃ kept, added w = consumed w ++ kept ∧ length kept ≤ S m ∧
    (cons w = CIdle → length kept ≤ m ∧
       (λ i, data_ (buf w) !! i) <$> range_elems (Peek (buf w)) = (λ x, Some (Some x)) <$> kept).
Proof.
  intros Hr Hb. pose proof (reachable_inv m w Hr Hb) as Hi. destruct (reachable_ids m w Hr) as [(Hn & _ & Ha) Hc].
  split_and!; [done|by apply list.NoDup_app in Hn as (_ & _ & ?)|].
  destruct (Inv_kept _ _ _ _ _ Hi) as [Hk Hl]. destruct (i_room _ _ _ _ _ Hi) as [Hr1 Hr2]. rewrite Hc in *.
  eexists. split; [exact Hk|]. split; [lia|]. intros Hci. rewrite Hci in *. unfold ctail in *. cbn [pending] in *.
  rewrite Z.sub_0_r in *. split; [lia|]. by eapply Inv_peek.
Qed.

(** ** Progress *)

(** [n] steps of producer [k] alone, its compare-exchanges failing only for a reason. *)
Fixpoint run_alone (n : nat) (k : nat) (w : World) : option World :=
  match n with
  | O => Some w
  | S n => w ← producer_step w k false; run_alone n k w
  end.

(** The slot at the head is null unless another producer holds it. *)
Lemma Inv_head_null b ps ad co :
  Inv b ps CIdle ad co →
  (∀ k pc x h, ps !! k = Some pc → holds pc = Some (x, h) → slot (capacity_ b) h ≠ slot (capacity_ b) (head_ b)) →
  data_ b !! slot (capacity_ b) (head_ b) = Some None.
Proof.
  intros H Hfree. pose proof (Inv_slot _ _ _ _ _ (head_ b) H) as Hlt.
  destruct (lookup_lt_is_Some_2 _ _ Hlt) as [[y|] Hy]; [|done]. exfalso.
  destruct (i_why _ _ _ _ _ H _ _ Hy) as [(p & [Hp1 Hp2] & Hs)|(k & pc & x & h & Hk & Hh & Hs)].
  - destruct (i_room _ _ _ _ _ H) as [Hr _]. unfold ctail in Hp1. cbn [pending] in Hp1. revert Hs.
    apply slot_apart; [by apply (i_cap _ _ _ _ _ H)|lia].
  - by apply (Hfree k pc x h).
Qed.

(** A step, the producer's position known. *)
Lemma alone_step w k pc :
  producers w !! k = Some pc →
  producer_step w k false =
    match pc with
    | Idle => None
    | AtLoop x ptr => Some (set_pc w k (HasTail x ptr (tail_ (buf w))))
    | HasTail x ptr tail =>
        if is_full (buf w) (head_ (buf w)) tail then Some (answer w k x false)
        else Some (set_pc w k (HasHead x ptr tail (head_ (buf w))))
    | HasHead x ptr tail head =>
        cell ← data_ (buf w) !! slot (capacity_ (buf w)) head;
        let '(cell, ptr, ok) := SwapIfNull false cell ptr in
        Some (set_pc (set_buf w (with_cell (buf w) (slot (capacity_ (buf w)) head) cell)) k
                (if ok then Swapped x ptr tail head else AtLoop x ptr))
    | Swapped x ptr tail head =>
        if negb false && (head_ (buf w) =? head)%Z then
          Some (answer (MkWorld (MkCB (data_ (buf w)) (w64 (head + 1)) (tail_ (buf w))) (producers w) (cons w) (fresh w)
                          (added w ++ [x]) (consumed w) (returned w)) k x true)
        else Some (set_pc w k (Undoing x ptr tail head))
    | Undoing x ptr tail head =>
        cell ← data_ (buf w) !! slot (capacity_ (buf w)) head;
        Some (set_pc (set_buf w (with_cell (buf w) (slot (capacity_ (buf w)) head) ptr)) k (AtLoop x cell))
    end.
Proof. intros Hk. unfold producer_step. rewrite Hk. done. Qed.

(** A producer left to itself, with the consumer idle and nobody else holding the slot at the
    head, returns within four steps: true, with its object added, when there was room for it,
    and false otherwise. *)
Theorem add_alone_returns m w k x :
  rtc world_step (World_init m) w → (Z.of_nat (length (added w)) + 1 < 2 ^ 64)%Z → cons w = CIdle →
  producers w !! k = Some (AtLoop x (Some x)) →
  (∀ j pc y h, producers w !! j = Some pc → holds pc = Some (y, h) →
     slot (capacity_ (buf w)) h ≠ slot (capacity_ (buf w)) (head_ (buf w))) →
  ∃ n w' r, n ≤ 4 ∧ run_alone n k w = Some w' ∧ producers w' !! k = Some Idle ∧
    returned w' = returned w ++ [(x, r)] ∧ added w' = added w ++ (if r then [x] else []) ∧
    (r = true ↔ (head_ (buf w) - tail_ (buf w) < Z.of_nat m)%Z).
Proof.
  intros Hr Hb Hc Hk Hfree. pose proof (reachable_inv m w Hr ltac:(lia)) as Hi. rewrite Hc in Hi.
  destruct (reachable_ids m w Hr) as [_ Hcap]. pose proof (Inv_head_null _ _ _ _ Hi Hfree) as Hnull.
  destruct (i_order _ _ _ _ _ Hi) as [H0 Ho]. unfold ctail in H0. cbn [pending] in H0.
  pose proof (is_full_spec _ _ _ _ _ (tail_ (buf w)) Hi ltac:(lia) ltac:(lia)) as Hfull. rewrite Hcap in Hfull.
  pose proof (lookup_lt_Some _ _ _ Hk) as Hlt. destruct w as [b ps c fr ad co re]. cbn in *. subst c.
  destruct (is_full b (head_ b) (tail_ b)) eqn:Ef; symmetry in Hfull; bprop.
  - exists 2. eexists _, false. split; [lia|]. cbn [run_alone].
    erewrite alone_step by (exact Hk). cbn [mbind option_bind set_pc buf producers].
    erewrite alone_step by (cbn [set_pc set_buf producers]; rewrite ?list_insert_insert_eq; by apply list_lookup_insert_eq). cbn [mbind option_bind set_pc buf producers]. rewrite Ef.
    split; [done|]. cbn. rewrite !list_insert_insert_eq, list_lookup_insert_eq, app_nil_r by done.
    split_and!; [done..|]. split; [done|lia].
  - exists 4. eexists _, true. split; [lia|]. cbn [run_alone].
    erewrite alone_step by (exact Hk). cbn [mbind option_bind set_pc buf producers].
    erewrite alone_step by (cbn [set_pc set_buf producers]; rewrite ?list_insert_insert_eq; by apply list_lookup_insert_eq). cbn [mbind option_bind set_pc buf producers]. rewrite Ef.
    cbn [mbind option_bind set_pc buf producers].
    erewrite alone_step by (cbn [set_pc set_buf producers]; rewrite ?list_insert_insert_eq; by apply list_lookup_insert_eq). cbn [mbind option_bind set_pc buf producers].
    rewrite Hnull. cbn [mbind option_bind SwapIfNull IsNull negb set_buf set_pc buf producers].
    erewrite alone_step by (cbn [set_pc set_buf producers]; rewrite ?list_insert_insert_eq; by apply list_lookup_insert_eq).
    cbn [mbind option_bind set_pc set_buf buf producers with_cell head_]. rewrite Z.eqb_refl. cbn [negb andb]. split; [done|]. cbn.
    rewrite !list_insert_insert_eq, list_lookup_insert_eq by done. split_and!; [done..|]. split; [lia|done].
Qed.

(** ** Schedules *)

Inductive action := Spawn | CallAdd (k : nat) | StepProducer (k : nat) (spurious : bool) | CallConsume (n : nat) | StepConsumer.

Definition exec (w : World) (a : action) : option World :=
  match a with
  | Spawn => Some (MkWorld (buf w) (producers w ++ [Idle]) (cons w) (fresh w) (added w) (consumed w) (returned w))
  | CallAdd k =>
      match producers w !! k with
      | Some Idle => Some (MkWorld (buf w) (<[k := AtLoop (fresh w) (Some (fresh w))]> (producers w)) (cons w) (S (fresh w))
                             (added w) (consumed w) (returned w))
      | _ => None
      end
  | StepProducer k spurious => producer_step w k spurious
  | CallConsume n =>
      match cons w with
      | CIdle => if (Z.of_nat n <=? cb_size (buf w))%Z then Some (set_cons w (CChecked n)) else None
      | _ => None
      end
  | StepConsumer => consumer_step w
  end.

Lemma exec_step w a w' : exec w a = Some w' → world_step w w'.
Proof.
  destruct a as [|k|k sp|n|]; cbn [exec].
  - intros [= <-]. apply step_spawn.
  - destruct (producers w !! k) as [[]|] eqn:Hk; try done. intros [= <-]. by apply step_add.
  - apply step_producer.
  - destruct (cons w) eqn:Hc; try done. destruct (_ <=? _)%Z eqn:E; [|done]. bprop. intros [= <-]. by apply step_consume.
  - apply step_consumer.
Qed.

Fixpoint exec_all (w : World) (l : list action) : option World :=
  match l with
  | [] => Some w
  | a :: l => w ← exec w a; exec_all w l
  end.

Lemma exec_all_steps l w w' : exec_all w l = Some w' → rtc world_step w w'.
Proof.
  revert w. induction l as [|a l IH]; intros w; cbn [exec_all]; [intros [= <-]; apply rtc_refl|].
  intros (w1 & H1%exec_step & H2)%bind_Some. eapply rtc_l; [exact H1|by apply IH].
Qed.

(** Two producers, the second overtaken between its swap and its compare-exchange or not. *)
Definition add_steps (k : nat) : list action := CallAdd k :: replicate 4 (StepProducer k false).

Definition demo_acts : list action :=
  [Spawn; Spawn] ++ add_steps 0 ++ [CallAdd 1; StepProducer 1 false; StepProducer 1 false] ++ add_steps 0
    ++ [CallConsume 1; StepConsumer; StepConsumer; StepConsumer; StepConsumer]
    ++ [StepProducer 1 false; StepProducer 1 true; StepProducer 1 false; StepProducer 1 false; StepProducer 1 false].

Lemma circular_buffer_fifo_witness :
  ∃ w, rtc world_step (World_init 2) w ∧ added w = [0; 2; 1] ∧ added w = accepted (returned w) ∧ consumed w = [0].
Proof.
  destruct (exec_all (World_init 2) demo_acts) as [w|] eqn:E; [|vm_compute in E; discriminate].
  pose proof (exec_all_steps _ _ _ E) as Hr. exists w. split; [exact Hr|].
  vm_compute in E. injection E as <-.
  split; [reflexivity|]. split; [|reflexivity]. exact (proj1 (circular_buffer_fifo 2 _ Hr eq_refl)).
Defined.

Lemma add_alone_returns_witness :
  ∃ w, rtc world_step (World_init 1) w ∧ producers w !! 0 = Some (AtLoop 1 (Some 1)) ∧
    ∃ n w' r, n ≤ 4 ∧ run_alone n 0 w = Some w' ∧ producers w' !! 0 = Some Idle ∧
      returned w' = returned w ++ [(1, r)] ∧ added w' = added w ++ (if r then [1] else []) ∧
      (r = true ↔ (head_ (buf w) - tail_ (buf w) < Z.of_nat 1)%Z).
Proof.
  destruct (exec_all (World_init 1) ([Spawn] ++ add_steps 0 ++ [CallAdd 0])) as [w|] eqn:E; [|vm_compute in E; discriminate].
  pose proof (exec_all_steps _ _ _ E) as Hr. exists w. split; [exact Hr|]. vm_compute in E. injection E as <-.
  split; [reflexivity|]. apply (add_alone_returns 1 _ 0 1 Hr); [reflexivity|reflexivity|reflexivity|].
  intros [|j] pc y h Hj; [injection Hj as <-; discriminate|discriminate].
Defined.

(** *** Not lock-free

    A producer that stops between its swap and its compare-exchange stops every other one. *)

Definition stalled_acts : list action :=
  [Spawn; Spawn; CallAdd 0; CallAdd 1; StepProducer 0 false; StepProducer 0 false; StepProducer 0 false].

(** There is a reachable state with an empty buffer where a producer, left alone for however
    many steps, never returns: the other one was interrupted inside its [Add], and holds the
    slot at the head. *)
Theorem stalled_producer_blocks :
  ∃ w, rtc world_step (World_init 2) w ∧ cb_size (buf w) = 0%Z ∧ cons w = CIdle ∧
    ∀ n, ∃ w', run_alone n 1 w = Some w' ∧ returned w' = [] ∧ producers w' !! 1 ≠ Some Idle.
Proof.
  destruct (exec_all (World_init 2) stalled_acts) as [w|] eqn:E; [|vm_compute in E; discriminate].
  exists w. split; [by eapply exec_all_steps|]. vm_compute in E. injection E as <-.
  split; [reflexivity|]. split; [reflexivity|].
  set (w0 := MkWorld _ _ _ _ _ _ _).
  assert (H : ∀ n, ∃ w', run_alone n 1 w0 = Some w' ∧
            (w' = w0 ∨ w' = set_pc w0 1 (HasTail 1 (Some 1) 0) ∨ w' = set_pc w0 1 (HasHead 1 (Some 1) 0 0))).
  { assert (Hsnoc : ∀ n w, run_alone (S n) 1 w = run_alone n 1 w ≫= λ w, producer_step w 1 false).
    { induction n as [|n IH]; intros w.
      - cbn [run_alone mbind option_bind]. by destruct (producer_step w 1 false).
      - cbn [run_alone]. destruct (producer_step w 1 false) as [w1|]; [|done]. cbn [mbind option_bind].
        rewrite <-IH. done. }
    induction n as [|n (w' & Hw' & H)]; [exists w0; by split; [|left]|].
    rewrite Hsnoc, Hw'. cbn [mbind option_bind]. destruct H as [E|[E|E]]; rewrite E; eexists; (split; [reflexivity|]); auto. }
  intros n. destruct (H n) as (w' & Hw' & Hor). exists w'. split; [exact Hw'|].
  destruct Hor as [E|[E|E]]; rewrite E; split; done.
Qed.

(** *** ForEach

    A callback that never refuses, as the one of [Consume], is called on every element of the
    range, in order: the resets of [CReset]. *)
Lemma for_each_span_all {St} (callback : nat → St → St * bool) l s :
  (∀ v s, (callback v s).2 = true) → for_each_span callback l s = (foldl (λ s v, (callback v s).1) s l, true).
Proof.
  intros H. revert s. induction l as [|v l IH]; intros s; cbn [for_each_span foldl]; [done|].
  specialize (H v s). destruct (callback v s) as [s' ok]. cbn [fst snd] in *. subst. apply IH.
Qed.

Lemma ForEach_all {St} (callback : nat → St → St * bool) r s :
  (∀ v s, (callback v s).2 = true) → ForEach callback r s = (foldl (λ s v, (callback v s).1) s (range_elems r), true).
Proof.
  intros H. unfold ForEach, range_elems. rewrite for_each_span_all by done. cbn [negb].
  rewrite for_each_span_all by done. by rewrite foldl_app.
Qed.
