(* ===== verification/Timestamp.v ===== *)
(** * Timestamps and timeouts

    common/timestamp.h: nanosecond timestamps of the two clocks, and the adjustment of a timeout
    so that waiting for it cannot overflow a clock.

    A [std::chrono::duration] with a 64-bit count is its count; its period is a whole number
    [p] of nanoseconds, as for every unit the library waits in.  Signed overflow is undefined:
    [None]. *)
From S2P Require Export Cxx.

Definition INT64_MAX : Z := (2 ^ 63 - 1)%Z.
Definition INT64_MIN : Z := (- 2 ^ 63)%Z.
Definition int64 (z : Z) : option Z := if (INT64_MIN <=? z)%Z && (z <=? INT64_MAX)%Z then Some z else None.

(** [duration_cast] to nanoseconds, and from nanoseconds (towards zero). *)
Definition cast_to_nanos (p count : Z) : option Z := int64 (count * p).
Definition cast_from_nanos (p nanos : Z) : Z := Z.quot nanos p.

(** ** SystemTimestamp and SteadyTimestamp

    The two classes differ in the clock they are for. *)
Inductive clock := system_clock | steady_clock.

Record Timestamp (c : clock) := MkTimestamp { nanos_since_epoch_ : Z }.
Arguments MkTimestamp {_}.
Arguments nanos_since_epoch_ {_}.

Definition SystemTimestamp := Timestamp system_clock.
Definition SteadyTimestamp := Timestamp steady_clock.

Definition Timestamp_default {c} : Timestamp c := MkTimestamp 0.
Definition Timestamp_of_duration {c} (p count : Z) : option (Timestamp c) := n ← cast_to_nanos p count; Some (MkTimestamp n).

(** A time point of the clock counts nanoseconds. *)
Definition Timestamp_of_time_point {c} (time_point : Z) : option (Timestamp c) := Timestamp_of_duration 1 time_point.
Definition Timestamp_time_point {c} (t : Timestamp c) : Z := cast_from_nanos 1 (nanos_since_epoch_ t).
Definition time_since_epoch {c} (t : Timestamp c) : Z := nanos_since_epoch_ t.
Definition Timestamp_eq {c} (a b : Timestamp c) : bool := (nanos_since_epoch_ a =? nanos_since_epoch_ b)%Z.
Definition Timestamp_ne {c} (a b : Timestamp c) : bool := negb (nanos_since_epoch_ a =? nanos_since_epoch_ b)%Z.

(** ** DurationUtil *)

(** The clocks read [steady_now] and [system_now]. *)
Definition AdjustWaitForTimeout (p timeout indefinite_value steady_now system_now : Z) : option Z :=
  if (timeout =? INT64_MAX)%Z then Some indefinite_value
  else
    d ← int64 (INT64_MAX - steady_now);
    let max_timeout := cast_from_nanos p d in
    if (max_timeout <=? timeout)%Z then Some indefinite_value
    else
      d ← int64 (INT64_MAX - system_now);
      let max_timeout := cast_from_nanos p d in
      if (max_timeout <=? timeout)%Z then Some indefinite_value
      else Some timeout.

(** ** Properties *)

Lemma int64_spec z : (INT64_MIN ≤ z ≤ INT64_MAX)%Z → int64 z = Some z.
Proof.
  intros H. unfold int64. rewrite (proj2 (Z.leb_le _ _)) by lia. by rewrite (proj2 (Z.leb_le _ _)) by lia.
Qed.

(** A timestamp holds the instant it was made from, exactly: from a time point of its clock it
    converts back to that time point, and from a duration it counts the duration's nanoseconds. *)
Lemma Timestamp_roundtrip c (time_point p count : Z) :
  (INT64_MIN ≤ time_point ≤ INT64_MAX)%Z → (INT64_MIN ≤ count * p ≤ INT64_MAX)%Z →
  Timestamp_time_point <$> (Timestamp_of_time_point time_point : option (Timestamp c)) = Some time_point ∧
  time_since_epoch <$> (Timestamp_of_duration p count : option (Timestamp c)) = Some (count * p)%Z.
Proof.
  intros Ht Hc. unfold Timestamp_of_time_point, Timestamp_of_duration, cast_to_nanos.
  rewrite !int64_spec by lia. cbn [mbind option_bind fmap option_fmap option_map]. split; [|done].
  unfold Timestamp_time_point, cast_from_nanos. cbn [nanos_since_epoch_]. f_equal. rewrite Z.quot_1_r. lia.
Qed.

Lemma Timestamp_eq_spec c (a b : Timestamp c) : Timestamp_eq a b = true ↔ a = b.
Proof.
  unfold Timestamp_eq. rewrite Z.eqb_eq. split; [|by intros ->]. destruct a, b. simpl. by intros ->.
Qed.

(** Whatever the timeout and the clocks (which are past their epoch), what is waited for is the
    indefinite value or the timeout itself, and the latter only when neither clock passes its
    last instant before the timeout is over. *)
Theorem AdjustWaitForTimeout_spec p timeout indefinite steady_now system_now :
  (0 < p)%Z → (INT64_MIN ≤ timeout ≤ INT64_MAX)%Z →
  (0 ≤ steady_now ≤ INT64_MAX)%Z → (0 ≤ system_now ≤ INT64_MAX)%Z →
  ∃ r, AdjustWaitForTimeout p timeout indefinite steady_now system_now = Some r ∧
    (r = indefinite ∨
     r = timeout ∧ (steady_now + timeout * p ≤ INT64_MAX)%Z ∧ (system_now + timeout * p ≤ INT64_MAX)%Z) ∧
    ((steady_now + (timeout + 1) * p ≤ INT64_MAX)%Z → (system_now + (timeout + 1) * p ≤ INT64_MAX)%Z →
     timeout ≠ INT64_MAX → r = timeout).
Proof.
  intros Hp Ht Hs Hy. unfold AdjustWaitForTimeout. destruct (timeout =? INT64_MAX)%Z eqn:E; bprop.
  { eexists. split; [done|]. split; [by left|]. done. }
  rewrite !int64_spec by (unfold INT64_MIN, INT64_MAX in *; lia). cbn [mbind option_bind]. unfold cast_from_nanos.
  assert (Hq : ∀ now, (0 ≤ now ≤ INT64_MAX)%Z →
    if (Z.quot (INT64_MAX - now) p <=? timeout)%Z then (INT64_MAX < now + (timeout + 1) * p)%Z
    else (now + timeout * p ≤ INT64_MAX)%Z).
  { intros now Hn. rewrite Z.quot_div_nonneg by lia. pose proof (Z.div_mod (INT64_MAX - now) p ltac:(lia)) as Hdm.
    pose proof (Z.mod_pos_bound (INT64_MAX - now) p Hp).
    destruct (_ <=? timeout)%Z eqn:El; bprop; nia. }
  pose proof (Hq steady_now Hs) as H1. pose proof (Hq system_now Hy) as H2.
  destruct (Z.quot (INT64_MAX - steady_now) p <=? timeout)%Z.
  { eexists. split; [done|]. split; [by left|lia]. }
  destruct (Z.quot (INT64_MAX - system_now) p <=? timeout)%Z; eexists; (split; [done|]).
  - split; [by left|lia].
  - split; [by right|done].
Qed.

Lemma AdjustWaitForTimeout_spec_witness :
  (0 < 1000)%Z ∧ AdjustWaitForTimeout 1000 500000 0 (10 ^ 15) (10 ^ 18) = Some 500000%Z.
Proof.
  split; [lia|].
  destruct (AdjustWaitForTimeout_spec 1000 500000 0 (10 ^ 15) (10 ^ 18) ltac:(lia) ltac:(vm_compute; split; discriminate)
    ltac:(vm_compute; split; discriminate) ltac:(vm_compute; split; discriminate)) as (r & Hr & _ & H).
  rewrite Hr. f_equal. apply H; vm_compute; discriminate.
Defined.
