(* ===== verification/HttpDate.v ===== *)
(** * The date of a response

    HttpServer::formatTimestamp of OT/ext/http/server/http_server.h: gmtime_r and strftime of the C library, with the format
    and the buffer of the code.  The calendar is the proleptic Gregorian one that POSIX prescribes, without leap seconds. *)
From S2P Require Export Cxx.

(** ** The calendar *)

Definition leap (y : Z) : bool := ((y mod 4 =? 0) && (negb (y mod 100 =? 0) || (y mod 400 =? 0)))%Z.

Definition month_length (y m : Z) : Z :=
  (if m =? 2 then if leap y then 29 else 28 else if (m =? 4) || (m =? 6) || (m =? 9) || (m =? 11) then 30 else 31)%Z.

Record date := MkDate { year : Z; month : Z; mday : Z }.
Definition valid_date (d : date) : Prop := (1 ≤ month d ≤ 12 ∧ 1 ≤ mday d ≤ month_length (year d) (month d))%Z.

Definition next_day (d : date) : date :=
  if (mday d <? month_length (year d) (month d))%Z then MkDate (year d) (month d) (mday d + 1)
  else if (month d <? 12)%Z then MkDate (year d) (month d + 1) 1 else MkDate (year d + 1) 1 1.

(** Days since 1970-01-01, years counted from March. *)
Definition day_number (d : date) : Z :=
  (let y := if month d <=? 2 then year d - 1 else year d in
   let m := if month d <=? 2 then month d + 9 else month d - 3 in
   365 * y + y / 4 - y / 100 + y / 400 + (153 * m + 2) / 5 + mday d - 1 - 719468)%Z.

(** The date of a day: centuries, four years and years of the 400 years it falls in, counted from March 2000. *)
Definition date_of (n : Z) : date :=
  (let z := n + 719468 in
   let era := z / 146097 in let doe := z mod 146097 in
   let c := Z.min 3 (doe / 36524) in let doc := doe - 36524 * c in
   let q := doc / 1461 in let doq := doc - 1461 * q in
   let r := Z.min 3 (doq / 365) in let doy := doq - 365 * r in
   let m := (5 * doy + 2) / 153 in
   let d := doy - (153 * m + 2) / 5 + 1 in
   let y := 400 * era + 100 * c + 4 * q + r in
   if m <? 10 then MkDate y (m + 3) d else MkDate (y + 1) (m - 9) d)%Z.

Record tm := MkTm { tm_date : date; tm_hour : Z; tm_min : Z; tm_sec : Z; tm_wday : Z }.

(** [gmtime_r]; the null pointer when the year is no [int]. *)
Definition gmtime (t : Z) : option tm :=
  (let n := t / 86400 in let s := t mod 86400 in let d := date_of n in
   if (INT_MIN <=? year d - 1900) && (year d - 1900 <=? INT_MAX)
   then Some (MkTm d (s / 3600) (s / 60 mod 60) (s mod 60) ((n + 4) mod 7)) else None)%Z.

(** ** strftime *)

Definition day_names : list bytes := B <$> ["Sun"; "Mon"; "Tue"; "Wed"; "Thu"; "Fri"; "Sat"].
Definition month_names : list bytes := B <$> ["Jan"; "Feb"; "Mar"; "Apr"; "May"; "Jun"; "Jul"; "Aug"; "Sep"; "Oct"; "Nov"; "Dec"].
Definition two (z : Z) : bytes := [digit_chr (z / 10); digit_chr (z mod 10)].

(** [%a, %d %b %Y %H:%M:%S GMT] in the C locale. *)
Definition date_text (t : tm) : bytes :=
  default [] (day_names !! Z.to_nat (tm_wday t)) ++ B ", " ++ two (mday (tm_date t)) ++ B " " ++
  default [] (month_names !! Z.to_nat (month (tm_date t) - 1)) ++ B " " ++ to_string (year (tm_date t)) ++ B " " ++
  two (tm_hour t) ++ B ":" ++ two (tm_min t) ++ B ":" ++ two (tm_sec t) ++ B " GMT".

(** [None] when the buffer is left without a text: no date, or no room for it and its end. *)
Definition formatTimestamp (time : Z) : option bytes :=
  t ← gmtime time; if length (date_text t) <? 32 then Some (date_text t) else None.

(** ** The calendar is right *)

(** Linear arithmetic with division by constants. *)
Ltac dlia := Z.div_mod_to_equations; lia.

(** The day of a March year determines its month and day. *)
Definition month_day_ok (doy : Z) : bool :=
  (let m := (5 * doy + 2) / 153 in let d := doy - (153 * m + 2) / 5 + 1 in
   let len := if m =? 11 then 29 else if (m =? 1) || (m =? 3) || (m =? 6) || (m =? 8) then 30 else 31 in
   (0 <=? m) && (m <=? 11) && (1 <=? d) && (d <=? len) && ((m =? 11) && (d =? 29) || negb (m =? 11) || (d <=? 28)) &&
   Bool.eqb ((m =? 11) && (d =? 29)) (doy =? 365))%Z.

Lemma month_day doy : (0 ≤ doy ≤ 365)%Z → month_day_ok doy = true.
Proof. intros H. apply (forall_seqZ month_day_ok 0 366); [by vm_compute|lia]. Qed.

Definition in_year (n era c q r doy : Z) : Prop :=
  (n + 719468 = 146097 * era + 36524 * c + 1461 * q + 365 * r + doy ∧ 0 ≤ c ≤ 3 ∧ 0 ≤ q ≤ 24 ∧ 0 ≤ r ≤ 3 ∧ 0 ≤ doy ≤ 365 ∧
   (doy = 365 → r = 3 ∧ (q < 24 ∨ c = 3)))%Z.

Lemma date_of_parts n : ∃ era c q r doy, in_year n era c q r doy ∧
  date_of n = (let m := (5 * doy + 2) / 153 in let d := doy - (153 * m + 2) / 5 + 1 in
    let y := 400 * era + 100 * c + 4 * q + r in if m <? 10 then MkDate y (m + 3) d else MkDate (y + 1) (m - 9) d)%Z.
Proof.
  unfold date_of. cbv zeta. set (z := (n + 719468)%Z). set (era := (z / 146097)%Z). set (doe := (z mod 146097)%Z).
  set (c := Z.min 3 (doe / 36524)). set (doc := (doe - 36524 * c)%Z). set (q := (doc / 1461)%Z). set (doq := (doc - 1461 * q)%Z).
  set (r := Z.min 3 (doq / 365)). set (doy := (doq - 365 * r)%Z). exists era, c, q, r, doy. split; [|done]. unfold in_year.
  assert (Hz : z = (146097 * era + doe)%Z ∧ (0 ≤ doe < 146097)%Z) by (unfold era, doe; clearbody z; dlia).
  assert (Hc : (0 ≤ c ≤ 3)%Z ∧ (0 ≤ doc ≤ 36524)%Z ∧ (c < 3 → doc < 36524)%Z) by (unfold doc, c; clearbody doe; dlia).
  assert (Hq : (0 ≤ q ≤ 24)%Z ∧ (0 ≤ doq < 1461)%Z) by (unfold doq, q; clearbody doc; dlia).
  assert (Hr : (0 ≤ r ≤ 3)%Z ∧ (0 ≤ doy ≤ 365)%Z ∧ (doy = 365 → r = 3)%Z) by (unfold doy, r; clearbody doq; dlia).
  assert (Hd : (doq = 365 * r + doy)%Z ∧ (doc = 1461 * q + doq)%Z ∧ (doe = 36524 * c + doc)%Z) by (unfold doy, doq, doc; lia).
  fold z. clearbody z era doe c doc q doq r doy. lia.
Qed.

(** The days before a March year. *)
Definition year_start (y : Z) : Z := (365 * y + y / 4 - y / 100 + y / 400 - 719468)%Z.

Lemma year_start_parts era c q r :
  (0 ≤ c ≤ 3 → 0 ≤ q ≤ 24 → 0 ≤ r ≤ 3 →
   year_start (400 * era + 100 * c + 4 * q + r) = 146097 * era + 36524 * c + 1461 * q + 365 * r - 719468)%Z.
Proof. intros. unfold year_start. set (y := (400 * era + 100 * c + 4 * q + r)%Z).
  assert (y / 4 = 100 * era + 25 * c + q ∧ y / 100 = 4 * era + c ∧ y / 400 = era)%Z as (-> & -> & ->) by (unfold y; split_and!; dlia). lia.
Qed.

Lemma year_start_next y : year_start (y + 1) = (year_start y + if leap (y + 1) then 366 else 365)%Z.
Proof.
  unfold year_start, leap. destruct (Z.eqb_spec ((y + 1) mod 4) 0), (Z.eqb_spec ((y + 1) mod 100) 0), (Z.eqb_spec ((y + 1) mod 400) 0); cbn [andb orb negb]; dlia.
Qed.

Lemma year_start_mono y y' : (y ≤ y' → year_start y ≤ year_start y')%Z.
Proof.
  intros H. replace y' with (y + Z.of_nat (Z.to_nat (y' - y)))%Z by lia. generalize (Z.to_nat (y' - y)). intros n. induction n as [|n IH]; [by rewrite Z.add_0_r|].
  rewrite Nat2Z.inj_succ. replace (y + Z.succ (Z.of_nat n))%Z with (y + Z.of_nat n + 1)%Z by lia. rewrite year_start_next. destruct (leap _); lia.
Qed.

(** March year and month of a date, and the day of that year. *)
Definition march_year (d : date) : Z := if (month d <=? 2)%Z then (year d - 1)%Z else year d.
Definition march_month (d : date) : Z := if (month d <=? 2)%Z then (month d + 9)%Z else (month d - 3)%Z.
Definition march_day (d : date) : Z := ((153 * march_month d + 2) / 5 + mday d - 1)%Z.

Lemma day_number_march d : day_number d = (year_start (march_year d) + march_day d)%Z.
Proof. unfold day_number, year_start, march_day, march_month, march_year. destruct (_ <=? 2)%Z; lia. Qed.

Lemma march_day_bound d :
  valid_date d → (0 ≤ march_day d < if leap (march_year d + 1) then 366 else 365)%Z ∧ ((5 * march_day d + 2) / 153 = march_month d)%Z.
Proof.
  intros [Hm Hd]. unfold march_day, march_month, march_year, month_length in *.
  assert (H : (month d = 1 ∨ month d = 2 ∨ month d = 3 ∨ month d = 4 ∨ month d = 5 ∨ month d = 6 ∨ month d = 7 ∨ month d = 8 ∨ month d = 9 ∨
    month d = 10 ∨ month d = 11 ∨ month d = 12)%Z) by lia.
  repeat destruct H as [H|H]; rewrite H in *; cbn in Hd |- *; replace (year d - 1 + 1)%Z with (year d) by lia; destruct (leap _); cbn in *; dlia.
Qed.

Lemma day_number_inj d d' : valid_date d → valid_date d' → day_number d = day_number d' → d = d'.
Proof.
  intros Hd Hd'. rewrite !day_number_march. destruct (march_day_bound d Hd) as [Hb Hm], (march_day_bound d' Hd') as [Hb' Hm'].
  rewrite <-year_start_next in * || idtac. intros E.
  assert (Hy : march_year d = march_year d').
  { pose proof (year_start_next (march_year d)). pose proof (year_start_next (march_year d')).
    destruct (Z.lt_trichotomy (march_year d) (march_year d')) as [Hl|[?|Hl]]; [|done|].
    - pose proof (year_start_mono (march_year d + 1) (march_year d') ltac:(lia)). lia.
    - pose proof (year_start_mono (march_year d' + 1) (march_year d) ltac:(lia)). lia. }
  rewrite Hy in E. assert (Hdd : march_day d = march_day d') by lia. rewrite Hdd, Hm' in Hm. unfold march_day in Hdd. rewrite Hm in Hdd.
  destruct d as [y m a], d' as [y' m' a']. destruct Hd as [Hm1 _], Hd' as [Hm2 _]. unfold march_month, march_year in *. cbn [month year mday] in *.
  destruct (Z.leb_spec m 2), (Z.leb_spec m' 2); f_equal; lia.
Qed.

Lemma next_day_valid d : valid_date d → valid_date (next_day d).
Proof.
  intros [Hm Hd]. unfold next_day. assert (H1 : ∀ y m, (1 ≤ month_length y m)%Z) by (intros; unfold month_length; repeat case_match; lia).
  destruct (Z.ltb_spec (mday d) (month_length (year d) (month d))); [split; cbn; lia|]. destruct (Z.ltb_spec (month d) 12); split; cbn; try lia; specialize (H1 (year d) (month d + 1)%Z); lia.
Qed.

Lemma next_day_number d : valid_date d → day_number (next_day d) = (day_number d + 1)%Z.
Proof.
  intros [Hm Hd]. unfold next_day. destruct (Z.ltb_spec (mday d) (month_length (year d) (month d))) as [|Hl]; [unfold day_number; cbn; lia|].
  assert (E : mday d = month_length (year d) (month d)) by lia. rewrite !day_number_march. unfold march_day, march_month, march_year, month_length in *.
  assert (H : (month d = 1 ∨ month d = 2 ∨ month d = 3 ∨ month d = 4 ∨ month d = 5 ∨ month d = 6 ∨ month d = 7 ∨ month d = 8 ∨ month d = 9 ∨
    month d = 10 ∨ month d = 11 ∨ month d = 12)%Z) by lia. pose proof (year_start_next (year d - 1)) as Hn. replace (year d - 1 + 1)%Z with (year d) in Hn by lia.
  repeat destruct H as [H|H]; rewrite H in *; rewrite E; cbn [Z.ltb Z.compare Pos.compare Pos.compare_cont year month mday];
    repeat (case_match; try lia); replace (year d + 1 - 1)%Z with (year d) by lia; dlia.
Qed.

Lemma date_of_spec n : day_number (date_of n) = n ∧ valid_date (date_of n).
Proof.
  destruct (date_of_parts n) as (era & c & q & r & doy & (En & Hc & Hq & Hr & Hdoy & Hlast) & ->). cbv zeta.
  pose proof (month_day doy Hdoy) as Hok. unfold month_day_ok in Hok. cbv zeta in Hok. set (m := ((5 * doy + 2) / 153)%Z) in *.
  set (a := (doy - (153 * m + 2) / 5 + 1)%Z) in *. set (y := (400 * era + 100 * c + 4 * q + r)%Z).
  apply andb_true_iff in Hok as [Hok H6%Bool.eqb_prop]. apply andb_true_iff in Hok as [Hok H5]. apply andb_true_iff in Hok as [Hok H4%Z.leb_le].
  apply andb_true_iff in Hok as [Hok H3%Z.leb_le]. apply andb_true_iff in Hok as [H1%Z.leb_le H2%Z.leb_le].
  pose proof (year_start_parts era c q r ltac:(lia) ltac:(lia) ltac:(lia)) as Hs. fold y in Hs. split.
  - rewrite day_number_march. unfold march_day, march_month, march_year. destruct (Z.ltb_spec m 10); cbn [month year mday].
    + rewrite (proj2 (Z.leb_gt _ _)) by lia. replace (m + 3 - 3)%Z with m by lia. unfold a. lia.
    + rewrite (proj2 (Z.leb_le _ _)) by lia. replace (m - 9 + 9)%Z with m by lia. replace (y + 1 - 1)%Z with y by lia. unfold a. lia.
  - assert (Hm : (m = 0 ∨ m = 1 ∨ m = 2 ∨ m = 3 ∨ m = 4 ∨ m = 5 ∨ m = 6 ∨ m = 7 ∨ m = 8 ∨ m = 9 ∨ m = 10 ∨ m = 11)%Z) by lia.
    assert (Hleap : (a = 29 → m = 11 → leap (y + 1) = true)%Z).
    { intros Ha Hm'. rewrite Ha, Hm' in H6. cbn in H6. apply eq_sym, Z.eqb_eq, Hlast in H6 as [Hr3 Hqc]. unfold leap, y.
      rewrite andb_true_iff, orb_true_iff, negb_true_iff, Z.eqb_neq, !Z.eqb_eq. split; [dlia|]. destruct Hqc; [|destruct (decide (q = 24%Z))]; [left| |left]; dlia. }
    clearbody y a m. unfold valid_date, month_length. repeat destruct Hm as [Hm|Hm]; subst m;
      cbn [month year mday Z.ltb Z.compare Pos.compare Pos.compare_cont] in *; repeat (case_match; try lia).
Qed.

(** The days follow one another as in the calendar, from the first of January 1970 on a Thursday. *)
Theorem calendar n : date_of 0 = MkDate 1970 1 1 ∧ date_of (n + 1) = next_day (date_of n) ∧ ∀ d, valid_date d → date_of (day_number d) = d.
Proof.
  destruct (date_of_spec n) as [H1 H2], (date_of_spec (n + 1)) as [H3 H4]. split_and!; [done| |].
  - apply day_number_inj; [done|by apply next_day_valid|]. rewrite next_day_number by done. lia.
  - intros d Hd. destruct (date_of_spec (day_number d)) as [H5 H6]. by apply day_number_inj.
Qed.

(** ** The text *)

(** Reading an IMF date back: day, month, year and time at their places. *)
Definition read_date (s : bytes) : option Z :=
  '(m, _) ← list_find (λ x, x = slice s 8 11) month_names;
  Some (86400 * day_number (MkDate (dec_value (slice s 12 16)) (Z.of_nat m + 1) (dec_value (slice s 5 7))) +
        3600 * dec_value (slice s 17 19) + 60 * dec_value (slice s 20 22) + dec_value (slice s 23 25))%Z.

Definition printable (c : ascii) : bool := (32 <=? code c)%Z && (code c <? 127)%Z.

Lemma day_name k : (0 ≤ k < 7)%Z → ∃ a b c, day_names !! Z.to_nat k = Some [a; b; c] ∧ forallb printable [a; b; c] = true.
Proof.
  intros H. assert (E : (k = 0 ∨ k = 1 ∨ k = 2 ∨ k = 3 ∨ k = 4 ∨ k = 5 ∨ k = 6)%Z) by lia.
  repeat destruct E as [E|E]; subst k; eexists _, _, _; (split; [reflexivity|reflexivity]).
Qed.

Lemma month_name m :
  (1 ≤ m ≤ 12)%Z → ∃ a b c, month_names !! Z.to_nat (m - 1) = Some [a; b; c] ∧ forallb printable [a; b; c] = true ∧
    fst <$> list_find (λ x, x = [a; b; c]) month_names = Some (Z.to_nat (m - 1)).
Proof.
  intros H. assert (E : (m = 1 ∨ m = 2 ∨ m = 3 ∨ m = 4 ∨ m = 5 ∨ m = 6 ∨ m = 7 ∨ m = 8 ∨ m = 9 ∨ m = 10 ∨ m = 11 ∨ m = 12)%Z) by lia.
  repeat destruct E as [E|E]; subst m; eexists _, _, _; (split; [reflexivity|split; reflexivity]).
Qed.

Lemma to_string_four y :
  (1000 ≤ y ≤ 9999)%Z → to_string y = [digit_chr (y / 1000); digit_chr (y / 100 mod 10); digit_chr (y / 10 mod 10); digit_chr (y mod 10)].
Proof.
  intros Hy. unfold to_string. rewrite (proj2 (Z.ltb_ge y 0)) by lia. unfold dec_fuel.
  assert (Hl : (9 ≤ Z.log2 y)%Z) by (apply Z.log2_le_pow2; lia).
  replace (S (Z.to_nat (Z.log2 y))) with (S (S (S (S (Z.to_nat (Z.log2 y) - 3))))) by lia. cbn [dec_digits].
  rewrite !Z.div_div by lia. cbn [Z.mul Pos.mul].
  rewrite (proj2 (Z.eqb_neq (y / 10) 0)), (proj2 (Z.eqb_neq (y / (10 * 10)) 0)), (proj2 (Z.eqb_neq (y / (10 * 10 * 10)) 0)), (proj2 (Z.eqb_eq (y / (10 * 10 * 10 * 10)) 0)) by (cbn; dlia).
  change (10 * 10 * 10)%Z with 1000%Z. change (10 * 10)%Z with 100%Z. rewrite (Z.mod_small (y / 1000)) by dlia. done.
Qed.

Lemma dec_value_two z : (0 ≤ z < 100)%Z → dec_value (two z) = z.
Proof. intros H. unfold two, dec_value. cbn [fold_left]. unfold dec_step. rewrite !digit_chr_val by dlia. dlia. Qed.

Lemma dec_value_four y : (1000 ≤ y ≤ 9999)%Z → dec_value (to_string y) = y.
Proof. intros. apply to_string_nonneg. lia. Qed.

Lemma printable_digit d : (0 ≤ d < 10)%Z → printable (digit_chr d) = true.
Proof. intros H. unfold printable, digit_chr. rewrite code_chr by lia. apply andb_true_iff. split; [apply Z.leb_le|apply Z.ltb_lt]; lia. Qed.

(** From 1970 to 9999 the year has four digits. *)
Lemma date_of_years n : (0 ≤ n < 2932897)%Z → (1970 ≤ year (date_of n) ≤ 9999)%Z.
Proof.
  intros Hn. destruct (date_of_spec n) as [E Hv]. rewrite day_number_march in E. destruct (march_day_bound _ Hv) as [[Hb0 _] _]. destruct Hv as [Hm Hd].
  assert (Hs : year_start 9999 = 2932591%Z ∧ year_start 1970 = 59%Z) by done. destruct Hs as [Hs1 Hs2].
  unfold march_year in *. split.
  - destruct (Z.le_gt_cases 1970 (year (date_of n))) as [|Hy]; [done|exfalso].
    destruct (Z.leb_spec (month (date_of n)) 2) as [H2|H2].
    + pose proof (year_start_mono (year (date_of n) - 1) 1968 ltac:(lia)) as Hmono. assert (year_start 1968 = -671)%Z by done.
      assert (march_day (date_of n) < 367)%Z; [|lia]. unfold march_day, march_month. rewrite (proj2 (Z.leb_le _ _)) by done.
      unfold month_length in Hd. repeat case_match; dlia.
    + pose proof (year_start_mono (year (date_of n)) 1969 ltac:(lia)) as Hmono. assert (year_start 1969 = -306)%Z by done.
      assert (march_day (date_of n) < 306)%Z; [|lia]. unfold march_day, march_month. rewrite (proj2 (Z.leb_gt _ _)) by lia.
      unfold month_length in Hd. repeat case_match; dlia.
  - destruct (Z.le_gt_cases (year (date_of n)) 9999) as [|Hy]; [done|exfalso].
    destruct (Z.leb_spec (month (date_of n)) 2) as [H2|H2].
    + pose proof (year_start_mono 9999 (year (date_of n) - 1) ltac:(lia)) as Hmono.
      assert (306 ≤ march_day (date_of n))%Z; [|lia]. unfold march_day, march_month. rewrite (proj2 (Z.leb_le _ _)) by done. dlia.
    + pose proof (year_start_mono 10000 (year (date_of n)) ltac:(lia)) as Hmono. assert (year_start 10000 = 2932957)%Z by done. lia.
Qed.

(** From 1970 to the end of 9999 the date fits the buffer: twenty-nine printable characters, from which the time can be read
    back, so that two responses have the same date exactly when they were made in the same second. *)
Theorem date_roundtrip t :
  (0 ≤ t < 253402300800)%Z →
  ∃ s, formatTimestamp t = Some s ∧ length s = 29 ∧ forallb printable s = true ∧ read_date s = Some t.
Proof.
  intros Ht. unfold formatTimestamp, gmtime. cbv zeta. assert (Hn : (0 ≤ t / 86400 < 2932897)%Z) by dlia.
  pose proof (date_of_years _ Hn) as Hy. destruct (date_of_spec (t / 86400)) as [Enum [Hm Hd]]. set (d := date_of (t / 86400)) in *. clearbody d.
  rewrite (proj2 (Z.leb_le INT_MIN _)), (proj2 (Z.leb_le _ INT_MAX)) by (unfold INT_MIN, INT_MAX; lia). cbn [andb mbind option_bind].
  unfold date_text. cbn [tm_date tm_hour tm_min tm_sec tm_wday].
  destruct (day_name ((t / 86400 + 4) mod 7) ltac:(dlia)) as (a & b & c & -> & Hp). destruct (month_name (month d) Hm) as (m1 & m2 & m3 & -> & Hpm & Hfind).
  assert (Hd31 : (1 ≤ mday d ≤ 31)%Z) by (unfold month_length in Hd; repeat case_match; lia).
  assert (Hh : (0 ≤ t mod 86400 / 3600 < 24)%Z) by dlia. assert (Hmi : (0 ≤ t mod 86400 / 60 mod 60 < 60)%Z) by dlia. assert (Hse : (0 ≤ t mod 86400 mod 60 < 60)%Z) by dlia.
  rewrite (to_string_four (year d)) by lia. cbn [default from_option id app two]. eexists. split; [reflexivity|]. split; [reflexivity|]. split.
  - cbn [forallb] in Hp, Hpm. rewrite !andb_true_iff in Hp, Hpm. destruct Hp as (Ha & Hb & Hc & _), Hpm as (Hm1 & Hm2 & Hm3 & _).
    cbn [forallb B String.list_ascii_of_string app]. rewrite Ha, Hb, Hc, Hm1, Hm2, Hm3, !printable_digit by dlia. reflexivity.
  - unfold read_date, slice. cbn [B String.list_ascii_of_string app take drop Nat.sub]. 
    destruct (list_find _ month_names) as [[i x]|] eqn:E; [|done]. cbn in Hfind. injection Hfind as ->. cbn [mbind option_bind]. f_equal.
    change [digit_chr (year d / 1000); digit_chr (year d / 100 mod 10); digit_chr (year d / 10 mod 10); digit_chr (year d mod 10)] with
      ([digit_chr (year d / 1000); digit_chr (year d / 100 mod 10); digit_chr (year d / 10 mod 10); digit_chr (year d mod 10)]).
    rewrite <-to_string_four, dec_value_four by lia.
    repeat match goal with |- context [dec_value [digit_chr (?z / 10); digit_chr (?z mod 10)]] => change [digit_chr (z / 10); digit_chr (z mod 10)] with (two z); rewrite (dec_value_two z) by lia end.
    rewrite Z2Nat.id by lia. replace (month d - 1 + 1)%Z with (month d) by lia. replace (MkDate (year d) (month d) (mday d)) with d by (by destruct d).
    rewrite Enum. dlia.
Qed.
