(* ===== verification/HttpServer.v ===== *)
(** * The embedded HTTP server

    ext/http/server/http_server.h: HttpServer, its header parser, its request limits, the state
    machine of a connection and the callbacks for the events of the reactor; the calls made on the
    reactor and on the sockets are recorded in a log, which ServerLoop carries out.  What the kernel answers to [send] comes from
    a kernel with a state, the callbacks are functions, the date is a text (HttpDate has
    the one that is sent).

    The connection a handler works on is a reference into the map of connections; when the
    server erases it meanwhile, using it is a fault.  So is calling a null handler. *)
From S2P Require Export OrderedMap.

(** ** Requests and responses *)
Abbreviation header_list := (list (bytes * bytes)).

Record HttpRequest := MkHttpRequest {
  client : bytes;
  method : bytes;
  uri : bytes;
  protocol : bytes;
  req_headers : header_list;
  content : bytes;
}.

Record HttpResponse := MkHttpResponse {
  resp_code : Z;
  resp_message : bytes;
  resp_headers : header_list;
  resp_body : bytes;
}.

(** A callback gets the request and may change the response; [None] when it throws. *)
Definition CallbackFunction := HttpRequest → HttpResponse → option (Z * HttpResponse).

(** [HttpRequestCallback]: without a function it answers zero. *)
Definition HttpRequestCallback := option CallbackFunction.

Definition onHttpRequest (cb : HttpRequestCallback) (request : HttpRequest) (response : HttpResponse) : option (Z * HttpResponse) :=
  match cb with
  | Some callback => callback request response
  | None => Some (0%Z, response)
  end.

(** ** Parsing the headers

    A pointer into the NUL-terminated buffer is the rest of the text from there. *)
Definition deref (ptr : bytes) : ascii := hd NUL ptr.

(** The character a scan goes on over: neither the final NUL nor one of [stops]. *)
Definition scan (stops : bytes) (c : ascii) : bool := negb (ceq c NUL) && negb (existsb (ceq c) stops).

Definition CRLF_chars : bytes := ["013"%char; "010"%char].

Fixpoint equalsLowercased_loop (ptr mask : bytes) : bool :=
  match ptr, mask with
  | c :: ptr, m :: mask => if ceq (tolower c) m then equalsLowercased_loop ptr mask else false
  | [], [] => true
  | _, _ => false
  end.

Definition equalsLowercased (str mask : bytes) : bool := equalsLowercased_loop (cstr str) mask.

(** [first] says whether the next letter starts a word. *)
Fixpoint normalize_loop (first : bool) (s : bytes) : bytes :=
  match s with
  | [] => []
  | ch :: s =>
      if first then toupper ch :: normalize_loop false s
      else if ceq ch "-" then ch :: normalize_loop true s
      else tolower ch :: normalize_loop false s
  end.

Definition normalizeHeaderName (s : bytes) : bytes := normalize_loop true s.

(** A repeated header is appended to a non-empty value; [headers[name]] of a new name is empty. *)
Definition add_header (headers : header_list) (name value : bytes) : header_list :=
  let old := default [] (om_find name headers) in
  match old with
  | [] => om_set name value headers
  | _ => om_set name (old ++ B "," ++ value) headers
  end.

(** An optional carriage return and the line feed: the pointer after them. *)
Definition end_of_line (ptr : bytes) : option bytes :=
  let ptr := if ceq (deref ptr) "013" then tail ptr else ptr in
  if ceq (deref ptr) "010" then Some (tail ptr) else None.

(** The loop over the header lines; [None] for [return false], with the headers so far. *)
Fixpoint parseHeaders_loop (fuel : nat) (ptr : bytes) (headers : header_list) : header_list * option bytes :=
  match fuel with
  | O => (headers, None)
  | S fuel =>
      if ceq (deref ptr) "013" || ceq (deref ptr) "010" then (headers, Some ptr)
      else
        let raw_name := take_while (scan (B ": " ++ CRLF_chars)) ptr in
        let ptr := drop_while (scan (B ": " ++ CRLF_chars)) ptr in
        if negb (ceq (deref ptr) ":") then (headers, None)
        else
          let name := normalizeHeaderName raw_name in
          let ptr := drop_while (ceq " ") (tail ptr) in
          let value := take_while (scan CRLF_chars) ptr in
          let ptr := drop_while (scan CRLF_chars) ptr in
          let headers := add_header headers name value in
          match end_of_line ptr with
          | None => (headers, None)
          | Some ptr => parseHeaders_loop fuel ptr headers
          end
  end.

(** The request keeps what was assigned before a failure. *)
Definition parseHeaders (receiveBuffer : bytes) (r : HttpRequest) : HttpRequest * bool :=
  let word := scan (B " " ++ CRLF_chars) in
  let ptr := receiveBuffer in
  let m := take_while word ptr in
  let ptr := drop_while word ptr in
  if negb (ceq (deref ptr) " ") then (r, false)
  else
    let r := MkHttpRequest (client r) m (uri r) (protocol r) (req_headers r) (content r) in
    let ptr := drop_while (ceq " ") ptr in
    let u := take_while word ptr in
    let ptr := drop_while word ptr in
    if negb (ceq (deref ptr) " ") then (r, false)
    else
      let r := MkHttpRequest (client r) (method r) u (protocol r) (req_headers r) (content r) in
      let ptr := drop_while (ceq " ") ptr in
      let p := take_while word ptr in
      let ptr := drop_while word ptr in
      if negb (ceq (deref ptr) "013") && negb (ceq (deref ptr) "010") then (r, false)
      else
        let r := MkHttpRequest (client r) (method r) (uri r) p (req_headers r) (content r) in
        match end_of_line ptr with
        | None => (r, false)
        | Some ptr =>
            let '(headers, o) := parseHeaders_loop (S (length ptr)) ptr [] in
            let r := MkHttpRequest (client r) (method r) (uri r) (protocol r) headers (content r) in
            match o with
            | None => (r, false)
            | Some ptr => (r, match end_of_line ptr with Some _ => true | None => false end)
            end
        end.

(** ** Parsing what a client prints *)

(** No character a scan stops at. *)
Definition scans (stops s : bytes) : Prop := Forall (λ c, scan stops c = true) s.

Definition field_ok (f : bytes * bytes) : Prop :=
  scans (B ": " ++ CRLF_chars) f.1 ∧ scans CRLF_chars f.2 ∧ hd NUL f.2 ≠ " "%char.

Definition print_field (f : bytes * bytes) : bytes := f.1 ++ B ": " ++ f.2 ++ CRLF_chars.
Definition print_fields (fs : list (bytes * bytes)) : bytes := fs ≫= print_field.

(** The request line and the headers, with the empty line. *)
Definition print_head (m u p : bytes) (fs : list (bytes * bytes)) : bytes :=
  m ++ B " " ++ u ++ B " " ++ p ++ CRLF_chars ++ print_fields fs ++ CRLF_chars.

(** The fields as the server keeps them. *)
Definition collect (hs : header_list) (fs : list (bytes * bytes)) : header_list :=
  foldl (λ hs f, add_header hs (normalizeHeaderName f.1) f.2) hs fs.

Lemma scan_split stops s c r :
  scans stops s → scan stops c = false →
  take_while (scan stops) (s ++ c :: r) = s ∧ drop_while (scan stops) (s ++ c :: r) = c :: r.
Proof.
  intros Hs Hc. rewrite take_while_app, drop_while_app by done. cbn [take_while drop_while]. rewrite Hc.
  by rewrite app_nil_r.
Qed.

Lemma end_of_line_CRLF r : end_of_line (CRLF_chars ++ r) = Some r.
Proof. done. Qed.

Lemma skip_space r : hd NUL r ≠ " "%char → drop_while (ceq " ") r = r.
Proof. destruct r as [|c r]; [done|]. cbn [hd drop_while]. intros H. by rewrite (proj2 (ceq_false " " c)) by congruence. Qed.

Lemma length_print_field f : 4 ≤ length (print_field f).
Proof. unfold print_field. rewrite !length_app. simpl. lia. Qed.

Lemma parseHeaders_loop_fields fs r hs fuel :
  Forall field_ok fs → length (print_fields fs) < fuel →
  parseHeaders_loop fuel (print_fields fs ++ CRLF_chars ++ r) hs = (collect hs fs, Some (CRLF_chars ++ r)).
Proof.
  revert hs fuel. induction fs as [|f fs IH]; intros hs fuel Hfs Hf.
  - destruct fuel as [|fuel]; [simpl in Hf; lia|]. done.
  - apply list.Forall_cons in Hfs as [(Hn & Hv & Hsp) Hfs]. destruct fuel as [|fuel]; [lia|].
    unfold print_fields in *. rewrite bind_cons in *. fold (print_fields fs) in *. rewrite length_app in Hf.
    pose proof (length_print_field f) as Hl. destruct f as [n v]. cbn [fst snd] in *. unfold print_field.
    cbn [fst snd]. rewrite <-!(assoc_L (++)). set (rest := print_fields fs ++ CRLF_chars ++ r).
    change (B ": " ++ v ++ CRLF_chars ++ rest) with (":"%char :: " "%char :: v ++ CRLF_chars ++ rest).
    cbn [parseHeaders_loop].
    assert (Hd : ceq (deref (n ++ ":"%char :: " "%char :: v ++ CRLF_chars ++ rest)) "013" || ceq (deref (n ++ ":"%char :: " "%char :: v ++ CRLF_chars ++ rest)) "010" = false).
    { destruct n as [|c n]; [done|]. apply list.Forall_cons in Hn as [Hc _]. cbn [app deref hd].
      unfold scan in Hc. bprop. cbn [app B CRLF_chars String.list_ascii_of_string existsb] in *. bprop.
      by rewrite !(proj2 (ceq_false c _)). }
    rewrite Hd. destruct (scan_split _ n ":" (" "%char :: v ++ CRLF_chars ++ rest) Hn eq_refl) as [-> ->].
    cbn [deref hd]. rewrite ceq_refl. cbn [negb tail drop_while]. rewrite ceq_refl.
    rewrite skip_space by (destruct v; [done|exact Hsp]).
    change (CRLF_chars ++ rest) with ("013"%char :: "010"%char :: rest).
    destruct (scan_split _ v "013" ("010"%char :: rest) Hv eq_refl) as [-> ->].
    change (end_of_line ("013"%char :: "010"%char :: rest)) with (Some rest). cbn iota. subst rest. by apply IH; [|lia].
Qed.

Definition word_ok (s : bytes) : Prop := scans (B " " ++ CRLF_chars) s.

Lemma word_hd s r : word_ok s → s ≠ [] → hd NUL (s ++ r) ≠ " "%char.
Proof.
  destruct s as [|c s]; [done|]. intros [Hc _]%list.Forall_cons _. cbn [app hd]. intros ->. vm_compute in Hc. done.
Qed.

Lemma parse_printed m u p fs r req :
  word_ok m → word_ok u → u ≠ [] → word_ok p → p ≠ [] → Forall field_ok fs →
  parseHeaders (print_head m u p fs ++ r) req =
    (MkHttpRequest (client req) m u p (collect [] fs) (content req), true).
Proof.
  intros Hm Hu Hune Hp Hpne Hfs. unfold print_head. rewrite <-!(assoc_L (++)).
  set (rest := print_fields fs ++ CRLF_chars ++ r). unfold parseHeaders.
  change (B " " ++ u ++ B " " ++ p ++ CRLF_chars ++ rest) with (" "%char :: u ++ " "%char :: p ++ CRLF_chars ++ rest).
  destruct (scan_split _ m " " (u ++ " "%char :: p ++ CRLF_chars ++ rest) Hm eq_refl) as [-> ->].
  cbn [deref hd negb drop_while]. rewrite ceq_refl. cbn [negb]. rewrite skip_space by by apply word_hd.
  destruct (scan_split _ u " " (p ++ CRLF_chars ++ rest) Hu eq_refl) as [-> ->].
  cbn [deref hd negb drop_while]. rewrite ceq_refl. cbn [negb]. rewrite skip_space by by apply word_hd.
  change (CRLF_chars ++ rest) with ("013"%char :: "010"%char :: rest).
  destruct (scan_split _ p "013" ("010"%char :: rest) Hp eq_refl) as [-> ->].
  cbn [deref hd]. rewrite ceq_refl. cbn [negb andb].
  change (end_of_line ("013"%char :: "010"%char :: rest)) with (Some rest). cbn iota. subst rest.
  rewrite parseHeaders_loop_fields; [|done|rewrite length_app; lia]. by rewrite end_of_line_CRLF.
Qed.

(** A request as clients print it is parsed to its parts: the method, the URI, the protocol and
    the header fields with their names normalised, repeated ones joined by commas; what follows
    the headers is not looked at. *)
Theorem parseHeaders_roundtrip m u p fs r req :
  word_ok m → word_ok u → u ≠ [] → word_ok p → p ≠ [] → Forall field_ok fs →
  parseHeaders (print_head m u p fs ++ r) req =
    (MkHttpRequest (client req) m u p (collect [] fs) (content req), true).
Proof.
  intros Hm Hu Hune Hp Hpne Hfs. apply (parse_printed m u p fs r req); done.
Qed.

(** ** Connections *)

Inductive conn_state :=
  Idle | ReceivingHeaders | Sending100Continue | ReceivingBody | Processing | SendingHeaders | SendingBody | Closing.

#[export] Instance conn_state_eq_dec : EqDecision conn_state.
Proof. solve_decision. Defined.

Record Connection := MkConnection {
  receiveBuffer : bytes;
  sendBuffer : bytes;
  state : conn_state;
  contentLength : Z;
  keepalive : bool;
  request : HttpRequest;
  response : HttpResponse;
}.

(** What [m_connections[csocket]] creates. *)
Definition Connection_new : Connection :=
  MkConnection [] [] Idle 0 false (MkHttpRequest [] [] [] [] [] []) (MkHttpResponse 0 [] [] []).

Inductive flag := Readable | Writable | Acceptable | Closed.

(** Calls on the reactor and the sockets, and of the handlers. *)
Inductive event :=
  | EvAddSocket (fd : Z) (flags : list flag)
  | EvRemoveSocket (fd : Z)
  | EvShutdownSend (fd : Z)
  | EvClose (fd : Z)
  | EvSent (fd : Z) (data : bytes)
  | EvRequest (fd : Z) (r : HttpRequest).

Record ServerConfig := MkServerConfig {
  m_serverHost : bytes;
  allowKeepalive : bool;
  m_handlers : list (bytes * option HttpRequestCallback);
  m_maxRequestHeadersSize : nat;
  m_maxRequestContentSize : Z;
}.

(** What the default constructor sets, and the setters. *)
Definition HttpServer_default : ServerConfig := MkServerConfig (B "unnamed") true [] 8192 (2 * 1024 * 1024).

Definition setKeepalive (keepAlive : bool) (cfg : ServerConfig) : ServerConfig :=
  MkServerConfig (m_serverHost cfg) keepAlive (m_handlers cfg) (m_maxRequestHeadersSize cfg) (m_maxRequestContentSize cfg).
Definition setRequestLimits (maxRequestHeadersSize : nat) (maxRequestContentSize : Z) (cfg : ServerConfig) : ServerConfig :=
  MkServerConfig (m_serverHost cfg) (allowKeepalive cfg) (m_handlers cfg) maxRequestHeadersSize maxRequestContentSize.
Definition setServerName (name : bytes) (cfg : ServerConfig) : ServerConfig :=
  MkServerConfig name (allowKeepalive cfg) (m_handlers cfg) (m_maxRequestHeadersSize cfg) (m_maxRequestContentSize cfg).

(** Handlers are only ever added at the end. *)
Definition push_handler (root : bytes) (handler : option HttpRequestCallback) (cfg : ServerConfig) : ServerConfig :=
  MkServerConfig (m_serverHost cfg) (allowKeepalive cfg) (m_handlers cfg ++ [(root, handler)])
    (m_maxRequestHeadersSize cfg) (m_maxRequestContentSize cfg).
Definition addHandler (root : bytes) (handler : HttpRequestCallback) : ServerConfig → ServerConfig :=
  push_handler root (Some handler).

(** [server[root]] adds a null handler; the assignment to the reference it answers fills it. *)
Definition handler_slot (root : bytes) : ServerConfig → ServerConfig := push_handler root None.
Definition assign_slot (handler : HttpRequestCallback) (cfg : ServerConfig) : ServerConfig :=
  let n := length (m_handlers cfg) in
  MkServerConfig (m_serverHost cfg) (allowKeepalive cfg) (alter (λ h, (h.1, Some handler)) (pred n) (m_handlers cfg))
    (m_maxRequestHeadersSize cfg) (m_maxRequestContentSize cfg).

Lemma assign_handler_slot root h cfg : assign_slot h (handler_slot root cfg) = addHandler root h cfg.
Proof.
  destruct cfg as [a b hs d e]. unfold assign_slot, handler_slot, addHandler, push_handler.
  cbn [m_serverHost allowKeepalive m_handlers m_maxRequestHeadersSize m_maxRequestContentSize]. f_equal.
  rewrite length_app, Nat.add_comm. cbn [length Nat.add pred]. induction hs as [|h0 hs IH]; [done|].
  cbn [app length]. by rewrite <-IH.
Qed.

Definition set_state (c : Connection) (st : conn_state) : Connection :=
  MkConnection (receiveBuffer c) (sendBuffer c) st (contentLength c) (keepalive c) (request c) (response c).
Definition set_code (c : Connection) (code : Z) : Connection :=
  let r := response c in
  MkConnection (receiveBuffer c) (sendBuffer c) (state c) (contentLength c) (keepalive c) (request c)
    (MkHttpResponse code (resp_message r) (resp_headers r) (resp_body r)).
Definition set_keepalive (c : Connection) (k : bool) : Connection :=
  MkConnection (receiveBuffer c) (sendBuffer c) (state c) (contentLength c) k (request c) (response c).
Definition set_sendBuffer (c : Connection) (b : bytes) : Connection :=
  MkConnection (receiveBuffer c) b (state c) (contentLength c) (keepalive c) (request c) (response c).
Definition set_receiveBuffer (c : Connection) (b : bytes) : Connection :=
  MkConnection b (sendBuffer c) (state c) (contentLength c) (keepalive c) (request c) (response c).
Definition set_request (c : Connection) (r : HttpRequest) : Connection :=
  MkConnection (receiveBuffer c) (sendBuffer c) (state c) (contentLength c) (keepalive c) r (response c).
Definition set_response (c : Connection) (r : HttpResponse) : Connection :=
  MkConnection (receiveBuffer c) (sendBuffer c) (state c) (contentLength c) (keepalive c) (request c) r.
Definition set_contentLength (c : Connection) (n : Z) : Connection :=
  MkConnection (receiveBuffer c) (sendBuffer c) (state c) n (keepalive c) (request c) (response c).

(** A request that cannot be served: its answer, and the connection will close. *)
Definition refuse (c : Connection) (code : Z) : Connection :=
  set_state (set_keepalive (set_code c code) false) Processing.

(** ** Default messages *)

Definition messages : list (Z * string) := [
  (100, "Continue"); (101, "Switching Protocols"); (200, "OK"); (201, "Created"); (202, "Accepted");
  (203, "Non-Authoritative Information"); (204, "No Content"); (205, "Reset Content"); (206, "Partial Content");
  (300, "Multiple Choices"); (301, "Moved Permanently"); (302, "Found"); (303, "See Other"); (304, "Not Modified");
  (305, "Use Proxy"); (306, "Switch Proxy"); (307, "Temporary Redirect"); (308, "Permanent Redirect");
  (400, "Bad Request"); (401, "Unauthorized"); (402, "Payment Required"); (403, "Forbidden"); (404, "Not Found");
  (405, "Method Not Allowed"); (406, "Not Acceptable"); (407, "Proxy Authentication Required");
  (408, "Request Timeout"); (409, "Conflict"); (410, "Gone"); (411, "Length Required"); (412, "Precondition Failed");
  (413, "Payload Too Large"); (414, "URI Too Long"); (415, "Unsupported Media Type"); (416, "Range Not Satisfiable");
  (417, "Expectation Failed"); (421, "Misdirected Request"); (426, "Upgrade Required"); (428, "Precondition Required");
  (429, "Too Many Requests"); (431, "Request Header Fields Too Large"); (500, "Internal Server Error");
  (501, "Not Implemented"); (502, "Bad Gateway"); (503, "Service Unavailable"); (504, "Gateway Timeout");
  (505, "HTTP Version Not Supported"); (506, "Variant Also Negotiates"); (510, "Not Extended");
  (511, "Network Authentication Required")]%Z%string.

Definition getDefaultResponseMessage (code : Z) : bytes :=
  match list_find (λ m, m.1 = code) messages with
  | Some (_, (_, text)) => B text
  | None => B "???"
  end.

(** ** Processing a request *)

Section processing.
Context (cfg : ServerConfig) (date : bytes).

(** [uri] starts with the handler's root: [strncmp] stops at a NUL. *)
Definition handler_matches (u root : bytes) : bool :=
  (length root <=? length u) && beq (take (length root) (cstr u)) (cstr root).

(** The loop over the handlers; [None] when a null handler is called, or one throws: nothing catches it on the way
    out of the server's thread. *)
Fixpoint run_handlers (hs : list (bytes * option HttpRequestCallback)) (req : HttpRequest) (resp : HttpResponse)
    : option HttpResponse :=
  match hs with
  | [] => Some resp
  | (root, h) :: hs =>
      if handler_matches (uri req) root then
        match h with
        | None => None
        | Some cb =>
            '(result, resp) ← onHttpRequest cb req resp;
            if negb (result =? 0)%Z
            then Some (MkHttpResponse result (resp_message resp) (resp_headers resp) (resp_body resp))
            else run_handlers hs req resp
        end
      else run_handlers hs req resp
  end.

(** [None]: a null handler, one that throws, or [-1], after which the erased connection is used. *)
Definition processRequest (c : Connection) : option Connection :=
  let r := MkHttpResponse (resp_code (response c)) [] [] [] in
  r ← (if (resp_code r =? 0)%Z then
         r ← run_handlers (m_handlers cfg) (request c) (MkHttpResponse 404 [] [] []);
         if (resp_code r =? -1)%Z then None else Some r
       else Some r);
  let message := match resp_message r with
                 | [] => getDefaultResponseMessage (resp_code r)
                 | m => m
                 end in
  let headers := om_set (B "Host") (m_serverHost cfg) (resp_headers r) in
  let headers := om_set (B "Connection") (if keepalive c then B "keep-alive" else B "close") headers in
  let headers := om_set (B "Date") date headers in
  let headers := om_set (B "Content-Length") (to_string (Z.of_nat (length (resp_body r)))) headers in
  Some (set_response c (MkHttpResponse (resp_code r) message headers (resp_body r))).

(** The status line and the headers, as written to the stream. *)
Definition response_text (c : Connection) : bytes :=
  protocol (request c) ++ B " " ++ to_string (resp_code (response c)) ++ B " " ++ resp_message (response c) ++ CRLF_chars
    ++ (resp_headers (response c) ≫= λ '(k, v), k ++ B ": " ++ v ++ CRLF_chars) ++ CRLF_chars.
End processing.

(** ** The state machine *)

Section server.
Context (cfg : ServerConfig) (date : bytes).

(** The kernel's [send] on a socket: the count (negative on an error), whether the error is
    that it would block, and the next state of the kernel. *)
Context {Kernel : Type} (os_send : Kernel → Z → bytes → Z * bool * Kernel).

Record World := MkWorld { kernel : Kernel; log : list event }.

Definition emit (w : World) (e : event) : World := MkWorld (kernel w) (log w ++ [e]).

(** [sendBuffer.erase(0, sent)] with [sent] converted to an unsigned count: a negative one erases
    everything. *)
Definition erase_sent (b : bytes) (sent : Z) : bytes := if (sent <? 0)%Z then [] else drop (Z.to_nat sent) b.

(** True when there is more to wait for. *)
Definition sendMore (fd : Z) (c : Connection) (w : World) : Connection * bool * World :=
  match sendBuffer c with
  | [] => (c, false, w)
  | b =>
      let '(sent, would_block, k) := os_send (kernel w) fd b in
      let w := MkWorld k (if (0 <? sent)%Z then log w ++ [EvSent fd (take (Z.to_nat sent) b)] else log w) in
      if (sent <? 0)%Z && negb would_block then (c, true, w)
      else
        let c := set_sendBuffer c (erase_sent b sent) in
        match sendBuffer c with
        | [] => (c, false, w)
        | _ => (c, true, emit w (EvAddSocket fd [Writable; Closed]))
        end
  end.

(** How a block of the loop body ends: falling through, [continue], [return], a fault. *)
Inductive ctl :=
  | Next (c : Connection) (w : World)
  | Again (c : Connection) (w : World)
  | Done (c : Connection) (w : World)
  | Fault.

Definition block := Connection → World → ctl.

(** [if (conn.state == st) { ... }] *)
Definition when_state (st : conn_state) (b : block) : block := λ c w,
  if decide (state c = st) then b c w else Next c w.

Definition idle_block : block := λ c w, Next (set_state (set_code c 0) ReceivingHeaders) w.

(** Where the headers end and how long the separator is. *)
Definition find_headers_end (b : bytes) : option (nat * nat) :=
  match find_sub (CRLF_chars ++ CRLF_chars) b 0 with
  | Some ofs => Some (ofs, 4)
  | None => match find_sub ["010"%char; "010"%char] b 0 with
            | Some ofs => Some (ofs, 2)
            | None => None
            end
  end.

Definition wants_keepalive (r : HttpRequest) : bool :=
  let k := beq (protocol r) (B "HTTP/1.1") in
  match om_find (B "Connection") (req_headers r) with
  | Some v =>
      if equalsLowercased v (B "keep-alive") then true
      else if equalsLowercased v (B "close") then false
      else k
  | None => k
  end.

(** [size_t contentLength = atoi(...)] *)
Definition content_length_of (r : HttpRequest) : Z :=
  match om_find (B "Content-Length") (req_headers r) with
  | Some v => (atoi (cstr v) mod 2 ^ 64)%Z
  | None => 0
  end.

(** From the parsed headers on. *)
Definition after_headers : block := λ c w,
  let r := request c in
  let c := set_contentLength (set_keepalive c (wants_keepalive r)) (content_length_of r) in
  if (m_maxRequestContentSize cfg <? contentLength c)%Z then Again (refuse c 413) w
  else
    match om_find (B "Expect") (req_headers r) with
    | Some v =>
        if beq (protocol r) (B "HTTP/1.1") then
          if negb (equalsLowercased v (B "100-continue")) then Again (refuse c 417) w
          else Again (set_state (set_sendBuffer c (B "HTTP/1.1 100 Continue" ++ CRLF_chars ++ CRLF_chars)) Sending100Continue) w
        else Next (set_state c ReceivingBody) w
    | None => Next (set_state c ReceivingBody) w
    end.

Definition headers_block : block := λ c w,
  let b := receiveBuffer c in
  let e := find_headers_end b in
  let headersLen := match e with Some (ofs, _) => ofs | None => length b end in
  if m_maxRequestHeadersSize cfg <? headersLen then Again (refuse c 431) w
  else
    match e with
    | None => Done c w
    | Some (ofs, sep) =>
        let '(r, ok) := parseHeaders b (request c) in
        let c := set_request c r in
        if negb ok then Again (refuse c 400) w
        else after_headers (set_receiveBuffer c (drop (ofs + sep) b)) w
    end.

Definition continue_block (fd : Z) : block := λ c w,
  let '(c, more, w) := sendMore fd c w in
  if more : bool then Done c w else Next (set_state c ReceivingBody) w.

Definition body_block : block := λ c w,
  let b := receiveBuffer c in
  if (Z.of_nat (length b) <? contentLength c)%Z then Done c w
  else
    let n := Z.to_nat (contentLength c) in
    let r := request c in
    let r := MkHttpRequest (client r) (method r) (uri r) (protocol r) (req_headers r) (take n b) in
    Next (set_state (set_request (set_receiveBuffer c (drop n b)) r) Processing) w.

Definition processing_block (fd : Z) : block := λ c w,
  let w := if (resp_code (response c) =? 0)%Z then emit w (EvRequest fd (request c)) else w in
  match processRequest cfg date c with
  | None => Fault
  | Some c => Next (set_state (set_sendBuffer c (response_text c)) SendingHeaders) w
  end.

(** [conn.sendBuffer = std::move(conn.response.body)] *)
Definition headers_sent_block (fd : Z) : block := λ c w,
  let '(c, more, w) := sendMore fd c w in
  if more : bool then Done c w
  else
    let r := response c in
    Next (set_state (set_response (set_sendBuffer c (resp_body r))
            (MkHttpResponse (resp_code r) (resp_message r) (resp_headers r) [])) SendingBody) w.

Definition body_sent_block (fd : Z) : block := λ c w,
  let '(c, more, w) := sendMore fd c w in
  if more : bool then Done c w
  else
    let c := set_keepalive c (keepalive c && allowKeepalive cfg) in
    if keepalive c then
      let w := emit w (EvAddSocket fd [Readable; Closed]) in
      let c := set_state c Idle in
      match receiveBuffer c with [] => Done c w | _ => Next c w end
    else Next (set_state c Closing) (emit (emit w (EvShutdownSend fd)) (EvAddSocket fd [Closed])).

Definition closing_block : block := λ c w, Done c w.

(** The body of the loop: the blocks in order. *)
Definition loop_body (fd : Z) : list block :=
  [when_state Idle idle_block; when_state ReceivingHeaders headers_block;
   when_state Sending100Continue (continue_block fd); when_state ReceivingBody body_block;
   when_state Processing (processing_block fd); when_state SendingHeaders (headers_sent_block fd);
   when_state SendingBody (body_sent_block fd); when_state Closing closing_block].

Fixpoint run_blocks (bs : list block) (c : Connection) (w : World) : ctl :=
  match bs with
  | [] => Again c w
  | b :: bs => match b c w with Next c w => run_blocks bs c w | r => r end
  end.

(** [None]: out of fuel. *)
Fixpoint handleConnection (fuel : nat) (fd : Z) (c : Connection) (w : World) : option ctl :=
  match fuel with
  | O => None
  | S fuel =>
      match run_blocks (loop_body fd) c w with
      | Again c w => handleConnection fuel fd c w
      | r => Some r
      end
  end.

(** Enough for any connection: see [handleConnection_terminates]. *)
Definition connection_fuel (c : Connection) : nat := 2 * length (receiveBuffer c) + 4.

(** ** The events of the reactor *)

Record HttpServer := MkHttpServer {
  m_connections : gmap Z Connection;
  world : World;
}.

Definition handleConnectionClosed (fd : Z) (s : HttpServer) : HttpServer :=
  MkHttpServer (delete fd (m_connections s)) (emit (emit (world s) (EvRemoveSocket fd)) (EvClose fd)).

(** [handleConnection] on the connection of a socket; [None] on a fault. *)
Definition on_connection (fd : Z) (c : Connection) (s : HttpServer) : option HttpServer :=
  match handleConnection (connection_fuel c) fd c (world s) with
  | Some (Done c w) => Some (MkHttpServer (<[fd := c]> (m_connections s)) w)
  | _ => None
  end.

(** [accepted] is the new socket and the client's address, when [accept] succeeds. *)
Definition onSocketAcceptable (accepted : option (Z * bytes)) (s : HttpServer) : option HttpServer :=
  match accepted with
  | None => Some s
  | Some (fd, addr) =>
      let c := default Connection_new (m_connections s !! fd) in
      let r := request c in
      let c := set_state (set_request c (MkHttpRequest addr (method r) (uri r) (protocol r) (req_headers r) (content r))) Idle in
      Some (MkHttpServer (<[fd := c]> (m_connections s)) (emit (world s) (EvAddSocket fd [Readable; Closed])))
  end.

(** [received] is the answer of [recv], [data] what it stored. *)
Definition onSocketReadable (fd received : Z) (data : bytes) (s : HttpServer) : option HttpServer :=
  match m_connections s !! fd with
  | None => Some s
  | Some c =>
      if (received <=? 0)%Z then Some (handleConnectionClosed fd s)
      else on_connection fd (set_receiveBuffer c (receiveBuffer c ++ take (Z.to_nat received) data)) s
  end.

Definition onSocketWritable (fd : Z) (s : HttpServer) : option HttpServer :=
  match m_connections s !! fd with
  | None => Some s
  | Some c =>
      let '(c, more, w) := sendMore fd c (world s) in
      let s := MkHttpServer (<[fd := c]> (m_connections s)) w in
      if more : bool then Some s else on_connection fd c s
  end.

Definition onSocketClosed (fd : Z) (s : HttpServer) : option HttpServer :=
  match m_connections s !! fd with
  | None => Some s
  | Some c => Some (handleConnectionClosed fd s)
  end.

Inductive reactor_event :=
  | RAcceptable (accepted : option (Z * bytes))
  | RReadable (fd received : Z) (data : bytes)
  | RWritable (fd : Z)
  | RClosed (fd : Z).

Definition react (s : HttpServer) (e : reactor_event) : option HttpServer :=
  match e with
  | RAcceptable a => onSocketAcceptable a s
  | RReadable fd received data => onSocketReadable fd received data s
  | RWritable fd => onSocketWritable fd s
  | RClosed fd => onSocketClosed fd s
  end.

Definition HttpServer_init (k : Kernel) : HttpServer := MkHttpServer ∅ (MkWorld k []).

(** ** One block at a time *)

Lemma when_state_eq st b c w : state c = st → when_state st b c w = b c w.
Proof. intros H. unfold when_state. by rewrite decide_True. Qed.

Lemma when_state_ne st b c w : state c ≠ st → when_state st b c w = Next c w.
Proof. intros H. unfold when_state. by rewrite decide_False. Qed.

Lemma run_blocks_eq st b bs c w :
  state c = st → run_blocks (when_state st b :: bs) c w = match b c w with Next c w => run_blocks bs c w | r => r end.
Proof. intros H. cbn [run_blocks]. by rewrite when_state_eq. Qed.

Lemma run_blocks_ne st b bs c w : state c ≠ st → run_blocks (when_state st b :: bs) c w = run_blocks bs c w.
Proof. intros H. cbn [run_blocks]. by rewrite when_state_ne. Qed.

Lemma sendMore_frame fd c w c' more w' : sendMore fd c w = (c', more, w') → ∃ b, c' = set_sendBuffer c b.
Proof.
  unfold sendMore. destruct (sendBuffer c) as [|a b] eqn:E.
  - intros [= <- <- <-]. exists []. destruct c. simpl in *. by subst.
  - destruct (os_send _ _ _) as [[sent wb] k]. destruct (_ && negb wb).
    + intros [= <- <- <-]. exists (a :: b). destruct c. simpl in *. by subst.
    + cbn [sendBuffer set_sendBuffer]. destruct (erase_sent _ _); intros [= <- <- <-]; eauto.
Qed.

(** What follows the state in the loop body. *)
Definition from_state (fd : Z) (st : conn_state) : list block :=
  match st with
  | Idle => loop_body fd
  | ReceivingHeaders => drop 1 (loop_body fd)
  | Sending100Continue => drop 2 (loop_body fd)
  | ReceivingBody => drop 3 (loop_body fd)
  | Processing => drop 4 (loop_body fd)
  | SendingHeaders => drop 5 (loop_body fd)
  | SendingBody => drop 6 (loop_body fd)
  | Closing => drop 7 (loop_body fd)
  end.

Lemma run_from_state fd c w : run_blocks (loop_body fd) c w = run_blocks (from_state fd (state c)) c w.
Proof.
  unfold loop_body. destruct (state c) eqn:E; cbn [from_state loop_body drop]; [done|..];
    repeat (rewrite run_blocks_ne by (rewrite E; done)); reflexivity.
Qed.

(** ** Termination

    Every turn of the loop either consumes the headers of a request, or moves towards the end
    of a response. *)

Lemma run_SendingBody fd c w c' w' :
  state c = SendingBody → run_blocks (from_state fd SendingBody) c w = Again c' w' →
  keepalive c = true ∧ state c' = Idle ∧ receiveBuffer c' = receiveBuffer c.
Proof.
  intros Hs. cbn [from_state loop_body drop]. rewrite (run_blocks_eq _ _ _ _ _ Hs). unfold body_sent_block.
  destruct (sendMore fd c w) as [[c1 more] w1] eqn:E. apply sendMore_frame in E as [b ->]. destruct more; [done|].
  cbn [keepalive set_sendBuffer set_keepalive]. destruct (keepalive c && allowKeepalive cfg) eqn:Ek.
  - bprop. cbn [receiveBuffer set_sendBuffer set_keepalive set_state]. destruct (receiveBuffer c) eqn:Er; [done|].
    rewrite run_blocks_ne by done. intros [= <- <-]. done.
  - by rewrite (run_blocks_eq Closing).
Qed.

Lemma run_SendingHeaders fd c w c' w' :
  state c = SendingHeaders → run_blocks (from_state fd SendingHeaders) c w = Again c' w' →
  keepalive c = true ∧ state c' = Idle ∧ receiveBuffer c' = receiveBuffer c.
Proof.
  intros Hs. cbn [from_state loop_body drop]. rewrite (run_blocks_eq _ _ _ _ _ Hs). unfold headers_sent_block.
  destruct (sendMore fd c w) as [[c1 more] w1] eqn:E. apply sendMore_frame in E as [b ->]. destruct more; [done|].
  intros H. by apply (run_SendingBody fd) in H.
Qed.

Lemma processRequest_frame c c' :
  processRequest cfg date c = Some c' → ∃ r, c' = set_response c r.
Proof. unfold processRequest. intros (r & _ & [= <-])%bind_Some. eauto. Qed.

Lemma run_Processing fd c w c' w' :
  state c = Processing → run_blocks (from_state fd Processing) c w = Again c' w' →
  keepalive c = true ∧ state c' = Idle ∧ receiveBuffer c' = receiveBuffer c.
Proof.
  intros Hs. cbn [from_state loop_body drop]. rewrite (run_blocks_eq _ _ _ _ _ Hs). unfold processing_block.
  destruct (processRequest cfg date c) as [c1|] eqn:E; [|done]. apply processRequest_frame in E as [r ->].
  intros H. by apply (run_SendingHeaders fd) in H.
Qed.

Lemma run_ReceivingBody fd c w c' w' :
  state c = ReceivingBody → run_blocks (from_state fd ReceivingBody) c w = Again c' w' →
  state c' = Idle ∧ length (receiveBuffer c') ≤ length (receiveBuffer c).
Proof.
  intros Hs. cbn [from_state loop_body drop]. rewrite (run_blocks_eq _ _ _ _ _ Hs). unfold body_block.
  destruct (_ <? _)%Z; [done|]. intros H. apply (run_Processing fd) in H as (_ & H & ->); [|done].
  split; [done|]. cbn [receiveBuffer set_state set_request set_receiveBuffer]. rewrite length_drop. lia.
Qed.

Lemma run_Sending100 fd c w c' w' :
  state c = Sending100Continue → run_blocks (from_state fd Sending100Continue) c w = Again c' w' →
  state c' = Idle ∧ length (receiveBuffer c') ≤ length (receiveBuffer c).
Proof.
  intros Hs. cbn [from_state loop_body drop]. rewrite (run_blocks_eq _ _ _ _ _ Hs). unfold continue_block.
  destruct (sendMore fd c w) as [[c1 more] w1] eqn:E. apply sendMore_frame in E as [b ->]. destruct more; [done|].
  intros H. by apply (run_ReceivingBody fd) in H.
Qed.

Lemma find_headers_end_le b ofs sep : find_headers_end b = Some (ofs, sep) → ofs + sep ≤ length b ∧ 2 ≤ sep.
Proof.
  unfold find_headers_end. destruct (find_sub _ b 0) as [o|] eqn:E.
  - intros [= <- <-]. apply find_sub_end in E; [|discriminate]. simpl in E. lia.
  - destruct (find_sub ["010"%char; "010"%char] b 0) as [o|] eqn:E2; [|done]. intros [= <- <-]. apply find_sub_end in E2; [|discriminate].
    simpl in E2. lia.
Qed.

(** How the block of the headers ends. *)
Lemma headers_block_ends c w :
  state c = ReceivingHeaders →
  match headers_block c w with
  | Next c' w' => state c' = ReceivingBody ∧ length (receiveBuffer c') + 2 ≤ length (receiveBuffer c)
  | Again c' w' => (state c' = Processing ∧ keepalive c' = false) ∨
                   (state c' = Sending100Continue ∧ length (receiveBuffer c') + 2 ≤ length (receiveBuffer c))
  | Done c' w' => True
  | Fault => False
  end.
Proof.
  intros Hs. unfold headers_block. destruct (find_headers_end (receiveBuffer c)) as [[ofs sep]|] eqn:E.
  - apply find_headers_end_le in E. destruct (_ <? ofs); [by left|].
    destruct (parseHeaders _ _) as [r ok]. destruct ok; cbn [negb]; [|by left]. unfold after_headers.
    set (c1 := set_receiveBuffer _ _).
    assert (Hl : length (receiveBuffer c1) + 2 ≤ length (receiveBuffer c)).
    { subst c1. cbn [receiveBuffer set_receiveBuffer]. rewrite length_drop. lia. }
    destruct (_ <? _)%Z; [by left|]. destruct (om_find _ _); [|by split].
    destruct (beq _ _); [|by split]. destruct (negb _); [by left|by right].
  - destruct (_ <? length _); [by left|done].
Qed.

Lemma run_ReceivingHeaders fd c w c' w' :
  state c = ReceivingHeaders → run_blocks (from_state fd ReceivingHeaders) c w = Again c' w' →
  (state c' = Processing ∧ keepalive c' = false) ∨
  ((state c' = Sending100Continue ∨ state c' = Idle) ∧ length (receiveBuffer c') + 2 ≤ length (receiveBuffer c)).
Proof.
  intros Hs. cbn [from_state loop_body drop]. rewrite (run_blocks_eq _ _ _ _ _ Hs).
  pose proof (headers_block_ends c w Hs) as He. destruct (headers_block c w) as [c1 w1|c1 w1|c1 w1|]; [| |done|done].
  - destruct He as [Hs1 Hl]. rewrite run_blocks_ne by (by rewrite Hs1). intros H.
    apply (run_ReceivingBody fd) in H as [H1 H2]; [|done]. right. split; [by right|lia].
  - intros [= <- <-]. destruct He as [[? ?]|[? ?]]; [by left|right; split; [by left|lia]].
Qed.

(** Twice the text to read, plus what is left of the state. *)
Definition weight (c : Connection) : nat :=
  match state c with
  | Idle | ReceivingHeaders => 2 * length (receiveBuffer c) + 1
  | Sending100Continue | ReceivingBody => 2 * length (receiveBuffer c) + 2
  | Processing | SendingHeaders | SendingBody | Closing =>
      if keepalive c then 2 * length (receiveBuffer c) + 2 else 0
  end.

Lemma run_decreases fd c w c' w' : run_blocks (loop_body fd) c w = Again c' w' → weight c' < weight c.
Proof.
  intros H. rewrite run_from_state in H. unfold weight at 2. destruct (state c) eqn:Hs.
  - unfold from_state, loop_body in H. rewrite (run_blocks_eq _ _ _ _ _ Hs) in H. unfold idle_block in H.
    apply (run_ReceivingHeaders fd) in H; [|done]. unfold weight. cbn [receiveBuffer set_state set_code] in H.
    destruct H as [[-> ->]|[[-> | ->] ?]]; lia.
  - apply (run_ReceivingHeaders fd) in H; [|done]. unfold weight. destruct H as [[-> ->]|[[-> | ->] ?]]; lia.
  - apply (run_Sending100 fd) in H as [H1 H2]; [|done]. unfold weight. rewrite H1. lia.
  - apply (run_ReceivingBody fd) in H as [H1 H2]; [|done]. unfold weight. rewrite H1. lia.
  - apply (run_Processing fd) in H as (-> & H1 & H2); [|done]. unfold weight. rewrite H1, H2. lia.
  - apply (run_SendingHeaders fd) in H as (-> & H1 & H2); [|done]. unfold weight. rewrite H1, H2. lia.
  - apply (run_SendingBody fd) in H as (-> & H1 & H2); [|done]. unfold weight. rewrite H1, H2. lia.
  - cbn [from_state loop_body drop] in H. by rewrite (run_blocks_eq _ _ _ _ _ Hs) in H.
Qed.

Lemma handleConnection_enough fuel fd c w : weight c < fuel → ∃ r, handleConnection fuel fd c w = Some r ∧ (∀ c' w', r ≠ Again c' w' ∧ r ≠ Next c' w').
Proof.
  revert c w. induction fuel as [|fuel IH]; intros c w Hf; [lia|]. cbn [handleConnection].
  assert (Hn : ∀ bs c w c' w', run_blocks bs c w ≠ Next c' w').
  { induction bs as [|b bs IHb]; intros c0 w0 c' w'; cbn [run_blocks]; [done|]. by destruct (b c0 w0). }
  specialize (Hn (loop_body fd) c w). pose proof (run_decreases fd c w) as Hd.
  destruct (run_blocks (loop_body fd) c w) as [c1 w1|c1 w1|c1 w1|].
  - by destruct (Hn c1 w1).
  - apply IH. specialize (Hd c1 w1 eq_refl). lia.
  - eexists. split; [reflexivity|]. intros c' w'. by split.
  - eexists. split; [reflexivity|]. intros c' w'. by split.
Qed.

(** C18: The loop of [handleConnection] ends for every connection in every state, whatever was
    received, however the kernel answers and whatever the handlers do: it returns, or faults. *)
Theorem handleConnection_terminates fd c w :
  (∃ c' w', handleConnection (connection_fuel c) fd c w = Some (Done c' w')) ∨
  handleConnection (connection_fuel c) fd c w = Some Fault.
Proof.
  destruct (handleConnection_enough (connection_fuel c) fd c w) as (r & -> & H).
  - unfold connection_fuel, weight. destruct (state c), (keepalive c); lia.
  - destruct r as [c' w'|c' w'|c' w'|]; [by destruct (H c' w') as [_ ?]|by destruct (H c' w') as [? _]|eauto|eauto].
Qed.

(** ** Limits *)

(** What the handlers may be called with. *)
Definition request_ok (r : HttpRequest) : Prop :=
  Z.of_nat (length (content r)) = content_length_of r ∧
  (Z.of_nat (length (content r)) ≤ m_maxRequestContentSize cfg)%Z.

Definition log_ok (w : World) : Prop := ∀ fd r, EvRequest fd r ∈ log w → request_ok r.

Definition conn_ok (c : Connection) : Prop :=
  match state c with
  | Sending100Continue | ReceivingBody =>
      contentLength c = content_length_of (request c) ∧ (contentLength c ≤ m_maxRequestContentSize cfg)%Z
  | Processing => resp_code (response c) ≠ 0%Z ∨ request_ok (request c)
  | _ => True
  end.

Definition ctl_ok (r : ctl) : Prop :=
  match r with Next c w | Again c w | Done c w => conn_ok c ∧ log_ok w | Fault => True end.

Lemma log_ok_snoc w e : log_ok w → (∀ fd r, e ≠ EvRequest fd r) → log_ok (emit w e).
Proof.
  intros Hl He fd r [Hin|Hin%list_elem_of_singleton]%elem_of_app; [by apply (Hl fd)|]. by destruct (He fd r).
Qed.

Lemma sendMore_log_ok fd c w c' more w' : log_ok w → sendMore fd c w = (c', more, w') → log_ok w'.
Proof.
  intros Hl. unfold sendMore. destruct (sendBuffer c) as [|a b]; [by intros [= <- <- <-]|].
  destruct (os_send _ _ _) as [[sent wb] k].
  assert (Hl' : log_ok (MkWorld k (if (0 <? sent)%Z then log w ++ [EvSent fd (take (Z.to_nat sent) (a :: b))] else log w))).
  { destruct (0 <? sent)%Z; [|exact Hl]. by apply (log_ok_snoc w). }
  destruct (_ && negb wb); [by intros [= <- <- <-]|]. cbn [sendBuffer set_sendBuffer].
  destruct (erase_sent _ _); intros [= <- <- <-]; [done|]. by apply log_ok_snoc.
Qed.

Lemma content_length_range r : (0 ≤ content_length_of r)%Z.
Proof. unfold content_length_of. destruct (om_find _ _); [|done]. apply Z.mod_pos_bound. lia. Qed.

Lemma headers_block_ok c w : conn_ok c → log_ok w → ctl_ok (headers_block c w).
Proof.
  intros Hc Hl. unfold headers_block. destruct (_ <? _); [by split; [left|]|].
  destruct (find_headers_end (receiveBuffer c)) as [[ofs sep]|] eqn:E; [|done].
  destruct (parseHeaders _ _) as [r ok]. destruct ok; cbn [negb]; [|by split; [left|]]. unfold after_headers.
  cbn [request set_receiveBuffer set_request contentLength set_contentLength].
  destruct (_ <? _)%Z eqn:Em; [by split; [left|]|]. bprop.
  destruct (om_find (B "Expect") _); [|by split]. destruct (beq _ _); [|by split].
  destruct (negb _); [by split; [left|]|by split].
Qed.

Lemma body_block_ok c w : state c = ReceivingBody → conn_ok c → log_ok w → ctl_ok (body_block c w).
Proof.
  intros Hs Hok Hl. pose proof Hok as H. unfold conn_ok in H. rewrite Hs in H. destruct H as [Hc Hm].
  unfold body_block. destruct (_ <? _)%Z eqn:E; [done|]. bprop. split; [|done]. right. unfold request_ok.
  cbn [request content set_state set_request]. rewrite length_take. pose proof (content_length_range (request c)).
  change (content_length_of (MkHttpRequest _ _ _ _ _ _)) with (content_length_of (request c)). lia.
Qed.

Lemma processing_block_ok fd c w : state c = Processing → conn_ok c → log_ok w → ctl_ok (processing_block fd c w).
Proof.
  intros Hs Hok Hl. unfold conn_ok in Hok. rewrite Hs in Hok. unfold processing_block.
  destruct (processRequest cfg date c) as [c1|]; [|done]. split; [done|].
  destruct (resp_code (response c) =? 0)%Z eqn:E; [|done]. bprop. destruct Hok as [?|Hr]; [done|].
  intros fd' r [Hin|[= -> ->]%list_elem_of_singleton]%elem_of_app; [by apply (Hl fd')|done].
Qed.

Lemma sending_block_ok st fd c w :
  log_ok w → state c = st →
  match st with
  | Sending100Continue => conn_ok c → ctl_ok (continue_block fd c w)
  | SendingHeaders => ctl_ok (headers_sent_block fd c w)
  | SendingBody => ctl_ok (body_sent_block fd c w)
  | _ => True
  end.
Proof.
  intros Hl Hs. destruct (sendMore fd c w) as [[c1 more] w1] eqn:E.
  pose proof (sendMore_log_ok _ _ _ _ _ _ Hl E) as Hl1. pose proof (sendMore_frame _ _ _ _ _ _ E) as [b ->].
  destruct st; try done.
  - unfold continue_block, conn_ok. rewrite Hs. intros Hok. rewrite E. destruct more; split; try done.
    unfold conn_ok. cbn [state set_sendBuffer]. by rewrite Hs.
  - unfold headers_sent_block. rewrite E. destruct more; split; try done. unfold conn_ok. cbn [state set_sendBuffer]. by rewrite Hs.
  - unfold body_sent_block. rewrite E. destruct more.
    { split; [|done]. unfold conn_ok. cbn [state set_sendBuffer]. by rewrite Hs. }
    destruct (keepalive _).
    + destruct (receiveBuffer _); split; try done; by apply log_ok_snoc.
    + split; [done|]. by apply log_ok_snoc; [apply log_ok_snoc|].
Qed.

Lemma when_state_ok st b c w :
  conn_ok c → log_ok w → (state c = st → ctl_ok (b c w)) → ctl_ok (when_state st b c w).
Proof. intros Hc Hl H. unfold when_state. case_decide; [auto|by split]. Qed.

Lemma loop_body_ok fd : Forall (λ b, ∀ c w, conn_ok c → log_ok w → ctl_ok (b c w)) (loop_body fd).
Proof.
  unfold loop_body. repeat (apply list.Forall_cons; split; [intros c w Hc Hl; apply when_state_ok; [done|done|intros Hs]|]).
  - by split.
  - by apply headers_block_ok.
  - by apply (sending_block_ok Sending100Continue).
  - by apply body_block_ok.
  - by apply processing_block_ok.
  - by apply (sending_block_ok SendingHeaders).
  - by apply (sending_block_ok SendingBody).
  - split; [done|done].
  - done.
Qed.

Lemma run_blocks_ok bs c w :
  Forall (λ b, ∀ c w, conn_ok c → log_ok w → ctl_ok (b c w)) bs → conn_ok c → log_ok w → ctl_ok (run_blocks bs c w).
Proof.
  intros H. revert c w. induction H as [|b bs Hb _ IH]; intros c w Hc Hl; cbn [run_blocks]; [by split|].
  specialize (Hb c w Hc Hl). destruct (b c w); try done. destruct Hb. by apply IH.
Qed.

Lemma handleConnection_ok fuel fd c w r :
  conn_ok c → log_ok w → handleConnection fuel fd c w = Some r → ctl_ok r.
Proof.
  revert c w. induction fuel as [|fuel IH]; intros c w Hc Hl; cbn [handleConnection]; [done|].
  pose proof (run_blocks_ok _ c w (loop_body_ok fd) Hc Hl) as H.
  destruct (run_blocks _ _ _) as [c1 w1|c1 w1|c1 w1|]; try (intros [= <-]; exact H).
  destruct H. by apply IH.
Qed.

(** The invariant of the server. *)
Definition server_ok (s : HttpServer) : Prop :=
  log_ok (world s) ∧ ∀ fd c, m_connections s !! fd = Some c → conn_ok c.

Lemma insert_ok (fd : Z) c (m : gmap Z Connection) :
  conn_ok c → (∀ fd c, m !! fd = Some c → conn_ok c) → ∀ fd' c', <[fd := c]> m !! fd' = Some c' → conn_ok c'.
Proof. intros Hc Hm fd' c' [[<- <-]|[_ H]]%lookup_insert_Some; [done|by eapply Hm]. Qed.

Lemma on_connection_ok fd c s s' : conn_ok c → server_ok s → on_connection fd c s = Some s' → server_ok s'.
Proof.
  intros Hc [Hl Hm]. unfold on_connection. destruct (handleConnection _ _ _ _) as [r|] eqn:E; [|done].
  apply handleConnection_ok in E; [|done|done]. destruct r as [c1 w1|c1 w1|c1 w1|]; try done. intros [= <-].
  destruct E as [Hc1 Hl1]. split; [done|]. by apply insert_ok.
Qed.

Lemma handleConnectionClosed_ok fd s : server_ok s → server_ok (handleConnectionClosed fd s).
Proof.
  intros [Hl Hm]. split; [by apply log_ok_snoc; [apply log_ok_snoc|]|].
  intros fd' c H. cbn [m_connections handleConnectionClosed] in H. apply lookup_delete_Some in H as [_ H]. by eapply Hm.
Qed.

Lemma react_ok s e s' : server_ok s → react s e = Some s' → server_ok s'.
Proof.
  intros Hs. pose proof Hs as [Hl Hm]. destruct e as [[[fd addr]|]|fd received data|fd|fd]; cbn [react].
  - intros [= <-]. split; [by apply log_ok_snoc|]. by apply insert_ok.
  - by intros [= <-].
  - unfold onSocketReadable. destruct (m_connections s !! fd) as [c|] eqn:Hc; [|by intros [= <-]].
    destruct (_ <=? 0)%Z; [intros [= <-]; by apply handleConnectionClosed_ok|].
    apply on_connection_ok; [|done]. exact (Hm fd c Hc).
  - unfold onSocketWritable. destruct (m_connections s !! fd) as [c|] eqn:Hc; [|by intros [= <-]].
    destruct (sendMore fd c (world s)) as [[c1 more] w1] eqn:E.
    pose proof (sendMore_log_ok _ _ _ _ _ _ Hl E) as Hl1. pose proof (sendMore_frame _ _ _ _ _ _ E) as [b ->].
    assert (Hok : conn_ok (set_sendBuffer c b)) by exact (Hm fd c Hc).
    assert (Hs1 : server_ok (MkHttpServer (<[fd := set_sendBuffer c b]> (m_connections s)) w1)).
    { split; [done|]. by apply insert_ok. }
    destruct more; [by intros [= <-]|]. by apply on_connection_ok.
  - unfold onSocketClosed. destruct (m_connections s !! fd) as [c|] eqn:Hc; [|by intros [= <-]].
    intros [= <-]. by apply handleConnectionClosed_ok.
Qed.

(** C19: Whatever the events, the bytes received and the kernel's answers: every request the handlers
    ever see has the length its Content-Length announced, and is within the limit. *)
Theorem requests_within_limits k events s fd r :
  foldl (λ o e, s ← o; react s e) (Some (HttpServer_init k)) events = Some s →
  EvRequest fd r ∈ log (world s) →
  Z.of_nat (length (content r)) = content_length_of r ∧ (Z.of_nat (length (content r)) ≤ m_maxRequestContentSize cfg)%Z.
Proof.
  intros H. enough (Hs : server_ok s) by apply Hs.
  revert s H. induction events as [|e events IH] using rev_ind; intros s.
  - intros [= <-]. split; [by intros fd' r' Hin%elem_of_nil|by intros fd' c Hc].
  - rewrite foldl_snoc. intros (s0 & H0 & Hr)%bind_Some. by eapply react_ok, Hr; apply IH.
Qed.

(** ** Sending *)

(** What went out on a socket, and what of the current response has not. *)
Definition sent_bytes (fd : Z) (w : World) : bytes :=
  log w ≫= λ e, match e with EvSent fd' data => if decide (fd' = fd) then data else [] | _ => [] end.

Definition unsent (c : Connection) : bytes :=
  match state c with
  | SendingHeaders => sendBuffer c ++ resp_body (response c)
  | SendingBody => sendBuffer c
  | _ => []
  end.

(** A kernel that takes some prefix of the data, possibly nothing, and never fails. *)
Definition lawful_send : Prop :=
  ∀ k fd b sent wb k', os_send k fd b = (sent, wb, k') → (0 ≤ sent ≤ Z.of_nat (length b))%Z.

Lemma sent_bytes_app fd k l l' : sent_bytes fd (MkWorld k (l ++ l')) = sent_bytes fd (MkWorld k l) ++ sent_bytes fd (MkWorld k l').
Proof. unfold sent_bytes. cbn [log]. apply bind_app. Qed.

Lemma sent_bytes_emit fd w e : (∀ fd' d, e ≠ EvSent fd' d) → sent_bytes fd (emit w e) = sent_bytes fd w.
Proof.
  intros He. unfold sent_bytes, emit. cbn [log]. rewrite bind_app. rewrite (app_nil_r (log w ≫= _)) || idtac.
  destruct e; cbn [mbind list_bind]; rewrite ?app_nil_r; try done. by destruct (He fd0 data).
Qed.

Lemma sendMore_conserves fd c w c' more w' :
  lawful_send → sendMore fd c w = (c', more, w') →
  sent_bytes fd w' ++ sendBuffer c' = sent_bytes fd w ++ sendBuffer c ∧ (more = false → sendBuffer c' = []).
Proof.
  intros Hk. unfold sendMore. destruct (sendBuffer c) as [|a b] eqn:Eb; [intros [= <- <- <-]; by rewrite Eb|].
  destruct (os_send _ _ _) as [[sent wb] k] eqn:Es. specialize (Hk _ _ _ _ _ _ Es).
  rewrite (proj2 (Z.ltb_ge sent 0)) by lia. cbn [andb]. unfold erase_sent. rewrite (proj2 (Z.ltb_ge sent 0)) by lia.
  cbn [sendBuffer set_sendBuffer].
  set (l := if (0 <? sent)%Z then _ else _).
  assert (Hl : sent_bytes fd (MkWorld k l) = sent_bytes fd w ++ take (Z.to_nat sent) (a :: b)).
  { subst l. destruct (0 <? sent)%Z eqn:E0.
    - rewrite sent_bytes_app. f_equal. unfold sent_bytes. cbn [log mbind list_bind]. by rewrite decide_True, app_nil_r.
    - bprop. replace (Z.to_nat sent) with 0 by lia. rewrite take_0, app_nil_r. done. }
  destruct (drop (Z.to_nat sent) (a :: b)) as [|d ds] eqn:Ed; intros [= <- <- <-]; cbn [sendBuffer set_sendBuffer].
  - rewrite Hl, app_nil_r. split; [|done]. rewrite <-(take_drop (Z.to_nat sent) (a :: b)) at 2. by rewrite Ed, app_nil_r.
  - rewrite sent_bytes_emit by done. rewrite Hl. split; [|done]. rewrite <-Ed, <-(assoc_L (++)). by rewrite take_drop.
Qed.

(** The end of a response: the connection is idle again or closing. *)
Lemma body_sent_conserves fd c w :
  lawful_send → state c = SendingBody → receiveBuffer c = [] →
  ∃ c' w', run_blocks (from_state fd SendingBody) c w = Done c' w' ∧ receiveBuffer c' = [] ∧
    (state c' = SendingBody ∨ state c' = Idle ∨ state c' = Closing) ∧
    sent_bytes fd w' ++ unsent c' = sent_bytes fd w ++ sendBuffer c.
Proof.
  intros Hk Hs Hr. cbn [from_state loop_body drop]. rewrite (run_blocks_eq _ _ _ _ _ Hs). unfold body_sent_block.
  destruct (sendMore fd c w) as [[c1 more] w1] eqn:E. pose proof (sendMore_conserves _ _ _ _ _ _ Hk E) as [Hc Hm].
  pose proof (sendMore_frame _ _ _ _ _ _ E) as [b ->]. destruct more.
  { eexists _, _. split; [done|]. cbn [receiveBuffer state set_sendBuffer]. split_and!; [done|by left|].
    unfold unsent. cbn [state set_sendBuffer]. rewrite Hs. exact Hc. }
  rewrite (Hm eq_refl), app_nil_r in Hc. destruct (keepalive _) eqn:Ek.
  - cbn [receiveBuffer set_state set_keepalive set_sendBuffer]. rewrite Hr. eexists _, _. split; [done|].
    split_and!; [done|by right; left|]. unfold unsent. cbn [state set_state]. rewrite app_nil_r, sent_bytes_emit by done. exact Hc.
  - rewrite (run_blocks_eq Closing) by done. eexists _, _. split; [done|]. split_and!; [done|by right; right|].
    unfold unsent. cbn [state set_state]. rewrite app_nil_r, !sent_bytes_emit by done. exact Hc.
Qed.

(** C20: However the kernel cuts the response into pieces: every time the connection is driven,
    what went out followed by what is kept is the status line, the headers and the body, so
    nothing is lost, repeated or reordered; once idle or closing, all of it went out. *)
Theorem response_conserved fd c w fuel :
  lawful_send → receiveBuffer c = [] → (state c = SendingHeaders ∨ state c = SendingBody) →
  ∃ c' w', handleConnection (S fuel) fd c w = Some (Done c' w') ∧ receiveBuffer c' = [] ∧
    sent_bytes fd w' ++ unsent c' = sent_bytes fd w ++ unsent c ∧
    (state c' = SendingHeaders ∨ state c' = SendingBody ∨
     (state c' = Idle ∨ state c' = Closing) ∧ sent_bytes fd w' = sent_bytes fd w ++ unsent c).
Proof.
  intros Hk Hr Hs.
  enough (H : ∃ c' w', run_blocks (loop_body fd) c w = Done c' w' ∧ receiveBuffer c' = [] ∧
    (state c' = SendingHeaders ∨ state c' = SendingBody ∨ state c' = Idle ∨ state c' = Closing) ∧
    sent_bytes fd w' ++ unsent c' = sent_bytes fd w ++ unsent c).
  { destruct H as (c' & w' & Hrun & Hr' & Hs' & Hc). exists c', w'. cbn [handleConnection]. rewrite Hrun.
    split_and!; [done..|]. destruct Hs' as [?|[?|Hs']]; [by left|by right; left|]. right. right. split; [done|].
    rewrite <-Hc. unfold unsent. by destruct Hs' as [-> | ->]; rewrite app_nil_r. }
  rewrite run_from_state. destruct Hs as [Hs|Hs]; rewrite Hs.
  - cbn [from_state loop_body drop]. rewrite (run_blocks_eq _ _ _ _ _ Hs). unfold headers_sent_block.
    destruct (sendMore fd c w) as [[c1 more] w1] eqn:E. pose proof (sendMore_conserves _ _ _ _ _ _ Hk E) as [Hc Hm].
    pose proof (sendMore_frame _ _ _ _ _ _ E) as [b ->]. destruct more.
    + eexists _, _. split; [done|]. cbn [receiveBuffer state set_sendBuffer]. split_and!; [done|by left|].
      unfold unsent. cbn [state set_sendBuffer response]. rewrite Hs. rewrite !(assoc_L (++)). by rewrite Hc.
    + rewrite (Hm eq_refl), app_nil_r in Hc.
      set (c2 := set_state _ SendingBody).
      destruct (body_sent_conserves fd c2 w1 Hk eq_refl Hr) as (c' & w' & Hrun & Hr' & Hs' & Hc').
      exists c', w'. cbn [from_state loop_body drop] in Hrun. rewrite Hrun. split_and!; [done|done|tauto|].
      rewrite Hc', Hc. subst c2. cbn [sendBuffer set_state set_response set_sendBuffer response]. unfold unsent. rewrite Hs.
      by rewrite (assoc_L (++)).
  - destruct (body_sent_conserves fd c w Hk Hs Hr) as (c' & w' & Hrun & Hr' & Hs' & Hc').
    exists c', w'. rewrite Hrun. split_and!; [done|done|tauto|]. rewrite Hc'. unfold unsent. by rewrite Hs.
Qed.

(** When the kernel answers that sending would block, the count of minus one erases the whole
    buffer: the response is taken for sent, the connection goes idle or closes, and no byte of it
    ever goes out. *)
Theorem would_block_loses_response fd c w fuel :
  (∀ k b, os_send k fd b = ((-1)%Z, true, k)) → receiveBuffer c = [] → state c = SendingHeaders →
  ∃ c' w', handleConnection (S fuel) fd c w = Some (Done c' w') ∧ (state c' = Idle ∨ state c' = Closing) ∧
    sent_bytes fd w' = sent_bytes fd w.
Proof.
  intros Hk Hr Hs.
  assert (Hsend : ∀ c w, sendMore fd c w = (set_sendBuffer c [], false, w)).
  { intros c0 [k l]. unfold sendMore. destruct (sendBuffer c0) as [|a b] eqn:Eb; [by destruct c0; cbn in *; subst|].
    cbn [kernel log]. by rewrite Hk. }
  cbn [handleConnection]. rewrite run_from_state, Hs. cbn [from_state loop_body drop].
  rewrite (run_blocks_eq _ _ _ _ _ Hs). unfold headers_sent_block. rewrite Hsend. cbv zeta beta iota.
  rewrite (run_blocks_eq SendingBody) by done. unfold body_sent_block. rewrite Hsend. cbv zeta beta iota.
  destruct (keepalive _).
  - cbn [receiveBuffer set_state set_keepalive set_sendBuffer set_response]. rewrite Hr. eexists _, _.
    split; [done|]. split; [by left|]. by rewrite sent_bytes_emit.
  - rewrite (run_blocks_eq Closing) by done. eexists _, _. split; [done|]. split; [by right|]. by rewrite !sent_bytes_emit.
Qed.

(** ** A whole exchange *)

Definition no_return (s : bytes) : Prop := Forall (λ c, ceq c "013" = false) s.

Lemma scans_no_return stops s : existsb (ceq "013") stops = true → scans stops s → no_return s.
Proof.
  intros Hb Hs. eapply list.Forall_impl; [exact Hs|]. cbn beta. intros c Hc. apply ceq_false. intros ->.
  unfold scan in Hc. rewrite Hb in Hc. by destruct (negb _).
Qed.

Lemma find_blank_skip l s pos :
  no_return l → find_sub_at (CRLF_chars ++ CRLF_chars) (l ++ s) pos = find_sub_at (CRLF_chars ++ CRLF_chars) s (pos + length l).
Proof.
  intros Hl. revert pos. induction Hl as [|c l Hc _ IH]; intros pos; [by rewrite Nat.add_0_r|].
  cbn [app find_sub_at length]. replace (is_prefix _ _) with false.
  - rewrite IH. f_equal. lia.
  - cbn [CRLF_chars app is_prefix]. assert (E : ceq "013" c = false) by (apply ceq_false; by intros <-).
    by rewrite E.
Qed.

(** The empty line comes first after a line, or after the lines that follow it. *)
Lemma find_blank_lines fs l r pos :
  no_return l → Forall field_ok fs →
  find_sub_at (CRLF_chars ++ CRLF_chars) (l ++ CRLF_chars ++ print_fields fs ++ CRLF_chars ++ r) pos =
    Some (pos + length l + length (print_fields fs)).
Proof.
  intros Hl Hfs. revert l pos Hl. induction Hfs as [|f fs (Hn & Hv & Hsp) Hfs IH]; intros l pos Hl.
  - rewrite find_blank_skip by done. cbn [length]. rewrite Nat.add_0_r. done.
  - rewrite find_blank_skip by done. unfold print_fields at 1 2. rewrite bind_cons. fold (print_fields fs).
    unfold print_field at 1 2. rewrite <-!(assoc_L (++)). destruct f as [n v]. cbn [fst snd] in *.
    set (line := n ++ B ": " ++ v).
    assert (Hline : no_return line).
    { apply list.Forall_app. split; [exact (scans_no_return (B ": " ++ CRLF_chars) n eq_refl Hn)|].
      apply list.Forall_app. split; [by repeat constructor|exact (scans_no_return CRLF_chars v eq_refl Hv)]. }
    assert (Hne : ∃ c t, line = c :: t) by (unfold line; destruct n; eexists _, _; reflexivity).
    assert (E : ∀ t, n ++ B ": " ++ v ++ t = line ++ t) by (intros t; unfold line; by rewrite <-!(assoc_L (++))).
    rewrite E. destruct Hne as (c & t & Hct).
    assert (Hc : ceq c "013" = false) by (rewrite Hct in Hline; by apply list.Forall_cons in Hline as [? _]).
    set (tl := CRLF_chars ++ print_fields fs ++ CRLF_chars ++ r) in *.
    assert (Estep : ∀ q, find_sub_at (CRLF_chars ++ CRLF_chars) (CRLF_chars ++ line ++ tl) q =
                         find_sub_at (CRLF_chars ++ CRLF_chars) (line ++ tl) (q + 2)).
    { intros q. rewrite Hct. change (CRLF_chars ++ (c :: t) ++ tl) with ("013"%char :: "010"%char :: c :: t ++ tl).
      cbn [find_sub_at]. replace (is_prefix _ ("013"%char :: _)) with false.
      - replace (is_prefix _ ("010"%char :: _)) with false by done. by replace (S (S q)) with (q + 2) by lia.
      - symmetry. cbn [CRLF_chars app is_prefix]. rewrite !ceq_refl. cbn [andb].
        assert (E2 : ceq "013" c = false) by (apply ceq_false; by intros <-). by rewrite E2. }
    rewrite Estep. subst tl. rewrite IH by done. f_equal. unfold line. rewrite !length_app. simpl. lia.
Qed.

Lemma find_headers_end_printed m u p fs r :
  word_ok m → word_ok u → word_ok p → Forall field_ok fs →
  ∃ ofs, find_headers_end (print_head m u p fs ++ r) = Some (ofs, 4) ∧ ofs + 4 = length (print_head m u p fs).
Proof.
  intros Hm Hu Hp Hfs. set (line := m ++ B " " ++ u ++ B " " ++ p).
  assert (Hline : no_return line).
  { unfold line, no_return. rewrite !list.Forall_app.
    pose proof (scans_no_return (B " " ++ CRLF_chars) m eq_refl Hm). pose proof (scans_no_return (B " " ++ CRLF_chars) u eq_refl Hu).
    pose proof (scans_no_return (B " " ++ CRLF_chars) p eq_refl Hp). split_and!; try done; by repeat constructor. }
  assert (E : ∀ t, print_head m u p fs ++ t = line ++ CRLF_chars ++ print_fields fs ++ CRLF_chars ++ t).
  { intros t. unfold print_head, line. by rewrite <-!(assoc_L (++)). }
  exists (length line + length (print_fields fs)). unfold find_headers_end, find_sub. rewrite E.
  rewrite (proj2 (Nat.ltb_ge _ _)) by lia. rewrite drop_0, find_blank_lines by done. split; [done|].
  rewrite <-(app_nil_r (print_head m u p fs)), E, !length_app. simpl. lia.
Qed.

(** What goes out for a response, from the socket's point of view. *)
Definition sent_events (fd : Z) (b : bytes) : list event := match b with [] => [] | _ => [EvSent fd b] end.

Lemma sendMore_all fd c k l :
  (∀ k b, os_send k fd b = (Z.of_nat (length b), false, k)) →
  sendMore fd c (MkWorld k l) = (set_sendBuffer c [], false, MkWorld k (l ++ sent_events fd (sendBuffer c))).
Proof.
  intros Hk. unfold sendMore. destruct (sendBuffer c) as [|a b] eqn:Eb.
  - cbn [sent_events]. rewrite app_nil_r. destruct c. cbn in *. by subst.
  - cbn [kernel log]. rewrite Hk. rewrite (proj2 (Z.ltb_lt 0 _)) by (cbn [length]; lia).
    rewrite (proj2 (Z.ltb_ge _ 0)) by lia. cbn [andb]. unfold erase_sent. rewrite (proj2 (Z.ltb_ge _ 0)) by lia.
    rewrite Nat2Z.id. rewrite drop_ge by lia. cbn [sendBuffer set_sendBuffer]. by rewrite take_ge by lia.
Qed.

(** The response side of an exchange, with a kernel that takes everything. *)
Lemma respond_all fd c k l c1 :
  (∀ k b, os_send k fd b = (Z.of_nat (length b), false, k)) →
  state c = Processing → receiveBuffer c = [] → resp_code (response c) = 0%Z → processRequest cfg date c = Some c1 →
  ∃ c', run_blocks (from_state fd Processing) c (MkWorld k l) =
      Done c' (MkWorld k (l ++ EvRequest fd (request c) :: sent_events fd (response_text c1) ++
        sent_events fd (resp_body (response c1)) ++
        (if keepalive c && allowKeepalive cfg then [EvAddSocket fd [Readable; Closed]]
         else [EvShutdownSend fd; EvAddSocket fd [Closed]]))) ∧
    receiveBuffer c' = [] ∧ state c' = (if keepalive c && allowKeepalive cfg then Idle else Closing).
Proof.
  intros Hk Hs Hr Hcode Hp. cbn [from_state loop_body drop]. rewrite (run_blocks_eq _ _ _ _ _ Hs).
  unfold processing_block. rewrite Hcode, Hp. change (0 =? 0)%Z with true. cbv zeta iota.
  apply processRequest_frame in Hp as [rs ->]. set (txt := response_text _).
  rewrite (run_blocks_eq SendingHeaders) by done. unfold headers_sent_block, emit. cbn [kernel log].
  rewrite sendMore_all by done. cbv zeta beta iota.
  rewrite (run_blocks_eq SendingBody) by done. unfold body_sent_block. rewrite sendMore_all by done. cbv zeta beta iota.
  cbn [sendBuffer set_sendBuffer set_state set_response response keepalive set_keepalive].
  destruct (keepalive c && allowKeepalive cfg).
  - cbn [receiveBuffer set_state set_keepalive set_sendBuffer set_response]. rewrite Hr. eexists.
    split; [unfold emit; cbn [kernel log]; rewrite <-!(assoc_L (++)); reflexivity|by split].
  - rewrite (run_blocks_eq Closing) by done. eexists.
    split; [unfold closing_block, emit; cbn [kernel log]; rewrite <-!(assoc_L (++)); reflexivity|by split].
Qed.

(** The connection with the request read, about to be processed. *)
Definition ready_to_process (c : Connection) (req : HttpRequest) : Connection :=
  MkConnection [] (sendBuffer c) Processing (content_length_of req) (wants_keepalive req) req
    (MkHttpResponse 0 (resp_message (response c)) (resp_headers (response c)) (resp_body (response c))).

(** A printed request in the buffer of an idle connection is read up to its processing. *)
Lemma receive_printed fd c w m u p fs bdy :
  let req := MkHttpRequest (client (request c)) m u p (collect [] fs) bdy in
  word_ok m → word_ok u → u ≠ [] → word_ok p → p ≠ [] → Forall field_ok fs →
  length (print_head m u p fs) ≤ m_maxRequestHeadersSize cfg + 4 →
  content_length_of req = Z.of_nat (length bdy) → (Z.of_nat (length bdy) ≤ m_maxRequestContentSize cfg)%Z →
  om_find (B "Expect") (collect [] fs) = None →
  state c = Idle → receiveBuffer c = print_head m u p fs ++ bdy →
  run_blocks (from_state fd Idle) c w = run_blocks (from_state fd Processing) (ready_to_process c req) w.
Proof.
  intros req Hm Hu Hune Hp Hpne Hfs Hhl Hcl Hmax Hex Hs Hrb.
  destruct (find_headers_end_printed m u p fs bdy Hm Hu Hp Hfs) as (ofs & Hend & Hofs).
  unfold from_state, loop_body. rewrite (run_blocks_eq Idle) by done. unfold idle_block.
  rewrite (run_blocks_eq ReceivingHeaders) by done. unfold headers_block.
  cbn [receiveBuffer set_state set_code request]. rewrite Hrb, Hend.
  rewrite (proj2 (Nat.ltb_ge _ _)) by lia. rewrite (parse_printed m u p fs bdy) by done. cbv iota. cbn [negb].
  rewrite Hofs, drop_app_length. unfold after_headers.
  cbn [request set_receiveBuffer set_request contentLength set_contentLength req_headers].
  change (content_length_of (MkHttpRequest _ m u p _ (content (request c)))) with (content_length_of req).
  rewrite Hcl, (proj2 (Z.ltb_ge _ _)), Hex by lia.
  rewrite (run_blocks_ne Sending100Continue) by done. rewrite (run_blocks_eq ReceivingBody) by done. unfold body_block.
  cbn [receiveBuffer set_state set_contentLength set_keepalive set_receiveBuffer contentLength request set_request].
  rewrite Z.ltb_irrefl, Nat2Z.id, take_ge, drop_ge by done.
  f_equal. unfold ready_to_process. by rewrite Hcl.
Qed.

(** C16: A whole exchange.  An idle connection receives a request as clients print it, with the body
    its Content-Length announces, within the limits and expecting nothing; the kernel takes what
    it is given.  Then the handlers get exactly the request that was printed, its status line,
    headers and body go out once and in order, and the connection stays open exactly when the
    request and the server want it to. *)
Theorem http_exchange fd c k l m u p fs bdy c1 fuel :
  let req := MkHttpRequest (client (request c)) m u p (collect [] fs) bdy in
  word_ok m → word_ok u → u ≠ [] → word_ok p → p ≠ [] → Forall field_ok fs →
  length (print_head m u p fs) ≤ m_maxRequestHeadersSize cfg + 4 →
  content_length_of req = Z.of_nat (length bdy) → (Z.of_nat (length bdy) ≤ m_maxRequestContentSize cfg)%Z →
  om_find (B "Expect") (collect [] fs) = None →
  (∀ k b, os_send k fd b = (Z.of_nat (length b), false, k)) →
  state c = Idle → receiveBuffer c = print_head m u p fs ++ bdy →
  processRequest cfg date (ready_to_process c req) = Some c1 →
  ∃ c', handleConnection (S fuel) fd c (MkWorld k l) =
      Some (Done c' (MkWorld k (l ++ EvRequest fd req :: sent_events fd (response_text c1) ++
        sent_events fd (resp_body (response c1)) ++
        (if wants_keepalive req && allowKeepalive cfg then [EvAddSocket fd [Readable; Closed]]
         else [EvShutdownSend fd; EvAddSocket fd [Closed]])))) ∧
    receiveBuffer c' = [] ∧ state c' = (if wants_keepalive req && allowKeepalive cfg then Idle else Closing).
Proof.
  intros req Hm Hu Hune Hp Hpne Hfs Hhl Hcl Hmax Hex Hk Hs Hrb Hproc.
  destruct (respond_all fd (ready_to_process c req) k l c1 Hk eq_refl eq_refl eq_refl Hproc) as (c' & Hrun & Hr' & Hs').
  exists c'. split; [|by split]. cbn [handleConnection]. rewrite run_from_state, Hs.
  rewrite (receive_printed fd c _ m u p fs bdy) by done. fold req. by rewrite Hrun.
Qed.
End server.

(** ** A server to run *)

(** Answers every request under /v1 with 200 and echoes its body; closes on /quit. *)
Definition echo_config : ServerConfig :=
  MkServerConfig (B "localhost:4318") true
    [(B "/v1", Some (Some (λ req resp, Some (200%Z, MkHttpResponse (resp_code resp) [] [] (content req)))));
     (B "/quit", Some (Some (λ req resp, Some ((-1)%Z, resp))))] 8192 100.

Definition send_all (k : unit) (fd : Z) (b : bytes) : Z * bool * unit := (Z.of_nat (length b), false, tt).
Definition send_none (k : unit) (fd : Z) (b : bytes) : Z * bool * unit := ((-1)%Z, true, tt).
Definition send_three (k : unit) (fd : Z) (b : bytes) : Z * bool * unit := (Z.of_nat (Nat.min 3 (length b)), false, tt).

Definition demo_fields : list (bytes * bytes) := [(B "host", B "here"); (B "content-LENGTH", B "5")].
Definition demo_head : bytes := print_head (B "POST") (B "/v1/traces") (B "HTTP/1.1") demo_fields.

Lemma scans_check stops s : forallb (scan stops) s = true → scans stops s.
Proof. apply forallb_Forall. Qed.

Lemma demo_fields_ok : Forall field_ok demo_fields.
Proof.
  unfold demo_fields. repeat (apply list.Forall_cons; split; [split; [by apply scans_check|split; [by apply scans_check|done]]|]).
  by apply list.Forall_nil.
Qed.

Lemma parseHeaders_roundtrip_witness :
  Forall field_ok demo_fields ∧
  parseHeaders (demo_head ++ B "hello") (MkHttpRequest [] [] [] [] [] []) =
    (MkHttpRequest [] (B "POST") (B "/v1/traces") (B "HTTP/1.1") [(B "Content-Length", B "5"); (B "Host", B "here")] [], true).
Proof.
  split; [exact demo_fields_ok|].
  exact (parseHeaders_roundtrip (B "POST") (B "/v1/traces") (B "HTTP/1.1") demo_fields (B "hello") (MkHttpRequest [] [] [] [] [] [])
    ltac:(by apply scans_check) ltac:(by apply scans_check) ltac:(discriminate) ltac:(by apply scans_check) ltac:(discriminate)
    demo_fields_ok).
Defined.

Definition demo_conn : Connection := set_receiveBuffer Connection_new (demo_head ++ B "hello").

Lemma http_exchange_witness :
  receiveBuffer demo_conn = demo_head ++ B "hello" ∧
  ∃ c' l, handleConnection echo_config (B "now") send_all 1 7 demo_conn (MkWorld tt []) = Some (Done c' (MkWorld tt l)) ∧
    state c' = Idle ∧ list.last l = Some (EvAddSocket 7 [Readable; Closed]).
Proof.
  split; [reflexivity|].
  destruct (processRequest echo_config (B "now") (ready_to_process demo_conn
    (MkHttpRequest [] (B "POST") (B "/v1/traces") (B "HTTP/1.1") (collect [] demo_fields) (B "hello")))) as [c1|] eqn:E;
    [|vm_compute in E; discriminate].
  destruct (http_exchange echo_config (B "now") send_all 7 demo_conn tt [] (B "POST") (B "/v1/traces") (B "HTTP/1.1")
    demo_fields (B "hello") c1 0) as (c' & Hrun & _ & Hs).
  1, 2, 4: apply scans_check; reflexivity.
  1, 2: discriminate.
  - exact demo_fields_ok.
  - apply Nat.leb_le. reflexivity.
  - reflexivity.
  - apply Z.leb_le. reflexivity.
  - reflexivity.
  - intros []; reflexivity.
  - reflexivity.
  - reflexivity.
  - exact E.
  - eexists c', _. split; [exact Hrun|]. split; [exact Hs|].
    change (wants_keepalive _ && _) with true. cbn iota. by rewrite app_comm_cons, !(assoc_L (++)), list.last_snoc.
Defined.

Definition demo_sending : Connection :=
  MkConnection [] (B "HTTP/1.1 200 OK") SendingHeaders 0 true (MkHttpRequest [] [] [] [] [] []) (MkHttpResponse 200 [] [] (B "hello")).

Lemma response_conserved_witness :
  lawful_send send_three ∧
  ∃ c' w', handleConnection echo_config [] send_three 1 7 demo_sending (MkWorld tt []) = Some (Done c' w') ∧
    sent_bytes 7 w' ++ unsent c' = B "HTTP/1.1 200 OKhello".
Proof.
  assert (H : lawful_send send_three).
  { intros k fd b sent wb k' E. unfold send_three in E. assert (sent = Z.of_nat (Nat.min 3 (length b))) as -> by congruence. lia. }
  split; [exact H|].
  destruct (response_conserved echo_config [] send_three 7 demo_sending (MkWorld tt []) 0 H eq_refl (or_introl eq_refl))
    as (c' & w' & Hrun & _ & Hc & _).
  exists c', w'. split; [exact Hrun|exact Hc].
Defined.

Lemma would_block_loses_response_witness :
  state demo_sending = SendingHeaders ∧
  ∃ c' w', handleConnection echo_config [] send_none 1 7 demo_sending (MkWorld tt []) = Some (Done c' w') ∧
    sent_bytes 7 w' = [].
Proof.
  split; [reflexivity|].
  destruct (would_block_loses_response echo_config [] send_none 7 demo_sending (MkWorld tt []) 0) as (c' & w' & Hrun & _ & Hc).
  - intros [] b; reflexivity.
  - reflexivity.
  - reflexivity.
  - exists c', w'. split; [exact Hrun|exact Hc].
Defined.

Definition demo_events : list reactor_event :=
  [RAcceptable (Some (7%Z, B "1.2.3.4:5")); RReadable 7 (Z.of_nat (length demo_head)) demo_head; RReadable 7 5 (B "hello")].

Lemma requests_within_limits_witness :
  ∃ s req, foldl (λ o e, s ← o; react echo_config [] send_all s e) (Some (HttpServer_init tt)) demo_events = Some s ∧
    EvRequest 7 req ∈ log (world s) ∧ Z.of_nat (length (content req)) = content_length_of req ∧
    (Z.of_nat (length (content req)) ≤ 100)%Z.
Proof.
  destruct (foldl (λ o e, s ← o; react echo_config [] send_all s e) (Some (HttpServer_init tt)) demo_events) as [s|] eqn:E;
    [|vm_compute in E; discriminate].
  exists s, (MkHttpRequest (B "1.2.3.4:5") (B "POST") (B "/v1/traces") (B "HTTP/1.1") (collect [] demo_fields) (B "hello")).
  assert (Hin : EvRequest 7 (MkHttpRequest (B "1.2.3.4:5") (B "POST") (B "/v1/traces") (B "HTTP/1.1") (collect [] demo_fields) (B "hello"))
    ∈ log (world s)).
  { vm_compute in E. injection E as <-. cbn [world log]. apply list_elem_of_further, list_elem_of_here. }
  split; [reflexivity|]. split; [exact Hin|].
  exact (requests_within_limits echo_config [] send_all tt demo_events s 7 _ E Hin).
Defined.

(** A handler that asks for the connection to be closed has it erased, and the code goes on with
    the erased connection. *)
Example close_request_faults :
  handleConnection echo_config [] send_all 4 7
    (set_receiveBuffer Connection_new (print_head (B "GET") (B "/quit") (B "HTTP/1.1") [])) (MkWorld tt []) = Some Fault.
Proof. vm_compute. reflexivity. Qed.

(** Headers with bare line feeds, followed by a body with an empty line: the headers are parsed
    to their own end, but everything up to the later empty line is dropped. *)
Example mixed_line_ends :
  let b := B "GET / HTTP/1.1" ++ B (String "010" (String "010" EmptyString)) ++ B "dropped" ++ CRLF_chars ++ CRLF_chars ++ B "kept" in
  (parseHeaders b (MkHttpRequest [] [] [] [] [] [])).2 = true ∧
  match find_headers_end b with Some (ofs, sep) => drop (ofs + sep) b = B "kept" | None => False end.
Proof. split; vm_compute; reflexivity. Qed.
