(* ===== verification/HttpSegments.v ===== *)
(** * Requests that arrive in pieces

    What recv answers is a piece of what the client sent, cut anywhere.  However a request is cut, HttpServer
    (OT/ext/http/server/http_server.h) does with it what it does when it comes whole - provided its head stays three bytes
    under the limit. *)
From S2P Require Export HttpServer.

(** ** The end of the head *)

Lemma find_sub_at_ge n s pos i : find_sub_at n s pos = Some i → pos ≤ i.
Proof.
  revert pos. induction s as [|c s IH]; intros pos; cbn [find_sub_at]; destruct (is_prefix _ _); try done; try (intros [= <-]; lia).
  intros ?%IH. lia.
Qed.

(** What occurs in a text occurs in a longer one, perhaps earlier. *)
Lemma find_sub_longer n s r i : find_sub n s 0 = Some i → ∃ j, j ≤ i ∧ find_sub n (s ++ r) 0 = Some j.
Proof.
  unfold find_sub. cbn [Nat.ltb Nat.leb]. rewrite !drop_0. generalize 0.
  assert (Hl : ∀ s, is_prefix n s = true → is_prefix n (s ++ r) = true).
  { intros t (u & ->)%is_prefix_spec. apply is_prefix_spec. exists (u ++ r). by rewrite (assoc_L (++)). }
  induction s as [|c s IH]; intros pos; cbn [find_sub_at app].
  - destruct (is_prefix n []) eqn:E; [|done]. intros [= <-]. exists pos. split; [done|].
    apply Hl in E. cbn [app] in E. destruct r; cbn [find_sub_at]; by rewrite E.
  - destruct (is_prefix n (c :: s)) eqn:E.
    + intros [= <-]. exists pos. split; [done|]. apply Hl in E. cbn [app] in E. by rewrite E.
    + intros H. destruct (is_prefix n (c :: s ++ r)); [exists pos; apply find_sub_at_ge in H; split; [lia|done]|by apply IH].
Qed.

Definition no_feed (s : bytes) : Prop := Forall (λ c, ceq c "010" = false) s.

Lemma scans_no_feed stops s : existsb (ceq "010") stops = true → scans stops s → no_feed s.
Proof.
  intros Hb Hs. eapply list.Forall_impl; [exact Hs|]. cbn beta. intros c Hc. apply ceq_false. intros ->.
  unfold scan in Hc. rewrite Hb in Hc. by destruct (negb _).
Qed.

Definition LFLF : bytes := ["010"; "010"]%char.

Lemma find_feeds_skip l s pos : no_feed l → find_sub_at LFLF (l ++ s) pos = find_sub_at LFLF s (pos + length l).
Proof.
  intros Hl. revert pos. induction Hl as [|c l Hc _ IH]; intros pos; [by rewrite Nat.add_0_r|].
  cbn [app find_sub_at length]. replace (is_prefix _ _) with false.
  - rewrite IH. f_equal. lia.
  - cbn [LFLF is_prefix]. assert (E : ceq "010" c = false) by (apply ceq_false; by intros <-). by rewrite E.
Qed.

(** A line end is no empty line when a line, or a carriage return, follows. *)
Lemma find_feeds_line l s pos :
  no_feed l → hd NUL s ≠ "010"%char → find_sub_at LFLF (l ++ CRLF_chars ++ s) pos = find_sub_at LFLF s (pos + length l + 2).
Proof.
  intros Hl Hs. rewrite find_feeds_skip by done. cbn [CRLF_chars app find_sub_at LFLF is_prefix].
  change (ceq "010" "013") with false. change (ceq "010" "010") with true. cbn [andb].
  destruct s as [|c s]; cbn [is_prefix]; [by replace (S (S (pos + length l))) with (pos + length l + 2) by lia|].
  assert (E : ceq "010" c = false) by (apply ceq_false; by intros <-). rewrite E. cbn [andb]. f_equal. lia.
Qed.

Lemma no_feeds_printed m u p fs : word_ok m → word_ok u → word_ok p → Forall field_ok fs → find_sub LFLF (print_head m u p fs) 0 = None.
Proof.
  intros Hm Hu Hp Hfs. unfold find_sub. cbn [Nat.ltb Nat.leb]. rewrite drop_0. unfold print_head. set (line := m ++ B " " ++ u ++ B " " ++ p).
  replace (m ++ _) with (line ++ CRLF_chars ++ print_fields fs ++ CRLF_chars) by (unfold line; by rewrite <-!(assoc_L (++))).
  assert (Hline : no_feed line).
  { unfold line, no_feed. rewrite !list.Forall_app.
    pose proof (scans_no_feed (B " " ++ CRLF_chars) m eq_refl Hm). pose proof (scans_no_feed (B " " ++ CRLF_chars) u eq_refl Hu).
    pose proof (scans_no_feed (B " " ++ CRLF_chars) p eq_refl Hp). split_and!; try done; by repeat constructor. }
  generalize 0. revert Hline. generalize line. clear -Hfs. induction Hfs as [|[n v] fs (Hn & Hv & _) _ IH]; intros line Hline pos.
  - by rewrite find_feeds_line.
  - unfold print_fields. rewrite bind_cons. fold (print_fields fs). unfold print_field. cbn [fst snd] in *. rewrite <-!(assoc_L (++)).
    pose proof (scans_no_feed (B ": " ++ CRLF_chars) n eq_refl Hn) as Hn'.
    rewrite find_feeds_line; [|done|].
    + replace (n ++ B ": " ++ v ++ CRLF_chars ++ print_fields fs ++ CRLF_chars)
        with ((n ++ B ": " ++ v) ++ CRLF_chars ++ print_fields fs ++ CRLF_chars) by (by rewrite <-!(assoc_L (++))).
      apply IH. apply list.Forall_app. split; [done|]. apply list.Forall_app.
      split; [by repeat constructor|]. exact (scans_no_feed CRLF_chars v eq_refl Hv).
    + destruct Hn' as [|c n Hc _]; [done|]. cbn. intros ->. done.
Qed.

(** The end of the head is not found before all of it is there. *)
Lemma find_headers_end_partial m u p fs b r :
  word_ok m → word_ok u → word_ok p → Forall field_ok fs → b ++ r = print_head m u p fs → r ≠ [] → find_headers_end b = None.
Proof.
  intros Hm Hu Hp Hfs E Hr. destruct (find_headers_end_printed m u p fs [] Hm Hu Hp Hfs) as (ofs & Hend & Hofs).
  rewrite app_nil_r, <-E in *. unfold find_headers_end in *. fold LFLF in *. pose proof (no_feeds_printed m u p fs Hm Hu Hp Hfs) as Hno. rewrite <-E in Hno.
  destruct (find_sub (CRLF_chars ++ CRLF_chars) b 0) as [i|] eqn:E1.
  - destruct (find_sub_longer _ _ r _ E1) as (j & Hj & Ej). rewrite Ej in Hend. injection Hend as ->.
    apply find_sub_end in E1 as [_ E1]; [|done]. rewrite length_app in Hofs. destruct r; [done|]. cbn in *. lia.
  - destruct (find_sub LFLF b 0) as [i|] eqn:E2; [|done]. destruct (find_sub_longer _ _ r _ E2) as (j & _ & Ej). congruence.
Qed.

Section segments.
Context (cfg : ServerConfig) (date : bytes) {Kernel : Type} (os_send : Kernel → Z → bytes → Z * bool * Kernel).

(** A request as clients print it, within the limits, its body announced. *)
Record printed_ok (m u p : bytes) (fs : list (bytes * bytes)) (bdy : bytes) (req : HttpRequest) : Prop := {
  pk_method : word_ok m;
  pk_uri : word_ok u ∧ u ≠ [];
  pk_protocol : word_ok p ∧ p ≠ [];
  pk_fields : Forall field_ok fs;
  pk_head : length (print_head m u p fs) ≤ m_maxRequestHeadersSize cfg + 1;
  pk_req : ∃ peer, req = MkHttpRequest peer m u p (collect [] fs) bdy;
  pk_length : content_length_of req = Z.of_nat (length bdy);
  pk_body : (Z.of_nat (length bdy) ≤ m_maxRequestContentSize cfg)%Z;
  pk_expect : om_find (B "Expect") (collect [] fs) = None;
}.

(** The connection while the request comes in: with part of the head, and with the head read and part of the body. *)
Definition in_head (c : Connection) (b : bytes) : Connection :=
  set_receiveBuffer (set_state (set_code c 0) ReceivingHeaders) b.
Definition in_body (c : Connection) (req : HttpRequest) (b : bytes) : Connection :=
  MkConnection b (sendBuffer c) ReceivingBody (content_length_of req) (wants_keepalive req)
    (MkHttpRequest (client req) (method req) (uri req) (protocol req) (req_headers req) (content (request c)))
    (MkHttpResponse 0 (resp_message (response c)) (resp_headers (response c)) (resp_body (response c))).

Context (fd : Z) (m u p : bytes) (fs : list (bytes * bytes)) (bdy : bytes) (req : HttpRequest).
Context (Hok : printed_ok m u p fs bdy req).

Lemma run_in_body c b r w :
  b ++ r = bdy →
  run_blocks (from_state cfg date os_send fd ReceivingBody) (in_body c req b) w =
  match r with
  | [] => run_blocks (from_state cfg date os_send fd Processing) (ready_to_process c req) w
  | _ => Done (in_body c req b) w
  end.
Proof using Hok.
  intros E. destruct Hok as [_ _ _ _ _ (peer & Hreq) Hcl _ _]. cbn [from_state loop_body drop]. rewrite (run_blocks_eq ReceivingBody) by done.
  unfold body_block. cbn [receiveBuffer contentLength in_body]. rewrite Hcl. destruct r as [|x r].
  - rewrite app_nil_r in E. subst b. rewrite Z.ltb_irrefl, Nat2Z.id, take_ge, drop_ge by done.
    unfold ready_to_process. rewrite Hcl. f_equal. unfold set_state, set_request, set_receiveBuffer, in_body. cbn. by rewrite Hcl, Hreq.
  - rewrite (proj2 (Z.ltb_lt _ _)); [done|]. rewrite <-E, length_app. cbn. lia.
Qed.

Lemma run_in_head c b r w :
  client (request c) = client req → b ++ r = print_head m u p fs ++ bdy →
  run_blocks (from_state cfg date os_send fd ReceivingHeaders) (in_head c b) w =
  if length b <? length (print_head m u p fs) then Done (in_head c b) w
  else run_blocks (from_state cfg date os_send fd ReceivingBody) (in_body c req (drop (length (print_head m u p fs)) b)) w.
Proof using Hok.
  intros Hcl E. destruct Hok as [Hm [Hu Hune] [Hp Hpne] Hfs Hhl (peer & Hreq) Hlen Hmax Hex].
  cbn [from_state loop_body drop]. rewrite (run_blocks_eq ReceivingHeaders) by done. unfold headers_block.
  cbn [receiveBuffer in_head set_receiveBuffer]. destruct (length b <? length (print_head m u p fs)) eqn:El.
  - apply Nat.ltb_lt in El. assert (Eb : b ++ drop (length b) (print_head m u p fs) = print_head m u p fs).
    { rewrite <-(take_drop (length b) (print_head m u p fs)) at 2. f_equal.
      rewrite <-(take_app_le (print_head m u p fs) bdy), <-E by lia. by rewrite take_app_length. }
    rewrite (find_headers_end_partial m u p fs b (drop (length b) (print_head m u p fs))); try done.
    + by rewrite (proj2 (Nat.ltb_ge _ _)) by lia.
    + intros Hd. apply (f_equal length) in Hd. rewrite length_drop in Hd. cbn in Hd. lia.
  - apply Nat.ltb_ge in El. set (head := print_head m u p fs) in *. set (t := drop (length head) b).
    assert (Eb : b = head ++ t).
    { unfold t. rewrite <-(take_drop (length head) b) at 1. f_equal. rewrite <-(take_app_le b r), E by lia. by rewrite take_app_length. }
    destruct (find_headers_end_printed m u p fs t Hm Hu Hp Hfs) as (ofs & Hend & Hofs). fold head in Hend, Hofs. rewrite Eb, Hend.
    rewrite (proj2 (Nat.ltb_ge _ _)) by lia. unfold head at 1. rewrite (parse_printed m u p fs t) by done. cbv iota. cbn [negb].
    rewrite Hofs, drop_app_length. unfold after_headers.
    cbn [request set_receiveBuffer set_request contentLength set_contentLength req_headers in_head].
    change (content_length_of (MkHttpRequest _ m u p _ _)) with (content_length_of (MkHttpRequest peer m u p (collect [] fs) bdy)).
    rewrite <-Hreq, Hlen, (proj2 (Z.ltb_ge _ _)), Hex by lia.
    rewrite (run_blocks_ne Sending100Continue) by done. cbn [from_state loop_body drop]. f_equal.
    unfold in_body, set_state, set_contentLength, set_keepalive, set_request, set_receiveBuffer, set_code. cbn.
    rewrite Hlen, Hreq in *. cbn in *. by rewrite Hcl.
Qed.

Lemma run_idle c b w :
  state c = Idle →
  run_blocks (from_state cfg date os_send fd Idle) (set_receiveBuffer c b) w =
  run_blocks (from_state cfg date os_send fd ReceivingHeaders) (in_head c b) w.
Proof using All. intros Hs. cbn [from_state]. unfold loop_body. by rewrite (run_blocks_eq Idle). Qed.

(** What the connection is after a part of the request. *)
Definition awaiting (c : Connection) (pre : bytes) : Connection :=
  match pre with
  | [] => c
  | _ => if length pre <? length (print_head m u p fs) then in_head c pre else in_body c req (drop (length (print_head m u p fs)) pre)
  end.

Lemma awaiting_receives c pre data rest w :
  state c = Idle → receiveBuffer c = [] → client (request c) = client req →
  data ≠ [] → pre ++ data ++ rest = print_head m u p fs ++ bdy →
  let c1 := set_receiveBuffer (awaiting c pre) (receiveBuffer (awaiting c pre) ++ data) in
  run_blocks (loop_body cfg date os_send fd) c1 w =
  match rest with
  | [] => run_blocks (from_state cfg date os_send fd Processing) (ready_to_process c req) w
  | _ => Done (awaiting c (pre ++ data)) w
  end.
Proof using Hok.
  intros Hs Hb Hcl Hd E. cbv zeta. set (head := print_head m u p fs) in *. rewrite (assoc_L (++)) in E.
  assert (Hne : ∃ x l, pre ++ data = x :: l) by (destruct pre, data; try done; eexists _, _; reflexivity).
  assert (Hhead : run_blocks (from_state cfg date os_send fd ReceivingHeaders) (in_head c (pre ++ data)) w =
    match rest with [] => run_blocks (from_state cfg date os_send fd Processing) (ready_to_process c req) w | _ => Done (awaiting c (pre ++ data)) w end).
  { rewrite (run_in_head c (pre ++ data) rest) by done. fold head. unfold awaiting. fold head. destruct Hne as (x & l & Hne). rewrite Hne in *.
    destruct (length (x :: l) <? length head) eqn:El.
    - apply Nat.ltb_lt in El. destruct rest; [|done]. rewrite app_nil_r in E. apply (f_equal length) in E. rewrite length_app in E. lia.
    - apply Nat.ltb_ge in El. rewrite (run_in_body c _ rest); [by destruct rest|].
      rewrite <-(drop_app_le (x :: l) rest), E by done. by rewrite drop_app_length. }
  rewrite run_from_state. destruct pre as [|y pre].
  - cbn [awaiting]. rewrite Hb. cbn [state set_receiveBuffer]. rewrite Hs, run_idle by done. exact Hhead.
  - change (awaiting c (y :: pre)) with
      (if length (y :: pre) <? length head then in_head c (y :: pre) else in_body c req (drop (length head) (y :: pre))).
    destruct (length (y :: pre) <? length head) eqn:El; [exact Hhead|]. apply Nat.ltb_ge in El.
    cbn [state set_receiveBuffer in_body receiveBuffer].
    change (set_receiveBuffer (in_body c req ?a) ?b) with (in_body c req b).
    rewrite <-drop_app_le by done. rewrite (run_in_body c _ rest).
    + destruct rest; [done|]. unfold awaiting. fold head. cbn [app]. rewrite (proj2 (Nat.ltb_ge _ _)); [done|]. rewrite app_comm_cons, length_app. lia.
    + rewrite <-drop_app_le by (rewrite length_app; lia). rewrite E. by rewrite drop_app_length.
Qed.

(** The pieces that recv answers, one after another. *)
Definition feed (cs : list bytes) (s : HttpServer) : option HttpServer :=
  foldl (λ o data, s ← o; onSocketReadable cfg date os_send fd (Z.of_nat (length data)) data s) (Some s) cs.
End segments.

(** C17: However a request is cut into the pieces that recv answers - in the middle of a line, of an empty line, of the
    body - the server does what it does when it comes whole: nothing until the last piece, then the handlers get exactly the
    request that was printed and the response goes out, once; the connection ends up the same, for every way of cutting.
    The head is at least three bytes shorter than the limit ([printed_ok]; [tight_limit] shows what a longer one meets). *)
Theorem segmented_request cfg date {Kernel} (os_send : Kernel → Z → bytes → Z * bool * Kernel) fd m u p fs bdy req s c c1 :
  printed_ok cfg m u p fs bdy req → (∀ k b, os_send k fd b = (Z.of_nat (length b), false, k)) →
  m_connections s !! fd = Some c → state c = Idle → receiveBuffer c = [] → client (request c) = client req →
  processRequest cfg date (ready_to_process c req) = Some c1 →
  ∃ c', receiveBuffer c' = [] ∧ state c' = (if wants_keepalive req && allowKeepalive cfg then Idle else Closing) ∧
  ∀ cs, concat cs = print_head m u p fs ++ bdy → Forall (λ data, data ≠ []) cs →
    feed cfg date os_send fd cs s = Some (MkHttpServer (<[fd := c']> (m_connections s))
      (MkWorld (kernel (world s)) (log (world s) ++ EvRequest fd req :: sent_events fd (response_text c1) ++
        sent_events fd (resp_body (response c1)) ++
        (if wants_keepalive req && allowKeepalive cfg then [EvAddSocket fd [Readable; Closed]]
         else [EvShutdownSend fd; EvAddSocket fd [Closed]])))).
Proof.
  intros Hok Hk Hc Hs Hb Hcl Hp. destruct s as [conns [k l]]. cbn [m_connections world kernel log] in *.
  destruct (respond_all cfg date os_send fd (ready_to_process c req) k l c1 Hk eq_refl eq_refl eq_refl Hp) as (c' & Hrun & Hb' & Hs').
  exists c'. split; [exact Hb'|]. split; [exact Hs'|]. intros cs Hcs Hne.
  change (keepalive (ready_to_process c req)) with (wants_keepalive req) in *.
  match goal with |- _ = Some ?f => set (final := f) end.
  enough (H : ∀ cs pre, pre ++ concat cs = print_head m u p fs ++ bdy → Forall (λ data, data ≠ []) cs → cs ≠ [] →
    feed cfg date os_send fd cs (MkHttpServer (<[fd := awaiting m u p fs req c pre]> conns) (MkWorld k l)) = Some final).
  { specialize (H cs [] Hcs Hne). cbn [awaiting] in H. rewrite (insert_id conns) in H by done. apply H. intros ->. cbn in Hcs.
    pose proof (f_equal length Hcs) as HL. unfold print_head in HL. rewrite !length_app in HL. cbn in HL. lia. }
  clear cs Hcs Hne. induction cs as [|data cs IH]; intros pre E Hne Hnil; [done|]. apply list.Forall_cons in Hne as [Hd Hne]. cbn [concat] in E.
  assert (Hrest : concat cs = [] ↔ cs = []).
  { split; [|by intros ->]. destruct Hne as [|d cs Hd' _]; [done|]. cbn. by destruct d. }
  pose proof (awaiting_receives cfg date os_send fd m u p fs bdy req Hok c pre data (concat cs) (MkWorld k l) Hs Hb Hcl Hd E) as Hstep.
  unfold feed. cbn [foldl mbind option_bind]. unfold onSocketReadable at 2. cbn [m_connections world]. rewrite lookup_insert_eq.
  assert (Hlen : (Z.of_nat (length data) <=? 0)%Z = false) by (apply Z.leb_gt; destruct data; [done|cbn; lia]). rewrite Hlen.
  rewrite Nat2Z.id, firstn_all. unfold on_connection. unfold connection_fuel. rewrite Nat.add_comm. cbn [Nat.add handleConnection m_connections world].
  rewrite Hstep. destruct (concat cs) as [|x r] eqn:Er.
  - rewrite (proj1 Hrest eq_refl), Hrun. cbn [foldl]. by rewrite insert_insert_eq.
  - rewrite insert_insert_eq. apply (IH (pre ++ data)); [by rewrite <-(assoc_L (++)), E|done|]. intros ->. done.
Qed.

(** ** Runs *)

Definition idle_conn : Connection := set_receiveBuffer demo_conn [].
Definition idle_server : HttpServer := MkHttpServer {[7%Z := idle_conn]} (MkWorld tt []).
Definition demo_request : HttpRequest :=
  MkHttpRequest [] (B "POST") (B "/v1/traces") (B "HTTP/1.1") (collect [] demo_fields) (B "hello").

(** In pieces of [n] bytes. *)
Fixpoint pieces (fuel n : nat) (s : bytes) : list bytes :=
  match fuel, s with
  | S f, _ :: _ => take n s :: pieces f n (drop n s)
  | _, _ => []
  end.

Lemma demo_request_ok : printed_ok echo_config (B "POST") (B "/v1/traces") (B "HTTP/1.1") demo_fields (B "hello") demo_request.
Proof.
  split; [apply scans_check; reflexivity|split; [apply scans_check; reflexivity|done]|split; [apply scans_check; reflexivity|done]|exact demo_fields_ok|..].
  - apply Nat.leb_le. vm_compute. reflexivity.
  - by exists [].
  - vm_compute. reflexivity.
  - vm_compute. discriminate.
  - vm_compute. reflexivity.
Qed.

Lemma segmented_request_witness :
  ∃ s', feed echo_config (B "now") send_all 7 (pieces 100 9 (demo_head ++ B "hello")) idle_server = Some s' ∧
    feed echo_config (B "now") send_all 7 [demo_head ++ B "hello"] idle_server = Some s' ∧
    list.last (log (world s')) = Some (EvAddSocket 7 [Readable; Closed]).
Proof.
  destruct (processRequest echo_config (B "now") (ready_to_process idle_conn demo_request)) as [c1|] eqn:E; [|vm_compute in E; discriminate].
  destruct (segmented_request echo_config (B "now") send_all 7 (B "POST") (B "/v1/traces") (B "HTTP/1.1") demo_fields (B "hello") demo_request
    idle_server idle_conn c1 demo_request_ok) as (c' & _ & _ & H).
  - intros []; reflexivity.
  - reflexivity.
  - reflexivity.
  - reflexivity.
  - reflexivity.
  - exact E.
  - eexists. split; [apply H; [vm_compute; reflexivity|]|split; [apply H; [vm_compute; reflexivity|]|]].
    + repeat (constructor; [discriminate|]). constructor.
    + constructor; [discriminate|constructor].
    + change (wants_keepalive demo_request && _) with true. cbn [log world]. by rewrite app_comm_cons, !(assoc_L (++)), list.last_snoc.
Defined.

(** A head of exactly the allowed length is served when it comes whole, and refused as too large when the cut falls into its
    empty line: what has come then counts as the length of the headers.  The status line of the refusal has no protocol, none having been
    parsed. *)
Definition tight_config : ServerConfig := MkServerConfig (B "h") true [] 16 100.
Definition tight_head : bytes := print_head (B "GET") (B "/v1") (B "HTTP/1.1") [].

Definition status_sent (cs : list bytes) : option (list bytes) :=
  s ← feed tight_config (B "now") send_all 7 cs idle_server;
  Some (omap (λ e, match e with EvSent _ d => Some (take 12 d) | _ => None end) (log (world s))).

Example tight_limit :
  status_sent [tight_head] = Some [B "HTTP/1.1 404"] ∧
  status_sent [take 18 tight_head; drop 18 tight_head] = Some [B " 431 Request"].
Proof. split; vm_compute; reflexivity. Qed.
