(* ===== verification/SocketTools.v ===== *)
(** * Socket addresses and the reactor

    ext/http/server/socket_tools.h, the Linux branches: SocketAddr with its two constructors and
    its printing, the registry of the Reactor with the calls it makes on epoll, and the dispatch
    of one event.  Reading text addresses (inet_pton) and epoll are not code of the repository:
    the first is a parameter, the second an interface with the laws its manual states. *)
From S2P Require Export HttpServer.

(** ** Socket addresses *)

(** The fields of [sockaddr_in], in network byte order as they are stored. *)
Record SocketAddr := MkSocketAddr { sa_family : Z; sin_port : Z; s_addr : Z }.

Definition AF_INET : Z := 2.

(** Conversions between host and network order on a little-endian host. *)
Definition htons (x : Z) : Z := Z.lor (Z.shiftl (Z.land x 255) 8) (Z.land (Z.shiftr x 8) 255).
Definition htonl (x : Z) : Z :=
  Z.lor (Z.shiftl (htons (Z.land x 65535)) 16) (htons (Z.land (Z.shiftr x 16) 65535)).
Definition ntohs := htons.
Definition ntohl := htonl.

Definition SocketAddr_default : SocketAddr := MkSocketAddr 0 0 0.

Definition SocketAddr_new (addr port : Z) : SocketAddr :=
  MkSocketAddr AF_INET (htons (port mod 2 ^ 16)) (htonl (addr mod 2 ^ 32)).

Definition port (a : SocketAddr) : Z := if (sa_family a =? AF_INET)%Z then ntohs (sin_port a) else -1.

(** Four decimal bytes. *)
Definition dotted (addr : Z) : bytes :=
  to_string (Z.shiftr addr 24) ++ B "." ++ to_string (Z.land (Z.shiftr addr 16) 255) ++ B "."
    ++ to_string (Z.land (Z.shiftr addr 8) 255) ++ B "." ++ to_string (Z.land addr 255).

Definition toString (a : SocketAddr) : bytes :=
  if (sa_family a =? AF_INET)%Z then dotted (ntohl (s_addr a)) ++ B ":" ++ to_string (ntohs (sin_port a))
  else B "[?AF?" ++ to_string (sa_family a) ++ B "]".

(** Reading a text.  [inet_pton] gets a C string and stores an address when it can read it;
    [memory] is what the object's memory held, [stack] what the sixteen bytes of [buf] held:
    neither is initialised. *)
Section parse.
Context (inet_pton : bytes → option Z).

(** What is copied into [buf], up to its first NUL: nothing ends the copied part but the last
    byte of the buffer. *)
Definition host_buffer (stack : bytes) (addr : bytes) (colon : nat) : bytes :=
  let n := 15 `min` colon in
  cstr (take 15 (take n addr ++ drop n stack)).

Definition SocketAddr_of_text (memory : SocketAddr) (stack : bytes) (text : bytes) : SocketAddr :=
  let addr := cstr text in
  match find_char ":" addr 0 with
  | Some colon =>
      MkSocketAddr AF_INET (htons (atoi (drop (S colon) addr) mod 2 ^ 16))
        (default (s_addr memory) (inet_pton (host_buffer stack addr colon)))
  | None => MkSocketAddr AF_INET 0 (default (s_addr memory) (inet_pton addr))
  end.
End parse.

(** ** Byte order *)

Lemma land_255 x : Z.land x 255 = (x mod 2 ^ 8)%Z.
Proof. by rewrite <-(Z.land_ones x 8). Qed.

Lemma land_65535 x : Z.land x 65535 = (x mod 2 ^ 16)%Z.
Proof. by rewrite <-(Z.land_ones x 16). Qed.

Lemma lor_shiftl_add a b n : (0 ≤ n)%Z → (0 ≤ b < 2 ^ n)%Z → Z.lor (Z.shiftl a n) b = (a * 2 ^ n + b)%Z.
Proof.
  intros Hn Hb. rewrite <-Z.shiftl_mul_pow2 by done. symmetry. apply Z.add_nocarry_lor.
  apply Z.bits_inj_iff'. intros i Hi. rewrite Z.land_spec, Z.bits_0, Z.shiftl_spec by done.
  destruct (Z.lt_ge_cases i n) as [H|H].
  - by rewrite Z.testbit_neg_r by lia.
  - rewrite <-(Z.mod_small b (2 ^ n)) by done. by rewrite Z.mod_pow2_bits_high, andb_false_r by lia.
Qed.

Lemma htons_eq x : htons x = (x mod 256 * 256 + x / 256 mod 256)%Z.
Proof.
  unfold htons. rewrite !land_255, Z.shiftr_div_pow2 by done. rewrite lor_shiftl_add; [done|lia|].
  apply Z.mod_pos_bound. lia.
Qed.

Lemma htons_range x : (0 ≤ htons x < 2 ^ 16)%Z.
Proof. rewrite htons_eq. pose proof (Z.mod_pos_bound x 256). pose proof (Z.mod_pos_bound (x / 256) 256). lia. Qed.

Lemma low_digit a b n : (0 ≤ b < n)%Z → ((a * n + b) mod n = b)%Z.
Proof. intros H. rewrite Z.add_comm, Z.mod_add, Z.mod_small by lia. done. Qed.

Lemma high_digit a b n : (0 ≤ b < n)%Z → ((a * n + b) / n = a)%Z.
Proof. intros H. rewrite Z.div_add_l, Z.div_small by lia. lia. Qed.

Lemma high_part_range x n m : (0 < n)%Z → (0 ≤ x < n * m)%Z → (0 ≤ x / n < m)%Z.
Proof. intros. split; [apply Z.div_pos|apply Z.div_lt_upper_bound]; lia. Qed.

Lemma ntohs_htons x : (0 ≤ x < 2 ^ 16)%Z → ntohs (htons x) = x.
Proof.
  intros Hx. unfold ntohs. rewrite !htons_eq.
  pose proof (high_part_range x 256 256) as H. pose proof (Z.mod_pos_bound x 256 ltac:(lia)) as Hm.
  rewrite (Z.mod_small (x / 256)) by lia. rewrite low_digit, high_digit, Z.mod_small by lia.
  pose proof (Z.div_mod x 256). lia.
Qed.

Lemma htonl_eq x : htonl x = (htons (x mod 2 ^ 16) * 2 ^ 16 + htons (x / 2 ^ 16 mod 2 ^ 16))%Z.
Proof.
  unfold htonl. rewrite !land_65535, Z.shiftr_div_pow2 by done. apply lor_shiftl_add; [lia|apply htons_range].
Qed.

Lemma ntohl_htonl x : (0 ≤ x < 2 ^ 32)%Z → ntohl (htonl x) = x.
Proof.
  intros Hx. unfold ntohl. rewrite (htonl_eq (htonl x)), htonl_eq.
  pose proof (htons_range (x mod 2 ^ 16)) as H1. pose proof (htons_range (x / 2 ^ 16 mod 2 ^ 16)) as H2.
  pose proof (high_part_range x (2 ^ 16) (2 ^ 16)) as H. pose proof (Z.mod_pos_bound x (2 ^ 16) ltac:(lia)) as Hm.
  rewrite low_digit, high_digit, (Z.mod_small (htons _)) by done.
  fold (ntohs (htons (x mod 2 ^ 16))) (ntohs (htons (x / 2 ^ 16 mod 2 ^ 16))).
  rewrite !ntohs_htons by (apply Z.mod_pos_bound; lia). rewrite (Z.mod_small (x / 2 ^ 16)) by lia.
  pose proof (Z.div_mod x (2 ^ 16)). lia.
Qed.

(** ** Reading back what was printed *)

Lemma atoi_to_string n : (0 ≤ n ≤ INT_MAX)%Z → atoi (to_string n) = n.
Proof.
  intros Hn. destruct (to_string_nonneg n ltac:(lia)) as (Hv & Hall & Hne). unfold atoi, INT_MAX in *.
  rewrite <-(app_nil_r (to_string n)), strtol10_digits; rewrite ?Hv; try done; [|unfold LONG_MAX; lia].
  cbn [st_value]. rewrite Z.mod_small by lia. by rewrite (proj2 (Z.ltb_lt _ _)) by lia.
Qed.

Definition dotted_char (c : ascii) : bool := isdigit c || ceq c ".".

Lemma to_string_dotted n : (0 ≤ n)%Z → Forall (λ c, dotted_char c = true) (to_string n).
Proof.
  intros (_ & H & _)%to_string_nonneg. eapply list.Forall_impl; [exact H|]. intros c Hc. unfold dotted_char. by rewrite Hc.
Qed.

Lemma byte_text n : (0 ≤ n < 256)%Z → length (to_string n) ≤ 3.
Proof.
  intros H. apply Nat.leb_le.
  apply (forall_seqZ (λ n, length (to_string n) <=? 3) 0 256); [vm_compute; done|lia].
Qed.

Lemma octets addr : (0 ≤ addr < 2 ^ 32)%Z →
  (0 ≤ Z.shiftr addr 24 < 256 ∧ 0 ≤ Z.land (Z.shiftr addr 16) 255 < 256 ∧ 0 ≤ Z.land (Z.shiftr addr 8) 255 < 256
   ∧ 0 ≤ Z.land addr 255 < 256)%Z.
Proof.
  intros H. rewrite !land_255, Z.shiftr_div_pow2 by done.
  split; [apply high_part_range; lia|]. split; [|split]; apply Z.mod_pos_bound; lia.
Qed.

Lemma dotted_chars addr : (0 ≤ addr < 2 ^ 32)%Z → Forall (λ c, dotted_char c = true) (dotted addr).
Proof.
  intros (H1 & H2 & H3 & H4)%octets. unfold dotted.
  repeat (apply list.Forall_app; split); try (apply to_string_dotted; lia); by apply list.Forall_cons.
Qed.

Lemma dotted_length addr : (0 ≤ addr < 2 ^ 32)%Z → length (dotted addr) ≤ 15.
Proof.
  intros (H1%byte_text & H2%byte_text & H3%byte_text & H4%byte_text)%octets. unfold dotted. rewrite !length_app.
  cbn [length B String.list_ascii_of_string]. lia.
Qed.

Lemma dotted_no_nul addr : (0 ≤ addr < 2 ^ 32)%Z → no_nul (dotted addr).
Proof.
  intros H%dotted_chars. eapply list.Forall_impl; [exact H|]. intros c Hc ->. vm_compute in Hc. done.
Qed.

Lemma find_colon s r : Forall (λ c, dotted_char c = true) s → find_char ":" (s ++ B ":" ++ r) 0 = Some (length s).
Proof.
  intros H. unfold find_char, find_if_from. rewrite drop_0. cbn [B String.list_ascii_of_string app].
  rewrite index_of_hit; [done| |done]. eapply list.Forall_impl; [exact H|].
  intros c Hc. apply ceq_false. intros <-. vm_compute in Hc. done.
Qed.

Lemma no_nul_app s t : no_nul s → no_nul t → no_nul (s ++ t).
Proof. intros. by apply list.Forall_app. Qed.

Section roundtrip.
Context (inet_pton : bytes → option Z).
Context (inet_pton_dotted : ∀ a, (0 ≤ a < 2 ^ 32)%Z → inet_pton (dotted a) = Some (htonl a)).

Lemma host_buffer_text stack s r :
  no_nul s → length s ≤ 15 → host_buffer stack (s ++ r) (length s) = s ++ cstr (take (15 - length s) (drop (length s) stack)).
Proof.
  intros Hn Hl. unfold host_buffer. rewrite Nat.min_r by done. rewrite take_app_length.
  rewrite take_app_ge by lia. unfold cstr. apply take_while_app.
  eapply list.Forall_impl; [exact Hn|]. intros c Hc. by rewrite (proj2 (ceq_false _ _)).
Qed.

(** Printing an address and reading the text back: the family and the port always come back.  The
    host is followed by whatever the buffer on the stack held, so the address comes back when
    the next byte there happens to be zero or the host has its full fifteen characters. *)
Theorem SocketAddr_roundtrip memory stack addr p :
  (0 ≤ addr < 2 ^ 32)%Z → (0 ≤ p < 2 ^ 16)%Z → length stack = 16 →
  let a := SocketAddr_new addr p in
  let n := length (dotted addr) in
  let b := SocketAddr_of_text inet_pton memory stack (toString a) in
  port b = p ∧
  b = MkSocketAddr AF_INET (sin_port a)
        (default (s_addr memory) (inet_pton (dotted addr ++ cstr (slice stack n 15)))) ∧
  (n = 15 ∨ stack !! n = Some NUL → b = a).
Proof.
  intros Ha Hp Hl a n b.
  assert (Hb : b = MkSocketAddr AF_INET (sin_port a)
    (default (s_addr memory) (inet_pton (dotted addr ++ cstr (slice stack n 15))))).
  { subst b a n. unfold toString, SocketAddr_new. cbn [sa_family sin_port s_addr]. rewrite Z.eqb_refl.
    rewrite !Z.mod_small, ntohl_htonl, ntohs_htons by done. unfold SocketAddr_of_text.
    rewrite cstr_id by (apply no_nul_app; [by apply dotted_no_nul|apply list.Forall_cons; split; [done|apply to_string_no_nul; lia]]).
    rewrite find_colon by by apply dotted_chars.
    rewrite host_buffer_text by (try apply dotted_no_nul; try apply dotted_length; done). f_equal.
    rewrite drop_app_ge by lia. replace (S _ - _) with 1 by lia. cbn [B String.list_ascii_of_string app drop].
    rewrite drop_0, atoi_to_string by (unfold INT_MAX; lia). by rewrite Z.mod_small. }
  split_and!; [|exact Hb|].
  - rewrite Hb. unfold port. cbn [sa_family sin_port]. rewrite Z.eqb_refl. unfold a, SocketAddr_new. cbn [sin_port].
    by rewrite Z.mod_small, ntohs_htons by done.
  - intros H. rewrite Hb. replace (cstr (slice stack n 15)) with ([] : bytes).
    { rewrite app_nil_r, inet_pton_dotted by done. unfold a, SocketAddr_new. cbn [default sin_port].
      by rewrite (Z.mod_small addr) by done. }
    unfold slice. destruct H as [-> |H]; [done|]. rewrite (drop_S stack NUL n) by done.
    by destruct (15 - n).
Qed.
End roundtrip.

(** A reader of dotted addresses. *)
Definition read_octet (s : bytes) : Z * bytes := (dec_value (take_while isdigit s), drop_while isdigit s).

Definition read_dotted (s : bytes) : option Z :=
  let '(a, s) := read_octet s in
  let '(b, s) := read_octet (tail s) in
  let '(c, s) := read_octet (tail s) in
  let '(d, s) := read_octet (tail s) in
  match s with
  | [] => if forallb (λ n, n <? 256)%Z [a; b; c; d]
          then Some (htonl (((a * 256 + b) * 256 + c) * 256 + d)) else None
  | _ => None
  end.

Lemma read_octet_app n r : (0 ≤ n)%Z → read_octet (to_string n ++ B "." ++ r) = (n, B "." ++ r).
Proof.
  intros (Hv & Hd & _)%to_string_nonneg. unfold read_octet. rewrite take_while_app, drop_while_app by done.
  cbn [B String.list_ascii_of_string app take_while drop_while isdigit]. cbn. by rewrite app_nil_r, Hv.
Qed.

Lemma read_dotted_spec addr : (0 ≤ addr < 2 ^ 32)%Z → read_dotted (dotted addr) = Some (htonl addr).
Proof.
  intros H. pose proof (octets addr H) as (H1 & H2 & H3 & H4). unfold dotted, read_dotted.
  rewrite read_octet_app by lia. change (tail (B "." ++ ?s)) with s. rewrite read_octet_app by lia.
  change (tail (B "." ++ ?s)) with s. rewrite read_octet_app by lia. change (tail (B "." ++ ?s)) with s.
  destruct (to_string_nonneg (Z.land addr 255) ltac:(lia)) as (Hv & Hd & _). unfold read_octet.
  rewrite take_while_id, (proj2 (drop_while_nil _ _)), Hv by done. cbn [forallb].
  rewrite !(proj2 (Z.ltb_lt _ 256)) by lia. cbn [andb]. do 2 f_equal.
  rewrite !land_255, !Z.shiftr_div_pow2 by done. clear H1 H2 H3 H4 Hv Hd. Z.to_euclidean_division_equations. lia.
Qed.

Lemma SocketAddr_roundtrip_witness :
  port (SocketAddr_of_text read_dotted SocketAddr_default (replicate 16 NUL) (B "192.168.1.20:8080")) = 8080%Z ∧
  SocketAddr_of_text read_dotted SocketAddr_default (replicate 16 NUL) (B "192.168.1.20:8080") = SocketAddr_new 3232235796 8080.
Proof.
  destruct (SocketAddr_roundtrip read_dotted read_dotted_spec SocketAddr_default (replicate 16 NUL) 3232235796 8080
    ltac:(lia) ltac:(lia) eq_refl) as (Hp & _ & Hb).
  change (toString (SocketAddr_new 3232235796 8080)) with (B "192.168.1.20:8080") in *.
  split; [exact Hp|]. apply Hb. right. reflexivity.
Defined.

(** A digit left over on the stack becomes part of the host; another character leaves the
    address as it was in memory. *)
Example host_unterminated :
  let stack c := replicate 9 "x"%char ++ B c ++ replicate 6 NUL in
  toString (SocketAddr_of_text read_dotted SocketAddr_default (stack "7"%string) (B "127.0.0.1:80")) = B "127.0.0.17:80" ∧
  toString (SocketAddr_of_text read_dotted SocketAddr_default (stack "x"%string) (B "127.0.0.1:80")) = B "0.0.0.0:80".
Proof. split; vm_compute; reflexivity. Qed.

(** ** The reactor *)

(** The values of [enum State]; [HttpServer] passes unions of them. *)
Definition flag_value (f : flag) : Z :=
  match f with Readable => 1 | Writable => 2 | Acceptable => 4 | Closed => 8 end.
Definition flags_value (l : list flag) : Z := foldr (λ f z, Z.lor (flag_value f) z) 0%Z l.
Definition has (flags : Z) (f : flag) : bool := negb (Z.land flags (flag_value f) =? 0)%Z.

Definition EPOLLIN : Z := 1.
Definition EPOLLOUT : Z := 4.
Definition EPOLLERR : Z := 8.
Definition EPOLLHUP : Z := 16.

(** Calls of [epoll_ctl]; the descriptor is the event's data. *)
Inductive epoll_call :=
  | EpollAdd (fd events : Z)
  | EpollMod (fd events : Z)
  | EpollDel (fd : Z).

Record SocketData := MkSocketData { socket : Z; flags : Z }.

Record Reactor := MkReactor {
  m_sockets : list SocketData;
  epoll_calls : list epoll_call;
}.

Definition Reactor_new : Reactor := MkReactor [] [].

Definition is_socket (fd : Z) (sd : SocketData) : bool := (socket sd =? fd)%Z.

(** The epoll events for the flags of a socket; errors and hang-ups are always reported. *)
Definition epoll_events (flags : Z) : Z :=
  let events := 0%Z in
  let events := if has flags Readable then Z.lor events EPOLLIN else events in
  let events := if has flags Writable then Z.lor events EPOLLOUT else events in
  if has flags Acceptable then Z.lor events EPOLLIN else events.

Definition removeSocket (fd : Z) (r : Reactor) : Reactor :=
  match index_of (is_socket fd) (m_sockets r) with
  | Some it => MkReactor (delete it (m_sockets r)) (epoll_calls r ++ [EpollDel fd])
  | None => r
  end.

Definition addSocket (fd fl : Z) (r : Reactor) : Reactor :=
  if (fl =? 0)%Z then removeSocket fd r
  else
    let '(r, it) :=
      match index_of (is_socket fd) (m_sockets r) with
      | Some it => (r, it)
      | None => (MkReactor (m_sockets r ++ [MkSocketData fd 0]) (epoll_calls r ++ [EpollAdd fd 0]), length (m_sockets r))
      end in
    match m_sockets r !! it with
    | Some sd =>
        if negb (flags sd =? fl)%Z
        then MkReactor (<[it := MkSocketData (socket sd) fl]> (m_sockets r)) (epoll_calls r ++ [EpollMod fd (epoll_events fl)])
        else r
    | None => r
    end.

(** [stop], after the thread has been joined. *)
Definition stop (r : Reactor) : Reactor :=
  MkReactor [] (epoll_calls r ++ (EpollDel ∘ socket <$> m_sockets r)).

Inductive reactor_op := OpAdd (fd fl : Z) | OpRemove (fd : Z) | OpStop.

Definition reactor_do (r : Reactor) (op : reactor_op) : Reactor :=
  match op with
  | OpAdd fd fl => addSocket fd fl r
  | OpRemove fd => removeSocket fd r
  | OpStop => stop r
  end.

(** ** What the reactor promises: a finite map from sockets to flags

    and an epoll set that agrees with it. *)
Definition registry (r : Reactor) : gmap Z Z := list_to_map ((λ sd, (socket sd, flags sd)) <$> m_sockets r).

Definition registry_do (m : gmap Z Z) (op : reactor_op) : gmap Z Z :=
  match op with
  | OpAdd fd fl => if (fl =? 0)%Z then delete fd m else <[fd := fl]> m
  | OpRemove fd => delete fd m
  | OpStop => ∅
  end.

(** An epoll object, and what its manual says of the calls that succeed: adding a descriptor that
    is not there, changing or deleting one that is. *)
Class Epoll (K : Type) := {
  epoll_ctl : K → epoll_call → K;
  interest : K → gmap Z Z;
}.

Class EpollLaws (K : Type) `{Epoll K} : Prop := {
  ctl_add k fd ev : interest k !! fd = None → interest (epoll_ctl k (EpollAdd fd ev)) = <[fd := ev]> (interest k);
  ctl_mod k fd ev : is_Some (interest k !! fd) → interest (epoll_ctl k (EpollMod fd ev)) = <[fd := ev]> (interest k);
  ctl_del k fd : is_Some (interest k !! fd) → interest (epoll_ctl k (EpollDel fd)) = delete fd (interest k);
}.

(** ** The reactor keeps its promise *)

Lemma registry_middle l1 sd l2 calls :
  NoDup (socket <$> l1 ++ sd :: l2) →
  registry (MkReactor (l1 ++ sd :: l2) calls) = <[socket sd := flags sd]> (registry (MkReactor (l1 ++ l2) calls)) ∧
  registry (MkReactor (l1 ++ l2) calls) !! socket sd = None ∧
  NoDup (socket <$> l1 ++ l2).
Proof.
  intros H. assert (Hp : l1 ++ sd :: l2 ≡ₚ sd :: l1 ++ l2) by by rewrite Permutation_middle.
  assert (Hn : NoDup (socket <$> sd :: l1 ++ l2)) by by rewrite <-Hp. apply list.NoDup_cons in Hn as [Hin Hn].
  unfold registry. cbn [m_sockets]. split_and!; [|apply not_elem_of_list_to_map_1; by rewrite <-list_fmap_compose|done].
  etrans; [apply list_to_map_proper|].
  - by rewrite <-list_fmap_compose.
  - by rewrite Hp.
  - done.
Qed.

Lemma registry_None fd l calls : Forall (λ sd, is_socket fd sd = false) l → registry (MkReactor l calls) !! fd = None.
Proof.
  intros H. unfold registry. cbn [m_sockets]. apply not_elem_of_list_to_map_1. rewrite <-list_fmap_compose.
  intros (sd & -> & Hin)%list_elem_of_fmap. rewrite list.Forall_forall in H. specialize (H _ Hin).
  unfold is_socket in H. by rewrite Z.eqb_refl in H.
Qed.

Section epoll.
Context {K : Type} `{EpollLaws K} (k0 : K) (k0_empty : interest k0 = ∅).

(** The registry has one entry per socket, and the epoll set follows it. *)
Definition reactor_ok (r : Reactor) : Prop :=
  NoDup (socket <$> m_sockets r) ∧ interest (foldl epoll_ctl k0 (epoll_calls r)) = epoll_events <$> registry r.

Lemma reactor_new_ok : reactor_ok Reactor_new.
Proof. split; [constructor|]. cbn. by rewrite k0_empty, fmap_empty. Qed.

Lemma interest_Some r fd : reactor_ok r → is_Some (registry r !! fd) →
  is_Some (interest (foldl epoll_ctl k0 (epoll_calls r)) !! fd).
Proof. intros [_ ->] Hs. rewrite lookup_fmap. by apply fmap_is_Some. Qed.

Lemma removeSocket_spec fd r :
  reactor_ok r → reactor_ok (removeSocket fd r) ∧ registry (removeSocket fd r) = delete fd (registry r).
Proof.
  intros Hr. unfold removeSocket. destruct r as [l calls]. cbn [m_sockets epoll_calls].
  destruct (index_of _ l) as [it|] eqn:E.
  - apply index_of_Some in E as (l1 & sd & l2 & -> & <- & Hsd & Hl1). pose proof Hr as [Hn Hi].
    apply Z.eqb_eq in Hsd. rewrite delete_middle.
    destruct (registry_middle l1 sd l2 calls Hn) as (Hreg & Hnone & Hn'). rewrite Hsd in *.
    assert (Hd : registry (MkReactor (l1 ++ l2) (calls ++ [EpollDel fd])) = delete fd (registry (MkReactor (l1 ++ sd :: l2) calls))).
    { rewrite Hreg, delete_insert_id by done. done. }
    split; [|exact Hd]. split; [done|]. cbn [epoll_calls]. rewrite foldl_snoc, ctl_del.
    + rewrite Hd, fmap_delete. f_equal. exact Hi.
    + apply (interest_Some (MkReactor (l1 ++ sd :: l2) calls)); [done|]. rewrite Hreg, lookup_insert_eq. eauto.
  - split; [done|]. apply index_of_None in E. by rewrite delete_id by by apply registry_None.
Qed.

(** Changing the flags of the socket in the middle of the list. *)
Lemma update_flags l1 sd l2 calls fl :
  reactor_ok (MkReactor (l1 ++ sd :: l2) calls) →
  let r := MkReactor (<[length l1 := MkSocketData (socket sd) fl]> (l1 ++ sd :: l2)) (calls ++ [EpollMod (socket sd) (epoll_events fl)]) in
  reactor_ok r ∧ registry r = <[socket sd := fl]> (registry (MkReactor (l1 ++ sd :: l2) calls)).
Proof.
  intros Hr r. pose proof Hr as [Hn Hi]. destruct (registry_middle l1 sd l2 calls Hn) as (Hreg & Hnone & Hn').
  assert (Hl : <[length l1 := MkSocketData (socket sd) fl]> (l1 ++ sd :: l2) = l1 ++ MkSocketData (socket sd) fl :: l2).
  { rewrite <-(Nat.add_0_r (length l1)). by rewrite insert_app_r. }
  assert (Hn2 : NoDup (socket <$> l1 ++ MkSocketData (socket sd) fl :: l2)).
  { cbn [m_sockets] in Hn. rewrite fmap_app, fmap_cons in Hn |- *. exact Hn. }
  destruct (registry_middle l1 _ l2 (calls ++ [EpollMod (socket sd) (epoll_events fl)]) Hn2) as (Hreg2 & _ & _).
  assert (Hr2 : registry r = <[socket sd := fl]> (registry (MkReactor (l1 ++ sd :: l2) calls))).
  { subst r. rewrite Hl, Hreg2, Hreg. cbn [socket flags]. by rewrite insert_insert_eq. }
  split; [|exact Hr2]. split; [subst r; by rewrite Hl|]. rewrite Hr2. subst r. cbn [epoll_calls]. rewrite foldl_snoc, ctl_mod.
  - rewrite fmap_insert. f_equal. exact Hi.
  - apply (interest_Some (MkReactor (l1 ++ sd :: l2) calls)); [done|]. rewrite Hreg, lookup_insert_eq. eauto.
Qed.

Lemma index_of_split fd l1 sd l2 :
  NoDup (socket <$> l1 ++ sd :: l2) → socket sd = fd → index_of (is_socket fd) (l1 ++ sd :: l2) = Some (length l1).
Proof.
  intros Hn <-. apply index_of_hit; [|unfold is_socket; by rewrite Z.eqb_refl].
  rewrite fmap_app, fmap_cons in Hn. apply list.NoDup_app in Hn as (_ & Hd & _).
  apply list.Forall_forall. intros x Hx. apply Z.eqb_neq. intros Heq. apply (Hd (socket x)).
  - apply list_elem_of_fmap. eauto.
  - rewrite Heq. apply list_elem_of_here.
Qed.

(** A socket that is registered already. *)
Lemma addSocket_known fd fl l1 sd l2 calls :
  fl ≠ 0%Z → socket sd = fd → reactor_ok (MkReactor (l1 ++ sd :: l2) calls) →
  let r := MkReactor (l1 ++ sd :: l2) calls in
  reactor_ok (addSocket fd fl r) ∧ registry (addSocket fd fl r) = <[fd := fl]> (registry r).
Proof.
  intros Hfl Hsd Hr r. pose proof Hr as [Hn Hi]. unfold addSocket. rewrite (proj2 (Z.eqb_neq _ _)) by done.
  subst r. cbn [m_sockets epoll_calls]. rewrite (index_of_split fd) by done. cbn [m_sockets epoll_calls].
  rewrite list_lookup_middle by done. destruct (Z.eqb_spec (flags sd) fl) as [Heq|Hne]; cbn [negb].
  - split; [done|]. destruct (registry_middle l1 sd l2 calls Hn) as (-> & _ & _).
    by rewrite <-Hsd, Heq, insert_insert_eq.
  - rewrite <-Hsd. by apply update_flags.
Qed.

Lemma addSocket_spec fd fl r : fl ≠ 0%Z →
  reactor_ok r → reactor_ok (addSocket fd fl r) ∧ registry (addSocket fd fl r) = <[fd := fl]> (registry r).
Proof.
  intros Hfl Hr. destruct r as [l calls]. destruct (index_of (is_socket fd) l) as [it|] eqn:E.
  - apply index_of_Some in E as (l1 & sd & l2 & -> & <- & Hsd%Z.eqb_eq & Hl1). by apply addSocket_known.
  - apply index_of_None in E as Hf. pose proof (registry_None fd l calls Hf) as Hnone.
    set (l' := l ++ [MkSocketData fd 0]). set (calls' := calls ++ [EpollAdd fd 0]).
    assert (Hn' : NoDup (socket <$> l')).
    { subst l'. rewrite fmap_app. apply list.NoDup_app. destruct Hr as [Hn _].
      split_and!; [done| |apply NoDup_singleton]. intros x (sd & -> & Hin)%list_elem_of_fmap [= Hx]%list_elem_of_singleton.
      rewrite list.Forall_forall in Hf. specialize (Hf _ Hin). apply Z.eqb_neq in Hf. done. }
    destruct (registry_middle l (MkSocketData fd 0) [] calls' Hn') as (Hreg & _ & _). rewrite app_nil_r in Hreg.
    change (registry (MkReactor l calls')) with (registry (MkReactor l calls)) in Hreg. cbn [socket flags] in Hreg. fold l' in Hreg.
    assert (Hr' : reactor_ok (MkReactor l' calls')).
    { split; [done|]. destruct Hr as [_ Hi]. subst calls'. cbn [epoll_calls] in *. rewrite foldl_snoc, ctl_add.
      - rewrite Hreg, fmap_insert. f_equal. exact Hi.
      - by rewrite Hi, lookup_fmap, Hnone. }
    pose proof (addSocket_known fd fl l (MkSocketData fd 0) [] calls' Hfl eq_refl Hr') as Ha. cbv zeta in Ha. fold l' in Ha.
    rewrite Hreg, insert_insert_eq in Ha. revert Ha. unfold addSocket. rewrite (proj2 (Z.eqb_neq _ _)) by done.
    cbn [m_sockets epoll_calls]. rewrite E. fold l' calls'.
    assert (Hi : index_of (is_socket fd) l' = Some (length l)) by by apply index_of_split. by rewrite Hi.
Qed.

Lemma stop_spec r : reactor_ok r → reactor_ok (stop r) ∧ registry (stop r) = ∅.
Proof.
  intros Hr. split; [|done]. split; [constructor|]. cbn [epoll_calls stop]. unfold registry. cbn [m_sockets stop fmap list_fmap list_to_map].
  destruct r as [l calls]. cbn [m_sockets epoll_calls].
  enough (Hall : ∀ l calls, reactor_ok (MkReactor l calls) →
    reactor_ok (MkReactor [] (calls ++ (EpollDel ∘ socket <$> l)))) by apply (Hall l calls Hr).
  clear l calls Hr. induction l as [|sd l IH]; intros calls Hr; [by rewrite fmap_nil, app_nil_r|].
  rewrite fmap_cons. change (?a ++ ?x :: ?b) with (a ++ [x] ++ b). rewrite (assoc_L (++)). apply IH.
  pose proof (proj1 (removeSocket_spec (socket sd) _ Hr)) as H1. unfold removeSocket in H1. cbn [m_sockets epoll_calls index_of] in H1.
  unfold is_socket in H1. by rewrite Z.eqb_refl in H1.
Qed.

(** C22: However sockets are added, changed, removed and all dropped: the vector of sockets is a finite
    map from sockets to their last flags, without duplicates; every call made on epoll is one
    the manual lets succeed, and the epoll set holds just those sockets, each with the events
    its flags ask for. *)
Theorem reactor_refines_registry ops :
  let r := foldl reactor_do Reactor_new ops in
  NoDup (socket <$> m_sockets r) ∧
  registry r = foldl registry_do ∅ ops ∧
  interest (foldl epoll_ctl k0 (epoll_calls r)) = epoll_events <$> registry r.
Proof.
  intros r. enough (reactor_ok r ∧ registry r = foldl registry_do ∅ ops) as [[? ?] ?] by done. subst r.
  induction ops as [|op ops [Hok Hreg]] using rev_ind; [split; [apply reactor_new_ok|done]|].
  rewrite !foldl_snoc, <-Hreg. destruct op as [fd fl|fd|]; cbn [reactor_do registry_do].
  - destruct (Z.eqb_spec fl 0) as [-> |Hfl]; [|by apply addSocket_spec].
    by apply removeSocket_spec.
  - by apply removeSocket_spec.
  - by apply stop_spec.
Qed.
End epoll.

(** An epoll object that follows the manual. *)
#[export] Instance epoll_map : Epoll (gmap Z Z) := {
  epoll_ctl k c := match c with
                   | EpollAdd fd ev => match k !! fd with None => <[fd := ev]> k | _ => k end
                   | EpollMod fd ev => match k !! fd with None => k | _ => <[fd := ev]> k end
                   | EpollDel fd => delete fd k
                   end;
  interest k := k;
}.

#[export] Instance epoll_map_laws : EpollLaws (gmap Z Z).
Proof.
  split; unfold interest, epoll_ctl; simpl.
  - by intros k fd ev ->.
  - by intros k fd ev [x ->].
  - done.
Qed.

Lemma reactor_refines_registry_witness :
  let r := foldl reactor_do Reactor_new [OpAdd 3 4; OpAdd 7 9; OpAdd 8 9; OpAdd 7 10; OpRemove 8] in
  registry r = <[7%Z := 10%Z]> {[3%Z := 4%Z]} ∧
  interest (foldl epoll_ctl (∅ : gmap Z Z) (epoll_calls r)) = <[7%Z := EPOLLOUT]> {[3%Z := EPOLLIN]}.
Proof.
  destruct (@reactor_refines_registry (gmap Z Z) epoll_map epoll_map_laws ∅ eq_refl [OpAdd 3 4; OpAdd 7 9; OpAdd 8 9; OpAdd 7 10; OpRemove 8])
    as (_ & Hreg & Hi).
  cbv zeta. split; [rewrite Hreg; vm_compute; reflexivity|]. refine (eq_trans Hi _). rewrite Hreg. vm_compute. reflexivity.
Defined.
