(* ===== verification/ServerLoop.v ===== *)
(** * The server on its reactor

    The thread of the Reactor (socket_tools.h, Reactor::onThread, the Linux branch) driving the
    callbacks of HttpServer, with the ports it listens on.  The callbacks call addSocket and
    removeSocket of the same reactor: they never read its state, so the calls they log are made
    on it when the callback returns.  Assertions are kept, apart from the faults of the
    callbacks. *)
From S2P Require Export SocketTools.

Section loop.
Context (cfg : ServerConfig) (date : bytes).
Context {Kernel : Type} (os_send : Kernel → Z → bytes → Z * bool * Kernel).

Record LoopState := MkLoop {
  reactor : Reactor;
  http : @HttpServer Kernel;
  m_listeningSockets : list Z;
}.

Inductive outcome (A : Type) :=
  | Ok (a : A)
  | AssertFails
  | CallbackFaults.
Arguments Ok {A}.
Arguments AssertFails {A}.
Arguments CallbackFaults {A}.

Definition andThen {A C} (o : outcome A) (f : A → outcome C) : outcome C :=
  match o with Ok a => f a | AssertFails => AssertFails | CallbackFaults => CallbackFaults end.

(** A call a callback made on the reactor. *)
Definition replay1 (r : Reactor) (e : event) : Reactor :=
  match e with
  | EvAddSocket fd fl => addSocket fd (flags_value fl) r
  | EvRemoveSocket fd => removeSocket fd r
  | _ => r
  end.
Definition replay : Reactor → list event → Reactor := foldl replay1.

(** What epoll reports of a descriptor, and what its calls will answer if they are made: [recv]
    the count and the bytes, [accept] the new socket and the address of the client. *)
Record sock_event := MkSockEvent {
  ev_fd : Z;
  ev_events : Z;
  ev_recv : Z * bytes;
  ev_accept : option (Z * bytes);
}.

(** A callback, with the assertion it starts with. *)
Definition callback (listens : bool) (e : sock_event) (re : reactor_event) (st : LoopState) : outcome LoopState :=
  if negb (Bool.eqb (bool_decide (ev_fd e ∈ m_listeningSockets st)) listens) then AssertFails
  else
    match react cfg date os_send (http st) re with
    | None => CallbackFaults
    | Some s =>
        let made := drop (length (log (world (http st)))) (log (world s)) in
        Ok (MkLoop (replay (reactor st) made) s (m_listeningSockets st))
    end.

(** [if ((flags & f) && (events & mask)) m_callback...]; the flags were read before. *)
Definition when_event (fl : Z) (f : flag) (e : sock_event) (mask : Z) (k : LoopState → outcome LoopState) (st : LoopState)
    : outcome LoopState :=
  if has fl f && negb (Z.land (ev_events e) mask =? 0)%Z then k st else Ok st.

(** One turn of the loop over the reported events. *)
Definition dispatch (st : LoopState) (e : sock_event) : outcome LoopState :=
  match list_find (λ sd, socket sd = ev_fd e) (m_sockets (reactor st)) with
  | None => AssertFails
  | Some (_, sd) =>
      let fl := flags sd in
      let fd := ev_fd e in
      andThen (when_event fl Readable e EPOLLIN (callback false e (RReadable fd (ev_recv e).1 (ev_recv e).2)) st) (λ st,
      andThen (when_event fl Writable e EPOLLOUT (callback false e (RWritable fd)) st) (λ st,
      andThen (when_event fl Acceptable e EPOLLIN (callback true e (RAcceptable (ev_accept e))) st) (λ st,
      when_event fl Closed e (Z.lor EPOLLHUP EPOLLERR) (callback false e (RClosed fd)) st)))
  end.

(** What [epoll_wait] answers: at most four events, nothing before the timeout or a signal, or
    another failure. *)
Inductive wait_result := WaitEvents (l : list sock_event) | WaitNothing | WaitFails.

Definition run_events (st : LoopState) (l : list sock_event) : outcome LoopState :=
  foldl (λ o e, andThen o (λ st, dispatch st e)) (Ok st) l.

(** One turn of [onThread]. *)
Definition onThread_turn (st : LoopState) (r : wait_result) : outcome LoopState :=
  match r with
  | WaitNothing => Ok st
  | WaitFails => AssertFails
  | WaitEvents [] => Ok st
  | WaitEvents l => if length l <=? 4 then run_events st l else AssertFails
  end.

(** [onThread], until the thread is told to stop. *)
Definition onThread (st : LoopState) (rs : list wait_result) : outcome LoopState :=
  foldl (λ o r, andThen o (λ st, onThread_turn st r)) (Ok st) rs.

(** [addListeningPort], with the socket it opened. *)
Definition addListeningPort (fd : Z) (st : LoopState) : LoopState :=
  MkLoop (addSocket fd (flag_value Acceptable) (reactor st)) (http st) (m_listeningSockets st ++ [fd]).

(** The thread has been joined and the reactor has dropped its sockets. *)
Definition server_stop (st : LoopState) : LoopState := MkLoop (stop (reactor st)) (http st) (m_listeningSockets st).

Definition server_new (k : Kernel) (ports : list Z) : LoopState :=
  foldl (λ st fd, addListeningPort fd st) (MkLoop Reactor_new (HttpServer_init k) []) ports.

(** ** The calls a callback makes *)

(** A call about the connection's own socket that keeps it registered, without listening on it. *)
Definition served (fl : Z) : Prop := has fl Closed = true ∧ has fl Acceptable = false.

Definition quiet (fd : Z) (e : event) : Prop :=
  match e with
  | EvAddSocket fd' fl => fd' = fd ∧ served (flags_value fl)
  | EvRemoveSocket _ | EvClose _ => False
  | _ => True
  end.

Definition extends (fd : Z) (w w' : @World Kernel) : Prop := ∃ l, log w' = log w ++ l ∧ Forall (quiet fd) l.

Lemma extends_refl fd w : extends fd w w.
Proof. exists []. by rewrite app_nil_r. Qed.

Lemma extends_trans fd w1 w2 w3 : extends fd w1 w2 → extends fd w2 w3 → extends fd w1 w3.
Proof.
  intros (l1 & H1 & Hq1) (l2 & H2 & Hq2). exists (l1 ++ l2). rewrite H2, H1, (assoc_L (++)).
  split; [done|]. by apply list.Forall_app.
Qed.

Lemma extends_emit fd w e : quiet fd e → extends fd w (emit w e).
Proof. intros He. exists [e]. split; [done|]. by apply list.Forall_singleton. Qed.

Lemma sendMore_extends fd c w c' more w' : sendMore os_send fd c w = (c', more, w') → extends fd w w'.
Proof.
  unfold sendMore. destruct (sendBuffer c) as [|a b]; [intros [= <- <- <-]; apply extends_refl|].
  destruct (os_send _ _ _) as [[sent wb] k].
  assert (H : extends fd w (MkWorld k (if (0 <? sent)%Z then log w ++ [EvSent fd (take (Z.to_nat sent) (a :: b))] else log w))).
  { destruct (0 <? sent)%Z; [exists [EvSent fd (take (Z.to_nat sent) (a :: b))]; split; [done|by apply list.Forall_singleton]|].
    exists []. by rewrite app_nil_r. }
  destruct (_ && _); [intros [= <- <- <-]; exact H|].
  destruct (sendBuffer (set_sendBuffer _ _)); intros [= <- <- <-]; [exact H|].
  eapply extends_trans; [exact H|]. by apply extends_emit.
Qed.

Definition block_extends (fd : Z) (b : @block Kernel) : Prop := ∀ c w,
  match b c w with
  | Next _ w' | Again _ w' | Done _ w' => extends fd w w'
  | Fault => True
  end.

Lemma when_state_extends fd st b : block_extends fd b → block_extends fd (when_state st b).
Proof. intros Hb c w. unfold when_state. case_decide; [apply Hb|apply extends_refl]. Qed.

Lemma sending_extends fd b (f : Connection → @World Kernel → ctl) :
  (∀ c w, b c w = let '(c, more, w) := sendMore os_send fd c w in if more : bool then Done c w else f c w) →
  block_extends fd f → block_extends fd b.
Proof.
  intros Hb Hf c w. rewrite Hb. destruct (sendMore os_send fd c w) as [[c1 more] w1] eqn:E.
  apply sendMore_extends in E. destruct more; [done|]. specialize (Hf c1 w1).
  destruct (f c1 w1); try done; by eapply extends_trans.
Qed.

Lemma headers_block_extends fd : block_extends fd (headers_block cfg).
Proof.
  intros c w. pose proof (extends_refl fd w) as H. unfold headers_block. destruct (_ <? _); [exact H|].
  destruct (find_headers_end _) as [[ofs sep]|]; [|exact H]. destruct (parseHeaders _ _) as [r ok].
  destruct ok; cbn [negb]; [|exact H]. unfold after_headers. destruct (_ <? _)%Z; [exact H|].
  destruct (om_find _ _); [|exact H]. destruct (beq _ _); [|exact H]. by destruct (negb _).
Qed.

Lemma loop_body_extends fd : Forall (block_extends fd) (loop_body cfg date os_send fd).
Proof.
  unfold loop_body. repeat (apply list.Forall_cons; split; [apply when_state_extends|]); try done.
  - intros c w. apply extends_refl.
  - apply headers_block_extends.
  - eapply sending_extends; [intros; reflexivity|]. intros c w. apply extends_refl.
  - intros c w. unfold body_block. destruct (_ <? _)%Z; apply extends_refl.
  - intros c w. unfold processing_block. destruct (processRequest cfg date c); [|done].
    destruct (_ =? 0)%Z; [by apply extends_emit|apply extends_refl].
  - eapply sending_extends; [intros; reflexivity|]. intros c w. apply extends_refl.
  - eapply sending_extends; [intros; reflexivity|]. intros c w. cbv zeta.
    destruct (keepalive _); [destruct (receiveBuffer _); by apply extends_emit|].
    eapply extends_trans; by apply extends_emit.
  - intros c w. apply extends_refl.
Qed.

Lemma run_blocks_extends fd bs : Forall (block_extends fd) bs → block_extends fd (run_blocks bs).
Proof.
  induction 1 as [|b bs Hb _ IH]; intros c w; cbn [run_blocks]; [apply extends_refl|].
  specialize (Hb c w). destruct (b c w) as [c1 w1| | |]; try done. specialize (IH c1 w1).
  destruct (run_blocks bs c1 w1); try done; by eapply extends_trans.
Qed.

Lemma handleConnection_extends fuel fd c w c' w' :
  handleConnection cfg date os_send fuel fd c w = Some (Done c' w') → extends fd w w'.
Proof.
  revert c w. induction fuel as [|fuel IH]; intros c w; cbn [handleConnection]; [done|].
  pose proof (run_blocks_extends fd _ (loop_body_extends fd) c w) as H.
  destruct (run_blocks _ c w) as [c1 w1|c1 w1|c1 w1|]; intros E; try discriminate.
  - eapply extends_trans; [exact H|]. by apply IH in E.
  - by injection E as <- <-.
Qed.

(** ** What they do to the registry *)

Abbreviation conns st := (m_connections (http st)).
Abbreviation sockets st := (registry (reactor st)).

Lemma served_nonzero fl : served fl → fl ≠ 0%Z.
Proof. by intros [H _] ->. Qed.

Lemma replay_quiet fd l r :
  Forall (quiet fd) l → reactor_ok (∅ : gmap Z Z) r →
  reactor_ok (∅ : gmap Z Z) (replay r l) ∧
  (registry (replay r l) = registry r ∨ ∃ fl, served fl ∧ registry (replay r l) = <[fd := fl]> (registry r)).
Proof.
  intros Hl. revert r. induction Hl as [|e l He _ IH]; intros r Hr; [split; [done|by left]|].
  cbn [replay foldl]. fold (replay (replay1 r e) l).
  assert (H1 : reactor_ok (∅ : gmap Z Z) (replay1 r e) ∧
    (registry (replay1 r e) = registry r ∨ ∃ fl, served fl ∧ registry (replay1 r e) = <[fd := fl]> (registry r))).
  { destruct e as [fd' fl|fd'|fd'|fd'|fd' d|fd' q]; cbn [replay1]; try (split; [done|by left]).
    destruct He as [-> Hs]. destruct (addSocket_spec (∅ : gmap Z Z) fd (flags_value fl) r (served_nonzero _ Hs) Hr) as [? ?].
    split; [done|]. right. eauto. }
  destruct H1 as [Hok H1]. destruct (IH _ Hok) as [Hok' H2]. split; [done|].
  destruct H2 as [-> |(fl2 & Hs2 & ->)]; [done|]. right. exists fl2. split; [done|].
  destruct H1 as [-> |(fl1 & _ & ->)]; [done|]. by rewrite insert_insert_eq.
Qed.

(** The callbacks of a connection's socket: none there, the connection goes on, or it goes. *)
Inductive call_effect (fd : Z) (s s' : @HttpServer Kernel) : Prop :=
  | effect_none : m_connections s !! fd = None → s' = s → call_effect fd s s'
  | effect_keep c' : is_Some (m_connections s !! fd) → extends fd (world s) (world s') →
      m_connections s' = <[fd := c']> (m_connections s) → call_effect fd s s'
  | effect_close : is_Some (m_connections s !! fd) →
      log (world s') = log (world s) ++ [EvRemoveSocket fd; EvClose fd] →
      m_connections s' = delete fd (m_connections s) → call_effect fd s s'.

Lemma closed_effect fd s : is_Some (m_connections s !! fd) → call_effect fd s (handleConnectionClosed fd s).
Proof. intros H. apply effect_close; [done| |done]. cbn. by rewrite <-(assoc_L (++)). Qed.

Lemma on_connection_effect fd c s s' :
  on_connection cfg date os_send fd c s = Some s' →
  extends fd (world s) (world s') ∧ ∃ c', m_connections s' = <[fd := c']> (m_connections s).
Proof.
  unfold on_connection. destruct (handleConnection _ _ _ _ _ _ _) as [[| |c1 w1|]|] eqn:E; try done. intros [= <-].
  split; [by apply handleConnection_extends in E|]. by exists c1.
Qed.

Lemma react_effect s s' fd re :
  re = RClosed fd ∨ re = RWritable fd ∨ (∃ n d, re = RReadable fd n d) →
  react cfg date os_send s re = Some s' → call_effect fd s s'.
Proof.
  intros [-> |[-> |(n & d & ->)]]; cbn [react]; unfold onSocketClosed, onSocketWritable, onSocketReadable;
    (destruct (m_connections s !! fd) as [c|] eqn:Hc; [|intros [= <-]; by apply effect_none]).
  - intros [= <-]. apply closed_effect. by rewrite Hc.
  - destruct (sendMore os_send fd c (world s)) as [[c1 more] w1] eqn:E. apply sendMore_extends in E. destruct more.
    + intros [= <-]. eapply effect_keep; [by rewrite Hc|done|done].
    + intros (He & c' & Hm)%on_connection_effect. eapply effect_keep; [by rewrite Hc| |].
      * eapply extends_trans; [exact E|exact He].
      * rewrite Hm. cbn [m_connections]. by rewrite insert_insert_eq.
  - destruct (_ <=? 0)%Z; [intros [= <-]; apply closed_effect; by rewrite Hc|].
    intros (He & c' & Hm)%on_connection_effect. eapply effect_keep; [by rewrite Hc|done|done].
Qed.

(** The connections are the registered sockets that are not listening ones. *)
Record loop_ok (st : LoopState) : Prop := {
  lo_reactor : reactor_ok (∅ : gmap Z Z) (reactor st);
  lo_listening fd : fd ∈ m_listeningSockets st → sockets st !! fd = Some (flag_value Acceptable) ∧ conns st !! fd = None;
  lo_conns fd : fd ∉ m_listeningSockets st →
    match conns st !! fd, sockets st !! fd with
    | Some _, Some fl => served fl
    | None, None => True
    | _, _ => False
    end;
}.

(** Whatever happens to one socket leaves the others alone. *)
Definition others_kept (fd : Z) (st st' : LoopState) : Prop :=
  m_listeningSockets st' = m_listeningSockets st ∧
  ∀ fd', fd' ≠ fd → sockets st' !! fd' = sockets st !! fd' ∧ conns st' !! fd' = conns st !! fd'.

Lemma others_kept_refl fd st : others_kept fd st st.
Proof. done. Qed.

Lemma loop_ok_update fd st st' :
  fd ∉ m_listeningSockets st → others_kept fd st st' → reactor_ok (∅ : gmap Z Z) (reactor st') →
  match conns st' !! fd, sockets st' !! fd with
  | Some _, Some fl => served fl
  | None, None => True
  | _, _ => False
  end → loop_ok st → loop_ok st'.
Proof.
  intros Hfd [Hl Ho] Hr H [_ H1 H2]. split; [done|rewrite Hl..].
  - intros fd' Hin. assert (Hne : fd' ≠ fd) by (intros ->; done). destruct (Ho fd' Hne) as [-> ->]. by apply H1.
  - intros fd' Hin. destruct (decide (fd' = fd)) as [-> |Hne]; [done|]. destruct (Ho fd' Hne) as [-> ->]. by apply H2.
Qed.

Lemma drop_made (l l' : list event) : drop (length l) (l ++ l') = l'.
Proof. apply drop_app_length. Qed.

(** A callback on the socket of a connection. *)
Lemma callback_ok fd e re st :
  ev_fd e = fd → fd ∉ m_listeningSockets st → re = RClosed fd ∨ re = RWritable fd ∨ (∃ n d, re = RReadable fd n d) →
  loop_ok st →
  callback false e re st ≠ AssertFails ∧ ∀ st', callback false e re st = Ok st' → loop_ok st' ∧ others_kept fd st st'.
Proof.
  intros Hfd Hin Hre Hst. unfold callback. rewrite Hfd, bool_decide_eq_false_2 by done. cbn [Bool.eqb negb].
  destruct (react _ _ _ _ _) as [s|] eqn:E; [|done]. split; [done|]. intros st' [= <-].
  pose proof (lo_conns st Hst fd Hin) as Hc. pose proof (lo_reactor st Hst) as Hr.
  destruct (react_effect _ _ fd re Hre E) as [Hn ->|c' [c Hs] (l & Hl & Hq) Hm|[c Hs] Hl Hm].
  - rewrite drop_all. cbn [replay foldl]. by destruct st.
  - rewrite Hl, drop_made. destruct (replay_quiet fd l _ Hq Hr) as [Hok Hreg]. rewrite Hs in Hc.
    assert (Ho : others_kept fd st (MkLoop (replay (reactor st) l) s (m_listeningSockets st))).
    { split; [done|]. intros fd' Hne. cbn [reactor http]. rewrite Hm, lookup_insert_ne by done. split; [|done].
      destruct Hreg as [-> |(fl & _ & ->)]; [done|]. by rewrite lookup_insert_ne. }
    split; [|exact Ho]. eapply loop_ok_update; [exact Hin|exact Ho|done| |done]. cbn [reactor http].
    rewrite Hm, lookup_insert_eq. destruct Hreg as [-> |(fl & Hfl & ->)]; [done|by rewrite lookup_insert_eq].
  - rewrite Hl, drop_made. cbn [replay foldl replay1]. destruct (removeSocket_spec (∅ : gmap Z Z) fd _ Hr) as [Hok Hreg].
    assert (Ho : others_kept fd st (MkLoop (removeSocket fd (reactor st)) s (m_listeningSockets st))).
    { split; [done|]. intros fd' Hne. cbn [reactor http]. by rewrite Hm, Hreg, !lookup_delete_ne. }
    split; [|exact Ho]. eapply loop_ok_update; [exact Hin|exact Ho|done| |done]. cbn [reactor http].
    by rewrite Hm, Hreg, !lookup_delete_eq.
Qed.

(** The answer of [accept] is a descriptor that was not open. *)
Definition fresh_accept (st : LoopState) (e : sock_event) : Prop :=
  ∀ fd addr, ev_accept e = Some (fd, addr) → sockets st !! fd = None.

(** What was registered besides the socket of the event stays as it was. *)
Definition registered_kept (fd : Z) (st st' : LoopState) : Prop :=
  m_listeningSockets st' = m_listeningSockets st ∧
  ∀ fd', fd' ≠ fd → is_Some (sockets st !! fd') → sockets st' !! fd' = sockets st !! fd' ∧ conns st' !! fd' = conns st !! fd'.

Lemma others_registered fd st st' : others_kept fd st st' → registered_kept fd st st'.
Proof. intros [Hl Ho]. split; [done|]. auto. Qed.

Lemma accept_ok e st :
  ev_fd e ∈ m_listeningSockets st → fresh_accept st e → loop_ok st →
  callback true e (RAcceptable (ev_accept e)) st ≠ AssertFails ∧
  ∀ st', callback true e (RAcceptable (ev_accept e)) st = Ok st' → loop_ok st' ∧ registered_kept (ev_fd e) st st'.
Proof.
  intros Hin Hf Hst. unfold callback. rewrite bool_decide_eq_true_2 by done. cbn [Bool.eqb negb react].
  destruct (ev_accept e) as [[fd addr]|] eqn:Ea; cbn [onSocketAcceptable]; (split; [done|]); intros st' [= <-].
  - cbn [log world emit m_connections]. rewrite drop_made. cbn [replay foldl replay1 flags_value foldr flag_value].
    specialize (Hf fd addr Ea) as Hnone. change (Z.lor 1 (Z.lor 8 0)) with 9%Z.
    destruct (addSocket_spec (∅ : gmap Z Z) fd 9 _ ltac:(done) (lo_reactor st Hst)) as [Hok Hreg].
    set (c := set_state _ _). set (st' := MkLoop _ _ _).
    assert (Ho : others_kept fd st st').
    { split; [done|]. intros fd' Hne. cbn [reactor http st' m_connections]. by rewrite Hreg, !lookup_insert_ne. }
    assert (Hnl : fd ∉ m_listeningSockets st) by (intros Hl; by destruct (lo_listening st Hst fd Hl) as [? _]; simplify_eq).
    split.
    + eapply loop_ok_update; [exact Hnl|exact Ho|done| |done]. cbn [reactor http st' m_connections].
      by rewrite Hreg, !lookup_insert_eq.
    + destruct Ho as [Hl Ho]. split; [done|]. intros fd' _ [fl Hs]. apply Ho. intros ->. by simplify_eq.
  - rewrite drop_all. cbn [replay foldl]. by destruct st.
Qed.

Lemma find_registered st fd fl :
  loop_ok st → sockets st !! fd = Some fl →
  ∃ i sd, list_find (λ sd, socket sd = fd) (m_sockets (reactor st)) = Some (i, sd) ∧ flags sd = fl.
Proof.
  intros Hst Hs. destruct (list_find (λ sd, socket sd = fd) (m_sockets (reactor st))) as [[i sd]|] eqn:E.
  - exists i, sd. split; [done|]. apply list_find_Some in E as (Hi & <- & _).
    pose proof (lo_reactor st Hst) as [Hn _]. apply list_elem_of_lookup_2, list_elem_of_split in Hi as (l1 & l2 & Hl).
    destruct (reactor st) as [l calls]. cbn [m_sockets] in Hl. subst l.
    destruct (registry_middle l1 sd l2 calls Hn) as (Hreg & _). rewrite Hreg, lookup_insert_eq in Hs. by injection Hs.
  - apply list_find_None in E. exfalso. destruct (reactor st) as [l calls]. rewrite (registry_None fd l calls) in Hs; [done|].
    eapply list.Forall_impl; [exact E|]. intros sd Hne. by apply Z.eqb_neq.
Qed.

(** Steps on one connection's socket, and their composition. *)
Definition step_ok (fd : Z) (k : LoopState → outcome LoopState) : Prop := ∀ st,
  fd ∉ m_listeningSockets st → loop_ok st →
  k st ≠ AssertFails ∧ ∀ st', k st = Ok st' → loop_ok st' ∧ others_kept fd st st'.

Lemma step_ok_callback fd e re :
  ev_fd e = fd → re = RClosed fd ∨ re = RWritable fd ∨ (∃ n d, re = RReadable fd n d) → step_ok fd (callback false e re).
Proof. intros He Hre st Hin Hst. by apply callback_ok. Qed.

Lemma step_ok_when fd fl f e mask k : (has fl f = true → step_ok fd k) → step_ok fd (when_event fl f e mask k).
Proof.
  intros Hk st Hin Hst. unfold when_event. destruct (has fl f); cbn [andb]; [|split; [done|by intros st' [= <-]]].
  destruct (negb _); [by apply Hk|]. split; [done|by intros st' [= <-]].
Qed.

Lemma step_ok_then fd k k' : step_ok fd k → step_ok fd k' → step_ok fd (λ st, andThen (k st) k').
Proof.
  intros Hk Hk' st Hin Hst. destruct (Hk st Hin Hst) as [Hne H]. destruct (k st) as [st1| |]; cbn [andThen]; [|done|done].
  destruct (H st1 eq_refl) as [Hst1 [Hl1 Ho1]]. destruct (Hk' st1 ltac:(by rewrite Hl1) Hst1) as [Hne' H'].
  split; [done|]. intros st' E. destruct (H' st' E) as [Hst' [Hl' Ho']]. split; [done|]. split; [by rewrite Hl'|].
  intros fd' Hfd. destruct (Ho1 fd' Hfd) as [<- <-]. by apply Ho'.
Qed.

Lemma dispatch_ok e st :
  loop_ok st → is_Some (sockets st !! ev_fd e) → fresh_accept st e →
  dispatch st e ≠ AssertFails ∧ ∀ st', dispatch st e = Ok st' → loop_ok st' ∧ registered_kept (ev_fd e) st st'.
Proof.
  intros Hst [fl Hs] Hf. destruct (find_registered st _ fl Hst Hs) as (i & sd & E & Hfl).
  unfold dispatch. rewrite E, Hfl. destruct (decide (ev_fd e ∈ m_listeningSockets st)) as [Hin|Hin].
  - destruct (lo_listening st Hst _ Hin) as [Hs' _]. rewrite Hs in Hs'. injection Hs' as ->.
    unfold when_event. change (has 4 Readable) with false. change (has 4 Writable) with false.
    change (has 4 Closed) with false. change (has 4 Acceptable) with true.
    cbn [andb andThen]. destruct (negb _); cbn [andThen].
    + generalize (accept_ok e st Hin Hf Hst). by destruct (callback true e _ st).
    + split; [done|]. by intros st' [= <-].
  - pose proof (lo_conns st Hst _ Hin) as Hc. rewrite Hs in Hc. destruct (conns st !! ev_fd e) as [c|]; [|done].
    destruct Hc as [Hcl Hac].
    enough (H : step_ok (ev_fd e) (λ st,
      andThen (when_event fl Readable e EPOLLIN (callback false e (RReadable (ev_fd e) (ev_recv e).1 (ev_recv e).2)) st) (λ st,
      andThen (when_event fl Writable e EPOLLOUT (callback false e (RWritable (ev_fd e))) st) (λ st,
      andThen (when_event fl Acceptable e EPOLLIN (callback true e (RAcceptable (ev_accept e))) st) (λ st,
      when_event fl Closed e (Z.lor EPOLLHUP EPOLLERR) (callback false e (RClosed (ev_fd e))) st))))).
    { destruct (H st Hin Hst) as [Hne Ho]. split; [exact Hne|]. intros st' E'. destruct (Ho st' E'). split; [done|].
      by apply others_registered. }
    repeat apply step_ok_then; apply step_ok_when; intros Hhas; try (apply step_ok_callback; eauto; done).
    by rewrite Hac in Hhas.
Qed.

(** What a lawful kernel reports: each descriptor once, only registered ones, and new sockets are
    new when they are accepted. *)
Fixpoint lawful_events (st : LoopState) (l : list sock_event) : Prop :=
  match l with
  | [] => True
  | e :: l => fresh_accept st e ∧ ∀ st', dispatch st e = Ok st' → lawful_events st' l
  end.

Definition lawful_wait (st : LoopState) (r : wait_result) : Prop :=
  match r with
  | WaitNothing => True
  | WaitFails => False
  | WaitEvents l => length l ≤ 4 ∧ NoDup (ev_fd <$> l) ∧ (∀ fd, fd ∈ (ev_fd <$> l) → is_Some (sockets st !! fd)) ∧ lawful_events st l
  end.

Fixpoint lawful_waits (st : LoopState) (rs : list wait_result) : Prop :=
  match rs with
  | [] => True
  | r :: rs => lawful_wait st r ∧ ∀ st', onThread_turn st r = Ok st' → lawful_waits st' rs
  end.

Lemma andThen_fails {A X} (f : A → X → outcome A) l :
  foldl (λ o x, andThen o (λ a, f a x)) AssertFails l = AssertFails ∧
  foldl (λ o x, andThen o (λ a, f a x)) CallbackFaults l = CallbackFaults.
Proof. induction l as [|x l [IH1 IH2]]; [done|]. by cbn [foldl andThen]. Qed.

(** An invariant that every lawful event preserves is an invariant of the thread. *)
Section invariant.
Context (I : LoopState → Prop) (ok : sock_event → Prop).
Context (I_step : ∀ e st st', loop_ok st → is_Some (sockets st !! ev_fd e) → fresh_accept st e → ok e → I st →
  dispatch st e = Ok st' → I st').

Definition reaches (o : outcome LoopState) (st : LoopState) : Prop :=
  o ≠ AssertFails ∧ ∀ st', o = Ok st' → loop_ok st' ∧ m_listeningSockets st' = m_listeningSockets st ∧ I st'.

Lemma reaches_refl st : loop_ok st → I st → reaches (Ok st) st.
Proof. intros Hst HI. split; [done|]. by intros st' [= <-]. Qed.

Lemma run_events_reaches l st :
  loop_ok st → I st → NoDup (ev_fd <$> l) → (∀ fd, fd ∈ (ev_fd <$> l) → is_Some (sockets st !! fd)) → lawful_events st l →
  Forall ok l → reaches (run_events st l) st.
Proof.
  revert st. induction l as [|e l IH]; intros st Hst HI Hn Hr Hl Hok; [by apply reaches_refl|].
  rewrite fmap_cons in *. apply list.NoDup_cons in Hn as [Hin Hn]. destruct Hl as [Hf Hl].
  apply list.Forall_cons in Hok as [He Hok]. pose proof (Hr _ ltac:(apply list_elem_of_here)) as Hreg.
  destruct (dispatch_ok e st Hst Hreg Hf) as [Hne H].
  unfold run_events. cbn [foldl andThen]. destruct (dispatch st e) as [st1| |] eqn:Ed; [|done|].
  - destruct (H st1 eq_refl) as [Hst1 [Hl1 Hk1]].
    assert (Hr' : reaches (run_events st1 l) st1).
    { apply IH; [done|exact (I_step e st st1 Hst Hreg Hf He HI Ed)|done| |by apply Hl|done].
      intros fd Hfd. destruct (Hk1 fd) as [-> _]; [by intros ->| |]; apply Hr; by apply list_elem_of_further. }
    destruct Hr' as [Hne' H']. split; [exact Hne'|]. intros st' E. destruct (H' st' E) as (? & ? & ?).
    split_and!; [done|congruence|done].
  - by rewrite (proj2 (andThen_fails _ l)).
Qed.

Lemma onThread_reaches rs st :
  loop_ok st → I st → lawful_waits st rs → (∀ l e, WaitEvents l ∈ rs → e ∈ l → ok e) → reaches (onThread st rs) st.
Proof.
  revert st. induction rs as [|r rs IH]; intros st Hst HI Hl Hok; [by apply reaches_refl|]. destruct Hl as [Hr Hl].
  assert (Ht : reaches (onThread_turn st r) st).
  { destruct r as [l| |]; cbn [onThread_turn]; [|by apply reaches_refl|done].
    destruct Hr as (Hlen & Hn & Hreg & Hev). destruct l as [|e l]; [by apply reaches_refl|].
    rewrite (proj2 (Nat.leb_le _ _)) by done. apply run_events_reaches; [done..|].
    apply list.Forall_forall. intros e' He'. eapply Hok; [apply list_elem_of_here|exact He']. }
  destruct Ht as [Hne H]. unfold onThread. cbn [foldl andThen]. destruct (onThread_turn st r) as [st1| |] eqn:E; [|done|].
  - destruct (H st1 eq_refl) as (Hst1 & Hl1 & HI1).
    destruct (IH st1 Hst1 HI1 (Hl st1 eq_refl)) as [Hne' H'].
    { intros l e Hin. apply Hok. by apply list_elem_of_further. }
    split; [exact Hne'|]. intros st' E'. destruct (H' st' E') as (? & ? & ?). split_and!; [done|congruence|done].
  - by rewrite (proj2 (andThen_fails _ rs)).
Qed.
End invariant.

Lemma onThread_ok rs st :
  loop_ok st → lawful_waits st rs →
  onThread st rs ≠ AssertFails ∧ ∀ st', onThread st rs = Ok st' → loop_ok st' ∧ m_listeningSockets st' = m_listeningSockets st.
Proof.
  intros Hst Hl. destruct (onThread_reaches (λ _, True) (λ _, True) ltac:(done) rs st Hst I Hl ltac:(done)) as [Hne H].
  split; [done|]. intros st' E. by destruct (H st' E) as (? & ? & _).
Qed.

Lemma server_new_ok k ports :
  NoDup ports → loop_ok (server_new k ports) ∧ m_listeningSockets (server_new k ports) = ports.
Proof.
  intros Hn. unfold server_new. rewrite <-(app_nil_l ports) at 2.
  enough (H : ∀ st, loop_ok st → conns st = ∅ → NoDup (m_listeningSockets st ++ ports) →
    loop_ok (foldl (λ st fd, addListeningPort fd st) st ports) ∧
    m_listeningSockets (foldl (λ st fd, addListeningPort fd st) st ports) = m_listeningSockets st ++ ports).
  { apply (H (MkLoop Reactor_new (HttpServer_init k) [])); [|done|done].
    split; [by apply reactor_new_ok|by intros fd ?%elem_of_nil|]. done. }
  clear Hn. induction ports as [|p ports IH]; intros st Hst Hc Hn; [by rewrite app_nil_r|]. cbn [foldl].
  assert (Hp : p ∉ m_listeningSockets st).
  { apply list.NoDup_app in Hn as (_ & Hd & _). intros Hin. apply (Hd p Hin), list_elem_of_here. }
  destruct (addSocket_spec (∅ : gmap Z Z) p (flag_value Acceptable) _ ltac:(done) (lo_reactor st Hst)) as [Hok Hreg].
  destruct (IH (addListeningPort p st)) as [H1 H2].
  - split; [done| |]; cbn [addListeningPort m_listeningSockets reactor http]; rewrite Hreg; intros fd.
    + intros [Hin| ->%list_elem_of_singleton]%elem_of_app; [|by rewrite lookup_insert_eq, Hc].
      rewrite lookup_insert_ne by (intros ->; done). by apply (lo_listening st Hst).
    + intros [Hin Hne%not_elem_of_cons]%not_elem_of_app. rewrite lookup_insert_ne by (intros ->; by destruct Hne).
      by apply (lo_conns st Hst).
  - done.
  - cbn [addListeningPort m_listeningSockets]. by rewrite <-(assoc_L (++)).
  - split; [done|]. rewrite H2. cbn [addListeningPort m_listeningSockets]. by rewrite <-(assoc_L (++)).
Qed.

(** C21: However the kernel behaves within its contract, whatever clients send and however handlers
    answer: no assertion of the loop or of a callback fails, the sockets registered are exactly the
    listening ones (for accepting) and those of the connections, and each connection's socket
    is watched for being closed. *)
Theorem loop_never_asserts k ports rs :
  NoDup ports → lawful_waits (server_new k ports) rs →
  onThread (server_new k ports) rs ≠ AssertFails ∧
  ∀ st, onThread (server_new k ports) rs = Ok st →
    dom (sockets st) = list_to_set ports ∪ dom (conns st) ∧
    (∀ fd, fd ∈ ports → sockets st !! fd = Some (flag_value Acceptable)) ∧
    (∀ fd c, conns st !! fd = Some c → (fd ∉ ports) ∧ ∃ fl, sockets st !! fd = Some fl ∧ served fl).
Proof.
  intros Hn Hl. destruct (server_new_ok k ports Hn) as [Hok Hp]. destruct (onThread_ok rs _ Hok Hl) as [Hne H].
  split; [done|]. intros st E. destruct (H st E) as [Hst Hls]. rewrite Hp in Hls. destruct Hst as [_ H1 H2]. rewrite Hls in *.
  split_and!.
  - apply set_eq. intros fd. rewrite elem_of_union, elem_of_list_to_set, !elem_of_dom.
    destruct (decide (fd ∈ ports)) as [Hin|Hin]; [destruct (H1 fd Hin) as [-> _]; naive_solver|].
    specialize (H2 fd Hin). destruct (conns st !! fd), (sockets st !! fd); naive_solver.
  - intros fd Hin. by apply H1.
  - intros fd c Hc. destruct (decide (fd ∈ ports)) as [Hin|Hin]; [destruct (H1 fd Hin); congruence|].
    split; [done|]. specialize (H2 fd Hin). rewrite Hc in H2. destruct (sockets st !! fd) as [fl|]; [|done]. eauto.
Qed.

(** ** A connection that is never read again

    After a "100 Continue" that went out in two pieces the socket is watched for writing only, and
    nothing changes that while the body is awaited. *)
Record starved (fd : Z) (c : Connection) (st : LoopState) : Prop := {
  st_conn : conns st !! fd = Some c;
  st_state : state c = ReceivingBody;
  st_sent : sendBuffer c = [];
  st_waits : (Z.of_nat (length (receiveBuffer c)) < contentLength c)%Z;
  st_flags : sockets st !! fd = Some (flags_value [Writable; Closed]);
}.

Lemma starved_writable fd c s :
  m_connections s !! fd = Some c → state c = ReceivingBody → sendBuffer c = [] →
  (Z.of_nat (length (receiveBuffer c)) < contentLength c)%Z →
  react cfg date os_send s (RWritable fd) = Some s.
Proof.
  intros Hc Hs Hb Hw. destruct s as [m w]. cbn [m_connections] in Hc. cbn [react]. unfold onSocketWritable.
  cbn [m_connections world]. rewrite Hc. unfold sendMore. rewrite Hb. unfold on_connection, connection_fuel.
  rewrite Nat.add_comm. cbn [Nat.add handleConnection m_connections world]. rewrite run_from_state, Hs. cbn [from_state loop_body drop].
  rewrite (run_blocks_eq ReceivingBody) by done. unfold body_block. rewrite (proj2 (Z.ltb_lt _ _)) by done.
  by rewrite !insert_id by (rewrite ?insert_id; done).
Qed.

Lemma starved_step fd c e st st' :
  loop_ok st → is_Some (sockets st !! ev_fd e) → fresh_accept st e →
  (ev_fd e = fd → Z.land (ev_events e) (Z.lor EPOLLHUP EPOLLERR) = 0%Z) →
  starved fd c st → dispatch st e = Ok st' → starved fd c st'.
Proof.
  intros Hst Hreg Hf Hq Hs E. destruct (decide (ev_fd e = fd)) as [<-|Hne].
  - enough (st' = st) as -> by done. specialize (Hq eq_refl). destruct Hs as [Hc Hst' Hb Hw Hfl].
    destruct (find_registered st _ _ Hst Hfl) as (i & sd & Hfind & Hsd). unfold dispatch in E. rewrite Hfind, Hsd in E.
    unfold when_event in E. change (has (flags_value [Writable; Closed]) Readable) with false in E.
    change (has (flags_value [Writable; Closed]) Writable) with true in E.
    change (has (flags_value [Writable; Closed]) Acceptable) with false in E.
    rewrite Hq in E. rewrite andb_false_r in E. cbn [andb andThen] in E.
    destruct (negb _); cbn [andThen] in E; [|by injection E].
    unfold callback in E. rewrite (starved_writable _ c) in E by done. destruct (negb _); [done|].
    rewrite drop_all in E. cbn [replay foldl andThen] in E. injection E as <-. by destruct st.
  - destruct (dispatch_ok e st Hst Hreg Hf) as [_ H]. destruct (H st' E) as [_ [_ Hk]]. destruct Hs as [Hc Hst' Hb Hw Hfl].
    destruct (Hk fd) as [H1 H2]; [done|by rewrite Hfl|]. by split; rewrite ?H1, ?H2.
Qed.

(** C25: A connection of a running server that waits for the rest of a body while its socket is watched
    for writing only - as after a "100 Continue" sent in two pieces - stays just so for ever:
    whatever arrives on it and on the other sockets, nothing is read, unless the connection
    breaks. *)
Theorem partial_continue_starves k ports rs0 st0 rs st fd c :
  NoDup ports → lawful_waits (server_new k ports) rs0 → onThread (server_new k ports) rs0 = Ok st0 →
  starved fd c st0 → lawful_waits st0 rs →
  (∀ l e, WaitEvents l ∈ rs → e ∈ l → ev_fd e = fd → Z.land (ev_events e) (Z.lor EPOLLHUP EPOLLERR) = 0%Z) →
  onThread st0 rs = Ok st → starved fd c st.
Proof.
  intros Hn Hl0 E0 Hs Hl Hq E. destruct (server_new_ok k ports Hn) as [Hok _].
  destruct (onThread_ok rs0 _ Hok Hl0) as [_ H0]. destruct (H0 st0 E0) as [Hst0 _].
  destruct (onThread_reaches (starved fd c) (λ e, ev_fd e = fd → Z.land (ev_events e) (Z.lor EPOLLHUP EPOLLERR) = 0%Z)
    ltac:(intros; by eapply starved_step) rs st0 Hst0 Hs Hl Hq) as [_ H].
  by destruct (H st E) as (_ & _ & ?).
Qed.

(** ** Deciding whether a run is lawful *)

Definition fresh_acceptb (st : LoopState) (e : sock_event) : bool :=
  match ev_accept e with
  | Some (fd, _) => match sockets st !! fd with None => true | Some _ => false end
  | None => true
  end.

Fixpoint lawful_eventsb (st : LoopState) (l : list sock_event) : bool :=
  match l with
  | [] => true
  | e :: l => fresh_acceptb st e && match dispatch st e with Ok st' => lawful_eventsb st' l | _ => true end
  end.

Definition lawful_waitb (st : LoopState) (r : wait_result) : bool :=
  match r with
  | WaitNothing => true
  | WaitFails => false
  | WaitEvents l =>
      (length l <=? 4) && bool_decide (NoDup (ev_fd <$> l))
      && forallb (λ fd, match sockets st !! fd with Some _ => true | None => false end) (ev_fd <$> l) && lawful_eventsb st l
  end.

Fixpoint lawful_waitsb (st : LoopState) (rs : list wait_result) : bool :=
  match rs with
  | [] => true
  | r :: rs => lawful_waitb st r && match onThread_turn st r with Ok st' => lawful_waitsb st' rs | _ => true end
  end.

Lemma fresh_acceptb_spec st e : fresh_acceptb st e = true → fresh_accept st e.
Proof. intros H fd addr E. unfold fresh_acceptb in H. rewrite E in H. by destruct (sockets st !! fd). Qed.

Lemma lawful_eventsb_spec st l : lawful_eventsb st l = true → lawful_events st l.
Proof.
  revert st. induction l as [|e l IH]; intros st; [done|]. cbn [lawful_eventsb lawful_events].
  intros [Hf H]%andb_true_iff. split; [by apply fresh_acceptb_spec|]. intros st' E. rewrite E in H. by apply IH.
Qed.

Lemma lawful_waitsb_spec st rs : lawful_waitsb st rs = true → lawful_waits st rs.
Proof.
  revert st. induction rs as [|r rs IH]; intros st; [done|]. cbn [lawful_waitsb lawful_waits].
  intros [Hr H]%andb_true_iff. split; [|intros st' E; rewrite E in H; by apply IH].
  destruct r as [l| |]; [|done|done]. cbn [lawful_waitb lawful_wait] in *.
  apply andb_true_iff in Hr as [[[Hl%Nat.leb_le Hn%bool_decide_eq_true_1]%andb_true_iff Hr]%andb_true_iff He].
  split_and!; [done|done| |by apply lawful_eventsb_spec].
  intros fd Hfd. apply forallb_Forall in Hr. rewrite list.Forall_forall in Hr. specialize (Hr fd Hfd).
  destruct (sockets st !! fd); [by eexists|done].
Qed.
End loop.

(** ** A run *)

(** At most thirteen bytes go out at a time. *)
Definition send_13 (k : unit) (fd : Z) (b : bytes) : Z * bool * unit := (Z.of_nat (Nat.min 13 (length b)), false, tt).

Definition expect_head : bytes :=
  print_head (B "POST") (B "/v1/traces") (B "HTTP/1.1") [(B "Content-Length", B "5"); (B "Expect", B "100-continue")].

Definition no_recv : Z * bytes := (0%Z, []).
Definition turn_accept : wait_result := WaitEvents [MkSockEvent 3 EPOLLIN no_recv (Some (7%Z, B "10.0.0.9:4711"))].
Definition turn_read (b : bytes) : wait_result :=
  WaitEvents [MkSockEvent 7 (Z.lor EPOLLIN EPOLLOUT) (Z.of_nat (length b), b) None].

(** The head arrives, the "100 Continue" goes out in two pieces. *)
Definition expect_run : list wait_result := [turn_accept; turn_read expect_head; turn_read []].

Definition demo_loop (rs : list wait_result) : outcome (LoopState (Kernel := unit)) :=
  onThread echo_config [] send_13 (server_new tt [3%Z]) rs.

Lemma loop_never_asserts_witness :
  lawful_waits echo_config [] send_13 (server_new tt [3%Z]) expect_run ∧
  ∃ st, demo_loop expect_run = Ok _ st ∧ dom (registry (reactor st)) = {[3%Z]} ∪ dom (m_connections (http st)).
Proof.
  assert (Hl : lawful_waits echo_config [] send_13 (server_new tt [3%Z]) expect_run).
  { apply lawful_waitsb_spec. vm_compute. reflexivity. }
  split; [exact Hl|].
  destruct (loop_never_asserts echo_config [] send_13 tt [3%Z] expect_run (NoDup_singleton _) Hl) as [_ H].
  destruct (demo_loop expect_run) as [st| |] eqn:E; [|vm_compute in E; discriminate..].
  exists st. split; [reflexivity|]. destruct (H st E) as [Hd _]. rewrite Hd. set_solver.
Defined.

Lemma partial_continue_starves_witness :
  ∃ st c, demo_loop (expect_run ++ [turn_read (B "hello")]) = Ok _ st ∧ starved 7 c st ∧ receiveBuffer c = [].
Proof.
  destruct (demo_loop expect_run) as [st0| |] eqn:E0; [|vm_compute in E0; discriminate..].
  destruct (demo_loop (expect_run ++ [turn_read (B "hello")])) as [st| |] eqn:E; [|vm_compute in E; discriminate..].
  destruct (m_connections (http st0) !! 7%Z) as [c|] eqn:Ec; [|vm_compute in E0; injection E0 as <-; vm_compute in Ec; discriminate].
  exists st, c. split; [reflexivity|]. split.
  - apply (partial_continue_starves echo_config [] send_13 tt [3%Z] expect_run st0 [turn_read (B "hello")] st).
    + apply NoDup_singleton.
    + apply lawful_waitsb_spec. vm_compute. reflexivity.
    + exact E0.
    + vm_compute in E0. injection E0 as <-. vm_compute in Ec. injection Ec as <-. split; vm_compute; reflexivity.
    + apply lawful_waitsb_spec. vm_compute in E0. injection E0 as <-. vm_compute. reflexivity.
    + intros l e [= ->]%list_elem_of_singleton ->%list_elem_of_singleton _. reflexivity.
    + unfold demo_loop, onThread in *. rewrite foldl_app, E0 in E. exact E.
  - vm_compute in E0. injection E0 as <-. vm_compute in Ec. injection Ec as <-. reflexivity.
Defined.
