(* ===== verification/ServerThread.v ===== *)
(** * The life of a server: its ports, its thread and its end

    common::Thread, the Socket wrappers and Reactor::start and stop of socket_tools.h with addListeningPort, start, stop and
    the destructor of HttpServer (http_server.h): the thread that owns the server and the thread of the reactor,
    interleaved.  The reactor's thread is cut at what it shares with the other: the test of [m_terminate], the wait, and each
    event dispatched (ServerLoop). *)
From S2P Require Export ServerLoop.

(** ** Sockets *)

(** The system calls of the wrappers, each on a socket that is asserted to be valid. *)
Inductive sock_call :=
  | SysFcntlGet | SysFcntlSet (flags : Z) | SysReuseAddr | SysNoDelay | SysConnect (a : SocketAddr) | SysClose | SysBind (a : SocketAddr)
  | SysGetsockname | SysListen (backlog : Z) | SysShutdown (how : Z).

Definition Invalid : Z := -1.
Definition invalid (m_sock : Z) : bool := (m_sock =? Invalid)%Z.

(** The calls made so far, with their sockets; [None] is a failed assertion. *)
Definition on_socket (m_sock : Z) (c : sock_call) (calls : list (Z * sock_call)) : option (list (Z * sock_call)) :=
  if invalid m_sock then None else Some (calls ++ [(m_sock, c)]).

Definition O_NONBLOCK : Z := 2048.

Definition setNonBlocking (m_sock : Z) (flags : Z) (calls : list (Z * sock_call)) : option (list (Z * sock_call)) :=
  calls ← on_socket m_sock SysFcntlGet calls; on_socket m_sock (SysFcntlSet (Z.lor flags O_NONBLOCK)) calls.

(** The wrappers that answer whether the call answered 0. *)
Definition checked (m_sock : Z) (c : sock_call) (answer : Z) (calls : list (Z * sock_call)) : option (list (Z * sock_call) * bool) :=
  calls ← on_socket m_sock c calls; Some (calls, (answer =? 0)%Z).

(** [close] forgets the socket. *)
Definition Socket_close (m_sock : Z) (calls : list (Z * sock_call)) : option (list (Z * sock_call) * Z) :=
  calls ← on_socket m_sock SysClose calls; Some (calls, Invalid).

(** What the kernel answers while a port is opened: the new socket, its flags, the results, and the address that
    [getsockname] stores when it answers 0. *)
Record ListenAnswers := MkListenAnswers {
  la_socket : Z; la_flags : Z; la_reuse : Z; la_bind : Z; la_getsockname : Z; la_name : SocketAddr; la_listen : Z;
}.

Arguments ServerLoop.Ok {A} a.
Arguments ServerLoop.AssertFails {A}.
Arguments ServerLoop.CallbackFaults {A}.

Section life.
Context (cfg : ServerConfig) (date : bytes).
Context {Kernel : Type} (os_send : Kernel → Z → bytes → Z * bool * Kernel).

Abbreviation LoopState := (ServerLoop.LoopState (Kernel := Kernel)).
Abbreviation dispatch := (ServerLoop.dispatch cfg date os_send).

(** [addListeningPort]: none of the results is looked at. *)
Definition open_listening_port (p : Z) (a : ListenAnswers) (st : LoopState) : option (LoopState * list (Z * sock_call) * Z) :=
  let socket := la_socket a in
  calls ← setNonBlocking socket (la_flags a) [];
  '(calls, _) ← checked socket SysReuseAddr (la_reuse a) calls;
  let addr := SocketAddr_new 0 p in
  '(calls, _) ← checked socket (SysBind addr) (la_bind a) calls;
  '(calls, named) ← checked socket SysGetsockname (la_getsockname a) calls;
  let addr := if named : bool then la_name a else addr in
  '(calls, _) ← checked socket (SysListen 10) (la_listen a) calls;
  Some (addListeningPort socket st, calls, port addr).

(** A port that cannot be bound is listened on anyway, on whatever port the kernel picks, and registered; the
    number answered was read before; only a socket that cannot be opened is noticed, by an assertion. *)
Lemma open_listening_port_spec p a st :
  open_listening_port p a st =
  if invalid (la_socket a) then None
  else Some (addListeningPort (la_socket a) st,
             (λ c, (la_socket a, c)) <$> [SysFcntlGet; SysFcntlSet (Z.lor (la_flags a) O_NONBLOCK); SysReuseAddr;
               SysBind (SocketAddr_new 0 p); SysGetsockname; SysListen 10],
             port (if (la_getsockname a =? 0)%Z then la_name a else SocketAddr_new 0 p)).
Proof. unfold open_listening_port, setNonBlocking, checked, on_socket. by destruct (invalid (la_socket a)). Qed.

(** ** The two threads *)

(** The thread of the reactor: none (not joinable), at the test of [m_terminate], in [epoll_wait], with events left to
    dispatch, or returned and not yet joined. *)
Inductive Worker := NoThread | Checking | Polling | Dispatching (l : list sock_event) | Returned.

Definition joinable (t : Worker) : bool := match t with NoThread => false | _ => true end.

(** What the owner of the server does; [Joining] is the wait of [join] in [stop]. *)
Inductive command := DoListen (fd : Z) | DoStart | DoStop | DoDestroy.
Inductive owner := Owner (todo : list command) | Joining (todo : list command).

(** [Terminated] is std::terminate, [Aborted] a failed assertion, [Faulted] a fault in a callback; [Destroyed] the end of the
    server object. *)
Inductive fate := Alive | Terminated | Aborted | Faulted | Destroyed.
#[export] Instance fate_eq_dec : EqDecision fate.
Proof. solve_decision. Defined.

Record Process := MkProcess {
  sys : LoopState;
  m_terminate : bool;
  m_thread : Worker;
  main : owner;
  closed : list Z;
  state : fate;
}.

Definition set_worker (p : Process) (t : Worker) : Process := MkProcess (sys p) (m_terminate p) t (main p) (closed p) (state p).
Definition set_sys (p : Process) (st : LoopState) (t : Worker) : Process := MkProcess st (m_terminate p) t (main p) (closed p) (state p).
Definition set_fate (p : Process) (f : fate) : Process := MkProcess (sys p) (m_terminate p) (m_thread p) (main p) (closed p) f.

(** [m_thread = std::thread(...)] terminates the process when the old thread was not joined. *)
Definition startThread (p : Process) (todo : list command) : Process :=
  if joinable (m_thread p) then set_fate (MkProcess (sys p) false (m_thread p) (Owner todo) (closed p) (state p)) Terminated
  else MkProcess (sys p) false Checking (Owner todo) (closed p) (state p).

(** The destructors: the server's closes the listening sockets, the reactor's the epoll descriptor, and std::thread's
    terminates the process when the thread was not joined. *)
Definition destroy (p : Process) (todo : list command) : Process :=
  MkProcess (sys p) (m_terminate p) (m_thread p) (Owner todo) (closed p ++ m_listeningSockets (sys p))
    (if joinable (m_thread p) then Terminated else Destroyed).

(** The owner's next step, if it is not waiting. *)
Definition main_step (p : Process) : option Process :=
  match main p with
  | Owner (DoListen fd :: todo) =>
      Some (MkProcess (addListeningPort fd (sys p)) (m_terminate p) (m_thread p) (Owner todo) (closed p) (state p))
  | Owner (DoStart :: todo) => Some (startThread p todo)
  | Owner (DoStop :: todo) => Some (MkProcess (sys p) true (m_thread p) (Joining todo) (closed p) (state p))
  | Owner (DoDestroy :: todo) => Some (destroy p todo)
  | Owner [] => None
  | Joining todo =>
      match m_thread p with
      | NoThread | Returned => Some (MkProcess (server_stop (sys p)) (m_terminate p) NoThread (Owner todo) (closed p) (state p))
      | _ => None
      end
  end.

(** The reactor's next step; [r] is what [epoll_wait] answers if it is called. *)
Definition worker_step (r : wait_result) (p : Process) : option Process :=
  match m_thread p with
  | NoThread | Returned => None
  | Checking => Some (set_worker p (if m_terminate p then Returned else Polling))
  | Polling =>
      match r with
      | WaitNothing | WaitEvents [] => Some (set_worker p Checking)
      | WaitFails => Some (set_fate p Aborted)
      | WaitEvents l => if length l <=? 4 then Some (set_worker p (Dispatching l)) else Some (set_fate p Aborted)
      end
  | Dispatching [] => Some (set_worker p Checking)
  | Dispatching (e :: l) =>
      match dispatch (sys p) e with
      | Ok st => Some (set_sys p st (Dispatching l))
      | AssertFails => Some (set_fate p Aborted)
      | CallbackFaults => Some (set_fate p Faulted)
      end
  end.

(** The answers of a lawful kernel. *)
Definition kernel_ok (r : wait_result) (p : Process) : Prop := m_thread p = Polling → lawful_wait cfg date os_send (sys p) r.

Inductive proc_step (p : Process) : Process → Prop :=
  | by_main p' : state p = Alive → main_step p = Some p' → proc_step p p'
  | by_worker r p' : state p = Alive → kernel_ok r p → worker_step r p = Some p' → proc_step p p'.

(** The owner is about to change what the other thread is reading: the vector of sockets, or the object. *)
Definition races (p : Process) : Prop :=
  match main p, m_thread p with
  | Owner (DoListen _ :: _), Dispatching _ | Owner (DoDestroy :: _), (Checking | Polling | Dispatching _) => True
  | _, _ => False
  end.

(** The server as it is meant to be used: the ports first, then start, stop and the destructor. *)
Definition usage (ports : list Z) : list command := (DoListen <$> ports) ++ [DoStart; DoStop; DoDestroy].

Definition Process_init (k : Kernel) (cmds : list command) : Process :=
  MkProcess (MkLoop Reactor_new (HttpServer_init k) []) false NoThread (Owner cmds) [] Alive.

(** ** The invariant *)

(** The events left are of different registered sockets and lawful. *)
Definition events_ok (st : LoopState) (l : list sock_event) : Prop :=
  NoDup (ev_fd <$> l) ∧ (∀ fd, fd ∈ (ev_fd <$> l) → is_Some (registry (reactor st) !! fd)) ∧ lawful_events cfg date os_send st l.

Inductive stage (k : Kernel) (ports : list Z) (p : Process) : Prop :=
  | opening now later :
      ports = now ++ later → sys p = server_new k now → m_thread p = NoThread → main p = Owner (usage later) →
      state p = Alive → closed p = [] → stage k ports p
  | running :
      loop_ok (sys p) → m_listeningSockets (sys p) = ports → joinable (m_thread p) = true →
      (main p = Owner [DoStop; DoDestroy] ∧ m_terminate p = false ∧ m_thread p ≠ Returned ∨ main p = Joining [DoDestroy] ∧ m_terminate p = true) →
      (∀ l, m_thread p = Dispatching l → events_ok (sys p) l) →
      state p = Alive ∨ state p = Faulted → closed p = [] → stage k ports p
  | stopped :
      registry (reactor (sys p)) = ∅ → m_listeningSockets (sys p) = ports → m_thread p = NoThread → main p = Owner [DoDestroy] →
      state p = Alive → closed p = [] → stage k ports p
  | gone :
      m_thread p = NoThread → main p = Owner [] → state p = Destroyed → closed p = ports → stage k ports p.

Lemma server_new_snoc (k : Kernel) now fd : server_new k (now ++ [fd]) = addListeningPort fd (server_new k now).
Proof. unfold server_new. by rewrite foldl_snoc. Qed.

Lemma main_step_stage k ports p p' : NoDup ports → stage k ports p → state p = Alive → main_step p = Some p' → stage k ports p'.
Proof.
  intros Hnd Hs Ha. unfold main_step.
  destruct Hs as [now later Hp Hsys Hth Hm _ Hc|Hok Hl Hj Hm Hev _ Hc|Hreg Hl Hth Hm _ Hc|Hth Hm Hst Hc].
  - rewrite Hm. destruct later as [|fd later]; cbn [usage fmap list_fmap app]; intros [= <-].
    + rewrite app_nil_r in Hp. subst now. destruct (server_new_ok k ports Hnd) as [Hok Hl]. unfold startThread. rewrite Hth. cbn [joinable].
      apply running; cbn; rewrite ?Hsys; auto; done.
    + eapply (opening _ _ _ (now ++ [fd]) later); cbn; [by rewrite <-app_assoc|by rewrite server_new_snoc, Hsys|done..].
  - destruct Hm as [(Hm & Ht & Hr)|[Hm Ht]]; rewrite Hm.
    + intros [= <-]. apply running; cbn; auto.
    + destruct (m_thread p) eqn:E; try done. intros [= <-].
      apply stopped; cbn; auto.
  - rewrite Hm. intros [= <-]. unfold destroy. rewrite Hth. apply gone; cbn; try done. by rewrite Hc, Hl.
  - by rewrite Hm.
Qed.

Lemma events_ok_dispatch st e l :
  loop_ok st → events_ok st (e :: l) →
  dispatch st e ≠ AssertFails ∧
  ∀ st', dispatch st e = Ok st' → loop_ok st' ∧ m_listeningSockets st' = m_listeningSockets st ∧ events_ok st' l.
Proof.
  intros Hok (Hn & Hr & Hf & Hl). rewrite fmap_cons in Hn, Hr. apply list.NoDup_cons in Hn as [Hin Hn].
  destruct (dispatch_ok cfg date os_send e st Hok (Hr _ ltac:(apply list_elem_of_here)) Hf) as [Hne H]. split; [exact Hne|].
  intros st' E. destruct (H st' E) as (Hok' & Hls & Hk). split_and!; [done|done|]. split_and!; [done| |by apply Hl].
  intros fd Hfd. destruct (Hk fd) as [-> _]; [by intros ->| |]; apply Hr; by apply list_elem_of_further.
Qed.

(** With the server running, what a step of the reactor's thread changes. *)
Lemma running_worker k ports p st t f :
  m_listeningSockets st = ports → loop_ok st → joinable t = true → (m_terminate p = false → t ≠ Returned) →
  (∀ l, t = Dispatching l → events_ok st l) → f = Alive ∨ f = Faulted → closed p = [] →
  (main p = Owner [DoStop; DoDestroy] ∧ m_terminate p = false ∧ m_thread p ≠ Returned ∨ main p = Joining [DoDestroy] ∧ m_terminate p = true) →
  stage k ports (MkProcess st (m_terminate p) t (main p) (closed p) f).
Proof. intros Hl Hok Hj Ht Hev Hf Hc [(Hm & Hte & _)|[Hm Hte]]; apply running; cbn; auto. Qed.

Lemma worker_step_stage k ports r p p' :
  stage k ports p → state p = Alive → kernel_ok r p → worker_step r p = Some p' → stage k ports p'.
Proof.
  intros Hs Ha Hk. unfold worker_step.
  destruct Hs as [now later _ _ Hth _ _ _|Hok Hl Hj Hm Hev _ Hc|_ _ Hth _ _ _|Hth _ _ _]; try (by rewrite Hth).
  assert (Hgo : ∀ t, joinable t = true → (m_terminate p = false → t ≠ Returned) → (∀ l, t = Dispatching l → events_ok (sys p) l) →
    stage k ports (set_worker p t)) by (intros; apply running_worker; auto).
  destruct (m_thread p) as [| | |[|e l]|] eqn:E; try done.
  - intros [= <-]. destruct (m_terminate p) eqn:Et; apply Hgo; done.
  - specialize (Hk E). destruct r as [[|e l]| |]; try (intros [= <-]; by apply Hgo); [|done].
    destruct Hk as (Hlen & Hn & Hr & Hf). rewrite (proj2 (Nat.leb_le _ _)) by done. intros [= <-].
    apply Hgo; [done..|]. intros l' [= <-]. done.
  - intros [= <-]. by apply Hgo.
  - destruct (events_ok_dispatch (sys p) e l Hok (Hev _ eq_refl)) as [Hne H].
    destruct (dispatch (sys p) e) as [st| |] eqn:Ed; [|done|]; intros [= <-].
    + destruct (H st eq_refl) as (Hok' & Hl' & Hev'). apply running_worker; auto; congruence.
    + unfold set_fate. rewrite E. apply running_worker; rewrite ?E; auto.
Qed.

Lemma reachable_stage k ports p : NoDup ports → rtc proc_step (Process_init k (usage ports)) p → stage k ports p.
Proof.
  intros Hnd. revert p. apply rtc_ind_r; [by apply (opening _ _ _ [] ports)|]. intros p1 p2 _ Hstep IH.
  destruct Hstep as [p2' Ha E|r p2' Ha Hk E]; [by eapply main_step_stage|by eapply worker_step_stage].
Qed.

(** ** Waiting for the thread *)

(** What is left of the thread's work once it is told to stop: a wait answers four events at most. *)
Definition work (t : Worker) : nat :=
  match t with Dispatching l => length l + 2 | Checking => 1 | Polling => 7 | Returned | NoThread => 0 end.

Lemma worker_step_main r p p' : worker_step r p = Some p' → main p' = main p ∧ m_terminate p' = m_terminate p ∧ closed p' = closed p.
Proof.
  unfold worker_step. destruct (m_thread p) as [| | |[|e l]|]; try done.
  - by intros [= <-].
  - destruct r as [[|e l]| |]; try (by intros [= <-]). destruct (length _ <=? 4); by intros [= <-].
  - by intros [= <-].
  - destruct (dispatch (sys p) e); by intros [= <-].
Qed.

Lemma worker_step_work r p p' :
  m_terminate p = true → worker_step r p = Some p' → state p' = state p → state p = Alive → work (m_thread p') < work (m_thread p).
Proof.
  intros Ht. unfold worker_step. destruct (m_thread p) as [| | |[|e l]|] eqn:E; try done.
  - rewrite Ht. intros [= <-] _ _. cbn. lia.
  - destruct r as [[|e l]| |]; try (intros [= <-] _ _; cbn; lia); [|intros [= <-] Hs Ha; cbn in Hs; congruence].
    destruct (length (e :: l) <=? 4) eqn:El; [|intros [= <-] Hs Ha; cbn in Hs; congruence].
    apply Nat.leb_le in El. intros [= <-] _ _. cbn [m_thread set_worker work]. lia.
  - intros [= <-] _ _. cbn. lia.
  - destruct (dispatch (sys p) e); intros [= <-] Hs Ha; cbn in *; [lia|congruence..].
Qed.

(** Whatever the thread is at, it can go on. *)
Lemma worker_enabled p : work (m_thread p) ≠ 0 → ∃ r p', kernel_ok r p ∧ worker_step r p = Some p'.
Proof.
  intros H. exists WaitNothing. unfold kernel_ok, worker_step. destruct (m_thread p) as [| | |[|e l]|]; try done; try (by eexists).
  destruct (dispatch (sys p) e); by eexists.
Qed.

Lemma stage_enabled k ports p : stage k ports p → state p = Alive → ∃ p', proc_step p p'.
Proof.
  intros Hs Ha. destruct (main_step p) as [p'|] eqn:E; [exists p'; by apply by_main|]. unfold main_step in E.
  destruct Hs as [now later _ _ _ Hm _ _|_ _ Hj [(Hm & _)|[Hm _]] _ _ _|_ _ _ Hm _ _|_ _ Hst _]; [..|congruence].
  - rewrite Hm in E. by destruct later.
  - by rewrite Hm in E.
  - destruct (worker_enabled p) as (r & p' & Hk & Hw); [|exists p'; by eapply by_worker].
    rewrite Hm in E. destruct (m_thread p); cbn; try lia; done.
  - by rewrite Hm in E.
Qed.

(** C23: A server used as it is meant to be - the ports opened, then start, stop and the destructor - under every
    interleaving of its owner with its thread and every lawful kernel: no assertion fails and the process is not terminated,
    the owner never changes what the thread is reading, something can always happen until the server is gone, and then its
    thread was joined and exactly its listening sockets were closed; and once it is told to stop, the thread takes at most seven
    more steps, or the events left and two. *)
Theorem server_thread_lifecycle k ports p :
  NoDup ports → rtc proc_step (Process_init k (usage ports)) p →
  state p ≠ Terminated ∧ state p ≠ Aborted ∧ ¬ races p ∧
  (state p = Alive → ∃ p', proc_step p p') ∧
  (state p = Destroyed → m_thread p = NoThread ∧ closed p = ports ∧ main p = Owner []) ∧
  (∀ todo p', main p = Joining todo → proc_step p p' →
    main p' = Owner todo ∨ state p' = Faulted ∨ main p' = Joining todo ∧ work (m_thread p') < work (m_thread p)).
Proof.
  intros Hnd Hr. pose proof (reachable_stage k ports p Hnd Hr) as Hs. split_and!.
  - destruct Hs as [? ? _ _ _ _ -> _|_ _ _ _ _ [-> | ->] _|_ _ _ _ -> _|_ _ -> _]; done.
  - destruct Hs as [? ? _ _ _ _ -> _|_ _ _ _ _ [-> | ->] _|_ _ _ _ -> _|_ _ -> _]; done.
  - unfold races. destruct Hs as [now later _ _ Hth Hm _ _|_ _ _ [(Hm & _)|[Hm _]] _ _ _|_ _ Hth Hm _ _|_ Hm _ _];
      rewrite Hm; rewrite ?Hth; try (by destruct later; cbn; intros []); cbn; by intros [].
  - by apply (stage_enabled k ports).
  - destruct Hs as [? ? _ _ _ _ -> _|_ _ _ _ _ [-> | ->] _|_ _ _ _ -> _|? ? _ ?]; done.
  - intros todo p' Hj Hstep.
    assert (Ht : m_terminate p = true).
    { destruct Hs as [? ? _ _ _ Hm _ _|_ _ _ [(Hm & _)|[_ ?]] _ _ _|_ _ _ Hm _ _|_ Hm _ _]; [congruence..|done|congruence|congruence]. }
    destruct Hstep as [p' Ha E|r p' Ha Hk E].
    + unfold main_step in E. rewrite Hj in E. destruct (m_thread p); try done; injection E as <-; by left.
    + right. pose proof (worker_step_stage k ports r p p' Hs Ha Hk E) as Hs'. destruct (worker_step_main r p p' E) as (Hm' & _ & _).
      destruct (decide (state p' = Alive)) as [Ha'|Hn].
      * right. split; [congruence|]. eapply worker_step_work; [done|done|congruence|done].
      * left. destruct Hs' as [? ? _ _ _ _ ? _|_ _ _ _ _ [?|?] _|_ _ _ _ ? _|_ Hm _ _]; [done|done|done|done|congruence].
Qed.

(** ** Uses it is not meant for *)

Lemma start_twice_terminates p todo : joinable (m_thread p) = true → state (startThread p todo) = Terminated.
Proof. intros H. unfold startThread. by rewrite H. Qed.

Lemma destroy_running_terminates p todo : joinable (m_thread p) = true → state (destroy p todo) = Terminated.
Proof. intros H. unfold destroy. by rewrite H. Qed.

(** The kernel has nothing to report when nothing is registered. *)
Definition deaf (p : Process) : Prop := registry (reactor (sys p)) = ∅ ∧ ∀ l, m_thread p = Dispatching l → l = [].

Lemma deaf_worker r p p' : deaf p → kernel_ok r p → worker_step r p = Some p' → deaf p' ∧ sys p' = sys p.
Proof.
  intros [Hreg Hd] Hk. unfold worker_step. destruct (m_thread p) as [| | |[|e l]|] eqn:E; try done.
  - intros [= <-]. by destruct (m_terminate p).
  - specialize (Hk E). destruct r as [[|e l]| |]; try (by intros [= <-]).
    destruct Hk as (_ & _ & Hr & _). destruct (Hr (ev_fd e)) as [fl Hfl]; [apply list_elem_of_here|].
    by rewrite Hreg in Hfl.
  - by intros [= <-].
  - by specialize (Hd _ eq_refl).
Qed.

(** A server that is started again after [stop] no longer listens on its ports: nothing ever reaches it, and the
    connections it had are kept as they were, open. *)
Theorem restarted_server_is_deaf p p' :
  registry (reactor (sys p)) = ∅ → m_thread p = NoThread → rtc proc_step (startThread p []) p' → sys p' = sys p.
Proof.
  intros Hreg Hth. enough (H : rtc proc_step (startThread p []) p' → deaf p' ∧ sys p' = sys p ∧ main p' = Owner []) by (intros; by apply H).
  unfold startThread. rewrite Hth. cbn [joinable]. revert p'. apply rtc_ind_r; [done|].
  intros p1 p2 _ [p2' _ E|r p2' _ Hk E] (Hd & Hsys & Hm); [by unfold main_step in E; rewrite Hm in E|].
  destruct (deaf_worker r p1 p2' Hd Hk E) as [Hd' Hsys']. destruct (worker_step_main r p1 p2' E) as [Hm' _].
  split_and!; [done|congruence|congruence].
Qed.

(** ** Running a schedule *)

(** [None] is a step of the owner, [Some r] one of the thread. *)
Definition take_step (m : option wait_result) (p : Process) : option Process :=
  if decide (state p = Alive) then
    match m with
    | None => main_step p
    | Some r =>
        match m_thread p with
        | Polling => if lawful_waitb cfg date os_send (sys p) r then worker_step r p else None
        | _ => worker_step r p
        end
    end
  else None.

Definition run_schedule (p : Process) (ms : list (option wait_result)) : option Process :=
  foldl (λ o m, o ≫= take_step m) (Some p) ms.

Lemma take_step_sound m p p' : take_step m p = Some p' → proc_step p p'.
Proof.
  unfold take_step. destruct (decide _) as [Ha|]; [|done]. destruct m as [r|]; [|by apply by_main].
  destruct (m_thread p) eqn:E; try (intros H; apply (by_worker p r p' Ha); [by unfold kernel_ok; rewrite E|done]).
  destruct (lawful_waitb cfg date os_send (sys p) r) eqn:El; [|done]. intros H. apply (by_worker p r p' Ha); [|done].
  intros _. destruct (lawful_waitsb_spec cfg date os_send (sys p) [r]) as [Hr _]; [|exact Hr].
  cbn [lawful_waitsb]. rewrite El. by destruct (onThread_turn cfg date os_send (sys p) r).
Qed.

Lemma run_schedule_sound ms p p' : run_schedule p ms = Some p' → rtc proc_step p p'.
Proof.
  revert p. induction ms as [|m ms IH]; intros p; [by intros [= <-]|]. unfold run_schedule. cbn [foldl mbind option_bind].
  destruct (take_step m p) as [p1|] eqn:E; [|].
  - intros H. eapply rtc_l; [by apply (take_step_sound m)|]. by apply IH.
  - intros H. exfalso. revert H. clear. by induction ms.
Qed.
End life.

(** A port, a client that connects and sends part of a request, and the end of the server: its connection is still open. *)
Definition life_schedule : list (option wait_result) :=
  [None; None; Some WaitNothing; Some turn_accept; Some WaitNothing; None; Some WaitNothing; Some WaitNothing; None; None].

Definition demo_life : option (Process (Kernel := unit)) :=
  run_schedule echo_config [] send_13 (Process_init tt (usage [3%Z])) life_schedule.

Lemma server_thread_lifecycle_witness :
  ∃ p, demo_life = Some p ∧ state p = Destroyed ∧ closed p = [3%Z] ∧
    is_Some (m_connections (http (sys p)) !! 7%Z) ∧ (EvClose 7 ∉ log (world (http (sys p)))).
Proof.
  destruct demo_life as [p|] eqn:E; [|vm_compute in E; discriminate]. exists p.
  pose proof (run_schedule_sound echo_config [] send_13 life_schedule _ p E) as Hr.
  destruct (server_thread_lifecycle echo_config [] send_13 tt [3%Z] p (NoDup_singleton _) Hr) as (_ & _ & _ & _ & Hgone & _).
  assert (Hd : state p = Destroyed) by (vm_compute in E; injection E as <-; reflexivity).
  destruct (Hgone Hd) as (_ & Hc & _).
  split; [reflexivity|]. split; [exact Hd|]. split; [exact Hc|]. clear Hr Hgone Hd Hc. vm_compute in E. injection E as <-.
  split; [vm_compute; eexists; reflexivity|]. vm_compute. intros H. inversion H as [|? ? ? H']. inversion H'.
Defined.
