(* ===== verification/FileServer.v ===== *)
(** * The file server

    ext/http/server/file_http_server.h: the handler that serves the files of the working
    directory, and its endpoint.  The file system and the allocator are parameters: what opening a name for
    reading answers, a directory being a name that can be opened, where the stream then says its
    end is, and what reading from its beginning gives. *)
From S2P Require Export HttpServer.

(** An open stream: what [tellg] answers at its end, negative when it fails, and the bytes that reading from the beginning gives
    before it ends or fails. *)
Record OpenFile := MkOpenFile { told : Z; readable : bytes }.

(** How [FileGetSuccess] ends: false, true with the content, or an exception. *)
Inductive file_result := NotFound | Found (content : bytes) | Throws.

Section files.
Context (open_file : bytes → option OpenFile) (allocate : Z → bool).

Definition CONTENT_TYPE : bytes := B "Content-Type".
Definition CONTENT_TYPE_TEXT : bytes := B "text/plain".
Definition root_endpt_ : bytes := B "/".

Definition mime_types_ : list (bytes * bytes) :=
  [(B "css", B "text/css"); (B "png", B "image/png"); (B "js", B "text/javascript"); (B "htm", B "text/html");
   (B "html", B "text/html"); (B "json", B "application/json"); (B "txt", B "text/plain"); (B "jpg", B "image/jpeg");
   (B "jpeg", B "image/jpeg")].

(** The text behind the last dot, or all of it. *)
Fixpoint after_last_dot (s : bytes) : bytes :=
  match s with
  | [] => []
  | c :: s' => if existsb (ceq ".") s' then after_last_dot s' else if ceq c "." then s' else s
  end.

Definition GetMimeContentType (filename : bytes) : bytes :=
  match om_find (after_last_dot filename) mime_types_ with
  | Some t => t
  | None => CONTENT_TYPE_TEXT
  end.

(** [None]: [back] of an empty text. *)
Definition GetFileName (name : bytes) : option bytes :=
  last ← list.last name;
  let name := if ceq last "/" then take (length name - 1) name else name in
  Some (if existsb (ceq ".") name then name else name ++ B "/index.html").

(** [result.resize(size)] of an empty vector: a negative size becomes one that no vector can have. *)
Definition resize (size : Z) : option bytes :=
  if (size <? 0)%Z then None else if allocate size then Some (replicate (Z.to_nat size) NUL) else None.

(** [file.read(result.data(), size)]: what cannot be read stays as it was. *)
Definition read_into (result : bytes) (file : OpenFile) : bytes :=
  let got := take (length result) (readable file) in got ++ drop (length got) result.

Definition FileGetSuccess (filename : bytes) : file_result :=
  match open_file filename with
  | None => NotFound
  | Some file =>
      let size := told file in
      if negb (size =? 0)%Z then
        match resize size with
        | Some result => Found (read_into result file)
        | None => Throws
        end
      else Found []
  end.

(** A found file, or 404; [None] when reading the file throws.  The callback is only called for URIs that start with
    the root, which are not empty ([root_has_name]). *)
Definition ServeFile : CallbackFunction := λ req resp,
  match GetFileName (uri req) with
  | None => None
  | Some f =>
      let filename := cstr (tail f) in
      match FileGetSuccess filename with
      | Found content =>
          let headers := om_set CONTENT_TYPE (GetMimeContentType filename) (resp_headers resp) in
          Some (200%Z, MkHttpResponse 200 (getDefaultResponseMessage 200) headers content)
      | NotFound =>
          let headers := om_set CONTENT_TYPE CONTENT_TYPE_TEXT (resp_headers resp) in
          let message := getDefaultResponseMessage 404 in
          Some (404%Z, MkHttpResponse 404 message headers message)
      | Throws => None
      end
  end.

Definition InitializeFileEndpoint (server : ServerConfig) : ServerConfig :=
  assign_slot (Some ServeFile) (handler_slot root_endpt_ server).

(** ** What is opened *)

Definition strip_slash (p : bytes) : bytes :=
  match list.last p with
  | Some c => if ceq c "/" then take (length p - 1) p else p
  | None => p
  end.

(** The file for the path behind the root: itself, without a last slash, or the index of the
    directory its name stands for when it holds no dot. *)
Definition file_of (p : bytes) : bytes :=
  match p with
  | [] => B "index.html"
  | _ => let q := strip_slash p in if existsb (ceq ".") q then q else q ++ B "/index.html"
  end.

Lemma root_has_name u : handler_matches u root_endpt_ = true → is_Some (GetFileName u).
Proof.
  unfold handler_matches. destruct u as [|c u]; [done|]. intros _. unfold GetFileName.
  destruct (list.last (c :: u)) as [x|] eqn:E; [by eexists|]. by apply list.last_None in E.
Qed.

Lemma GetFileName_path p : GetFileName (B "/" ++ p) = Some (B "/" ++ file_of p).
Proof.
  destruct p as [|c p]; [done|]. unfold GetFileName, file_of, strip_slash.
  change (B "/" ++ c :: p) with ("/"%char :: c :: p). rewrite list.last_cons_cons.
  destruct (list.last (c :: p)) as [x|] eqn:E; [|by apply list.last_None in E]. cbn [mbind option_bind].
  replace (length ("/"%char :: c :: p) - 1) with (S (length p)) by done.
  replace (length (c :: p) - 1) with (length p) by (simpl; lia).
  destruct (ceq x "/").
  - change (take (S (length p)) ("/"%char :: c :: p)) with ("/"%char :: take (length p) (c :: p)).
    set (q := take (length p) (c :: p)). cbn [existsb]. change (ceq "." "/") with false. cbn [orb].
    by destruct (existsb _ q).
  - change (existsb (ceq ".") ("/"%char :: c :: p)) with (existsb (ceq ".") (c :: p)). by destruct (existsb _ _).
Qed.

(** ** What is answered *)

(** The status, the headers and the body for a path; [k] says whether the connection stays open. *)
Definition file_response (cfg : ServerConfig) (date : bytes) (k : bool) (path : bytes) (file : option bytes) : HttpResponse :=
  let answer code message type body :=
    MkHttpResponse code (B message)
      [(B "Connection", if k then B "keep-alive" else B "close"); (B "Content-Length", to_string (Z.of_nat (length body)));
       (CONTENT_TYPE, type); (B "Date", date); (B "Host", m_serverHost cfg)] body in
  match file with
  | Some content => answer 200%Z "OK"%string (GetMimeContentType (file_of path)) content
  | None => answer 404%Z "Not Found"%string CONTENT_TYPE_TEXT (B "Not Found")
  end.

Lemma run_handlers_skip hs h req resp :
  Forall (λ h, handler_matches (uri req) h.1 = false) hs → run_handlers (hs ++ [h]) req resp = run_handlers [h] req resp.
Proof.
  induction 1 as [|[root o] hs Hn _ IH]; [done|]. cbn [app run_handlers]. cbn [fst] in Hn. rewrite Hn. exact IH.
Qed.

(** What the handler makes of a path. *)
Definition file_found (path : bytes) : option (option bytes) :=
  match FileGetSuccess (file_of path) with NotFound => Some None | Found content => Some (Some content) | Throws => None end.

Lemma file_processing cfg date c path :
  uri (request c) = B "/" ++ path → no_nul (file_of path) → resp_code (response c) = 0%Z →
  Forall (λ h, handler_matches (uri (request c)) h.1 = false) (m_handlers cfg) →
  processRequest (InitializeFileEndpoint cfg) date c =
    (λ file, set_response c (file_response cfg date (keepalive c) path file)) <$> file_found path.
Proof.
  intros Hu Hn Hc Hh. unfold processRequest, InitializeFileEndpoint. rewrite assign_handler_slot.
  cbn [resp_code]. rewrite Hc. cbn [Z.eqb m_handlers addHandler push_handler].
  rewrite run_handlers_skip by done. cbn [run_handlers].
  assert (Hm : handler_matches (uri (request c)) root_endpt_ = true) by (rewrite Hu; done).
  rewrite Hm. cbn [onHttpRequest]. unfold ServeFile. rewrite Hu, GetFileName_path.
  change (tail (B "/" ++ file_of path)) with (file_of path). rewrite cstr_id by done. unfold file_found, file_response.
  destruct (FileGetSuccess (file_of path)) as [|content|]; reflexivity.
Qed.

(** A regular file is read whole. *)
Lemma regular_found path content :
  open_file (file_of path) = Some (MkOpenFile (Z.of_nat (length content)) content) →
  content = [] ∨ allocate (Z.of_nat (length content)) = true → file_found path = Some (Some content).
Proof.
  intros Ho Ha. unfold file_found, FileGetSuccess. rewrite Ho. cbn [told].
  destruct (Z.eqb_spec (Z.of_nat (length content)) 0) as [E|E]; cbn [negb]; [by destruct content|].
  destruct Ha as [->|Ha]; [done|]. unfold resize. rewrite (proj2 (Z.ltb_ge _ _)) by lia. rewrite Ha, Nat2Z.id.
  unfold read_into. cbn [readable]. by rewrite length_replicate, firstn_all, drop_ge, app_nil_r by by rewrite length_replicate.
Qed.

(** The text of the answer. *)
Definition file_answer (cfg : ServerConfig) (date : bytes) (k : bool) (path : bytes) (file : option bytes) : bytes :=
  let r := file_response cfg date k path file in
  B "HTTP/1.1 " ++ to_string (resp_code r) ++ B " " ++ resp_message r ++ CRLF_chars
    ++ (resp_headers r ≫= λ '(k, v), k ++ B ": " ++ v ++ CRLF_chars) ++ CRLF_chars ++ resp_body r.

Lemma sent_bytes_events {Kernel} fd (k : Kernel) b : sent_bytes fd (MkWorld k (sent_events fd b)) = b.
Proof. destruct b as [|a b]; [done|]. unfold sent_bytes. cbn. by rewrite decide_True, app_nil_r. Qed.

Lemma word_no_nul stops s : scans stops s → no_nul s.
Proof.
  intros H. eapply list.Forall_impl; [exact H|]. intros c Hc ->. unfold scan in Hc. by rewrite ceq_refl in Hc.
Qed.

Lemma file_of_no_nul p : no_nul p → no_nul (file_of p).
Proof.
  intros H. unfold file_of. destruct p as [|c p]; [by apply no_nulb_spec|].
  assert (Hq : no_nul (strip_slash (c :: p))).
  { unfold strip_slash. destruct (list.last _); [|done]. destruct (ceq _ _); [|done]. by apply list.Forall_take. }
  destruct (existsb _ _); [done|]. apply list.Forall_app. split; [done|by apply no_nulb_spec].
Qed.

(** The requests and servers that the exchange is about: a GET for a path behind no other handler, printed with
    headers within the limit and without a body, in the buffer of an idle connection; a kernel that sends what it is given. *)
Record file_request {Kernel} (os_send : Kernel → Z → bytes → Z * bool * Kernel) (cfg : ServerConfig) (fd : Z) (c : Connection)
    (path : bytes) (fs : list (bytes * bytes)) : Prop := MkFileRequest {
  fr_path : word_ok path;
  fr_fields : Forall field_ok fs;
  fr_limit : length (print_head (B "GET") (B "/" ++ path) (B "HTTP/1.1") fs) ≤ m_maxRequestHeadersSize cfg + 4;
  fr_content : (0 ≤ m_maxRequestContentSize cfg)%Z;
  fr_no_length : om_find (B "Content-Length") (collect [] fs) = None;
  fr_no_connection : om_find (B "Connection") (collect [] fs) = None;
  fr_no_expect : om_find (B "Expect") (collect [] fs) = None;
  fr_handlers : Forall (λ h, handler_matches (B "/" ++ path) h.1 = false) (m_handlers cfg);
  fr_kernel : ∀ k b, os_send k fd b = (Z.of_nat (length b), false, k);
  fr_state : state c = Idle;
  fr_buffer : receiveBuffer c = print_head (B "GET") (B "/" ++ path) (B "HTTP/1.1") fs;
}.

(** The exchange, whatever the handler makes of the path. *)
Lemma exchange_of_found {Kernel} (os_send : Kernel → Z → bytes → Z * bool * Kernel) cfg date fd c k path fs fuel :
  file_request os_send cfg fd c path fs →
  match file_found path with
  | Some file => ∃ c' w', handleConnection (InitializeFileEndpoint cfg) date os_send (S fuel) fd c (MkWorld k []) = Some (Done c' w') ∧
      sent_bytes fd w' = file_answer cfg date true path file ∧ state c' = (if allowKeepalive cfg then Idle else Closing)
  | None => handleConnection (InitializeFileEndpoint cfg) date os_send (S fuel) fd c (MkWorld k []) = Some Fault
  end.
Proof.
  intros [Hp Hfs Hhl Hmax Hcl Hcn Hex Hh Hk Hs Hrb]. set (server := InitializeFileEndpoint cfg).
  set (req := MkHttpRequest (client (request c)) (B "GET") (B "/" ++ path) (B "HTTP/1.1") (collect [] fs) []).
  assert (Hka : wants_keepalive req = true) by (unfold wants_keepalive; cbn [req_headers req]; by rewrite Hcn).
  assert (Hlen : content_length_of req = 0%Z) by (unfold content_length_of; cbn [req_headers req]; by rewrite Hcl).
  assert (Hrec : ∀ w, handleConnection server date os_send (S fuel) fd c w =
    match run_blocks (from_state server date os_send fd Processing) (ready_to_process c req) w with
    | Again c w => handleConnection server date os_send fuel fd c w
    | r => Some r
    end).
  { intros w. cbn [handleConnection]. rewrite run_from_state, Hs.
    rewrite (receive_printed server date os_send fd c _ (B "GET") (B "/" ++ path) (B "HTTP/1.1") fs []); try done.
    + by apply scans_check.
    + by apply list.Forall_cons.
    + by apply scans_check.
    + by rewrite app_nil_r. }
  pose proof (file_processing cfg date (ready_to_process c req) path eq_refl
    (file_of_no_nul _ (word_no_nul _ _ Hp)) eq_refl Hh) as Hproc.
  destruct (file_found path) as [file|]; cbn [fmap option_fmap option_map] in Hproc.
  - destruct (respond_all server date os_send fd (ready_to_process c req) k [] _ Hk eq_refl eq_refl eq_refl Hproc)
      as (c' & Hrun & _ & Hs').
    change (keepalive (ready_to_process c req)) with (wants_keepalive req) in *. rewrite Hka in *. cbn [andb] in *.
    set (c1 := set_response _ _) in *. eexists c', _. split; [|split; [|exact Hs']].
    + by rewrite Hrec, Hrun.
    + rewrite app_nil_l. change (EvRequest ?a ?b :: ?l) with ([EvRequest a b] ++ l). rewrite !sent_bytes_app, !sent_bytes_events.
      destruct (allowKeepalive server); unfold sent_bytes at 1 2; cbn [log mbind list_bind app]; rewrite ?app_nil_r.
      all: unfold response_text, file_answer; rewrite <-!(assoc_L (++)); reflexivity.
  - rewrite Hrec. cbn [from_state loop_body drop]. rewrite (run_blocks_eq Processing) by done. unfold processing_block.
    fold server in Hproc. by rewrite Hproc.
Qed.

(** C24: A client that asks for a path gets the file of that name with its type and length: whole when it is a regular
    file, filled up with NULs when less can be read than the stream said; and 404 when it cannot be opened.  When the stream does
    not know its end, or more than can be allocated is said to be there - a directory can be opened and is told to be
    as long as an integer can say - an exception leaves the handler and the server's thread.  The name
    is the path as it was sent: a path that climbs out of the directory with dots is opened like any other. *)
Theorem file_exchange {Kernel} (os_send : Kernel → Z → bytes → Z * bool * Kernel) cfg date fd c k path fs fuel :
  file_request os_send cfg fd c path fs →
  let result := handleConnection (InitializeFileEndpoint cfg) date os_send (S fuel) fd c (MkWorld k []) in
  let answered file := ∃ c' w', result = Some (Done c' w') ∧ sent_bytes fd w' = file_answer cfg date true path file ∧
    state c' = (if allowKeepalive cfg then Idle else Closing) in
  (open_file (file_of path) = None → answered None) ∧
  (∀ content, open_file (file_of path) = Some (MkOpenFile (Z.of_nat (length content)) content) →
     content = [] ∨ allocate (Z.of_nat (length content)) = true → answered (Some content)) ∧
  (∀ file, open_file (file_of path) = Some file → (0 < told file)%Z → allocate (told file) = true →
     answered (Some (take (Z.to_nat (told file)) (readable file) ++ replicate (Z.to_nat (told file) - length (readable file)) NUL))) ∧
  (∀ file, open_file (file_of path) = Some file →
     (told file < 0 ∨ 0 < told file ∧ allocate (told file) = false)%Z → result = Some Fault).
Proof.
  intros Hr result answered. pose proof (exchange_of_found os_send cfg date fd c k path fs fuel Hr) as H. split; [|split; [|split]].
  - intros Ho. unfold file_found, FileGetSuccess in H. by rewrite Ho in H.
  - intros content Ho Ha. by rewrite (regular_found path content Ho Ha) in H.
  - intros file Ho Ht Ha. unfold file_found, FileGetSuccess, resize in H. rewrite Ho, Ha in H.
    rewrite (proj2 (Z.eqb_neq _ _)), (proj2 (Z.ltb_ge _ _)) in H by lia. cbn [negb] in H. unfold read_into in H.
    rewrite length_replicate, length_take, drop_replicate in H.
    by replace (Z.to_nat (told file) - Z.to_nat (told file) `min` length (readable file))
      with (Z.to_nat (told file) - length (readable file)) in H by lia.
  - intros file Ho Ht. unfold file_found, FileGetSuccess, resize in H. rewrite Ho in H.
    rewrite (proj2 (Z.eqb_neq _ _)) in H by lia. cbn [negb] in H. destruct Ht as [Ht|[Ht Ha]].
    + by rewrite (proj2 (Z.ltb_lt _ _)) in H by lia.
    + by rewrite (proj2 (Z.ltb_ge _ _)), Ha in H by lia.
Qed.
End files.

(** ** A directory to serve, on a machine of a tebibyte *)
Definition regular_file (content : bytes) : OpenFile := MkOpenFile (Z.of_nat (length content)) content.

Definition demo_files (name : bytes) : option OpenFile :=
  if beq name (B "docs/index.html") then Some (regular_file (B "<p>"))
  else if beq name (B "../secret.txt") then Some (regular_file (B "top"))
  else if beq name (B "..") then Some (MkOpenFile (2 ^ 63 - 1) [])
  else None.

Definition demo_memory (n : Z) : bool := (n <? 2 ^ 40)%Z.

Definition demo_connection (path : bytes) : Connection :=
  set_receiveBuffer Connection_new (print_head (B "GET") (B "/" ++ path) (B "HTTP/1.1") []).

Lemma demo_request path :
  forallb (λ c, scan (B " " ++ CRLF_chars) c) path = true → (length (print_head (B "GET") (B "/" ++ path) (B "HTTP/1.1") []) <=? 8196) = true →
  file_request send_all HttpServer_default 7 (demo_connection path) path [].
Proof.
  intros Hp Hl. split; try done.
  - by apply scans_check.
  - by apply Nat.leb_le.
  - by intros [].
Qed.

Lemma file_exchange_witness :
  let server := InitializeFileEndpoint demo_files demo_memory HttpServer_default in
  let serve path := handleConnection server (B "now") send_all 1 7 (demo_connection path) (MkWorld tt []) in
  (∃ c' w', serve (B "../secret.txt") = Some (Done c' w') ∧
    sent_bytes 7 w' = file_answer HttpServer_default (B "now") true (B "../secret.txt") (Some (B "top"))) ∧
  serve (B "../") = Some Fault.
Proof.
  cbv zeta. split.
  - destruct (file_exchange demo_files demo_memory send_all HttpServer_default (B "now") 7 (demo_connection (B "../secret.txt")) tt
      (B "../secret.txt") [] 0 (demo_request (B "../secret.txt") eq_refl eq_refl)) as (_ & H & _).
    destruct (H (B "top") eq_refl (or_intror eq_refl)) as (c' & w' & H1 & H2 & _). exists c', w'. exact (conj H1 H2).
  - destruct (file_exchange demo_files demo_memory send_all HttpServer_default (B "now") 7 (demo_connection (B "../")) tt
      (B "../") [] 0 (demo_request (B "../") eq_refl eq_refl)) as (_ & _ & _ & H).
    exact (H (MkOpenFile (2 ^ 63 - 1) []) eq_refl (or_intror (conj eq_refl eq_refl))).
Defined.
