(* ===== verification/Attributes.v ===== *)
(** * Attributes

    sdk/common/attribute_utils.h and attributemap_hash.h: values that own their data, the
    conversion to them, comparison of the two kinds, the two maps of attributes and the hash of a
    map.  A double is its 64 bits; [std::hash] is a parameter. *)
From S2P Require Export OrderedMap.

(** ** Values

    What the API passes: views and pointers.  A C string is the memory from its first character. *)
Inductive AttributeValue :=
  | AV_bool (b : bool)
  | AV_int32 (z : Z)
  | AV_int64 (z : Z)
  | AV_uint32 (z : Z)
  | AV_double (bits : Z)
  | AV_cstr (s : bytes)
  | AV_string (s : bytes)
  | AV_span_bool (l : list bool)
  | AV_span_int32 (l : list Z)
  | AV_span_int64 (l : list Z)
  | AV_span_uint32 (l : list Z)
  | AV_span_double (l : list Z)
  | AV_span_string (l : list bytes)
  | AV_uint64 (z : Z)
  | AV_span_uint64 (l : list Z)
  | AV_span_uint8 (l : list Z).

Inductive OwnedAttributeValue :=
  | OV_bool (b : bool)
  | OV_int32 (z : Z)
  | OV_uint32 (z : Z)
  | OV_int64 (z : Z)
  | OV_double (bits : Z)
  | OV_string (s : bytes)
  | OV_vec_bool (l : list bool)
  | OV_vec_int32 (l : list Z)
  | OV_vec_uint32 (l : list Z)
  | OV_vec_int64 (l : list Z)
  | OV_vec_double (l : list Z)
  | OV_vec_string (l : list bytes)
  | OV_uint64 (z : Z)
  | OV_vec_uint64 (l : list Z)
  | OV_vec_uint8 (l : list Z).

#[export] Instance OwnedAttributeValue_eq_dec : EqDecision OwnedAttributeValue.
Proof. solve_decision. Defined.

Definition AttributeConverter (v : AttributeValue) : OwnedAttributeValue :=
  match v with
  | AV_bool b => OV_bool b
  | AV_int32 z => OV_int32 z
  | AV_int64 z => OV_int64 z
  | AV_uint32 z => OV_uint32 z
  | AV_double d => OV_double d
  | AV_cstr s => OV_string (cstr s)
  | AV_string s => OV_string s
  | AV_span_bool l => OV_vec_bool l
  | AV_span_int32 l => OV_vec_int32 l
  | AV_span_int64 l => OV_vec_int64 l
  | AV_span_uint32 l => OV_vec_uint32 l
  | AV_span_double l => OV_vec_double l
  | AV_span_string l => OV_vec_string l
  | AV_uint64 z => OV_uint64 z
  | AV_span_uint64 l => OV_vec_uint64 l
  | AV_span_uint8 l => OV_vec_uint8 l
  end.

(** [==] on doubles, by their bits: a NaN differs from itself, the two zeros are equal. *)
Definition is_nan (bits : Z) : bool := (2047 * 2 ^ 52 <? bits mod 2 ^ 63)%Z.
Definition double_eq (a b : Z) : bool :=
  negb (is_nan a) && negb (is_nan b) && ((a =? b)%Z || ((a mod 2 ^ 63 =? 0)%Z && (b mod 2 ^ 63 =? 0)%Z)).

(** [size() == size() && std::equal(...)] *)
Fixpoint equal_seq {A} (eq : A → A → bool) (l l' : list A) : bool :=
  match l, l' with
  | [], [] => true
  | x :: l, y :: l' => eq x y && equal_seq eq l l'
  | _, _ => false
  end.

Definition AttributeEqualToVisitor (owned : OwnedAttributeValue) (v : AttributeValue) : bool :=
  match owned, v with
  | OV_bool a, AV_bool b => Bool.eqb a b
  | OV_int32 a, AV_int32 b | OV_uint32 a, AV_uint32 b | OV_int64 a, AV_int64 b | OV_uint64 a, AV_uint64 b => (a =? b)%Z
  | OV_double a, AV_double b => double_eq a b
  | OV_string a, AV_cstr b => beq a (cstr b)
  | OV_string a, AV_string b => beq a b
  | OV_vec_string a, AV_span_string b => equal_seq beq a b
  | OV_vec_bool a, AV_span_bool b => equal_seq Bool.eqb a b
  | OV_vec_int32 a, AV_span_int32 b | OV_vec_uint32 a, AV_span_uint32 b | OV_vec_int64 a, AV_span_int64 b
  | OV_vec_uint64 a, AV_span_uint64 b | OV_vec_uint8 a, AV_span_uint8 b => equal_seq Z.eqb a b
  | OV_vec_double a, AV_span_double b => equal_seq double_eq a b
  | _, _ => false
  end.

(** ** Maps

    What is iterated is a list of keys and values; its [size] is its length. *)
Abbreviation KeyValues := (list (bytes * AttributeValue)).

(** [ForEachKeyValue] stops at the first callback that answers false. *)
Fixpoint ForEachKeyValue {S} (callback : S → bytes → AttributeValue → S * bool) (s : S) (kvs : KeyValues) : S * bool :=
  match kvs with
  | [] => (s, true)
  | (k, v) :: kvs => let '(s, go_on) := callback s k v in if go_on : bool then ForEachKeyValue callback s kvs else (s, false)
  end.

Abbreviation AttributeMap := (gmap bytes OwnedAttributeValue).

Definition SetAttribute (m : AttributeMap) (key : bytes) (value : AttributeValue) : AttributeMap :=
  <[key := AttributeConverter value]> m.

Definition AttributeMap_of (attributes : KeyValues) : AttributeMap :=
  (ForEachKeyValue (λ m k v, (SetAttribute m k v, true)) ∅ attributes).1.

Definition EqualTo (m : AttributeMap) (attributes : KeyValues) : bool :=
  if negb (length attributes =? size m) then false
  else
    (ForEachKeyValue (λ s k v, (s, match m !! k with Some o => AttributeEqualToVisitor o v | None => false end)) tt attributes).2.

Abbreviation OrderedAttributeMap := (list (bytes * OwnedAttributeValue)).

Definition Ordered_SetAttribute (m : OrderedAttributeMap) (key : bytes) (value : AttributeValue) : OrderedAttributeMap :=
  om_set key (AttributeConverter value) m.

Definition OrderedAttributeMap_of (attributes : KeyValues) : OrderedAttributeMap :=
  (ForEachKeyValue (λ m k v, (Ordered_SetAttribute m k v, true)) [] attributes).1.

(** ** The hash of a map

    [std::hash] for each type of value, on 64 bits. *)
Inductive hashable :=
  | H_bool (b : bool) | H_int32 (z : Z) | H_uint32 (z : Z) | H_int64 (z : Z) | H_uint64 (z : Z) | H_uint8 (z : Z)
  | H_double (bits : Z) | H_string (s : bytes) | H_char (c : ascii).

Section hash.
Context (hasher : hashable → Z).

Definition u64 (z : Z) : Z := (z mod 2 ^ 64)%Z.

Definition GetHash (seed : Z) (arg : hashable) : Z :=
  u64 (Z.lxor seed (u64 (u64 (u64 (hasher arg + 2654435769) + u64 (Z.shiftl seed 6)) + Z.shiftr seed 2))).

Definition GetHash_vector (seed : Z) (l : list hashable) : Z := foldl GetHash seed l.

Definition GetHashForAttributeValue (seed : Z) (v : OwnedAttributeValue) : Z :=
  match v with
  | OV_bool b => GetHash seed (H_bool b)
  | OV_int32 z => GetHash seed (H_int32 z)
  | OV_uint32 z => GetHash seed (H_uint32 z)
  | OV_int64 z => GetHash seed (H_int64 z)
  | OV_double d => GetHash seed (H_double d)
  | OV_string s => GetHash seed (H_string s)
  | OV_vec_bool l => GetHash_vector seed (H_bool <$> l)
  | OV_vec_int32 l => GetHash_vector seed (H_int32 <$> l)
  | OV_vec_uint32 l => GetHash_vector seed (H_uint32 <$> l)
  | OV_vec_int64 l => GetHash_vector seed (H_int64 <$> l)
  | OV_vec_double l => GetHash_vector seed (H_double <$> l)
  | OV_vec_string l => GetHash_vector seed (H_string <$> l)
  | OV_uint64 z => GetHash seed (H_uint64 z)
  | OV_vec_uint64 l => GetHash_vector seed (H_uint64 <$> l)
  | OV_vec_uint8 l => GetHash_vector seed (H_uint8 <$> l)
  end.

Definition GetHashForAttributeMap (m : OrderedAttributeMap) : Z :=
  foldl (λ seed kv, GetHashForAttributeValue (GetHash seed (H_string kv.1)) kv.2) 0%Z m.
End hash.

(** ** What a map built from attributes holds *)

Lemma ForEachKeyValue_all {S} (f : S → bytes → AttributeValue → S) s kvs :
  ForEachKeyValue (λ s k v, (f s k v, true)) s kvs = (foldl (λ s kv, f s kv.1 kv.2) s kvs, true).
Proof. revert s. induction kvs as [|[k v] kvs IH]; intros s; [done|]. cbn [ForEachKeyValue foldl fst snd]. apply IH. Qed.

Lemma ForEachKeyValue_test (p : bytes → AttributeValue → bool) kvs :
  (ForEachKeyValue (λ s k v, (s, p k v)) tt kvs).2 = forallb (λ kv, p kv.1 kv.2) kvs.
Proof.
  induction kvs as [|[k v] kvs IH]; [done|]. cbn [ForEachKeyValue forallb fst snd]. by destruct (p k v).
Qed.

(** The last value given for a key. *)
Definition last_value (k : bytes) (kvs : KeyValues) : option OwnedAttributeValue :=
  foldl (λ o kv, if beq k kv.1 then Some (AttributeConverter kv.2) else o) None kvs.

Lemma AttributeMap_of_lookup kvs k : AttributeMap_of kvs !! k = last_value k kvs.
Proof.
  unfold AttributeMap_of. rewrite ForEachKeyValue_all. cbn [fst].
  induction kvs as [|[k' v] kvs IH] using rev_ind; [done|]. unfold last_value in *. rewrite !foldl_snoc, <-IH.
  unfold SetAttribute. cbn [fst snd]. destruct (beq k k') eqn:E.
  - apply beq_true in E as ->. by rewrite lookup_insert_eq.
  - apply beq_false in E. by rewrite lookup_insert_ne.
Qed.

Lemma OrderedAttributeMap_of_find kvs k : om_find k (OrderedAttributeMap_of kvs) = last_value k kvs.
Proof.
  unfold OrderedAttributeMap_of. rewrite ForEachKeyValue_all. cbn [fst].
  induction kvs as [|[k' v] kvs IH] using rev_ind; [done|]. unfold last_value in *. rewrite !foldl_snoc, <-IH.
  unfold Ordered_SetAttribute. by rewrite om_find_set.
Qed.

Lemma OrderedAttributeMap_of_wf kvs : om_wf (OrderedAttributeMap_of kvs).
Proof.
  unfold OrderedAttributeMap_of. rewrite ForEachKeyValue_all. cbn [fst].
  induction kvs as [|[k' v] kvs IH] using rev_ind; [done|]. rewrite foldl_snoc. by apply om_set_wf.
Qed.

(** Two lists of attributes in which every key has the same last value give the same ordered map,
    and so the same hash. *)
Lemma OrderedAttributeMap_of_ext kvs kvs' :
  (∀ k, last_value k kvs = last_value k kvs') → OrderedAttributeMap_of kvs = OrderedAttributeMap_of kvs'.
Proof.
  intros H. apply om_ext; [apply OrderedAttributeMap_of_wf..|]. intros k. by rewrite !OrderedAttributeMap_of_find.
Qed.

(** ** Comparing *)

(** The comparison on owned values: equality, but for doubles. *)
Definition owned_eq (o o' : OwnedAttributeValue) : bool :=
  match o, o' with
  | OV_double a, OV_double b => double_eq a b
  | OV_vec_double a, OV_vec_double b => equal_seq double_eq a b
  | _, _ => bool_decide (o = o')
  end.

Lemma equal_seq_on {A} (eq : A → A → bool) (p : A → bool) :
  (∀ a b, p a = true → p b = true → eq a b = true ↔ a = b) →
  ∀ l l', forallb p l = true → forallb p l' = true → equal_seq eq l l' = true ↔ l = l'.
Proof.
  intros H. induction l as [|x l IH]; intros [|y l']; cbn [equal_seq forallb]; [done..|].
  intros [Hx Hl]%andb_true_iff [Hy Hl']%andb_true_iff. rewrite andb_true_iff, H, IH by done. naive_solver.
Qed.

Lemma equal_seq_spec {A} (eq : A → A → bool) l l' :
  (∀ a b, eq a b = true ↔ a = b) → equal_seq eq l l' = true ↔ l = l'.
Proof.
  intros H. apply (equal_seq_on eq (λ _, true)); [by intros; apply H|apply forallb_Forall, list.Forall_true; done..].
Qed.

Lemma bool_of_iff (a : bool) (P : Prop) `{Decision P} : (a = true ↔ P) → a = bool_decide P.
Proof. intros HP. apply eq_bool_prop_intro. rewrite bool_decide_spec, <-HP. by destruct a; simpl; split. Qed.

Lemma visitor_owned_eq o v : AttributeEqualToVisitor o v = owned_eq o (AttributeConverter v).
Proof.
  destruct o, v; cbn [AttributeEqualToVisitor AttributeConverter owned_eq]; try reflexivity;
    apply bool_of_iff; rewrite ?Z.eqb_eq, ?beq_true, ?eqb_true_iff, ?equal_seq_spec; try naive_solver;
    auto using Z.eqb_eq, beq_true, eqb_true_iff.
Qed.

(** The same keys, and equal values. *)
Definition same_attributes (m m' : AttributeMap) : Prop :=
  ∀ k, match m !! k, m' !! k with
       | Some o, Some o' => owned_eq o o' = true
       | None, None => True
       | _, _ => False
       end.

Lemma last_value_in k v kvs : NoDup kvs.*1 → (k, v) ∈ kvs → last_value k kvs = Some (AttributeConverter v).
Proof.
  induction kvs as [|[k' v'] kvs IH] using rev_ind; [by intros _ ?%elem_of_nil|]. unfold last_value in *.
  rewrite fmap_app, foldl_snoc. intros (Hn & Hd & _)%list.NoDup_app [Hin|[= -> ->]%list_elem_of_singleton]%elem_of_app; cbn [fst snd].
  - rewrite (proj2 (beq_false k k')); [by apply IH|]. intros ->. apply (Hd k'); [|apply list_elem_of_here].
    apply list_elem_of_fmap. by exists (k', v).
  - by rewrite beq_refl.
Qed.

Lemma last_value_None k kvs : last_value k kvs = None ↔ k ∉ kvs.*1.
Proof.
  induction kvs as [|[k' v'] kvs IH] using rev_ind; [split; [by intros _ ?%elem_of_nil|done]|]. unfold last_value in *.
  rewrite fmap_app, foldl_snoc, not_elem_of_app. cbn [fst snd fmap list_fmap]. rewrite list_elem_of_singleton.
  destruct (beq k k') eqn:E; [apply beq_true in E; naive_solver|]. apply beq_false in E. rewrite IH. naive_solver.
Qed.

(** Comparing a map with attributes whose keys are distinct says whether the map built from them
    would have the same keys with equal values - doubles compared as doubles. *)
Theorem EqualTo_spec (m : AttributeMap) kvs :
  NoDup kvs.*1 → EqualTo m kvs = true ↔ same_attributes m (AttributeMap_of kvs).
Proof.
  intros Hn. unfold EqualTo. rewrite ForEachKeyValue_test.
  assert (Hall : forallb (λ kv, match m !! kv.1 with Some o => AttributeEqualToVisitor o kv.2 | None => false end) kvs = true ↔
    ∀ k v, (k, v) ∈ kvs → ∃ o, m !! k = Some o ∧ owned_eq o (AttributeConverter v) = true).
  { rewrite forallb_Forall, list.Forall_forall. split.
    - intros H k v Hin. specialize (H (k, v) Hin). cbn [fst snd] in H. destruct (m !! k) as [o|]; [|done].
      exists o. by rewrite <-visitor_owned_eq.
    - intros H [k v] Hin. destruct (H k v Hin) as (o & Ho & He). cbn [fst snd]. by rewrite Ho, visitor_owned_eq. }
  destruct (Nat.eqb_spec (length kvs) (size m)) as [Hs|Hs]; cbn [negb].
  - rewrite Hall. clear Hall. split.
    + intros H k. rewrite AttributeMap_of_lookup. destruct (last_value k kvs) as [o'|] eqn:El.
      * assert (Hin : k ∈ kvs.*1) by (destruct (decide (k ∈ kvs.*1)); [done|]; by rewrite (proj2 (last_value_None k kvs)) in El).
        apply list_elem_of_fmap in Hin as ([k' v] & -> & Hin). cbn [fst] in *. destruct (H k' v Hin) as (o & -> & He).
        rewrite (last_value_in _ v) in El by done. by injection El as <-.
      * apply last_value_None in El. destruct (m !! k) as [o|] eqn:Hk; [|done].
        assert (Hsub : list_to_set kvs.*1 ∪ {[k]} ⊆ dom m).
        { intros x [Hx%elem_of_list_to_set| ->%elem_of_singleton]%elem_of_union; apply elem_of_dom; [|by eexists].
          apply list_elem_of_fmap in Hx as ([k' v] & -> & Hin). destruct (H k' v Hin) as (o' & Ho & _). by exists o'. }
        apply (subseteq_size (C := gset bytes)) in Hsub. rewrite size_dom, size_union in Hsub by set_solver.
        rewrite size_list_to_set, size_singleton, length_fmap in Hsub by done. lia.
    + intros H k v Hin. specialize (H k). rewrite AttributeMap_of_lookup, (last_value_in k v) in H by done.
      destruct (m !! k) as [o|]; [|done]. by exists o.
  - split; [done|]. intros H. exfalso. apply Hs. rewrite <-(length_fmap fst), <-(size_list_to_set (C := gset bytes)) by done.
    rewrite <-(size_dom (D := gset bytes)). f_equal. apply set_eq. intros k. rewrite elem_of_list_to_set, elem_of_dom.
    specialize (H k). rewrite AttributeMap_of_lookup in H. pose proof (last_value_None k kvs) as Hnone.
    destruct (m !! k) as [o|], (last_value k kvs) as [o'|]; try done.
    + split; [by eexists|]. intros _. destruct (decide (k ∈ kvs.*1)) as [?|Hk]; [done|]. by apply Hnone in Hk.
    + split; [|by intros []]. intros Hin. by destruct (proj1 Hnone eq_refl).
Qed.

Lemma EqualTo_spec_witness :
  let kvs := [(B "b", AV_int32 2); (B "a", AV_cstr (B "x" ++ [NUL] ++ B "y"))] in
  NoDup kvs.*1 ∧ same_attributes {[B "a" := OV_string (B "x"); B "b" := OV_int32 2]} (AttributeMap_of kvs).
Proof.
  cbv zeta. set (kvs := [_; _]).
  assert (Hn : NoDup kvs.*1) by (apply (bool_decide_unpack (NoDup kvs.*1)); vm_compute; exact I).
  split; [exact Hn|]. apply (EqualTo_spec _ kvs Hn). vm_compute. reflexivity.
Defined.

(** With a repeated key the sizes agree by accident. *)
Example EqualTo_repeated :
  EqualTo {[B "a" := OV_int32 1; B "b" := OV_int32 2]} [(B "a", AV_int32 1); (B "a", AV_int32 1)] = true.
Proof. vm_compute. reflexivity. Qed.
