(* ===== verification/Scopes.v ===== *)
(** * Instrumentation scopes and their configuration

    sdk/instrumentationscope: the name, version, schema and attributes of an instrumentation library with their hash and
    comparisons, and the configurator that picks the configuration of the first condition a scope meets. *)
From S2P Require Export Attributes.

Section scopes.
Context (hasher : hashable → Z).

(** ** InstrumentationScope *)

Record InstrumentationScope := MkScope {
  scope_name : bytes;
  scope_version : bytes;
  scope_schema_url : bytes;
  scope_hash_code : Z;
  scope_attributes : AttributeMap;
}.

(** The constructor: the hash is of the three texts in a row. *)
Definition Scope_construct (name version schema_url : bytes) (attributes : AttributeMap) : InstrumentationScope :=
  MkScope name version schema_url (hasher (H_string (name ++ version ++ schema_url))) attributes.

Definition Scope_SetAttribute (s : InstrumentationScope) (key : bytes) (value : AttributeValue) : InstrumentationScope :=
  MkScope (scope_name s) (scope_version s) (scope_schema_url s) (scope_hash_code s) (SetAttribute (scope_attributes s) key value).

(** [Create] with a map, and with something that iterates over keys and values. *)
Definition Scope_Create (name version schema_url : bytes) (attributes : AttributeMap) : InstrumentationScope :=
  Scope_construct name version schema_url attributes.

Definition Scope_Create_from (name version schema_url : bytes) (arg : KeyValues) : InstrumentationScope :=
  foldl (λ result argv, Scope_SetAttribute result argv.1 argv.2) (Scope_construct name version schema_url ∅) arg.

(** Comparing unordered maps: as many entries, and each found in the other with an equal value. *)
Definition attributes_eq (m m' : AttributeMap) : bool :=
  (size m =? size m') &&
  forallb (λ kv, match m' !! kv.1 with Some o => owned_eq kv.2 o | None => false end) (map_to_list m).

Definition Scope_eq (s other : InstrumentationScope) : bool :=
  beq (scope_name s) (scope_name other) && beq (scope_version s) (scope_version other) &&
  beq (scope_schema_url s) (scope_schema_url other) && attributes_eq (scope_attributes s) (scope_attributes other).

(** [equal]: [attributes] may be a null pointer. *)
Definition Scope_equal (s : InstrumentationScope) (name version schema_url : bytes) (attributes : option KeyValues) : bool :=
  if negb (beq (scope_name s) name) || negb (beq (scope_version s) version) || negb (beq (scope_schema_url s) schema_url) then false
  else match attributes with
       | None => bool_decide (scope_attributes s = ∅)
       | Some attributes => EqualTo (scope_attributes s) attributes
       end.

(** ** The configurator *)

Section configurator.
Context {T : Type}.

Record Builder := MkBuilder {
  default_scope_config_ : T;
  conditions_ : list ((InstrumentationScope → bool) * T);
}.

Definition Builder_new (default_scope_config : T) : Builder := MkBuilder default_scope_config [].

Definition AddCondition (b : Builder) (scope_matcher : InstrumentationScope → bool) (scope_config : T) : Builder :=
  MkBuilder (default_scope_config_ b) (conditions_ b ++ [(scope_matcher, scope_config)]).

Definition AddConditionNameEquals (b : Builder) (name : bytes) (scope_config : T) : Builder :=
  AddCondition b (λ scope_info, beq (scope_name scope_info) name) scope_config.

(** The loop of the function that [Build] returns. *)
Fixpoint first_match (conditions : list ((InstrumentationScope → bool) * T)) (default_scope_config : T)
    (scope_info : InstrumentationScope) : T :=
  match conditions with
  | [] => default_scope_config
  | (scope_matcher, scope_config) :: conditions =>
      if scope_matcher scope_info then scope_config else first_match conditions default_scope_config scope_info
  end.

Definition Build (b : Builder) : InstrumentationScope → T :=
  match conditions_ b with
  | [] => λ _, default_scope_config_ b
  | _ => first_match (conditions_ b) (default_scope_config_ b)
  end.

Definition ComputeConfig (configurator_ : InstrumentationScope → T) (scope_info : InstrumentationScope) : T := configurator_ scope_info.

(** What is added to a builder, in order. *)
Inductive condition := OnMatch (matcher : InstrumentationScope → bool) (config : T) | OnName (name : bytes) (config : T).

Definition add_condition (b : Builder) (c : condition) : Builder :=
  match c with OnMatch m config => AddCondition b m config | OnName n config => AddConditionNameEquals b n config end.

Definition meets (c : condition) (s : InstrumentationScope) : bool :=
  match c with OnMatch m _ => m s | OnName n _ => beq (scope_name s) n end.

Definition config_of (c : condition) : T := match c with OnMatch _ config | OnName _ config => config end.

Lemma first_match_spec l d s :
  first_match l d s = match index_of (λ c, c.1 s) l with Some i => default d (snd <$> l !! i) | None => d end.
Proof.
  induction l as [|[m c] l IH]; [done|]. cbn [first_match index_of fst]. destruct (m s); [done|]. rewrite IH.
  by destruct (index_of _ l).
Qed.

Lemma add_conditions_spec d cs :
  foldl add_condition (Builder_new d) cs = MkBuilder d ((λ c, (meets c, config_of c)) <$> cs).
Proof.
  induction cs as [|c cs IH] using rev_ind; [done|]. rewrite foldl_snoc, IH, fmap_app. by destruct c.
Qed.

Lemma index_of_fmap {A C} (f : A → C) (p : C → bool) l : index_of p (f <$> l) = index_of (p ∘ f) l.
Proof. induction l as [|x l IH]; [done|]. cbn. by rewrite IH. Qed.

(** The configuration of a scope is that of the first condition added that it meets, and the default if it meets none. *)
Theorem configurator_first d cs s :
  ComputeConfig (Build (foldl add_condition (Builder_new d) cs)) s =
  match index_of (λ c, meets c s) cs with Some i => default d (config_of <$> cs !! i) | None => d end.
Proof.
  rewrite add_conditions_spec. unfold ComputeConfig, Build. cbn [conditions_ default_scope_config_].
  assert (E : first_match ((λ c, (meets c, config_of c)) <$> cs) d s =
    match index_of (λ c, meets c s) cs with Some i => default d (config_of <$> cs !! i) | None => d end).
  { rewrite first_match_spec, index_of_fmap. change (index_of _ cs) with (index_of (λ c, meets c s) cs).
    destruct (index_of (λ c, meets c s) cs) as [i|]; [|done]. rewrite list_lookup_fmap. by destruct (cs !! i). }
  destruct cs; exact E.
Qed.
End configurator.

(** ** Comparing scopes *)

Lemma Scope_Create_from_spec name version url arg :
  Scope_Create_from name version url arg = Scope_Create name version url (AttributeMap_of arg).
Proof.
  unfold Scope_Create_from, AttributeMap_of, Scope_Create. rewrite (ForEachKeyValue_all SetAttribute). cbn [fst].
  generalize (∅ : AttributeMap). induction arg as [|[k v] arg IH]; intros m; [done|]. cbn [foldl fst snd].
  by rewrite <-IH.
Qed.

(** Every entry of [m] is in [m'], and there are no others: the same keys. *)
Lemma attributes_eq_spec m m' : attributes_eq m m' = true ↔ same_attributes m m'.
Proof.
  unfold attributes_eq. rewrite andb_true_iff, Nat.eqb_eq, forallb_Forall, list.Forall_forall. split.
  - intros [Hs H] k. assert (Hsub : dom m ⊆ dom m').
    { intros x Hx. apply elem_of_dom in Hx as [o Ho]. specialize (H (x, o)). cbn in H.
      apply elem_of_dom. destruct (m' !! x); [eauto|]. by discriminate H; apply elem_of_map_to_list. }
    assert (Hd : dom m = dom m').
    { apply set_eq. intros x. split; [apply Hsub|]. intros Hx. destruct (decide (x ∈ dom m)) as [|Hn]; [done|]. exfalso.
      assert (Hlt : size (dom m) < size (dom m')) by (apply (subset_size (C := gset bytes)); set_solver).
      rewrite !size_dom in Hlt. lia. }
    destruct (m !! k) as [o|] eqn:Hk.
    + specialize (H (k, o)). cbn in H. destruct (m' !! k) as [o'|]; [|by discriminate H; apply elem_of_map_to_list].
      apply H. by apply elem_of_map_to_list.
    + assert (Hn : k ∉ dom m) by by apply not_elem_of_dom. rewrite Hd in Hn. apply not_elem_of_dom in Hn. by rewrite Hn.
  - intros H. split.
    + rewrite <-!(size_dom (D := gset bytes)). f_equal. apply set_eq. intros k. rewrite !elem_of_dom. specialize (H k).
      destruct (m !! k), (m' !! k); split; intros [? ?]; try done; eauto.
    + intros [k o] Hin%elem_of_map_to_list. cbn [fst snd]. specialize (H k). rewrite Hin in H. by destruct (m' !! k).
Qed.

(** Asking a scope for a name, version, schema and attributes with distinct keys is comparing it with the scope created
    with them, a null pointer standing for no attributes; and equal scopes have equal hashes, provided each hash is the
    one the constructor computes. *)
Theorem Scope_equal_spec s name version url attributes :
  NoDup (default [] attributes).*1 →
  Scope_equal s name version url attributes = Scope_eq s (Scope_Create_from name version url (default [] attributes)).
Proof.
  intros Hnd. rewrite Scope_Create_from_spec. unfold Scope_equal, Scope_eq. cbn [Scope_Create Scope_construct scope_name scope_version scope_schema_url scope_attributes].
  destruct (beq (scope_name s) name), (beq (scope_version s) version), (beq (scope_schema_url s) url); cbn [negb orb andb]; try done.
  destruct attributes as [attributes|]; cbn [default].
  - apply eq_bool_prop_intro. rewrite !Is_true_true, EqualTo_spec by done. by rewrite attributes_eq_spec.
  - apply eq_bool_prop_intro. rewrite bool_decide_spec, Is_true_true, attributes_eq_spec. split.
    + intros ->. intros k. by rewrite AttributeMap_of_lookup, lookup_empty.
    + intros H. apply map_eq. intros k. specialize (H k). rewrite AttributeMap_of_lookup in H. cbn in H. rewrite lookup_empty.
      by destruct (scope_attributes s !! k).
Qed.

Lemma Scope_eq_hash name version url m name' version' url' m' :
  Scope_eq (Scope_Create name version url m) (Scope_Create name' version' url' m') = true →
  scope_hash_code (Scope_Create name version url m) = scope_hash_code (Scope_Create name' version' url' m').
Proof. unfold Scope_eq. cbn. rewrite !andb_true_iff, !beq_true. by intros [[[-> ->] ->] _]. Qed.

(** Where one text ends and the next begins does not count for the hash, nor do the attributes. *)
Lemma Scope_hash_collides name x version url m m' :
  scope_hash_code (Scope_Create (name ++ x) version url m) = scope_hash_code (Scope_Create name (x ++ version) url m').
Proof. cbn. by rewrite <-!app_assoc. Qed.
End scopes.

Lemma Scope_equal_spec_witness :
  let s := Scope_Create_from (λ _, 0%Z) (B "lib") (B "1") [] [(B "k", AV_int32 1)] in
  Scope_equal s (B "lib") (B "1") [] (Some [(B "k", AV_int32 1)]) =
    Scope_eq s (Scope_Create_from (λ _, 0%Z) (B "lib") (B "1") [] [(B "k", AV_int32 1)]) ∧
  Scope_equal s (B "lib") (B "1") [] None = false.
Proof.
  cbv zeta. split; [|by vm_compute]. refine (Scope_equal_spec _ _ _ _ _ (Some _) _).
  apply (bool_decide_unpack (NoDup _)). vm_compute. exact I.
Defined.
