(* ===== verification/ApiCalls.v ===== *)
(** * The calls of the API with their attributes

    nostd/span.h, common/key_value_iterable.h and key_value_iterable_view.h, trace/span_context_kv_iterable.h and
    span_context_kv_iterable_view.h: sequences, and the views through which attributes and links are passed to the one virtual
    method behind all the forms of a call; trace/tracer.h, trace/span.h and metrics/sync_instruments.h: these forms, each
    calling the next as overload resolution chooses it.  The forms of the second version of the binary interface are not
    compiled. *)
From S2P Require Export Ids Attributes.

(** ** nostd::span *)

(** How a use of a span ends: a value, [std::terminate], a failed assertion, or an access past the memory it points to. *)
Inductive use (A : Type) := Value (a : A) | Terminates | Asserts | PastMemory.
Arguments Value {A} a.
Arguments Terminates {A}.
Arguments Asserts {A}.
Arguments PastMemory {A}.

(** [data_], as the memory from there on, and the number of elements. *)
Record span (T : Type) := MkSpan { data_ : list T; extent_ : nat }.
Arguments MkSpan {T}.
Arguments data_ {T}.
Arguments extent_ {T}.

(** From a pointer and a count, or from two pointers into an array; of fixed extent or not. *)
Definition span_count {T} (data : list T) (count : nat) : span T := MkSpan data count.
Definition span_range {T} (array : list T) (first last : nat) : use (span T) :=
  if first <=? last then Value (MkSpan (drop first array) (last - first)) else Asserts.
Definition span_fixed {T} (Extent : nat) (data : list T) (count : nat) : use (span T) :=
  if negb (count =? Extent) then Terminates else Value (MkSpan data Extent).
Definition span_container {T} (c : list T) : span T := MkSpan c (length c).
Definition span_empty {T} (s : span T) : bool := extent_ s =? 0.

Definition span_index {T} (s : span T) (index : nat) : use T :=
  if negb (index <? extent_ s) then Asserts else match data_ s !! index with Some x => Value x | None => PastMemory end.

(** The elements from [begin] to [end]. *)
Fixpoint span_walk {T} (data : list T) (n : nat) : use (list T) :=
  match n, data with
  | O, _ => Value []
  | S _, [] => PastMemory
  | S n, x :: data => match span_walk data n with Value l => Value (x :: l) | r => r end
  end.
Definition span_elements {T} (s : span T) : use (list T) := span_walk (data_ s) (extent_ s).

(** An initializer list is passed on as the span of its elements. *)
Definition span_of_list {T} (l : list T) : span T := match span_range l 0 (length l) with Value s => s | _ => span_container l end.

Lemma span_walk_spec {T} (data : list T) n : span_walk data n = if n <=? length data then Value (take n data) else PastMemory.
Proof.
  revert n. induction data as [|x data IH]; intros [|n]; try done. cbn [span_walk]. rewrite IH. cbn [length Nat.leb take]. by destruct (n <=? length data).
Qed.

(** A span into an array shows the elements between its two ends, and indexing is their lookup, refused outside. *)
Lemma span_range_spec {T} (array : list T) first last s :
  last ≤ length array → span_range array first last = Value s →
  span_elements s = Value (take (last - first) (drop first array)) ∧
  ∀ i, span_index s i = if decide (i < last - first) then match array !! (first + i) with Some x => Value x | None => PastMemory end else Asserts.
Proof.
  intros Hl. unfold span_range. destruct (first <=? last) eqn:E; [|done]. apply Nat.leb_le in E. intros [= <-]. split.
  - unfold span_elements. cbn [data_ extent_]. rewrite span_walk_spec, length_drop, (proj2 (Nat.leb_le _ _)) by lia. done.
  - intros i. unfold span_index. cbn [data_ extent_]. rewrite lookup_drop. destruct (decide (i < last - first)) as [Hi|Hi].
    + by rewrite (proj2 (Nat.ltb_lt _ _)).
    + by rewrite (proj2 (Nat.ltb_ge _ _)) by lia.
Qed.

Lemma span_of_list_elements {T} (l : list T) : span_elements (span_of_list l) = Value l.
Proof. unfold span_of_list, span_range. cbn. unfold span_elements. cbn [data_ extent_]. by rewrite Nat.sub_0_r, span_walk_spec, Nat.leb_refl, firstn_all. Qed.

(** ** Views *)

(** The interface: the number of pairs, and internal iteration with a callback that may end it. *)
Record KeyValueIterable := MkIterable {
  kv_size : nat;
  kv_for_each : ∀ {S : Type}, (S → bytes → AttributeValue → S * bool) → S → S * bool;
}.

Definition NoopKeyValueIterable : KeyValueIterable := MkIterable 0 (λ _ _ s, (s, true)).
Definition KeyValueIterableView (container : KeyValues) : KeyValueIterable :=
  MkIterable (length container) (λ _ callback s, ForEachKeyValue callback s container).

(** The links: span contexts, each with its attributes. *)
Record SpanContextKeyValueIterable := MkLinks {
  link_size : nat;
  link_for_each : ∀ {S : Type}, (S → SpanContext → KeyValueIterable → S * bool) → S → S * bool;
}.

Definition NullSpanContext : SpanContextKeyValueIterable := MkLinks 0 (λ _ _ s, (s, true)).

(** The attributes of a link: behind the interface, in a container, or an initializer list. *)
Inductive link_attributes := LinkIterable (i : KeyValueIterable) | LinkContainer (l : KeyValues) | LinkInit (l : KeyValues).

(** The three overloads of [do_callback]; [None] when a span is not readable. *)
Definition do_callback_iterable {S} (callback : S → SpanContext → KeyValueIterable → S * bool) (s : S) (c : SpanContext) (i : KeyValueIterable) : S * bool :=
  let '(s, ok) := callback s c i in if negb ok then (s, false) else (s, true).
Definition do_callback_container {S} (callback : S → SpanContext → KeyValueIterable → S * bool) (s : S) (c : SpanContext) (l : KeyValues) : S * bool :=
  do_callback_iterable callback s c (KeyValueIterableView l).
Definition elements_or_nil {T} (s : span T) : list T := match span_elements s with Value l => l | _ => [] end.
Definition do_callback {S} (callback : S → SpanContext → KeyValueIterable → S * bool) (s : S) (c : SpanContext) (a : link_attributes) : S * bool :=
  match a with
  | LinkIterable i => do_callback_iterable callback s c i
  | LinkContainer l => do_callback_container callback s c l
  | LinkInit l => do_callback_container callback s c (elements_or_nil (span_of_list l))
  end.

Fixpoint links_loop {S} (callback : S → SpanContext → KeyValueIterable → S * bool) (s : S) (links : list (SpanContext * link_attributes)) : S * bool :=
  match links with
  | [] => (s, true)
  | (c, a) :: links => let '(s, ok) := do_callback callback s c a in if negb ok then (s, false) else links_loop callback s links
  end.

Definition SpanContextKeyValueIterableView (links : list (SpanContext * link_attributes)) : SpanContextKeyValueIterable :=
  MkLinks (length links) (λ _ callback s, links_loop callback s links).

(** *** What a view shows *)

(** An iterable that shows these pairs, in this order, until it is told to stop. *)
Definition shows (i : KeyValueIterable) (l : KeyValues) : Prop :=
  kv_size i = length l ∧ ∀ S (callback : S → bytes → AttributeValue → S * bool) s, kv_for_each i callback s = ForEachKeyValue callback s l.

Lemma view_shows l : shows (KeyValueIterableView l) l.
Proof. done. Qed.

Lemma noop_shows : shows NoopKeyValueIterable [].
Proof. done. Qed.

(** Going through links one by one, each with an iterable that shows its attributes. *)
Fixpoint through {S} (callback : S → SpanContext → KeyValueIterable → S * bool) (s : S) (links : list (SpanContext * KeyValueIterable)) : S * bool :=
  match links with
  | [] => (s, true)
  | (c, i) :: links => let '(s, go_on) := callback s c i in if go_on : bool then through callback s links else (s, false)
  end.

Definition shows_links (v : SpanContextKeyValueIterable) (links : list (SpanContext * KeyValues)) : Prop :=
  ∃ its, Forall2 (λ ci cl, ci.1 = cl.1 ∧ shows ci.2 cl.2) its links ∧ link_size v = length links ∧
    ∀ S (callback : S → SpanContext → KeyValueIterable → S * bool) s, link_for_each v callback s = through callback s its.

(** The pairs a link comes with. *)
Definition link_pairs (a : link_attributes) (l : KeyValues) : Prop :=
  match a with LinkIterable i => shows i l | LinkContainer l' | LinkInit l' => l' = l end.

Definition link_iterable (a : link_attributes) : KeyValueIterable :=
  match a with LinkIterable i => i | LinkContainer l | LinkInit l => KeyValueIterableView l end.

Lemma do_callback_spec {S} (callback : S → SpanContext → KeyValueIterable → S * bool) s c a :
  do_callback callback s c a = callback s c (link_iterable a).
Proof.
  destruct a as [i|l|l]; cbn [do_callback link_iterable]; unfold do_callback_container, do_callback_iterable, elements_or_nil;
    rewrite ?span_of_list_elements; by destruct (callback _ _ _) as [s' []].
Qed.

Lemma links_view_shows links ls :
  Forall2 (λ l l', l.1 = l'.1 ∧ link_pairs l.2 l'.2) links ls → shows_links (SpanContextKeyValueIterableView links) ls.
Proof.
  intros H. exists ((λ l, (l.1, link_iterable l.2)) <$> links). split; [|split].
  - induction H as [|[c a] [c' l] links ls [Hc Ha] _ IH]; [constructor|]. constructor; [|done]. cbn in *. split; [done|].
    destruct a as [i|l'|l']; cbn in *; [done|subst; apply view_shows..].
  - by apply Forall2_length in H.
  - intros S callback s. cbn [link_for_each SpanContextKeyValueIterableView]. revert s. clear. induction links as [|[c a] links IH]; intros s; [done|].
    cbn [links_loop fmap list_fmap through fst snd]. rewrite do_callback_spec. destruct (callback s c (link_iterable a)) as [s' []]; [apply IH|done].
Qed.

(** ** Tracer::StartSpan *)

(** What a caller writes for the attributes and for the links. *)
Inductive attributes_arg := NoAttributes | AttributesIterable (i : KeyValueIterable) | AttributesContainer (l : KeyValues) | AttributesInit (l : KeyValues).
Inductive links_arg :=
  | NoLinks | LinksIterable (v : SpanContextKeyValueIterable) | LinksContainer (l : list (SpanContext * link_attributes))
  | LinksInit (l : list (SpanContext * KeyValues)).

Section start_span.
Context {Options R : Type} (StartSpan_virtual : bytes → KeyValueIterable → SpanContextKeyValueIterable → Options → R).

(** Containers of attributes and of links. *)
Definition StartSpan_containers (name : bytes) (attributes : KeyValues) (links : list (SpanContext * link_attributes)) (options : Options) : R :=
  StartSpan_virtual name (KeyValueIterableView attributes) (SpanContextKeyValueIterableView links) options.
Definition init_links (l : list (SpanContext * KeyValues)) : list (SpanContext * link_attributes) := (λ cl, (cl.1, LinkInit cl.2)) <$> l.
(** A container and an initializer list. *)
Definition StartSpan_init_links (name : bytes) (attributes : KeyValues) (links : list (SpanContext * KeyValues)) (options : Options) : R :=
  StartSpan_containers name attributes (elements_or_nil (span_of_list (init_links links))) options.
(** An initializer list and a container. *)
Definition StartSpan_init_attributes (name : bytes) (attributes : KeyValues) (links : list (SpanContext * link_attributes)) (options : Options) : R :=
  StartSpan_containers name (elements_or_nil (span_of_list attributes)) links options.
(** Two initializer lists. *)
Definition StartSpan_inits (name : bytes) (attributes : KeyValues) (links : list (SpanContext * KeyValues)) (options : Options) : R :=
  StartSpan_containers name (elements_or_nil (span_of_list attributes)) (elements_or_nil (span_of_list (init_links links))) options.
(** A name alone: [StartSpan(name, {}, {}, options)] is the form with two initializer lists. *)
Definition StartSpan_name (name : bytes) (options : Options) : R := StartSpan_inits name [] [] options.
(** Attributes alone: a container, behind the interface, an initializer list. *)
Definition StartSpan_container (name : bytes) (attributes : KeyValues) (options : Options) : R := StartSpan_init_links name attributes [] options.
Definition StartSpan_iterable (name : bytes) (attributes : KeyValueIterable) (options : Options) : R :=
  StartSpan_virtual name attributes NullSpanContext options.
Definition StartSpan_init (name : bytes) (attributes : KeyValues) (options : Options) : R := StartSpan_inits name attributes [] options.

(** The form that overload resolution chooses; [None] when the call does not compile. *)
Definition StartSpan (name : bytes) (a : attributes_arg) (l : links_arg) (options : Options) : option R :=
  match a, l with
  | NoAttributes, NoLinks => Some (StartSpan_name name options)
  | AttributesContainer a, NoLinks => Some (StartSpan_container name a options)
  | AttributesIterable a, NoLinks => Some (StartSpan_iterable name a options)
  | AttributesInit a, NoLinks => Some (StartSpan_init name a options)
  | AttributesIterable a, LinksIterable l => Some (StartSpan_virtual name a l options)
  | AttributesContainer a, LinksContainer l => Some (StartSpan_containers name a l options)
  | AttributesContainer a, LinksInit l => Some (StartSpan_init_links name a l options)
  | AttributesInit a, LinksContainer l => Some (StartSpan_init_attributes name a l options)
  | AttributesInit a, LinksInit l => Some (StartSpan_inits name a l options)
  | _, _ => None
  end.

(** What the caller means by them. *)
Definition means_attributes (a : attributes_arg) (kvs : KeyValues) : Prop :=
  match a with NoAttributes => kvs = [] | AttributesIterable i => shows i kvs | AttributesContainer l | AttributesInit l => kvs = l end.
Definition means_links (l : links_arg) (ls : list (SpanContext * KeyValues)) : Prop :=
  match l with
  | NoLinks => ls = []
  | LinksIterable v => shows_links v ls
  | LinksContainer l => Forall2 (λ l l', l.1 = l'.1 ∧ link_pairs l.2 l'.2) l ls
  | LinksInit l => ls = l
  end.

Lemma init_links_show l : shows_links (SpanContextKeyValueIterableView (init_links l)) l.
Proof. apply links_view_shows. unfold init_links. induction l as [|[c kvs] l IH]; [constructor|]. by constructor. Qed.

(** Every form of the call that compiles is one call of the virtual method, with the name and the options given, and with views
    that show the attributes and the links that the caller wrote, in their order. *)
Theorem start_span_forms name a l options r kvs ls :
  StartSpan name a l options = Some r → means_attributes a kvs → means_links l ls →
  ∃ i v, r = StartSpan_virtual name i v options ∧ shows i kvs ∧ shows_links v ls.
Proof.
  assert (Hnil : shows_links NullSpanContext []) by (by exists []; repeat split).
  assert (Hnone : shows_links (SpanContextKeyValueIterableView []) []) by (apply (init_links_show [])).
  destruct a as [|i|a|a], l as [|v|l|l]; cbn [StartSpan means_attributes means_links]; intros [= <-] Ha Hl; subst;
    unfold StartSpan_name, StartSpan_container, StartSpan_iterable, StartSpan_init, StartSpan_init_links, StartSpan_init_attributes, StartSpan_inits,
      StartSpan_containers, elements_or_nil; rewrite ?span_of_list_elements; eexists _, _; (split; [reflexivity|]); split;
    first [done|apply view_shows|by apply links_view_shows|apply init_links_show].
Qed.
End start_span.

(** ** Span::AddEvent *)

Section add_event.
(** The methods a span may override; [now] is the reading of the system clock. *)
Context {Time R : Type} (now : Time).
Context (AddEvent_plain : bytes → R) (AddEvent_at : bytes → Time → R) (AddEvent_timed : bytes → Time → KeyValueIterable → R).
Context (AddEvent_attributes : bytes → KeyValueIterable → R).

(** [AddEvent_attributes] unless overridden. *)
Definition AddEvent_attributes_default (name : bytes) (attributes : KeyValueIterable) : R := AddEvent_timed name now attributes.

Definition AddEvent_timed_container (name : bytes) (timestamp : Time) (attributes : KeyValues) : R :=
  AddEvent_timed name timestamp (KeyValueIterableView attributes).
Definition AddEvent_container (name : bytes) (attributes : KeyValues) : R := AddEvent_attributes name (KeyValueIterableView attributes).
Definition AddEvent_timed_init (name : bytes) (timestamp : Time) (attributes : KeyValues) : R :=
  AddEvent_timed_container name timestamp (elements_or_nil (span_of_list attributes)).
Definition AddEvent_init (name : bytes) (attributes : KeyValues) : R :=
  AddEvent_timed_container name now (elements_or_nil (span_of_list attributes)).

Definition AddEvent (name : bytes) (timestamp : option Time) (a : attributes_arg) : R :=
  match timestamp, a with
  | None, NoAttributes => AddEvent_plain name
  | None, AttributesIterable i => AddEvent_attributes name i
  | None, AttributesContainer l => AddEvent_container name l
  | None, AttributesInit l => AddEvent_init name l
  | Some t, NoAttributes => AddEvent_at name t
  | Some t, AttributesIterable i => AddEvent_timed name t i
  | Some t, AttributesContainer l => AddEvent_timed_container name t l
  | Some t, AttributesInit l => AddEvent_timed_init name t l
  end.

(** Every form with attributes hands on a view that shows them, with the time given or the present one; only the form with an
    initializer list and no time reads the clock itself, whatever the span overrides. *)
Theorem add_event_forms name timestamp a kvs :
  a ≠ NoAttributes → means_attributes a kvs →
  ∃ i, shows i kvs ∧
    AddEvent name timestamp a =
      match timestamp, a with
      | None, AttributesInit _ => AddEvent_timed name now i
      | None, _ => AddEvent_attributes name i
      | Some t, _ => AddEvent_timed name t i
      end.
Proof.
  intros Hne Ha. destruct a as [|i|l|l], timestamp as [t|]; try done; cbn [means_attributes] in Ha; subst;
    cbn [AddEvent]; unfold AddEvent_timed_init, AddEvent_init, AddEvent_timed_container, AddEvent_container, elements_or_nil;
    rewrite ?span_of_list_elements; eexists; (split; [|reflexivity]); first [done|apply view_shows].
Qed.
End add_event.

(** ** Synchronous instruments *)

Section measure.
(** The forms of [Add] of a counter (of [Record] of a histogram those with a context only) that an instrument overrides. *)
Context {Value_ Ctx R : Type} (measure_virtual : Value_ → option KeyValueIterable → option Ctx → R).

Definition measure_container (value : Value_) (attributes : KeyValues) (context : option Ctx) : R :=
  measure_virtual value (Some (KeyValueIterableView attributes)) context.
Definition measure_init (value : Value_) (attributes : KeyValues) (context : option Ctx) : R :=
  measure_container value (elements_or_nil (span_of_list attributes)) context.

Definition measure (value : Value_) (a : attributes_arg) (context : option Ctx) : R :=
  match a with
  | NoAttributes => measure_virtual value None context
  | AttributesIterable i => measure_virtual value (Some i) context
  | AttributesContainer l => measure_container value l context
  | AttributesInit l => measure_init value l context
  end.

Lemma measure_forms value a context kvs :
  a ≠ NoAttributes → means_attributes a kvs → ∃ i, shows i kvs ∧ measure value a context = measure_virtual value (Some i) context.
Proof.
  intros Hne Ha. destruct a as [|i|l|l]; try done; cbn [means_attributes] in Ha; subst; cbn [measure];
    unfold measure_init, measure_container, elements_or_nil; rewrite ?span_of_list_elements; eexists; (split; [|reflexivity]);
    first [done|apply view_shows].
Qed.
End measure.

(** A chain of calls: a span whose tracer keeps the attributes in a map records the last value of each key. *)
Lemma shown_map i kvs : shows i kvs → (kv_for_each i (λ m k v, (SetAttribute m k v, true)) ∅).1 = AttributeMap_of kvs.
Proof. intros [_ H]. by rewrite H. Qed.
