(* ===== verification/SdkDefaults.v ===== *)
(** * Small parts of the SDK

    sdk/trace/sampler.h with samplers/always_on.h and always_off.h; the internal log of sdk/common/global_log_handler.h; the
    timeouts of Tracer::ForceFlush and Close (trace/tracer.h). *)
From S2P Require Export Ids Attributes Timestamp.

(** ** Samplers *)

Inductive Decision := DROP | RECORD_ONLY | RECORD_AND_SAMPLE.
#[export] Instance Decision_eq_dec : EqDecision Decision.
Proof. solve_decision. Defined.

Record SamplingResult := MkSamplingResult {
  decision : Decision;
  result_attributes : option OrderedAttributeMap;
  trace_state : TraceState;
}.

Definition IsRecording (r : SamplingResult) : bool := bool_decide (decision r = RECORD_ONLY) || bool_decide (decision r = RECORD_AND_SAMPLE).
Definition IsSampled (r : SamplingResult) : bool := bool_decide (decision r = RECORD_AND_SAMPLE).

(** Both samplers look at the parent only. *)
Definition AlwaysOn_ShouldSample (parent_context : SpanContext) : SamplingResult :=
  if negb (SpanContext_IsValid parent_context) then MkSamplingResult RECORD_AND_SAMPLE None GetDefault
  else MkSamplingResult RECORD_AND_SAMPLE None (trace_state_ parent_context).
Definition AlwaysOff_ShouldSample (parent_context : SpanContext) : SamplingResult :=
  if negb (SpanContext_IsValid parent_context) then MkSamplingResult DROP None GetDefault
  else MkSamplingResult DROP None (trace_state_ parent_context).

Lemma IsSampled_recording r : IsSampled r = true → IsRecording r = true.
Proof. unfold IsSampled, IsRecording. intros ->. apply orb_true_r. Qed.

(** What the samplers answer is well formed: the trace state of a valid parent is kept, and without one there is none. *)
Lemma samplers_wf c :
  SpanContext_wf c → ts_wf (trace_state (AlwaysOn_ShouldSample c)) ∧ ts_wf (trace_state (AlwaysOff_ShouldSample c)) ∧
  IsSampled (AlwaysOn_ShouldSample c) = true ∧ IsRecording (AlwaysOff_ShouldSample c) = false ∧
  trace_state (AlwaysOff_ShouldSample c) = trace_state (AlwaysOn_ShouldSample c).
Proof.
  intros (_ & _ & _ & Hts). unfold AlwaysOn_ShouldSample, AlwaysOff_ShouldSample. destruct (SpanContext_IsValid c); cbn; split_and!; try done;
    apply (ts_empty_wf 0).
Qed.

(** ** The internal log *)

Inductive LogLevel := LevelNone | LevelError | LevelWarning | LevelInfo | LevelDebug.

Definition level_value (l : LogLevel) : Z :=
  match l with LevelNone => 0 | LevelError => 1 | LevelWarning => 2 | LevelInfo => 3 | LevelDebug => 4 end.

Definition LevelToString (level : LogLevel) : bytes :=
  match level with
  | LevelNone => B "None" | LevelError => B "Error" | LevelWarning => B "Warning" | LevelInfo => B "Info" | LevelDebug => B "Debug"
  end.

Section dispatch.
(** The handlers are those of the program: [Handle] is told the level, the message as a C string and the attributes. *)
Context {Handler S : Type} (Handle : Handler → LogLevel → bytes → OrderedAttributeMap → S → S).

(** OTEL_INTERNAL_LOG_DISPATCH, with the level and the handler that GlobalLogHandler answers. *)
Definition log_dispatch (global_level : LogLevel) (log_handler : option Handler) (level : LogLevel) (message : bytes)
    (attributes : OrderedAttributeMap) (s : S) : S :=
  if (level_value global_level <? level_value level)%Z then s
  else
    match log_handler with
    | None => s
    | Some h => Handle h level (cstr message) attributes s
    end.

(** The macro of a level is empty when the library is built with a lower one. *)
Definition log_macro (built_level : Z) (global_level : LogLevel) (log_handler : option Handler) (level : LogLevel) (message : bytes)
    (attributes : OrderedAttributeMap) (s : S) : S :=
  if (level_value level <=? built_level)%Z then log_dispatch global_level log_handler level message attributes s else s.

(** A message is handled when its level is enabled both at build time and at run time and there is a handler; raising either
    level handles no fewer messages. *)
Lemma log_macro_spec built global handler level message attributes s :
  log_macro built global handler level message attributes s =
  if bool_decide (level_value level ≤ built ∧ level_value level ≤ level_value global)%Z then
    match handler with Some h => Handle h level (cstr message) attributes s | None => s end
  else s.
Proof.
  unfold log_macro, log_dispatch. destruct (Z.leb_spec (level_value level) built), (Z.ltb_spec (level_value global) (level_value level));
    rewrite ?bool_decide_eq_true_2, ?bool_decide_eq_false_2 by lia; done.
Qed.
End dispatch.

(** ** Timeouts *)

(** [duration_cast] to microseconds of a count of periods of [p] nanoseconds: scaled in the wider type, overflow being
    undefined, then divided towards zero. *)
Definition cast_to_micros (p count : Z) : option Z :=
  let g := Z.gcd p 1000 in n ← int64 (count * (p / g)); Some (Z.quot n (1000 / g)).

(** The argument of ForceFlushWithMicroseconds and CloseWithMicroseconds. *)
Definition timeout_micros (p count : Z) : option Z := n ← cast_to_micros p count; Some (n mod 2 ^ 64)%Z.

Lemma timeout_micros_spec p count n :
  (0 < p)%Z → (0 ≤ count)%Z → timeout_micros p count = Some n → n = (count * p / 1000)%Z.
Proof.
  intros Hp Hc. unfold timeout_micros, cast_to_micros. set (g := Z.gcd p 1000).
  assert (Hg : (0 < g)%Z) by (pose proof (Z.gcd_nonneg p 1000); pose proof (Z.gcd_eq_0_r p 1000); unfold g in *; lia).
  destruct (Z.gcd_divide_l p 1000) as [a Ha]. destruct (Z.gcd_divide_r p 1000) as [b Hb]. fold g in Ha, Hb.
  assert (Ea : (p / g = a)%Z) by (rewrite Ha; apply Z.div_mul; lia). assert (Eb : (1000 / g = b)%Z) by (rewrite Hb; apply Z.div_mul; lia).
  rewrite Ea, Eb. unfold int64, INT64_MAX. destruct (_ && _) eqn:E; [|done]. apply andb_true_iff in E as [_ E%Z.leb_le].
  cbn [mbind option_bind]. intros [= <-]. assert (0 < a)%Z by nia. assert (0 < b)%Z by nia.
  rewrite Z.quot_div_nonneg by nia. rewrite Hb. replace (count * p)%Z with (count * a * g)%Z by nia.
  rewrite Z.div_mul_cancel_r by lia. apply Z.mod_small. split; [apply Z.div_pos; nia|].
  apply (Z.le_lt_trans _ (count * a)); [apply Z.div_le_upper_bound; nia|]. lia.
Qed.

(** A timeout that has already passed becomes one of half a million years. *)
Example timeout_negative : timeout_micros 1000000 (-1) = Some (2 ^ 64 - 1000)%Z.
Proof. reflexivity. Qed.
