(* ===== verification/Logger.v ===== *)
(** * The logger of the API

    OT/logs/logger.h, logger_type_traits.h, log_record.h, event_id.h and severity.h: what a log record
    is told for the arguments of a call, the calls of each severity, and the test whether a severity
    is enabled.  A record is the calls made on it; making one and handing it on are the provider's. *)
From S2P Require Export Ids Attributes.

(** ** Severities, numbers of eight bits *)
Abbreviation Severity := Z.

Definition kInvalid : Severity := 0%Z.
Definition kTrace : Severity := 1%Z.
Definition kDebug : Severity := 5%Z.
Definition kInfo : Severity := 9%Z.
Definition kWarn : Severity := 13%Z.
Definition kError : Severity := 17%Z.
Definition kFatal : Severity := 21%Z.
Definition kMaxSeverity : Z := 255%Z.

Definition SeverityNumToText : list bytes := B <$>
  ["INVALID"; "TRACE"; "TRACE2"; "TRACE3"; "TRACE4"; "DEBUG"; "DEBUG2"; "DEBUG3"; "DEBUG4";
   "INFO"; "INFO2"; "INFO3"; "INFO4"; "WARN"; "WARN2"; "WARN3"; "WARN4"; "ERROR";
   "ERROR2"; "ERROR3"; "ERROR4"; "FATAL"; "FATAL2"; "FATAL3"; "FATAL4"]%string.

(** ** Records *)

(** The methods of a log record, as calls. *)
Inductive log_call :=
  | SetTimestamp (t : Z)
  | SetObservedTimestamp (t : Z)
  | SetSeverity (s : Severity)
  | SetBody (v : AttributeValue)
  | SetLogAttribute (key : bytes) (v : AttributeValue)
  | SetEventId (id : Z) (name : bytes)
  | SetTraceId (t : TraceId)
  | SetSpanId (s : SpanId)
  | SetTraceFlags (f : TraceFlags).

Abbreviation LogRecord := (list log_call).

(** The name is a NUL-terminated copy, or the null pointer for an identifier that is only a number. *)
Record EventId := MkEventId { id_ : Z; name_ : option bytes }.
Definition EventId_named (id : Z) (name : bytes) : EventId := MkEventId id (Some (name ++ [NUL])).
Definition EventId_number (id : Z) : EventId := MkEventId id None.

(** The types of arguments the traits know. *)
Inductive log_argument :=
  | ASeverity (s : Severity)
  | AEventId (e : EventId)
  | ASpanContext (c : SpanContext)
  | ASpanId (s : SpanId)
  | ATraceId (t : TraceId)
  | ATraceFlags (f : TraceFlags)
  | ASystemTimestamp (t : Z)
  | ATimePoint (t : Z)
  | AAttributes (kvs : KeyValues)
  | ABody (v : AttributeValue).

(** [LogRecordSetterTrait<T>::Set].  A view made of a null pointer measures its length: a fault. *)
Definition Set_argument (log_record : LogRecord) (arg : log_argument) : option LogRecord :=
  match arg with
  | ASeverity s => Some (log_record ++ [SetSeverity s])
  | AEventId e => name ← name_ e; Some (log_record ++ [SetEventId (id_ e) (cstr name)])
  | ASpanContext c =>
      Some (log_record ++ [SetSpanId (span_id_ c); SetTraceId (trace_id_ c); SetTraceFlags (trace_flags_ c)])
  | ASpanId s => Some (log_record ++ [SetSpanId s])
  | ATraceId t => Some (log_record ++ [SetTraceId t])
  | ATraceFlags f => Some (log_record ++ [SetTraceFlags f])
  | ASystemTimestamp t => Some (log_record ++ [SetTimestamp t])
  | ATimePoint t => Some (log_record ++ [SetTimestamp t])
  | AAttributes kvs => Some (ForEachKeyValue (λ r k v, (r ++ [SetLogAttribute k v], true)) log_record kvs).1
  | ABody v => Some (log_record ++ [SetBody v])
  end.

(** The arguments are unpacked from left to right. *)
Fixpoint Set_arguments (log_record : LogRecord) (args : list log_argument) : option LogRecord :=
  match args with
  | [] => Some log_record
  | arg :: args => log_record ← Set_argument log_record arg; Set_arguments log_record args
  end.

Definition LogRecordHasSeverity (args : list log_argument) : bool :=
  existsb (λ arg, match arg with ASeverity _ => true | _ => false end) args.

(** ** The logger *)

(** The records handed on, and the least severity that is enabled. *)
Record Logger := MkLogger { minimum_severity_ : Z; emitted : list LogRecord }.

Definition Logger_new : Logger := MkLogger kMaxSeverity [].
Definition SetMinimumSeverity (severity_or_max : Z) (l : Logger) : Logger := MkLogger (severity_or_max mod 256) (emitted l).
Definition EmitLogRecord (r : LogRecord) (l : Logger) : Logger := MkLogger (minimum_severity_ l) (emitted l ++ [r]).

Section logger.
(** What [CreateLogRecord] answers, null or a record; what an enabled logger says of an event. *)
Context (CreateLogRecord : option LogRecord) (EnabledImplementation : Severity → Z → bool).

Definition EmitLogRecord_with (log_record : option LogRecord) (args : list log_argument) (l : Logger) : option Logger :=
  match log_record with
  | None => Some l
  | Some r => r ← Set_arguments r args; Some (EmitLogRecord r l)
  end.

Definition EmitLogRecord_args (args : list log_argument) (l : Logger) : option Logger :=
  EmitLogRecord_with CreateLogRecord args l.

(** The calls that take any arguments but a severity. *)
Definition Trace (args : list log_argument) (l : Logger) : option Logger := EmitLogRecord_args (ASeverity kTrace :: args) l.
Definition Debug (args : list log_argument) (l : Logger) : option Logger := EmitLogRecord_args (ASeverity kDebug :: args) l.
Definition Info (args : list log_argument) (l : Logger) : option Logger := EmitLogRecord_args (ASeverity kInfo :: args) l.
Definition Warn (args : list log_argument) (l : Logger) : option Logger := EmitLogRecord_args (ASeverity kWarn :: args) l.
Definition Error (args : list log_argument) (l : Logger) : option Logger := EmitLogRecord_args (ASeverity kError :: args) l.
Definition Fatal (args : list log_argument) (l : Logger) : option Logger := EmitLogRecord_args (ASeverity kFatal :: args) l.

(** [Log], for an event identifier, for its number, for a format with attributes, for a message. *)
Definition Log_event (s : Severity) (event_id : EventId) (format : bytes) (attributes : KeyValues) (l : Logger) : option Logger :=
  EmitLogRecord_args [ASeverity s; AEventId event_id; ABody (AV_string format); AAttributes attributes] l.
Definition Log_number (s : Severity) (event_id : Z) (format : bytes) (attributes : KeyValues) (l : Logger) : option Logger :=
  EmitLogRecord_args [ASeverity s; AEventId (EventId_number event_id); ABody (AV_string format); AAttributes attributes] l.
Definition Log_format (s : Severity) (format : bytes) (attributes : KeyValues) (l : Logger) : option Logger :=
  EmitLogRecord_args [ASeverity s; ABody (AV_string format); AAttributes attributes] l.
Definition Log_message (s : Severity) (message : bytes) (l : Logger) : option Logger :=
  EmitLogRecord_args [ASeverity s; ABody (AV_string message)] l.

(** The wrappers of a severity go through [Log]; the ones given a number make the identifier themselves. *)
Definition at_severity_event (s : Severity) (event_id : EventId) (format : bytes) (attributes : KeyValues) (l : Logger) : option Logger :=
  Log_event s event_id format attributes l.
Definition at_severity_number (s : Severity) (event_id : Z) (format : bytes) (attributes : KeyValues) (l : Logger) : option Logger :=
  Log_event s (EventId_number event_id) format attributes l.

Definition Enabled (s : Severity) (l : Logger) : bool := (minimum_severity_ l <=? s)%Z.
Definition Enabled_event (s : Severity) (event_id : Z) (l : Logger) : bool :=
  if negb (Enabled s l) then false else EnabledImplementation s event_id.

(** ** What a record is told *)

Definition calls_of (arg : log_argument) : list log_call :=
  match arg with
  | ASeverity s => [SetSeverity s]
  | AEventId e => match name_ e with Some name => [SetEventId (id_ e) (cstr name)] | None => [] end
  | ASpanContext c => [SetSpanId (span_id_ c); SetTraceId (trace_id_ c); SetTraceFlags (trace_flags_ c)]
  | ASpanId s => [SetSpanId s]
  | ATraceId t => [SetTraceId t]
  | ATraceFlags f => [SetTraceFlags f]
  | ASystemTimestamp t | ATimePoint t => [SetTimestamp t]
  | AAttributes kvs => (λ kv, SetLogAttribute kv.1 kv.2) <$> kvs
  | ABody v => [SetBody v]
  end.

Definition nameless (arg : log_argument) : bool :=
  match arg with AEventId e => bool_decide (name_ e = None) | _ => false end.

Lemma Set_argument_spec r arg : Set_argument r arg = if nameless arg then None else Some (r ++ calls_of arg).
Proof.
  destruct arg as [s|[id [name|]]|c|s|t|f|t|t|kvs|v]; try done. cbn [Set_argument nameless calls_of].
  rewrite ForEachKeyValue_all. cbn [fst]. f_equal. revert r. induction kvs as [|kv kvs IH]; intros r; [by rewrite app_nil_r|].
  cbn [foldl fmap list_fmap]. by rewrite IH, <-app_assoc.
Qed.

Lemma Set_arguments_spec r args :
  Set_arguments r args = if existsb nameless args then None else Some (r ++ concat (calls_of <$> args)).
Proof.
  revert r. induction args as [|arg args IH]; intros r; [by rewrite app_nil_r|]. cbn [Set_arguments existsb fmap list_fmap concat].
  rewrite Set_argument_spec. destruct (nameless arg); [done|]. cbn [mbind option_bind orb]. rewrite IH.
  by rewrite <-app_assoc.
Qed.

(** The severity a record ends with. *)
Definition severity_of (r : LogRecord) : option Severity :=
  list.last (omap (λ c, match c with SetSeverity s => Some s | _ => None end) r).

Lemma severity_of_args args :
  LogRecordHasSeverity args = false →
  omap (λ c, match c with SetSeverity s => Some s | _ => None end) (concat (calls_of <$> args)) = [].
Proof.
  induction args as [|arg args IH]; [done|]. cbn [LogRecordHasSeverity existsb]. rewrite orb_false_iff. intros [Ha Hargs].
  cbn [fmap list_fmap concat]. rewrite omap_app, IH by done. rewrite app_nil_r.
  destruct arg as [s|[id [name|]]|c|s|t|f|t|t|kvs|v]; try done. cbn [calls_of]. clear. induction kvs as [|kv kvs IH]; [done|]. by cbn.
Qed.

(** A call with arguments hands on one record, told for each argument in turn what the table of the
    documentation says, unless the provider gives no record, in which case nothing happens, or an event
    identifier has no name, in which case a null pointer is followed.  The record of a call of a given
    severity ends with that severity. *)
Theorem log_call_spec s args l :
  EmitLogRecord_args (ASeverity s :: args) l =
    match CreateLogRecord with
    | None => Some l
    | Some r =>
        if existsb nameless args then None
        else Some (MkLogger (minimum_severity_ l) (emitted l ++ [r ++ SetSeverity s :: concat (calls_of <$> args)]))
    end ∧
  (LogRecordHasSeverity args = false →
   ∀ r, severity_of (r ++ SetSeverity s :: concat (calls_of <$> args)) = Some s).
Proof.
  split.
  - unfold EmitLogRecord_args, EmitLogRecord_with. destruct CreateLogRecord as [r|]; [|done]. rewrite Set_arguments_spec.
    cbn [existsb nameless orb]. by destruct (existsb nameless args).
  - intros H r. unfold severity_of. rewrite omap_app. cbn [omap list_omap].
    change (omap ?f (SetSeverity s :: ?l)) with (s :: omap f l). rewrite (severity_of_args args H). by rewrite list.last_snoc.
Qed.

(** Logging an event by its number follows a null pointer, through [Log] and through the wrapper of
    any severity, whenever the provider gives a record; by a named identifier it hands the record on. *)
Theorem numeric_event_faults s id name format attributes l r :
  CreateLogRecord = Some r → no_nul name →
  Log_number s id format attributes l = None ∧ at_severity_number s id format attributes l = None ∧
  Log_event s (EventId_named id name) format attributes l =
    Some (MkLogger (minimum_severity_ l)
      (emitted l ++ [r ++ [SetSeverity s; SetEventId id name; SetBody (AV_string format)] ++
                     ((λ kv, SetLogAttribute kv.1 kv.2) <$> attributes)])).
Proof.
  intros Hr Hn. unfold Log_number, at_severity_number, Log_event, EmitLogRecord_args, EmitLogRecord_with. rewrite Hr.
  rewrite !Set_arguments_spec. split_and!; [done..|]. cbn [existsb nameless EventId_named name_ calls_of fmap list_fmap concat id_ app].
  rewrite bool_decide_eq_false_2 by done. cbn [orb mbind option_bind]. unfold EmitLogRecord. rewrite app_nil_r.
  assert (Hc : cstr (name ++ [NUL]) = name) by (rewrite <-(cstr_id name Hn) at 2; by apply take_while_stop).
  by rewrite Hc.
Qed.

(** Nothing is enabled below the minimum; a new logger enables nothing. *)
Lemma Enabled_spec s id l : Enabled_event s id l = true ↔ (minimum_severity_ l ≤ s)%Z ∧ EnabledImplementation s id = true.
Proof. unfold Enabled_event, Enabled. destruct (Z.leb_spec (minimum_severity_ l) s); cbn [negb]; naive_solver lia. Qed.

Lemma new_logger_disabled s : (s < 25)%Z → Enabled s Logger_new = false.
Proof. unfold Enabled. cbn. intros. apply Z.leb_gt. unfold kMaxSeverity. lia. Qed.
End logger.

Lemma log_call_spec_witness :
  let args := [ABody (AV_string (B "rolled")); AAttributes [(B "sides", AV_int32 6)]] in
  LogRecordHasSeverity args = false ∧
  severity_of (SetSeverity kInfo :: concat (calls_of <$> args)) = Some kInfo ∧
  option_map emitted (Info (Some []) args Logger_new) =
    Some [[SetSeverity kInfo; SetBody (AV_string (B "rolled")); SetLogAttribute (B "sides") (AV_int32 6)]].
Proof.
  cbv zeta. set (args := [_; _]). assert (H : LogRecordHasSeverity args = false) by reflexivity.
  destruct (log_call_spec (Some []) kInfo args Logger_new) as [Hc Hs].
  split; [exact H|]. split; [exact (Hs H [])|]. unfold Info. rewrite Hc. reflexivity.
Defined.

Lemma numeric_event_faults_witness :
  no_nul (B "roll") ∧
  Log_number (Some []) kWarn 7 (B "odd") [] Logger_new = None ∧
  option_map emitted (Log_event (Some []) kWarn (EventId_named 7 (B "roll")) (B "odd") [] Logger_new) =
    Some [[SetSeverity kWarn; SetEventId 7 (B "roll"); SetBody (AV_string (B "odd"))]].
Proof.
  assert (Hn : no_nul (B "roll")) by (apply no_nulb_spec; reflexivity).
  destruct (numeric_event_faults (Some []) kWarn 7 (B "roll") (B "odd") [] Logger_new [] eq_refl Hn) as (H1 & _ & H3).
  split; [exact Hn|]. split; [exact H1|]. rewrite H3. reflexivity.
Defined.
