(* ===== verification/EventLogger.v ===== *)
(** * Event loggers

    OT/logs/event_logger.h: emitting an event with arguments through the delegate logger.  The arguments are set on the
    record as the arguments of a function call are evaluated, in no particular order (Logger sets them in theirs). *)
From S2P Require Export Logger.

(** What becomes of a call: no delegate, a record (or the null pointer) handed on, a null pointer followed. *)
Inductive event_outcome := NotEmitted | Emitted (log_record : option LogRecord) | NullFollowed.

(** [EmitEvent] with arguments.  [record] is what the delegate's [CreateLogRecord] answers, a record or null, which is not
    looked at; [order] are the arguments in the order they happen to be set. *)
Definition EmitEvent (delegate_logger : bool) (record : option LogRecord) (order : list log_argument) : event_outcome :=
  if negb delegate_logger then NotEmitted
  else
    match record, order with
    | None, [] => Emitted None
    | None, _ :: _ => NullFollowed
    | Some r, _ => match Set_arguments r order with Some r => Emitted (Some r) | None => NullFollowed end
    end.

(** ** The order of the arguments *)

(** What a call on a record sets. *)
Inductive log_field := FTimestamp | FObserved | FSeverity | FBody | FAttribute (key : bytes) | FEventId | FTraceId | FSpanId | FTraceFlags.
#[export] Instance log_field_eq_dec : EqDecision log_field.
Proof. solve_decision. Defined.

Definition field (c : log_call) : log_field :=
  match c with
  | SetTimestamp _ => FTimestamp | SetObservedTimestamp _ => FObserved | SetSeverity _ => FSeverity | SetBody _ => FBody
  | SetLogAttribute key _ => FAttribute key | SetEventId _ _ => FEventId | SetTraceId _ => FTraceId | SetSpanId _ => FSpanId
  | SetTraceFlags _ => FTraceFlags
  end.

(** The last call that sets a field. *)
Definition final (f : log_field) (r : LogRecord) : option log_call := list.last (filter (λ c, field c = f) r).

Lemma final_app f r r' : final f (r ++ r') = match final f r' with Some c => Some c | None => final f r end.
Proof.
  unfold final. rewrite list.filter_app. destruct (filter _ r') as [|c l] eqn:E using rev_ind; [by rewrite app_nil_r|].
  by rewrite (assoc_L (++)), !list.last_snoc.
Qed.

(** Calls that set each field once at most set the same whatever their order. *)
Lemma final_permuted f r r' : NoDup (field <$> r) → r ≡ₚ r' → final f r = final f r'.
Proof.
  intros Hn Hp. unfold final. f_equal.
  assert (Hle : length (filter (λ c, field c = f) r) ≤ 1).
  { clear Hp r'. induction r as [|d r IH]; [cbn; lia|]. rewrite fmap_cons in Hn. apply list.NoDup_cons in Hn as [Hd Hn].
    rewrite list.filter_cons. destruct (decide (field d = f)) as [Hf|]; [|by apply IH]. cbn [length].
    destruct (filter (λ c, field c = f) r) as [|e l] eqn:E; [cbn; lia|]. exfalso. apply Hd.
    assert (He : e ∈ filter (λ c, field c = f) r) by (rewrite E; apply list_elem_of_here).
    apply list.list_elem_of_filter in He as [He1 He2]. rewrite Hf, <-He1. by apply list_elem_of_fmap_2. }
  assert (Hp' : filter (λ c, field c = f) r ≡ₚ filter (λ c, field c = f) r') by (by rewrite Hp).
  destruct (filter (λ c, field c = f) r) as [|e [|e' l]]; [by apply Permutation_nil in Hp'| |cbn in Hle; lia].
  by apply Permutation_singleton_l in Hp'.
Qed.

Definition told (args : list log_argument) : list log_call := concat (calls_of <$> args).

Lemma existsb_permuted {A} (p : A → bool) l l' : l ≡ₚ l' → existsb p l = existsb p l'.
Proof. induction 1 as [|x l l' _ IH|x y l|l1 l2 l3 _ IH1 _ IH2]; cbn; [done|by rewrite IH|destruct (p x), (p y); done|congruence]. Qed.

(** Whatever order the compiler chooses, an event is emitted or not, or a null pointer followed, alike - and with arguments
    that set no field twice the record says the same; arguments that do make it depend on the order. *)
Theorem event_order delegate record args args' r :
  args ≡ₚ args' → EmitEvent delegate record args = Emitted (Some r) →
  ∃ r0 r', record = Some r0 ∧ EmitEvent delegate record args' = Emitted (Some r') ∧
    r ≡ₚ r' ∧ r = r0 ++ told args ∧ (NoDup (field <$> told args) → ∀ f, final f r = final f r').
Proof.
  intros Hp. unfold EmitEvent. destruct delegate; [|done]. cbn [negb]. destruct record as [r0|]; [|by destruct args].
  rewrite !Set_arguments_spec, (existsb_permuted nameless args args' Hp). destruct (existsb nameless args'); [done|]. intros [= <-].
  assert (Ht : told args ≡ₚ told args') by (unfold told; by rewrite Hp).
  exists r0, (r0 ++ told args'). split_and!; [done|done|by apply Permutation_app_head|done|].
  intros Hn f. change (concat (calls_of <$> args)) with (told args). rewrite !final_app. by rewrite (final_permuted f (told args) (told args')).
Qed.

Lemma event_order_witness :
  let args := [ASeverity kWarn; ABody (AV_string (B "hello"))] in
  ∃ r', EmitEvent true (Some []) (reverse args) = Emitted (Some r') ∧ r' = [SetBody (AV_string (B "hello")); SetSeverity kWarn] ∧
    final FSeverity r' = Some (SetSeverity kWarn).
Proof.
  cbv zeta. destruct (event_order true (Some []) [ASeverity kWarn; ABody (AV_string (B "hello"))] (reverse [ASeverity kWarn; ABody (AV_string (B "hello"))])
    [SetSeverity kWarn; SetBody (AV_string (B "hello"))]) as (r0 & r' & _ & E & _ & _ & Hf); [by rewrite reverse_Permutation|reflexivity|].
  exists r'. split; [exact E|]. split; [by injection E as <-|]. rewrite <-(Hf); [reflexivity|]. by apply (bool_decide_unpack _).
Defined.

(** A span context together with a span identifier: which of the two the record keeps is the compiler's choice. *)
Example event_order_matters (c : SpanContext) (s : SpanId) :
  final FSpanId (told [ASpanContext c; ASpanId s]) = Some (SetSpanId s) ∧
  final FSpanId (told [ASpanId s; ASpanContext c]) = Some (SetSpanId (span_id_ c)).
Proof. split; reflexivity. Qed.

(** Where a logger without a record does nothing, an event logger follows the null pointer. *)
Lemma event_without_record a args : EmitEvent true None (a :: args) = NullFollowed ∧ EmitEvent true None [] = Emitted None.
Proof. done. Qed.
