(* ===== verification/Noop.v ===== *)
(** * The API without an SDK

    OT/trace/noop.h and OT/logs/noop.h: the tracer, span and logger a program gets when nobody has set a provider.  Their
    methods do nothing; what they do have is ownership - every no-op tracer of the process hands out one span, a static
    local made by the first of them, which keeps that tracer alive - and the code of the API in front of them. *)
From S2P Require Export RefCount HttpTraceContext EventLogger.

(** ** NoopSpan *)

Record NoopSpan := MkNoopSpan { tracer_ : nat; span_context_ : option SpanContext }.

(** The two constructors; the second takes a unique pointer, which may be null. *)
Definition NoopSpan_new (tracer : nat) : NoopSpan := MkNoopSpan tracer (Some (SpanContext_invalid false false)).
Definition NoopSpan_with (tracer : nat) (span_context : option SpanContext) : NoopSpan := MkNoopSpan tracer span_context.

(** [None]: the null pointer is followed. *)
Definition NoopSpan_GetContext (sp : NoopSpan) : option SpanContext := span_context_ sp.
Definition NoopSpan_IsRecording (sp : NoopSpan) : bool := false.

(** ** Tracers and the static span *)

(** The objects alive with the number of their owners; the references the program holds; the static local [noop_span];
    the tracers that no shared pointer owns. *)
Record NoopWorld := MkNoopWorld {
  tracers : Shared unit;
  spans : Shared NoopSpan;
  tracer_handles : list nat;
  span_handles : list nat;
  noop_span : option nat;
  unowned : gset nat;
}.

Definition NoopWorld_init : NoopWorld := MkNoopWorld no_objects no_objects [] [] None ∅.

(** What a program does: make a tracer - behind a shared pointer, as a provider does, or as an object of its own -, copy and
    drop references, start spans, make a span itself. *)
Inductive noop_op :=
  | NewTracer (t : nat) | LocalTracer (t : nat) | CopyTracer (t : nat) | DropTracer (t : nat)
  | NewSpan (sp t : nat) (context : option SpanContext) | StartNoopSpan (t : nat) | CopySpan (sp : nat) | DropSpan (sp : nat).

(** A running program, one that called [std::terminate], or one that broke the rules of the operation. *)
Inductive noop_result := Running (w : NoopWorld) | Terminated | Misused.

Definition or_misused (r : option NoopWorld) : noop_result := match r with Some w => Running w | None => Misused end.

(** A free address. *)
Definition free_address (w : NoopWorld) : nat := fresh (dom (objects (spans w))).

(** [NoopTracer::StartSpan]: the static is initialised by the first call of the process, with a span that keeps the pointer
    [shared_from_this] makes; for a tracer without a control block this throws in a function that is noexcept. *)
Definition NoopTracer_StartSpan (t : nat) (w : NoopWorld) : noop_result :=
  match noop_span w with
  | Some sp =>
      or_misused (s ← share sp (spans w);
        Some (MkNoopWorld (tracers w) s (tracer_handles w) (sp :: span_handles w) (noop_span w) (unowned w)))
  | None =>
      match owners_of (tracers w) !! t with
      | None => Terminated
      | Some _ =>
          let sp := free_address w in
          or_misused (ts ← share t (tracers w); s ← share sp (make_shared sp (NoopSpan_new t) (spans w));
            Some (MkNoopWorld ts s (tracer_handles w) (sp :: span_handles w) (Some sp) (unowned w)))
      end
  end.

(** The last owner of a span destroys it, and with it its reference to the tracer. *)
Definition drop_span_reference (sp : nat) (w : NoopWorld) : option NoopWorld :=
  '(s, destroyed) ← unshare sp (spans w);
  match destroyed with
  | None => Some (MkNoopWorld (tracers w) s (tracer_handles w) (span_handles w) (noop_span w) (unowned w))
  | Some x =>
      '(ts, _) ← unshare (tracer_ x) (tracers w);
      Some (MkNoopWorld ts s (tracer_handles w) (span_handles w) (noop_span w) (unowned w))
  end.

Definition set_tracers (ts : Shared unit) (l : list nat) (w : NoopWorld) : NoopWorld :=
  MkNoopWorld ts (spans w) l (span_handles w) (noop_span w) (unowned w).
Definition set_span_handles (l : list nat) (w : NoopWorld) : NoopWorld :=
  MkNoopWorld (tracers w) (spans w) (tracer_handles w) l (noop_span w) (unowned w).
Definition set_spans (s : Shared NoopSpan) (l : list nat) (w : NoopWorld) : NoopWorld :=
  MkNoopWorld (tracers w) s (tracer_handles w) l (noop_span w) (unowned w).

Definition noop_step (o : noop_op) (w : NoopWorld) : noop_result :=
  match o with
  | NewTracer t => Running (set_tracers (make_shared t () (tracers w)) (t :: tracer_handles w) w)
  | LocalTracer t =>
      Running (MkNoopWorld (tracers w) (spans w) (tracer_handles w) (span_handles w) (noop_span w) ({[t]} ∪ unowned w))
  | CopyTracer t => or_misused (ts ← share t (tracers w); Some (set_tracers ts (t :: tracer_handles w) w))
  | DropTracer t =>
      or_misused (l ← drop_one t (tracer_handles w); '(ts, _) ← unshare t (tracers w); Some (set_tracers ts l w))
  | NewSpan sp t context =>
      or_misused (ts ← share t (tracers w);
        Some (set_spans (make_shared sp (NoopSpan_with t context) (spans w)) (sp :: span_handles w) (set_tracers ts (tracer_handles w) w)))
  | StartNoopSpan t => NoopTracer_StartSpan t w
  | CopySpan sp => or_misused (s ← share sp (spans w); Some (set_spans s (sp :: span_handles w) w))
  | DropSpan sp => or_misused (l ← drop_one sp (span_handles w); drop_span_reference sp (set_span_handles l w))
  end.

(** The rules: new objects are at free addresses, the others are reached through a reference the program holds. *)
Definition allowed (o : noop_op) (w : NoopWorld) : Prop :=
  match o with
  | NewTracer t | LocalTracer t => objects (tracers w) !! t = None ∧ t ∉ unowned w
  | CopyTracer t | DropTracer t => t ∈ tracer_handles w
  | NewSpan sp t _ => objects (spans w) !! sp = None ∧ t ∈ tracer_handles w
  | StartNoopSpan t => t ∈ tracer_handles w ∨ t ∈ unowned w
  | CopySpan sp | DropSpan sp => sp ∈ span_handles w
  end.

(** Destruction of the static at the end of the program. *)
Definition at_exit (w : NoopWorld) : option NoopWorld :=
  match noop_span w with
  | None => Some w
  | Some sp => drop_span_reference sp (MkNoopWorld (tracers w) (spans w) (tracer_handles w) (span_handles w) None (unowned w))
  end.

(** ** Accounting *)

Definition static_reference (w : NoopWorld) : list nat := match noop_span w with Some sp => [sp] | None => [] end.

Record noop_wf (w : NoopWorld) : Prop := MkNoopWf {
  nw_tracers : owned (tracers w) (tracer_handles w ++ members tracer_ (objects (spans w)));
  nw_spans : owned (spans w) (span_handles w ++ static_reference w);
  nw_unowned : ∀ t, t ∈ unowned w → objects (tracers w) !! t = None;
  nw_static : ∀ sp, noop_span w = Some sp → ∃ t, objects (spans w) !! sp = Some (NoopSpan_new t);
}.

Lemma drop_span_reference_spec w sp rest l :
  owned (spans w) (sp :: rest) → owned (tracers w) (l ++ members tracer_ (objects (spans w))) →
  ∃ ts s,
    drop_span_reference sp w = Some (MkNoopWorld ts s (tracer_handles w) (span_handles w) (noop_span w) (unowned w)) ∧
    owned s rest ∧ owned ts (l ++ members tracer_ (objects s)) ∧
    (∀ x, x ∈ rest → objects s !! x = objects (spans w) !! x) ∧
    (∀ t, objects (tracers w) !! t = None → objects ts !! t = None).
Proof.
  intros Hs Ht. unfold drop_span_reference. destruct (owned_unshare _ _ _ Hs) as (s & x & Hx & Hs' & [(Hin & -> & Ho)|(Hout & -> & Ho)]); cbn [mbind option_bind].
  - exists (tracers w), s. rewrite Ho. by split_and!.
  - rewrite (members_delete tracer_ _ sp x Hx), <-Ho in Ht.
    assert (Ht' : owned (tracers w) (tracer_ x :: l ++ members tracer_ (objects s))) by (eapply owned_proper, Ht; by rewrite Permutation_middle).
    assert (Hkeep : ∀ x', x' ∈ rest → objects s !! x' = objects (spans w) !! x')
      by (intros x' Hx'; rewrite Ho; apply lookup_delete_ne; by intros <-).
    destruct (owned_unshare _ _ _ Ht') as (ts & [] & _ & Hts & [(_ & -> & Hto)|(_ & -> & Hto)]); cbn [mbind option_bind]; exists ts, s;
      (split_and!; [done..|]); intros t Ht0; rewrite Hto; [done|]. by rewrite lookup_delete_None; right.
Qed.

(** A new span that the program makes, or the static one, with references to it. *)
Lemma owned_new_span w sp t x :
  noop_wf w → objects (spans w) !! sp = None → t ∈ tracer_handles w ++ members tracer_ (objects (spans w)) → tracer_ x = t →
  ∃ ts, share t (tracers w) = Some ts ∧ owned ts (tracer_handles w ++ members tracer_ (<[sp := x]> (objects (spans w)))) ∧
    objects ts = objects (tracers w) ∧ owned (make_shared sp x (spans w)) (sp :: span_handles w ++ static_reference w).
Proof.
  intros Hw Hf Ht <-. destruct (owned_share _ _ _ (nw_tracers w Hw) Ht) as (ts & -> & Hts & Ho). exists ts. split_and!; [done| |done|].
  - eapply owned_proper, Hts. by rewrite (members_insert tracer_ _ sp x Hf), <-Permutation_middle.
  - apply owned_make, Hw. done.
Qed.

Lemma free_address_free w : objects (spans w) !! free_address w = None.
Proof. apply not_elem_of_dom. unfold free_address. apply is_fresh. Qed.

(** A step that obeys the rules goes on and keeps the accounts, or is the first use of a tracer without an owner; the static,
    once made, stays. *)
Definition goes_on (w : NoopWorld) (r : noop_result) : Prop :=
  ∃ w', r = Running w' ∧ noop_wf w' ∧ ∀ sp, noop_span w = Some sp → noop_span w' = Some sp ∧ objects (spans w') !! sp = objects (spans w) !! sp.

Lemma start_span_ok t w :
  noop_wf w → allowed (StartNoopSpan t) w →
  (NoopTracer_StartSpan t w = Terminated ∧ t ∈ unowned w ∧ noop_span w = None) ∨ goes_on w (NoopTracer_StartSpan t w).
Proof.
  intros Hw Ha. unfold NoopTracer_StartSpan, goes_on. destruct (noop_span w) as [sp|] eqn:E.
  - right. assert (Hin : sp ∈ span_handles w ++ static_reference w) by (unfold static_reference; rewrite E, elem_of_app; right; by left).
    destruct (owned_share _ _ _ (nw_spans w Hw) Hin) as (s & -> & Hs & Ho). cbn. eexists. split; [done|]. cbn. rewrite Ho. split; [|naive_solver].
    destruct Hw. split; unfold static_reference in *; cbn; rewrite ?E in *; try rewrite Ho; done.
  - destruct (owners_of (tracers w) !! t) as [n|] eqn:En.
    + right. assert (Hin : t ∈ tracer_handles w ++ members tracer_ (objects (spans w))) by (apply tally_dom; rewrite <-(ow_counts _ _ (nw_tracers w Hw)); eauto).
      set (sp := free_address w). pose proof (free_address_free w) as Hf. fold sp in Hf.
      destruct (owned_new_span w sp t (NoopSpan_new t) Hw Hf Hin eq_refl) as (ts & -> & Hts & Ho & Hs).
      cbn [mbind option_bind]. destruct (owned_share _ _ sp Hs ltac:(by left)) as (s & -> & Hs' & Ho'). cbn. eexists. split; [done|]. split; [|done].
      split; unfold static_reference in *; cbn; rewrite ?E, ?app_nil_r in *.
      * rewrite Ho'. done.
      * eapply owned_proper, Hs'. by rewrite <-Permutation_cons_append.
      * rewrite Ho. apply Hw.
      * intros sp' [= <-]. exists t. rewrite Ho'. apply lookup_insert_eq.
    + left. split_and!; [done| |done]. destruct Ha as [Ha|Ha]; [|done]. exfalso.
      rewrite (ow_counts _ _ (nw_tracers w Hw)), tally_none in En. apply En. rewrite elem_of_app. by left.
Qed.

Lemma static_kept w s : noop_wf w → (∀ sp, sp ∈ static_reference w → objects s !! sp = objects (spans w) !! sp) →
  ∀ sp, noop_span w = Some sp → ∃ t, objects s !! sp = Some (NoopSpan_new t).
Proof.
  intros Hw Hk sp E. destruct (nw_static w Hw sp E) as [t Ht]. exists t. rewrite Hk; [done|]. unfold static_reference. rewrite E. by left.
Qed.

Lemma noop_step_ok o w :
  noop_wf w → allowed o w →
  (noop_step o w = Terminated ∧ (∃ t, o = StartNoopSpan t ∧ t ∈ unowned w) ∧ noop_span w = None) ∨ goes_on w (noop_step o w).
Proof.
  intros Hw Ha. destruct o as [t|t|t|t|sp t c|t|sp|sp]; cbn [noop_step allowed] in *; [right..| |right|right]; try unfold goes_on.
  - destruct Ha as [Hf Hu]. eexists. split; [done|]. split; [|naive_solver]. destruct Hw. split; cbn; try done; [by apply owned_make|].
    intros t' Ht'. rewrite lookup_insert_ne by (by intros <-). auto.
  - eexists. split; [done|]. split; [|naive_solver]. destruct Hw. split; cbn; try done. set_solver.
  - destruct (owned_share _ _ t (nw_tracers w Hw)) as (ts & -> & Hts & Ho); [rewrite elem_of_app; by left|]. cbn. eexists. split; [done|].
    split; [|naive_solver]. destruct Hw. split; cbn; try done. by rewrite Ho.
  - destruct (drop_one_spec t _ Ha) as (l & -> & Hl). cbn [mbind option_bind]. pose proof (nw_tracers w Hw) as Ht. rewrite Hl in Ht.
    destruct (owned_unshare _ _ _ Ht) as (ts & [] & _ & Hts & [(_ & -> & Ho)|(_ & -> & Ho)]); cbn; eexists; (split; [done|]);
      (split; [|naive_solver]); destruct Hw; (split; cbn; try done); rewrite Ho; [done|]; intros; rewrite lookup_delete_None; right; auto.
  - destruct Ha as [Hf Ht]. destruct (owned_new_span w sp t (NoopSpan_with t c) Hw Hf) as (ts & -> & Hts & Ho & Hs); [rewrite elem_of_app; by left|done|].
    cbn. eexists. split; [done|].
    assert (Hne : ∀ sp', noop_span w = Some sp' → <[sp := NoopSpan_with t c]> (objects (spans w)) !! sp' = objects (spans w) !! sp').
    { intros sp' E. destruct (nw_static w Hw sp' E) as [t' Ht']. apply lookup_insert_ne. intros <-. by rewrite Hf in Ht'. }
    split; [|cbn; intros sp' E; by rewrite Hne]. destruct Hw. split; cbn; try done; [by rewrite Ho|]. intros sp' E. rewrite Hne by done. auto.
  - destruct (start_span_ok t w Hw Ha) as [(H1 & H2 & H3)|H]; [left; split_and!; eauto|by right].
  - destruct (owned_share _ _ sp (nw_spans w Hw)) as (s & -> & Hs & Ho); [rewrite elem_of_app; by left|]. cbn. eexists. split; [done|].
    cbn. rewrite Ho. split; [|naive_solver]. destruct Hw. split; cbn; try done; by rewrite Ho.
  - destruct (drop_one_spec sp _ Ha) as (l & -> & Hl). cbn [mbind option_bind]. pose proof (nw_spans w Hw) as Hs. rewrite Hl in Hs.
    destruct (drop_span_reference_spec (set_span_handles l w) sp (l ++ static_reference w) (tracer_handles w) Hs (nw_tracers w Hw))
      as (ts & s & -> & Hs' & Hts & Hk & Hn). cbn. eexists. split; [done|].
    assert (Hks : ∀ sp', sp' ∈ static_reference w → objects s !! sp' = objects (spans w) !! sp') by (intros; apply Hk; rewrite elem_of_app; by right).
    split; [|intros sp' E; split; [done|apply Hks; unfold static_reference; rewrite E; by left]].
    split; cbn; try done; [intros; apply Hn; by apply Hw|by apply static_kept].
Qed.

(** ** What a program sees *)

Inductive noop_reach : NoopWorld → Prop :=
  | noop_start : noop_reach NoopWorld_init
  | noop_next w o w' : noop_reach w → allowed o w → noop_step o w = Running w' → noop_reach w'.

Lemma noop_reach_wf w : noop_reach w → noop_wf w.
Proof.
  induction 1 as [|w o w' _ IH Ha E].
  - split; cbn; [rewrite members_empty; apply owned_none|apply owned_none|set_solver|done].
  - destruct (noop_step_ok o w IH Ha) as [(E' & _)|(w'' & E' & Hw & _)]; rewrite E in E'; [done|]. by injection E' as <-.
Qed.

Lemma exit_frees w : noop_wf w → tracer_handles w = [] → span_handles w = [] → ∃ w', at_exit w = Some w' ∧ objects (spans w') = ∅ ∧ objects (tracers w') = ∅.
Proof.
  intros [Ht Hs _ _] Et Es. unfold at_exit. unfold static_reference in Hs. rewrite Et in Ht. rewrite Es in Hs. cbn [app] in *.
  destruct (noop_span w) as [sp|] eqn:E.
  - match goal with |- context [drop_span_reference sp ?v] => set (w0 := v) end.
    destruct (drop_span_reference_spec w0 sp [] [] Hs Ht) as (ts & s & -> & Hs' & Hts & _). eexists. split; [done|].
    apply owned_nil in Hs'. rewrite Hs', members_empty in Hts. cbn. by apply owned_nil in Hts.
  - exists w. apply owned_nil in Hs. rewrite Hs, members_empty in Ht. by apply owned_nil in Ht.
Qed.

(** A program that holds what it uses is never let down: the counts are right at every step.  All tracers hand out one and the
    same span, which belongs to the tracer that started the first and keeps it alive whatever the program drops; at the end of
    a program that has dropped everything the static goes and nothing is left. *)
Theorem noop_span_shared w :
  noop_reach w →
  (∀ o, allowed o w → noop_step o w ≠ Misused) ∧
  (∀ sp, noop_span w = Some sp →
     (∃ t, objects (spans w) !! sp = Some (NoopSpan_new t) ∧ is_Some (objects (tracers w) !! t)) ∧
     ∀ t, allowed (StartNoopSpan t) w → ∃ w', noop_step (StartNoopSpan t) w = Running w' ∧ span_handles w' = sp :: span_handles w) ∧
  (tracer_handles w = [] → span_handles w = [] → ∃ w', at_exit w = Some w' ∧ objects (spans w') = ∅ ∧ objects (tracers w') = ∅).
Proof.
  intros Hw%noop_reach_wf. split; [|split].
  - intros o Ha. by destruct (noop_step_ok o w Hw Ha) as [(-> & _)|(w' & -> & _)].
  - intros sp E. split.
    + destruct (nw_static w Hw sp E) as [t Ht]. exists t. split; [done|]. apply (ow_alive _ _ (nw_tracers w Hw)). rewrite elem_of_app. right.
      apply (members_in tracer_ _ sp (NoopSpan_new t) Ht).
    + intros t Ha. destruct (noop_step_ok (StartNoopSpan t) w Hw Ha) as [(_ & _ & E')|(w' & Hr & _)]; [by rewrite E in E'|].
      exists w'. split; [done|]. revert Hr. cbn [noop_step]. unfold NoopTracer_StartSpan. rewrite E.
      destruct (share sp (spans w)); [|done]. by intros [= <-].
  - by apply exit_frees.
Qed.

(** Two tracers: the first to start a span stays when its last owner has gone, the second goes; a third that nobody owns can
    use the span but could not have made it. *)
Example two_tracers :
  let ops := [NewTracer 1; NewTracer 2; StartNoopSpan 1; StartNoopSpan 2; DropTracer 1; DropTracer 2; LocalTracer 3; StartNoopSpan 3] in
  let run := foldl (λ r o, match r with Running w => noop_step o w | r => r end) (Running NoopWorld_init) in
  match run ops with
  | Running w => span_handles w = [0; 0; 0] ∧ objects (tracers w) !! 1 = Some () ∧ objects (tracers w) !! 2 = None
  | _ => False
  end ∧
  run [LocalTracer 3; StartNoopSpan 3] = Terminated.
Proof. vm_compute. repeat split. Qed.

(** The current span of such a program has no context: nothing is injected. *)
Lemma noop_span_injects_nothing {C} `{TextMapCarrier C} (carrier : C) ctx handle t c :
  NoopSpan_GetContext (NoopSpan_new t) = Some c → HttpTraceContext_Inject carrier (SetSpan ctx (OtherSpan handle c)) = carrier.
Proof. intros [= <-]. unfold HttpTraceContext_Inject. by rewrite GetSpan_SetSpan. Qed.

(** A span made with the context of another process passes that context on. *)
Lemma noop_span_injects_its_context {C} `{TextMapCarrier C} (carrier : C) ctx handle t sc :
  SpanContext_IsValid sc = true → ∃ c, NoopSpan_GetContext (NoopSpan_with t (Some sc)) = Some c ∧
    HttpTraceContext_Inject carrier (SetSpan ctx (OtherSpan handle c)) = InjectImpl carrier sc.
Proof. intros Hv. exists sc. split; [done|]. unfold HttpTraceContext_Inject. rewrite GetSpan_SetSpan. cbn [GetContext]. by rewrite Hv. Qed.

(** ** NoopLogger *)

(** A record is allocated for each call, and the setters, called through the same templates, do nothing with it; the call
    ends, or a null pointer was followed before the setter was reached. *)
Definition NoopLogger_CreateLogRecord : option LogRecord := Some [].
Definition NoopLogger_GetName : bytes := B "noop logger".
Definition NoopEventLogger_GetName : bytes := B "noop event logger".
Definition NoopLogger_log (args : list log_argument) : option unit :=
  match NoopLogger_CreateLogRecord with None => Some () | Some r => _ ← Set_arguments r args; Some () end.
Definition NoopEventLogger_EmitEvent (order : list log_argument) : option unit :=
  match EmitEvent true NoopLogger_CreateLogRecord order with NullFollowed => None | _ => Some () end.

(** The no-op loggers fail where the others do, and nowhere else: an event given by a number brings a program down that has
    no SDK at all. *)
Theorem noop_logger_spec args :
  (NoopLogger_log args = None ↔ Exists (λ a, nameless a = true) args) ∧ NoopEventLogger_EmitEvent args = NoopLogger_log args.
Proof.
  unfold NoopEventLogger_EmitEvent, NoopLogger_log, EmitEvent, NoopLogger_CreateLogRecord. cbn [negb]. rewrite Set_arguments_spec. split.
  - destruct (existsb nameless args) eqn:E; cbn.
    + split; [|done]. intros _. apply list.Exists_exists. apply existsb_exists in E as (a & Ha & Hn). exists a. by rewrite list_elem_of_In.
    + split; [done|]. intros (a & Ha & Hn)%list.Exists_exists. assert (existsb nameless args = true); [|congruence].
      apply existsb_exists. exists a. by rewrite <-list_elem_of_In.
  - by destruct (existsb nameless args).
Qed.

Example noop_numeric_event : NoopLogger_log [ASeverity kWarn; AEventId (EventId_number 7)] = None.
Proof. reflexivity. Qed.
