(* ===== verification/Printing.v ===== *)
(** * Printing attribute values

    OT/exporters/ostream/common_utils.h: what the stream exporters write for the value of an attribute.  A stream with its
    default flags is the text written to it; how a double is written is a parameter. *)
From S2P Require Export Attributes.

Section printing.
(** [sout << d] for the double with these bits. *)
Context (print_double : Z → bytes).

Definition print_bool (b : bool) : bytes := if b then B "1" else B "0".

(** [sout << c] for an unsigned char writes the character. *)
Definition print_uint8 (z : Z) : bytes := [chr z].

(** The loop over a vector or a span, with its counter. *)
Fixpoint print_elements {T} (print : T → bytes) (i sz : nat) (l : list T) (sout : bytes) : bytes :=
  match l with
  | [] => sout
  | v :: l =>
      let sout := sout ++ print v in
      let sout := if negb (i =? sz) then sout ++ [","%char] else sout in
      print_elements print (i + 1) sz l sout
  end.

Definition print_vector {T} (print : T → bytes) (vec : list T) (sout : bytes) : bytes :=
  print_elements print 1 (length vec) vec (sout ++ ["["%char]) ++ ["]"%char].

Definition print_owned_value (value : OwnedAttributeValue) (sout : bytes) : bytes :=
  match value with
  | OV_bool b => sout ++ print_bool b
  | OV_int32 z | OV_uint32 z | OV_int64 z | OV_uint64 z => sout ++ to_string z
  | OV_double d => sout ++ print_double d
  | OV_string s => sout ++ s
  | OV_vec_bool l => print_vector print_bool l sout
  | OV_vec_int32 l | OV_vec_uint32 l | OV_vec_int64 l | OV_vec_uint64 l => print_vector to_string l sout
  | OV_vec_double l => print_vector print_double l sout
  | OV_vec_string l => print_vector id l sout
  | OV_vec_uint8 l => print_vector print_uint8 l sout
  end.

Definition print_value (value : AttributeValue) (sout : bytes) : bytes :=
  match value with
  | AV_bool b => sout ++ print_bool b
  | AV_int32 z | AV_int64 z | AV_uint32 z | AV_uint64 z => sout ++ to_string z
  | AV_double d => sout ++ print_double d
  | AV_cstr s => sout ++ cstr s
  | AV_string s => sout ++ s
  | AV_span_bool l => print_vector print_bool l sout
  | AV_span_int32 l | AV_span_int64 l | AV_span_uint32 l | AV_span_uint64 l => print_vector to_string l sout
  | AV_span_double l => print_vector print_double l sout
  | AV_span_string l => print_vector id l sout
  | AV_span_uint8 l => print_vector print_uint8 l sout
  end.

(** ** What is printed *)

(** The texts with a comma between them. *)
Fixpoint commas (l : list bytes) : bytes :=
  match l with
  | [] => []
  | [x] => x
  | x :: l => x ++ ","%char :: commas l
  end.

Lemma print_elements_spec {T} (print : T → bytes) l i sout :
  print_elements print (S i) (i + length l) l sout = sout ++ commas (print <$> l).
Proof.
  revert i sout. induction l as [|v l IH]; intros i sout; [by rewrite app_nil_r|]. cbn [print_elements length fmap list_fmap commas].
  destruct l as [|v' l].
  - cbn [length fmap list_fmap print_elements]. rewrite Nat.add_1_r, Nat.eqb_refl. done.
  - destruct (S i =? i + S (length (v' :: l))) eqn:E; [apply Nat.eqb_eq in E; cbn [length] in E; lia|]. cbn [negb].
    replace (i + S (length (v' :: l))) with (S i + length (v' :: l)) by lia. rewrite (Nat.add_comm (S i) 1). cbn [Nat.add].
    rewrite (IH (S i)). cbn [fmap list_fmap]. by rewrite <-!(assoc_L (++)).
Qed.

Lemma print_vector_spec {T} (print : T → bytes) l sout : print_vector print l sout = sout ++ "["%char :: commas (print <$> l) ++ ["]"%char].
Proof. unfold print_vector. rewrite (print_elements_spec print l 0). by rewrite <-!(assoc_L (++)). Qed.

(** What the stream shows for a value does not depend on whether it was converted to one that owns its data first. *)
Theorem print_converted v sout : print_owned_value (AttributeConverter v) sout = print_value v sout.
Proof. by destruct v. Qed.

(** Only ever at the end of the stream. *)
Lemma print_value_appends v sout : print_value v sout = sout ++ print_value v [].
Proof. destruct v; cbn [print_value]; rewrite ?print_vector_spec; try done; by rewrite app_nil_l. Qed.

(** A string with a comma is not told from two. *)
Example print_ambiguous : print_value (AV_span_string [B "a,b"]) [] = print_value (AV_span_string [B "a"; B "b"]) [].
Proof. reflexivity. Qed.

(** An array of bytes is printed as characters, not numbers: one holding 91, 44 and 93 looks like brackets and commas. *)
Example print_bytes_as_characters : print_value (AV_span_uint8 [65; 66]%Z) [] = B "[A,B]".
Proof. reflexivity. Qed.
End printing.
