(* ===== verification/SpanData.v ===== *)
(** * Span data

    sdk/trace/recordable.h as an interface - its methods as calls - and sdk/trace/span_data.h: the
    recordable that keeps everything it is told.  Resources and instrumentation scopes are
    borrowed pointers: their addresses. *)
From S2P Require Export Ids Attributes Timestamp.

(** ** The interface *)

Inductive RecordableCall :=
  | SetIdentity (span_context : SpanContext) (parent_span_id : SpanId)
  | CallSetAttribute (key : bytes) (value : AttributeValue)
  | AddEvent (name : bytes) (timestamp : SystemTimestamp) (attributes : KeyValues)
  | AddLink (span_context : SpanContext) (attributes : KeyValues)
  | SetStatus (code : StatusCode) (description : bytes)
  | SetName (name : bytes)
  | SetTraceFlags (flags : TraceFlags)
  | SetSpanKind (span_kind : SpanKind)
  | SetResource (resource : positive)
  | SetStartTime (start_time : SystemTimestamp)
  | SetDuration (duration : Z)
  | SetInstrumentationScope (scope : positive).

Class Recordable (R : Type) := { record : R → RecordableCall → R }.

(** ** SpanData *)

Record SpanDataEvent := MkSpanDataEvent {
  event_name_ : bytes;
  event_timestamp_ : SystemTimestamp;
  event_attribute_map_ : AttributeMap;
}.

Record SpanDataLink := MkSpanDataLink {
  link_span_context_ : SpanContext;
  link_attribute_map_ : AttributeMap;
}.

Record SpanData := MkSpanData {
  span_context_ : SpanContext;
  parent_span_id_ : SpanId;
  start_time_ : SystemTimestamp;
  duration_ : Z;
  name_ : bytes;
  status_code_ : StatusCode;
  status_desc_ : bytes;
  attribute_map_ : AttributeMap;
  events_ : list SpanDataEvent;
  links_ : list SpanDataLink;
  flags_ : TraceFlags;
  span_kind_ : SpanKind;
  resource_ : option positive;
  instrumentation_scope_ : option positive;
}.

Definition SpanData_new : SpanData :=
  MkSpanData (SpanContext_invalid false false) SpanId_default Timestamp_default 0 [] kUnset [] ∅ [] [] (TraceFlags_new 0)
    kInternal None None.

Definition SpanData_record (d : SpanData) (c : RecordableCall) : SpanData :=
  match d with
  | MkSpanData ctx parent start dur name code desc attrs events links flags kind res scope =>
      match c with
      | SetIdentity ctx parent => MkSpanData ctx parent start dur name code desc attrs events links flags kind res scope
      | CallSetAttribute k v =>
          MkSpanData ctx parent start dur name code desc (SetAttribute attrs k v) events links flags kind res scope
      | AddEvent n t a =>
          let event := MkSpanDataEvent n t (AttributeMap_of a) in
          MkSpanData ctx parent start dur name code desc attrs (events ++ [event]) links flags kind res scope
      | AddLink sc a =>
          let link := MkSpanDataLink sc (AttributeMap_of a) in
          MkSpanData ctx parent start dur name code desc attrs events (links ++ [link]) flags kind res scope
      | SetStatus code desc => MkSpanData ctx parent start dur name code desc attrs events links flags kind res scope
      | SetName name => MkSpanData ctx parent start dur name code desc attrs events links flags kind res scope
      | SetTraceFlags flags => MkSpanData ctx parent start dur name code desc attrs events links flags kind res scope
      | SetSpanKind kind => MkSpanData ctx parent start dur name code desc attrs events links flags kind res scope
      | SetResource r => MkSpanData ctx parent start dur name code desc attrs events links flags kind (Some r) scope
      | SetStartTime start => MkSpanData ctx parent start dur name code desc attrs events links flags kind res scope
      | SetDuration dur => MkSpanData ctx parent start dur name code desc attrs events links flags kind res scope
      | SetInstrumentationScope s => MkSpanData ctx parent start dur name code desc attrs events links flags kind res (Some s)
      end
  end.

#[export] Instance SpanData_Recordable : Recordable SpanData := { record := SpanData_record }.

Definition GetTraceId (d : SpanData) : TraceId := trace_id_ (span_context_ d).
Definition GetSpanId (d : SpanData) : SpanId := span_id_ (span_context_ d).

(** The static empty resource, or the one that was set; likewise the scope. *)
Definition GetResource (empty : positive) (d : SpanData) : positive := default empty (resource_ d).
Definition GetInstrumentationScope (unknown_service : positive) (d : SpanData) : positive :=
  default unknown_service (instrumentation_scope_ d).

(** ** What was recorded *)

Definition last_of {A} (f : RecordableCall → option A) (init : A) (cs : list RecordableCall) : A :=
  default init (list.last (omap f cs)).

Lemma last_of_snoc {A} (f : RecordableCall → option A) init cs c :
  last_of f init (cs ++ [c]) = default (last_of f init cs) (f c).
Proof.
  unfold last_of. rewrite omap_app. cbn [omap list_omap]. destruct (f c) as [x|]; cbn [default].
  - by rewrite list.last_snoc.
  - by rewrite app_nil_r.
Qed.

Lemma omap_snoc {A} (f : RecordableCall → option A) cs c : omap f (cs ++ [c]) = omap f cs ++ option_list (f c).
Proof. rewrite omap_app. cbn [omap list_omap]. by destruct (f c). Qed.

Lemma AttributeMap_of_snoc kvs k v : AttributeMap_of (kvs ++ [(k, v)]) = SetAttribute (AttributeMap_of kvs) k v.
Proof. unfold AttributeMap_of. rewrite !ForEachKeyValue_all. cbn [fst]. by rewrite foldl_snoc. Qed.

(** A span data answers with what it was last told for each single value, with every event and every
    link in the order they came, and with the last value of each attribute. *)
Theorem span_data_records cs :
  foldl record SpanData_new cs =
    let identity := last_of (λ c, match c with SetIdentity s p => Some (s, p) | _ => None end)
                      (SpanContext_invalid false false, SpanId_default) cs in
    let status := last_of (λ c, match c with SetStatus s d => Some (s, d) | _ => None end) (kUnset, []) cs in
    {| span_context_ := identity.1;
       parent_span_id_ := identity.2;
       start_time_ := last_of (λ c, match c with SetStartTime t => Some t | _ => None end) Timestamp_default cs;
       duration_ := last_of (λ c, match c with SetDuration t => Some t | _ => None end) 0%Z cs;
       name_ := last_of (λ c, match c with SetName n => Some n | _ => None end) [] cs;
       status_code_ := status.1;
       status_desc_ := status.2;
       attribute_map_ := AttributeMap_of (omap (λ c, match c with CallSetAttribute k v => Some (k, v) | _ => None end) cs);
       events_ := omap (λ c, match c with AddEvent n t a => Some (MkSpanDataEvent n t (AttributeMap_of a)) | _ => None end) cs;
       links_ := omap (λ c, match c with AddLink s a => Some (MkSpanDataLink s (AttributeMap_of a)) | _ => None end) cs;
       flags_ := last_of (λ c, match c with SetTraceFlags f => Some f | _ => None end) (TraceFlags_new 0) cs;
       span_kind_ := last_of (λ c, match c with SetSpanKind k => Some k | _ => None end) kInternal cs;
       resource_ := last_of (λ c, match c with SetResource r => Some (Some r) | _ => None end) None cs;
       instrumentation_scope_ := last_of (λ c, match c with SetInstrumentationScope s => Some (Some s) | _ => None end) None cs |}.
Proof.
  induction cs as [|c cs IH] using rev_ind; [done|]. rewrite foldl_snoc, IH. cbv zeta. rewrite !last_of_snoc, !omap_snoc.
  destruct c; unfold option_list; cbn [option_rect record SpanData_Recordable SpanData_record default fst snd];
    rewrite ?app_nil_r, ?AttributeMap_of_snoc; reflexivity.
Qed.
