(* ===== verification/Plugin.v ===== *)
(** * Plugins: implementations of the API loaded at run time

    plugin/: [LoadFactory] opens a shared library, finds its hook and asks it for a factory; factories make tracers,
    tracers start spans.  What the user gets are wrappers around the plugin's objects, and each wrapper keeps alive what its
    object's code lives in: a span its tracer, a tracer and a factory the library, which is closed by the last of them.

    The kernel's loader, the allocator and the plugin are arguments: each operation is given what they
    answer.  The plugin's objects are numbers that are alive or not; running their code, their destructors
    included, after their library was closed is a fault. *)
From S2P Require Export RefCount Cxx Attributes SpanData.

(** ** The state *)

(** The methods of a span and of a tracer that the wrappers pass on, and those of the plugin's own objects. *)
Inductive plugin_call :=
  | PcSetAttribute (name : bytes) (value : AttributeValue)
  | PcAddEvent (name : bytes)
  | PcAddEventAt (name : bytes) (timestamp : Z)
  | PcAddEventWith (name : bytes) (attributes : list (bytes * AttributeValue))
  | PcAddEventAtWith (name : bytes) (timestamp : Z) (attributes : list (bytes * AttributeValue))
  | PcSetStatus (code : StatusCode) (description : bytes)
  | PcUpdateName (name : bytes)
  | PcEnd
  | PcIsRecording
  | PcGetContext
  | PcForceFlushWithMicroseconds (timeout : Z)
  | PcCloseWithMicroseconds (timeout : Z)
  | PcStartSpan (name : bytes)
  | PcMakeTracerHandle (tracer_config : bytes).

(** Libraries are numbered by the calls of [dlopen].  [handles] has the DynamicLibraryHandle objects;
    [factories] and [tracers] their members library_handle_ and factory_impl_ or tracer_handle_, [spans]
    tracer_ and span_.  [impls] and [inners] are the plugin's objects alive, with the library their code is in.
    [unmanaged] are libraries without a handle object. *)
Record World := MkWorld {
  opened : gset nat;
  closed : list nat;
  unmanaged : list nat;
  next_lib : nat;
  handles : Shared unit;
  factories : gmap nat (nat * nat);
  tracers : Shared (nat * nat);
  spans : Shared (nat * nat);
  impls : gmap nat nat;
  inners : Shared nat;
  called : list (nat * plugin_call);
}.

Definition World_init : World := MkWorld ∅ [] [] 0 no_objects ∅ no_objects no_objects ∅ no_objects [].

Definition set_libraries (w : World) (o : gset nat) (c u : list nat) (n : nat) (h : Shared unit) : World :=
  MkWorld o c u n h (factories w) (tracers w) (spans w) (impls w) (inners w) (called w).
Definition set_factories (w : World) (m : gmap nat (nat * nat)) : World :=
  MkWorld (opened w) (closed w) (unmanaged w) (next_lib w) (handles w) m (tracers w) (spans w) (impls w) (inners w) (called w).
Definition set_tracers (w : World) (s : Shared (nat * nat)) : World :=
  MkWorld (opened w) (closed w) (unmanaged w) (next_lib w) (handles w) (factories w) s (spans w) (impls w) (inners w) (called w).
Definition set_spans (w : World) (s : Shared (nat * nat)) : World :=
  MkWorld (opened w) (closed w) (unmanaged w) (next_lib w) (handles w) (factories w) (tracers w) s (impls w) (inners w) (called w).
Definition set_impls (w : World) (m : gmap nat nat) : World :=
  MkWorld (opened w) (closed w) (unmanaged w) (next_lib w) (handles w) (factories w) (tracers w) (spans w) m (inners w) (called w).
Definition set_inners (w : World) (s : Shared nat) : World :=
  MkWorld (opened w) (closed w) (unmanaged w) (next_lib w) (handles w) (factories w) (tracers w) (spans w) (impls w) s (called w).
Definition set_called (w : World) (l : list (nat * plugin_call)) : World :=
  MkWorld (opened w) (closed w) (unmanaged w) (next_lib w) (handles w) (factories w) (tracers w) (spans w) (impls w) (inners w) l.
Definition set_handles (w : World) (h : Shared unit) : World := set_libraries w (opened w) (closed w) (unmanaged w) (next_lib w) h.

(** ** Running code of a plugin *)

(** The code of library [l] is there to be run. *)
Definition code_of (l : nat) (w : World) : option unit := if decide (l ∈ opened w) then Some tt else None.

Definition dlclose (l : nat) (w : World) : option World :=
  _ ← code_of l w;
  Some (set_libraries w (opened w ∖ {[l]}) (closed w ++ [l]) (unmanaged w) (next_lib w) (handles w)).

Definition call_impl (i : nat) (c : plugin_call) (w : World) : option World :=
  l ← impls w !! i; _ ← code_of l w; Some (set_called w (called w ++ [(i, c)])).

Definition destroy_impl (i : nat) (w : World) : option World :=
  l ← impls w !! i; _ ← code_of l w; Some (set_impls w (delete i (impls w))).

Definition call_inner (i : nat) (c : plugin_call) (w : World) : option World :=
  l ← objects (inners w) !! i; _ ← code_of l w; Some (set_called w (called w ++ [(i, c)])).

(** A nostd::shared_ptr to a span of the plugin is a wrapper made there: copying and destroying it runs the plugin's code. *)
Definition copy_inner (i : nat) (w : World) : option World :=
  l ← objects (inners w) !! i; _ ← code_of l w; s ← share i (inners w); Some (set_inners w s).

Definition release_inner (i : nat) (w : World) : option World :=
  l ← objects (inners w) !! i; _ ← code_of l w; '(s, _) ← unshare i (inners w); Some (set_inners w s).

(** ** Ownership *)

(** One owner of the library less: [~DynamicLibraryHandleUnix] after the last. *)
Definition release_library (l : nat) (w : World) : option World :=
  '(s, last) ← unshare l (handles w);
  let w := set_handles w s in
  match last with Some _ => dlclose l w | None => Some w end.

(** Members are destroyed in the reverse order of their declaration: the tracer handle, then the library. *)
Definition Tracer_destroy (members : nat * nat) (w : World) : option World :=
  let '(library_handle_, tracer_handle_) := members in
  w ← destroy_impl tracer_handle_ w; release_library library_handle_ w.

Definition release_tracer (t : nat) (w : World) : option World :=
  '(s, last) ← unshare t (tracers w);
  let w := set_tracers w s in
  match last with Some members => Tracer_destroy members w | None => Some w end.

Definition Span_destroy (members : nat * nat) (w : World) : option World :=
  let '(tracer_, span_) := members in
  w ← release_inner span_ w; release_tracer tracer_ w.

Definition release_span (s : nat) (w : World) : option World :=
  '(sh, last) ← unshare s (spans w);
  let w := set_spans w sh in
  match last with Some members => Span_destroy members w | None => Some w end.

Definition Factory_destroy (f : nat) (w : World) : option World :=
  '(library_handle_, factory_impl_) ← factories w !! f;
  let w := set_factories w (delete f (factories w)) in
  w ← destroy_impl factory_impl_ w; release_library library_handle_ w.

(** ** Loading *)

Definition CopyErrorMessage (source : option bytes) (destination : bytes) : bytes :=
  match source with None => destination | Some s => cstr s end.

(** What [dlsym] finds under OpenTelemetryMakeFactoryImpl. *)
Inductive hook_symbol := NoSymbol | NullHook | Hook.

(** The answers of the loader, the allocator and the plugin during one call of LoadFactory. *)
Record LoadAnswers := MkLoadAnswers {
  dlopen_answers : bool;
  dlerror_text : option bytes;
  handle_allocated : bool;
  make_factory_impl : hook_symbol;
  plugin_error : option bytes;
  factory_impl : bool;
  factory_allocated : bool;
}.

(** The library opened: the next number. *)
Definition dlopen (w : World) : World * nat :=
  (set_libraries w ({[next_lib w]} ∪ opened w) (closed w) (unmanaged w) (S (next_lib w)) (handles w), next_lib w).

(** An address for a new object. *)
Definition unused {A} (m : gmap nat A) : nat := fresh (dom m : gset nat).

Definition new_impl (l : nat) (w : World) : World * nat := let i := unused (impls w) in (set_impls w (<[i := l]> (impls w)), i).

(** The local objects are destroyed when the function returns: [factory_impl] if it was not handed over, then the reference
    [library_handle]. *)
Definition LoadFactory (a : LoadAnswers) (error_message : bytes) (w : World) : option (World * option nat * bytes) :=
  if negb (dlopen_answers a) then Some (w, None, CopyErrorMessage (dlerror_text a) error_message)
  else
    let '(w, handle) := dlopen w in
    if negb (handle_allocated a) then
      Some (set_libraries w (opened w) (closed w) (unmanaged w ++ [handle]) (next_lib w) (handles w), None, error_message)
    else
      let w := set_handles w (make_shared handle tt (handles w)) in
      match make_factory_impl a with
      | NoSymbol => w ← release_library handle w; Some (w, None, CopyErrorMessage (dlerror_text a) error_message)
      | NullHook => w ← release_library handle w; Some (w, None, CopyErrorMessage (Some (B "Invalid plugin hook")) error_message)
      | Hook =>
          _ ← code_of handle w;
          if negb (factory_impl a) then
            w ← release_library handle w; Some (w, None, CopyErrorMessage (plugin_error a) error_message)
          else
            let '(w, impl) := new_impl handle w in
            if factory_allocated a then
              let f := unused (factories w) in
              Some (set_factories w (<[f := (handle, impl)]> (factories w)), Some f, error_message)
            else
              w ← destroy_impl impl w; w ← release_library handle w; Some (w, None, error_message)
      end.

(** ** Tracers and spans *)

Record TracerAnswers := MkTracerAnswers { tracer_error : option bytes; tracer_handle : bool; tracer_allocated : bool }.

Definition Factory_MakeTracer (f : nat) (tracer_config : bytes) (a : TracerAnswers) (error_message : bytes) (w : World)
  : option (World * option nat * bytes) :=
  '(library_handle_, factory_impl_) ← factories w !! f;
  w ← call_impl factory_impl_ (PcMakeTracerHandle tracer_config) w;
  if negb (tracer_handle a) then Some (w, None, CopyErrorMessage (tracer_error a) error_message)
  else
    let '(w, handle) := new_impl library_handle_ w in
    if tracer_allocated a then
      s ← share library_handle_ (handles w);
      let t := unused (objects (tracers w)) in
      Some (set_tracers (set_handles w s) (make_shared t (library_handle_, handle) (tracers w)), Some t, error_message)
    else
      w ← destroy_impl handle w; Some (w, None, error_message).

(** The plugin's tracer answers null, a new span, or one more reference to a span there is. *)
Inductive started := NullSpan | NewSpan | SameSpan (i : nat).

Record SpanAnswers := MkSpanAnswers { started_span : started; span_allocated : bool }.

(** The local [span], a reference to the plugin's span. *)
Definition start_inner (l : nat) (a : started) (w : World) : option (World * option nat) :=
  match a with
  | NullSpan => Some (w, None)
  | NewSpan => let i := unused (objects (inners w)) in Some (set_inners w (make_shared i l (inners w)), Some i)
  | SameSpan i => w ← copy_inner i w; Some (w, Some i)
  end.

Definition Tracer_StartSpan (t : nat) (name : bytes) (a : SpanAnswers) (w : World) : option (World * option nat) :=
  '(library_handle_, tracer_handle_) ← objects (tracers w) !! t;
  w ← call_impl tracer_handle_ (PcStartSpan name) w;
  '(w, span) ← start_inner library_handle_ (started_span a) w;
  match span with
  | None => Some (w, None)
  | Some i =>
      if span_allocated a then
        tr ← share t (tracers w);
        w ← copy_inner i (set_tracers w tr);
        let s := unused (objects (spans w)) in
        w ← release_inner i (set_spans w (make_shared s (t, i) (spans w)));
        Some (w, Some s)
      else
        w ← release_inner i w; Some (w, None)
  end.

(** What a method answers that has code of a plugin in it: the SpanContext of [GetContext] holds a nostd::shared_ptr to a
    trace state whose wrapper was made by the library [l] the span's code is in. *)
Definition context_of (c : plugin_call) (l : nat) : option nat := match c with PcGetContext => Some l | _ => None end.

(** Every method of the wrapper passes its call on. *)
Definition Span_method (s : nat) (c : plugin_call) (w : World) : option (World * option nat) :=
  '(_, span_) ← objects (spans w) !! s;
  l ← objects (inners w) !! span_;
  w ← call_inner span_ c w;
  Some (w, context_of c l).

(** Copying and destroying a context runs the code of its wrapper's library; nothing in it keeps that library open. *)
Definition SpanContext_copy (l : nat) (w : World) : option World := _ ← code_of l w; Some w.
Definition SpanContext_destroy (l : nat) (w : World) : option World := _ ← code_of l w; Some w.

Definition Tracer_method (t : nat) (c : plugin_call) (w : World) : option World :=
  '(_, tracer_handle_) ← objects (tracers w) !! t; call_impl tracer_handle_ c w.

(** ** Programs of a user *)

(** What the user's variables hold: factories (unique_ptr), references to tracers and spans, the contexts of spans, each as
    the library that made it, and the text for errors. *)
Record User := MkUser {
  u_factories : list nat;
  u_tracers : list nat;
  u_spans : list nat;
  u_contexts : list nat;
  u_error : bytes;
}.

Definition User_init : User := MkUser [] [] [] [] [].

Inductive plugin_op :=
  | Load (a : LoadAnswers)
  | MakeTracer (f : nat) (tracer_config : bytes) (a : TracerAnswers)
  | StartSpan_ (t : nat) (name : bytes) (a : SpanAnswers)
  | OnSpan (s : nat) (c : plugin_call)
  | OnTracer (t : nat) (c : plugin_call)
  | CopyTracer (t : nat) | CopySpan (s : nat) | CopyContext (l : nat)
  | DropFactory (f : nat) | DropTracer (t : nat) | DropSpan (s : nat) | DropContext (l : nat).

Definition held (o : option nat) (l : list nat) : list nat := match o with Some x => x :: l | None => l end.

Definition exec (o : plugin_op) (c : World * User) : option (World * User) :=
  let '(w, u) := c in
  match o with
  | Load a =>
      '(w, f, e) ← LoadFactory a (u_error u) w;
      Some (w, MkUser (held f (u_factories u)) (u_tracers u) (u_spans u) (u_contexts u) e)
  | MakeTracer f cfg a =>
      '(w, t, e) ← Factory_MakeTracer f cfg a (u_error u) w;
      Some (w, MkUser (u_factories u) (held t (u_tracers u)) (u_spans u) (u_contexts u) e)
  | StartSpan_ t name a =>
      '(w, s) ← Tracer_StartSpan t name a w;
      Some (w, MkUser (u_factories u) (u_tracers u) (held s (u_spans u)) (u_contexts u) (u_error u))
  | OnSpan s c =>
      '(w, l) ← Span_method s c w;
      Some (w, MkUser (u_factories u) (u_tracers u) (u_spans u) (held l (u_contexts u)) (u_error u))
  | OnTracer t c => w ← Tracer_method t c w; Some (w, u)
  | CopyTracer t =>
      s ← share t (tracers w);
      Some (set_tracers w s, MkUser (u_factories u) (t :: u_tracers u) (u_spans u) (u_contexts u) (u_error u))
  | CopySpan s =>
      sh ← share s (spans w);
      Some (set_spans w sh, MkUser (u_factories u) (u_tracers u) (s :: u_spans u) (u_contexts u) (u_error u))
  | CopyContext l =>
      w ← SpanContext_copy l w;
      Some (w, MkUser (u_factories u) (u_tracers u) (u_spans u) (l :: u_contexts u) (u_error u))
  | DropFactory f =>
      l ← drop_one f (u_factories u); w ← Factory_destroy f w;
      Some (w, MkUser l (u_tracers u) (u_spans u) (u_contexts u) (u_error u))
  | DropTracer t =>
      l ← drop_one t (u_tracers u); w ← release_tracer t w;
      Some (w, MkUser (u_factories u) l (u_spans u) (u_contexts u) (u_error u))
  | DropSpan s =>
      l ← drop_one s (u_spans u); w ← release_span s w;
      Some (w, MkUser (u_factories u) (u_tracers u) l (u_contexts u) (u_error u))
  | DropContext c =>
      l ← drop_one c (u_contexts u); w ← SpanContext_destroy c w;
      Some (w, MkUser (u_factories u) (u_tracers u) (u_spans u) l (u_error u))
  end.


Fixpoint exec_all (ops : list plugin_op) (c : World * User) : option (World * User) :=
  match ops with [] => Some c | o :: ops => c ← exec o c; exec_all ops c end.


(** ** The invariant *)

(** What the user and the running code hold: factories, references, and objects about to be destroyed. *)
Record Held := MkHeld {
  h_factories : list nat; h_tracers : list nat; h_spans : list nat;
  h_libs : list nat; h_inners : list nat; h_impls : list nat;
}.

Definition libs_held (h : Held) (w : World) : list nat :=
  h_libs h ++ members fst (factories w) ++ members fst (objects (tracers w)).

Record Inv (h : Held) (w : World) : Prop := MkInv {
  iv_factories : keys (factories w) ≡ₚ h_factories h;
  iv_tracers : owned (tracers w) (h_tracers h ++ members fst (objects (spans w)));
  iv_spans : owned (spans w) (h_spans h);
  iv_inners : owned (inners w) (h_inners h ++ members snd (objects (spans w)));
  iv_handles : owned (handles w) (libs_held h w);
  iv_impls : keys (impls w) ≡ₚ h_impls h ++ members snd (factories w) ++ members snd (objects (tracers w));
  iv_opened : ∀ l, l ∈ opened w ↔ l ∈ libs_held h w ∨ l ∈ unmanaged w;
  iv_unmanaged : ∀ l, l ∈ unmanaged w → l ∉ libs_held h w;
  iv_closed : NoDup (closed w) ∧ (∀ l, l ∈ closed w → (l ∉ opened w) ∧ l < next_lib w);
  iv_next : ∀ l, l ∈ opened w → l < next_lib w;
  iv_lib_factory : ∀ f l i, factories w !! f = Some (l, i) → impls w !! i = Some l;
  iv_lib_tracer : ∀ t l i, objects (tracers w) !! t = Some (l, i) → impls w !! i = Some l;
  iv_lib_span : ∀ s t i, objects (spans w) !! s = Some (t, i) →
    ∃ l hd, objects (tracers w) !! t = Some (l, hd) ∧ objects (inners w) !! i = Some l;
  iv_held_impl : ∀ i, i ∈ h_impls h → ∃ l, impls w !! i = Some l ∧ l ∈ opened w;
  iv_held_inner : ∀ i, i ∈ h_inners h → ∃ l, objects (inners w) !! i = Some l ∧ l ∈ opened w;
  iv_all : ∀ l, l < next_lib w → l ∈ opened w ∨ l ∈ closed w;
}.



(** The code of a library with a factory or a tracer is there. *)
Lemma code_of_opened l w : l ∈ opened w → code_of l w = Some tt.
Proof. intros H. unfold code_of. by rewrite decide_True. Qed.



(** The fields of the invariant that a change of the state does not touch. *)
Ltac keep_inv H :=
  destruct H; split; unfold libs_held in *; cbn in *; try assumption.

(** References to libraries that change hands. *)
Lemma libs_moved h w l' :
  Inv h w → l' ≡ₚ libs_held h w →
  owned (handles w) l' ∧ (∀ l, l ∈ opened w ↔ l ∈ l' ∨ l ∈ unmanaged w) ∧ (∀ l, l ∈ unmanaged w → l ∉ l').
Proof.
  intros Hi Hp. split; [rewrite Hp; apply Hi|]. split; intros l; rewrite Hp; [apply (iv_opened _ _ Hi)|apply (iv_unmanaged _ _ Hi)].
Qed.

(** ** One reference or object less *)

Lemma destroy_impl_ok F T S L I P i w :
  Inv (MkHeld F T S L I (i :: P)) w → ∃ w', destroy_impl i w = Some w' ∧ Inv (MkHeld F T S L I P) w'.
Proof.
  intros Hi. destruct (iv_held_impl _ _ Hi i) as (l & Hl & Ho); [by left|].
  exists (set_impls w (delete i (impls w))). unfold destroy_impl. rewrite Hl. cbn [mbind option_bind]. rewrite (code_of_opened l w Ho).
  split; [done|]. assert (Hnd := keys_nodup (impls w)). rewrite (iv_impls _ _ Hi) in Hnd. cbn in Hnd.
  apply list.NoDup_cons in Hnd as [Hni _]. rewrite !elem_of_app in Hni. keep_inv Hi.
  - rewrite (keys_delete _ _ _ Hl) in iv_impls0. by apply Permutation_cons_inv in iv_impls0.
  - intros f l' i' Hf. rewrite lookup_delete_ne; [by eapply iv_lib_factory0|]. intros <-. apply Hni. right. left.
    exact (members_in snd _ _ _ Hf).
  - intros t l' i' Ht. rewrite lookup_delete_ne; [by eapply iv_lib_tracer0|]. intros <-. apply Hni. right. right.
    exact (members_in snd _ _ _ Ht).
  - intros i' Hi'. rewrite lookup_delete_ne; [apply iv_held_impl0; by right|]. intros <-. apply Hni. by left.
Qed.

(** Closing the library needs that none of its objects is left, which holds when its last owner goes. *)
Lemma release_library_ok F T S L l w :
  Inv (MkHeld F T S (l :: L) [] []) w → ∃ w', release_library l w = Some w' ∧ Inv (MkHeld F T S L [] []) w'.
Proof.
  intros Hi. pose proof (iv_handles _ _ Hi) as Hh. unfold libs_held in Hh. cbn [h_libs app] in Hh.
  destruct (owned_unshare _ _ _ Hh) as (s & x & Hx & Hs & [(Hin & E & Eo)|(Hout & E & Eo)]);
    unfold release_library; rewrite E; cbn [mbind option_bind].
  - eexists. split; [done|]. keep_inv Hi.
    + intros l'. rewrite iv_opened0, !elem_of_cons. split; [|naive_solver]. intros [[->|?]|?]; auto.
    + intros l' Hu Hc. apply (iv_unmanaged0 l' Hu). by right.
  - assert (Ho : l ∈ opened w) by (apply (iv_opened _ _ Hi); left; by left).
    unfold dlclose. rewrite (code_of_opened l (set_handles w s) Ho). cbn [mbind option_bind]. eexists. split; [done|].
    assert (Hnu : l ∉ unmanaged w) by (intros Hu; apply (iv_unmanaged _ _ Hi l Hu); by left).
    keep_inv Hi.
    + intros l'. rewrite elem_of_difference, elem_of_singleton, iv_opened0, !elem_of_cons. split.
      * intros [[[->|?]|?] ?]; auto; done.
      * intros [H|H]; (split; [by auto|]); intros ->; done.
    + intros l' Hu Hc. apply (iv_unmanaged0 l' Hu). by right.
    + destruct iv_closed0 as [Hnd Hc]. split.
      * apply list.NoDup_app. split; [done|]. split; [|repeat constructor; apply not_elem_of_nil].
        intros l' Hl' [= ->]%list_elem_of_singleton. by apply (Hc l).
      * intros l' [Hl'|[= ->]%list_elem_of_singleton]%elem_of_app; [|split; [set_solver|auto]].
        destruct (Hc l' Hl'). split; [set_solver|done].
    + intros l' Hl'. apply iv_next0. set_solver.
    + by intros i ?%not_elem_of_nil.
    + by intros i ?%not_elem_of_nil.
    + clear -iv_all0. intros l' [H|H]%iv_all0; [|right; apply elem_of_app; by left].
      destruct (decide (l' = l)) as [->|Hn]; [right; apply elem_of_app; right; by left|].
      left. apply elem_of_difference. by rewrite elem_of_singleton.
Qed.





(** ** One object or reference more *)




Lemma unused_free {A} (m : gmap nat A) : m !! unused m = None.
Proof. apply not_elem_of_dom, is_fresh. Qed.

Lemma new_impl_ok F T S L I P l w :
  Inv (MkHeld F T S L I P) w → l ∈ opened w → Inv (MkHeld F T S L I ((new_impl l w).2 :: P)) (new_impl l w).1.
Proof.
  intros Hi Ho. pose proof (unused_free (impls w)) as Hn. cbn [new_impl fst snd]. keep_inv Hi.
  - by rewrite keys_insert, iv_impls0.
  - intros f l' i' Hf. rewrite lookup_insert_ne; [eauto|]. intros E. by rewrite E, (iv_lib_factory0 _ _ _ Hf) in Hn.
  - intros t l' i' Ht. rewrite lookup_insert_ne; [eauto|]. intros E. by rewrite E, (iv_lib_tracer0 _ _ _ Ht) in Hn.
  - intros i' [->|Hi']%elem_of_cons; [exists l; by rewrite lookup_insert_eq|].
    destruct (iv_held_impl0 i' Hi') as (l' & Hl' & ?). exists l'. rewrite lookup_insert_ne; [done|]. intros E. by rewrite E, Hl' in Hn.
Qed.


(** The library just opened, with its handle object, or left without one. *)
Lemma dlopen_ok F T S L I P w :
  Inv (MkHeld F T S L I P) w →
  let '(w1, l) := dlopen w in
  let w2 := set_handles w1 (make_shared l tt (handles w1)) in
  l ∈ opened w2 ∧ Inv (MkHeld F T S (l :: L) I P) w2 ∧
  Inv (MkHeld F T S L I P) (set_libraries w1 (opened w1) (closed w1) (unmanaged w1 ++ [l]) (next_lib w1) (handles w1)).
Proof.
  intros Hi. cbn [dlopen]. assert (Hno : next_lib w ∉ opened w) by (intros H%(iv_next _ _ Hi); lia).
  assert (Hnl : (next_lib w ∉ libs_held (MkHeld F T S L I P) w) ∧ (next_lib w ∉ unmanaged w)).
  { split; intros H; apply Hno, (iv_opened _ _ Hi); auto. }
  assert (Hnone : objects (handles w) !! next_lib w = None).
  { apply eq_None_not_Some. rewrite (ow_alive _ _ (iv_handles _ _ Hi)). apply Hnl. }
  assert (Hc : NoDup (closed w) ∧ (∀ l, l ∈ closed w → (l ∉ {[next_lib w]} ∪ opened w) ∧ l < Datatypes.S (next_lib w))).
  { destruct (iv_closed _ _ Hi) as [H1 H2]. split; [done|]. intros l Hl. destruct (H2 l Hl) as [H3 H4]. split; [|lia].
    rewrite elem_of_union, elem_of_singleton. intros [->|?]; [lia|done]. }
  split; [cbn; set_solver|]. split.
  - pose proof (owned_make _ _ (next_lib w) tt Hnone (iv_handles _ _ Hi)) as Hh. keep_inv Hi.
    + intros l. rewrite elem_of_union, elem_of_singleton, elem_of_cons, iv_opened0. tauto.
    + intros l Hl. rewrite elem_of_cons. intros [->|Hc0]; [by apply Hnl|by apply (iv_unmanaged0 l)].
    + intros l. rewrite elem_of_union, elem_of_singleton. intros [->|H%iv_next0]; lia.
    + intros i Hi'. destruct (iv_held_impl0 i Hi') as (l & Hl & Ho). exists l. set_solver.
    + intros i Hi'. destruct (iv_held_inner0 i Hi') as (l & ? & ?). exists l. set_solver.
    + intros l Hl. destruct (decide (l = next_lib w)) as [->|Hn]; [set_solver|]. destruct (iv_all0 l); [lia|set_solver..].
  - keep_inv Hi.
    + intros l. rewrite elem_of_union, elem_of_singleton, (elem_of_app (unmanaged w)), list_elem_of_singleton, iv_opened0. tauto.
    + intros l. rewrite elem_of_app, list_elem_of_singleton. intros [Hu| ->]; [by apply iv_unmanaged0|apply Hnl].
    + intros l. rewrite elem_of_union, elem_of_singleton. intros [->|H%iv_next0]; lia.
    + intros i Hi'. destruct (iv_held_impl0 i Hi') as (l & Hl & Ho). exists l. set_solver.
    + intros i Hi'. destruct (iv_held_inner0 i Hi') as (l & ? & ?). exists l. set_solver.
    + intros l Hl. destruct (decide (l = next_lib w)) as [->|Hn]; [set_solver|]. destruct (iv_all0 l); [lia|set_solver..].
Qed.

(** A factory or a tracer takes over what it is made of. *)
Lemma make_factory_ok F T S L l i w :
  Inv (MkHeld F T S (l :: L) [] [i]) w → impls w !! i = Some l →
  let f := unused (factories w) in
  Inv (MkHeld (f :: F) T S L [] []) (set_factories w (<[f := (l, i)]> (factories w))).
Proof.
  intros Hi Hl f. assert (Hf : factories w !! f = None) by apply unused_free.
  destruct (libs_moved _ _ (libs_held (MkHeld (f :: F) T S L [] []) (set_factories w (<[f := (l, i)]> (factories w)))) Hi) as (Hh1 & Hh2 & Hh3).
  { unfold libs_held. cbn. rewrite members_insert by done. cbn. by rewrite <-Permutation_middle. }
  keep_inv Hi.
  - by rewrite keys_insert, iv_factories0.
  - by rewrite members_insert, iv_impls0.
  - intros f' l' i' [[<- [= <- <-]]|[_ ?]]%lookup_insert_Some; eauto.
  - by intros i' ?%not_elem_of_nil.
Qed.


(** ** The operations *)

Lemma LoadFactory_ok F T S a e w :
  Inv (MkHeld F T S [] [] []) w →
  ∃ w' f e', LoadFactory a e w = Some (w', f, e') ∧ Inv (MkHeld (held f F) T S [] [] []) w'.
Proof.
  intros Hi. unfold LoadFactory. destruct (dlopen_answers a); cbn [negb]; [|by eexists _, None, _].
  pose proof (dlopen_ok _ _ _ _ _ _ _ Hi) as Hd. destruct (dlopen w) as [w1 l]. destruct Hd as (Ho & Hi1 & Hleak).
  destruct (handle_allocated a); cbn [negb]; [|by eexists _, None, _].
  cbv zeta. set (w2 := set_handles w1 _) in *. destruct (release_library_ok _ _ _ _ _ _ Hi1) as (w3 & E3 & Hi3).
  destruct (make_factory_impl a); rewrite ?E3; cbn [mbind option_bind]; [by eexists _, None, _..|].
  rewrite (code_of_opened l w2 Ho). cbn [mbind option_bind].
  destruct (factory_impl a); cbn [negb]; [|by eexists _, None, _].
  pose proof (new_impl_ok _ _ _ _ _ _ _ _ Hi1 Ho) as Hi4. destruct (new_impl l w2) as [w4 i] eqn:E4. cbn [fst snd] in Hi4.
  assert (Hl : impls w4 !! i = Some l) by (injection E4 as <- <-; cbn; apply lookup_insert_eq).
  destruct (factory_allocated a).
  - eexists _, (Some _), _. split; [done|]. exact (make_factory_ok _ _ _ _ _ _ _ Hi4 Hl).
  - destruct (destroy_impl_ok _ _ _ _ _ _ _ _ Hi4) as (w5 & -> & Hi5). cbn [mbind option_bind].
    destruct (release_library_ok _ _ _ _ _ _ Hi5) as (w6 & -> & Hi6). cbn [mbind option_bind]. by eexists _, None, _.
Qed.












Definition good_load : LoadAnswers := MkLoadAnswers true None true Hook None true true.



(** A context that is kept longer than the last span, tracer and factory of its library: destroying it, or copying it,
    runs code that is gone. *)
Theorem context_outlives_library :
  let ops := [Load good_load; MakeTracer 0 [] (MkTracerAnswers None true true); StartSpan_ 0 (B "a") (MkSpanAnswers NewSpan true);
              OnSpan 0 PcGetContext; DropFactory 0; DropTracer 0; DropSpan 0] in
  (λ c, (closed c.1, u_contexts c.2)) <$> exec_all ops (World_init, User_init) = Some ([0], [0]) ∧
  exec_all (ops ++ [DropContext 0]) (World_init, User_init) = None ∧
  exec_all (ops ++ [CopyContext 0]) (World_init, User_init) = None.
Proof. by vm_compute. Qed.

(** ** What loading answers *)

(** The text that loading leaves for the user. *)
Definition load_error (a : LoadAnswers) (e : bytes) : bytes :=
  if negb (dlopen_answers a) then CopyErrorMessage (dlerror_text a) e
  else if negb (handle_allocated a) then e
  else match make_factory_impl a with
       | NoSymbol => CopyErrorMessage (dlerror_text a) e
       | NullHook => B "Invalid plugin hook"
       | Hook => if factory_impl a then e else CopyErrorMessage (plugin_error a) e
       end.

(** Dropping the only reference to the library just opened closes it. *)
Lemma release_new F T S L I P w w1 w2 :
  Inv (MkHeld F T S L I P) w → handles w1 = make_shared (next_lib w) tt (handles w) → closed w1 = closed w →
  release_library (next_lib w) w1 = Some w2 → closed w2 = closed w ++ [next_lib w].
Proof.
  intros Hi H1 H2 Hr. unfold release_library in Hr. rewrite H1 in Hr.
  assert (Hn : objects (handles w) !! next_lib w = None).
  { apply eq_None_not_Some. rewrite (ow_alive _ _ (iv_handles _ _ Hi)). intros Hin.
    assert (Ho : next_lib w ∈ opened w) by (apply (iv_opened _ _ Hi); by left). apply (iv_next _ _ Hi) in Ho. lia. }
  destruct (owned_unshare _ _ _ (owned_make _ _ _ tt Hn (iv_handles _ _ Hi))) as (s & x & _ & _ & [(Hin & _)|(_ & Eu & _)]).
  - apply (ow_alive _ _ (iv_handles _ _ Hi)) in Hin. rewrite Hn in Hin. by destruct Hin.
  - rewrite Eu in Hr. cbn [mbind option_bind] in Hr. unfold dlclose in Hr. destruct (code_of _ _); [|done]. simplify_eq/=. by rewrite H2.
Qed.

(** Every step of loading succeeds. *)
Definition loads (a : LoadAnswers) : bool :=
  dlopen_answers a && handle_allocated a && match make_factory_impl a with Hook => true | _ => false end &&
  factory_impl a && factory_allocated a.

(** A factory is answered exactly when every step succeeds; a library opened in vain is closed again, unless its
    handle object could not be allocated: then it stays open, and the text for errors is left as it was. *)
Theorem LoadFactory_spec F T S a e w :
  Inv (MkHeld F T S [] [] []) w →
  ∃ w' f, LoadFactory a e w = Some (w', f, load_error a e) ∧ Inv (MkHeld (held f F) T S [] [] []) w' ∧
    (is_Some f ↔ loads a = true) ∧
    (dlopen_answers a = true → f = None →
     closed w' = closed w ++ (if handle_allocated a then [next_lib w] else []) ∧
     (handle_allocated a = false → next_lib w ∈ opened w' ∧ load_error a e = e)).
Proof.
  intros Hi. destruct (LoadFactory_ok _ _ _ a e w Hi) as (w' & f & e' & E & Hi'). exists w', f.
  enough (e' = load_error a e ∧ (is_Some f ↔ loads a = true) ∧
    (dlopen_answers a = true → f = None →
     closed w' = closed w ++ (if handle_allocated a then [next_lib w] else []) ∧
     (handle_allocated a = false → next_lib w ∈ opened w' ∧ load_error a e = e))) as (-> & H) by done.
  clear Hi'. unfold LoadFactory, load_error, loads in *.
  assert (Hnone : is_Some (None (A := nat)) ↔ false = true) by (split; [by intros [? ?]|done]).
  destruct (dlopen_answers a); cbn [negb dlopen andb] in *; [|by simplify_eq].
  destruct (handle_allocated a); cbn [negb andb] in *.
  2:{ simplify_eq. split; [done|]. split; [done|]. intros _ _. split; [by rewrite app_nil_r|]. intros _. split; [cbn; set_solver|done]. }
  destruct (make_factory_impl a); cbn [andb] in *.
  - destruct (release_library _ _) as [w2|] eqn:Er; simplify_eq/=. split; [done|]. split; [done|]. intros _ _. split; [|done].
    refine (release_new _ _ _ _ _ _ _ _ _ Hi _ _ Er); done.
  - destruct (release_library _ _) as [w2|] eqn:Er; simplify_eq/=. split; [done|]. split; [done|]. intros _ _. split; [|done].
    refine (release_new _ _ _ _ _ _ _ _ _ Hi _ _ Er); done.
  - destruct (code_of _ _) as [[]|]; cbn [mbind option_bind] in E; [|done]. destruct (factory_impl a); cbn [negb andb] in *.
    + cbn [new_impl] in E. cbv zeta in E. destruct (factory_allocated a).
      * simplify_eq. split; [done|]. split; [split; [done|eauto]|done].
      * destruct (destroy_impl _ _) as [w2|] eqn:Ed; cbn [mbind option_bind] in E; [|done].
        destruct (release_library _ w2) as [w3|] eqn:Er; simplify_eq/=. split; [done|]. split; [done|]. intros _ _. split; [|done].
        unfold destroy_impl in Ed. destruct (impls _ !! _); cbn [mbind option_bind] in Ed; [|done].
        destruct (code_of _ _); simplify_eq/=. refine (release_new _ _ _ _ _ _ _ _ _ Hi _ _ Er); done.
    + destruct (release_library _ _) as [w2|] eqn:Er; simplify_eq/=. split; [done|]. split; [done|]. intros _ _. split; [|done].
      refine (release_new _ _ _ _ _ _ _ _ _ Hi _ _ Er); done.
Qed.
