(* ===== verification/Registry.v ===== *)
(** * The registry of exporter builders

    OT/sdk/configuration/registry.h: the built-in exporters are optional, so the factories that link them leave a builder in the
    registry, one slot for each kind, and the SDK builder asks for it by kind.  The registry owns its builders.  The extension
    points (builders by name) are only declared here. *)
From S2P Require Export Prelude.
From stdpp Require Import finite.

(** The members [otlp_http_span_builder_] to [console_log_record_builder_]. *)
Inductive builder_slot :=
  | OtlpHttpSpan | OtlpGrpcSpan | OtlpFileSpan | ConsoleSpan | ZipkinSpan
  | OtlpHttpPushMetric | OtlpGrpcPushMetric | OtlpFilePushMetric | ConsolePushMetric | PrometheusPullMetric
  | OtlpHttpLogRecord | OtlpGrpcLogRecord | OtlpFileLogRecord | ConsoleLogRecord.
#[export] Instance builder_slot_eq_dec : EqDecision builder_slot.
Proof. solve_decision. Defined.

Definition builder_slots : list builder_slot :=
  [OtlpHttpSpan; OtlpGrpcSpan; OtlpFileSpan; ConsoleSpan; ZipkinSpan; OtlpHttpPushMetric; OtlpGrpcPushMetric; OtlpFilePushMetric;
   ConsolePushMetric; PrometheusPullMetric; OtlpHttpLogRecord; OtlpGrpcLogRecord; OtlpFileLogRecord; ConsoleLogRecord].

#[export] Program Instance builder_slot_finite : Finite builder_slot := {| enum := builder_slots |}.
Next Obligation. by apply (bool_decide_unpack _). Qed.
Next Obligation. intros []; by apply (bool_decide_unpack _). Qed.

(** Unique pointers, by the address they hold; the constructor is defined elsewhere. *)
Definition Registry : Type := builder_slot → option nat.

(** The getters return the address and keep the builder. *)
Definition GetBuilder (s : builder_slot) (r : Registry) : option nat := r s.

Definition put (s : builder_slot) (builder : option nat) (r : Registry) : Registry := λ s', if decide (s = s') then builder else r s'.

Lemma put_eq s b r : put s b r s = b.
Proof. unfold put. by rewrite decide_True. Qed.

Lemma put_ne s s' b r : s ≠ s' → put s b r s' = r s'.
Proof. unfold put. intros. by rewrite decide_False. Qed.

(** The setters move a pointer in; what was there is deleted. *)
Definition SetBuilder (s : builder_slot) (builder : option nat) (r : Registry) : Registry * list nat :=
  (put s builder r, option_list (r s)).

(** The builders in the slots: what the destructor deletes. *)
Definition held (r : Registry) : list nat := omap r (enum builder_slot).

(** A sequence of calls, with the addresses deleted on the way. *)
Fixpoint set_all (calls : list (builder_slot * option nat)) (r : Registry) : Registry * list nat :=
  match calls with
  | [] => (r, [])
  | (s, b) :: calls => let '(r, d) := SetBuilder s b r in let '(r, d') := set_all calls r in (r, d ++ d')
  end.

Lemma omap_insert_notin (r : Registry) s b (l : list builder_slot) : s ∉ l → omap (put s b r) l = omap r l.
Proof.
  induction l as [|s' l IH]; [done|]. intros [Hn Hl]%not_elem_of_cons. cbn [omap list_omap].
  rewrite put_ne by done. change (list_omap _ _ ?f l) with (omap f l). by rewrite IH.
Qed.

(** Whatever was in the slot and what is put in change places. *)
Lemma held_set s b r : option_list (r s) ++ held (SetBuilder s b r).1 ≡ₚ option_list b ++ held r.
Proof.
  assert (H : ∃ l1 l2, enum builder_slot = l1 ++ s :: l2) by (apply list_elem_of_split, elem_of_enum). destruct H as (l1 & l2 & E).
  pose proof (NoDup_enum builder_slot) as Hn. unfold held, SetBuilder. cbn [fst]. rewrite E in *.
  apply list.NoDup_app in Hn as (_ & Hn1 & [Hn2 _]%list.NoDup_cons). assert (Hs1 : s ∉ l1) by (intros Hin; apply (Hn1 s Hin); by left).
  assert (Hm : ∀ (r' : Registry), omap r' (l1 ++ s :: l2) = omap r' l1 ++ option_list (r' s) ++ omap r' l2)
    by (intros r'; rewrite omap_app; f_equal; cbn; by destruct (r' s)).
  rewrite !Hm, !omap_insert_notin, put_eq by done.
  generalize (omap r l1) (omap r l2) (option_list (r s)) (option_list b). intros a1 a2 old new.
  rewrite (Permutation_app_swap_app old a1), (Permutation_app_swap_app new a1), (Permutation_app_swap_app old new). done.
Qed.

(** Every builder given to the registry is deleted once - when another takes its slot, or with the registry; no builder is
    deleted that is still in a slot; and each slot holds what it was last given. *)
Theorem builders_accounted calls r r' deleted :
  set_all calls r = (r', deleted) →
  deleted ++ held r' ≡ₚ held r ++ omap snd calls ∧
  ∀ s, GetBuilder s r' = default (GetBuilder s r) (list.last (snd <$> filter (λ c, c.1 = s) calls)).
Proof.
  revert r r' deleted. induction calls as [|[s b] calls IH]; intros r r' deleted; cbn [set_all].
  { intros [= <- <-]. by rewrite app_nil_r. }
  cbn [SetBuilder]. destruct (set_all calls (put s b r)) as [r2 d] eqn:E. intros [= <- <-]. apply IH in E as [Hp Hg]. split.
  - rewrite <-(assoc_L (++)), Hp, (assoc_L (++)). change (put s b r) with (SetBuilder s b r).1. rewrite held_set.
    cbn [omap list_omap snd]. change (list_omap _ _ snd calls) with (omap snd calls). destruct b as [b|]; [|done]. cbn. by rewrite Permutation_middle.
  - intros s'. rewrite Hg. unfold GetBuilder. rewrite list.filter_cons. cbn [fst]. destruct (decide (s = s')) as [<-|Hn].
    + rewrite put_eq, fmap_cons. cbn [snd]. by destruct (snd <$> filter _ calls) as [|o l] using rev_ind;
        [|rewrite app_comm_cons, !list.last_snoc].
    + by rewrite put_ne.
Qed.

Lemma builders_accounted_witness :
  let calls := [(ConsoleSpan, Some 1); (ZipkinSpan, Some 2); (ConsoleSpan, Some 3); (ZipkinSpan, None)] in
  ∃ r', set_all calls (λ _, None) = (r', [1; 2]) ∧ [1; 2] ++ held r' ≡ₚ [1; 2; 3] ∧ GetBuilder ConsoleSpan r' = Some 3.
Proof.
  cbv zeta. eexists. split; [reflexivity|].
  destruct (builders_accounted [(ConsoleSpan, Some 1); (ZipkinSpan, Some 2); (ConsoleSpan, Some 3); (ZipkinSpan, None)] (λ _, None) _ _ eq_refl) as [H1 H2].
  exact (conj H1 (H2 ConsoleSpan)).
Defined.
