(* ===== verification/SpanProcessors.v ===== *)
(** * Span processors

    sdk/trace/processor.h as an interface, multi_recordable.h, multi_span_processor.h - the doubly
    linked list of processors with its nodes on a heap - and simple_processor.h over the
    exporter's interface.

    Processors and nodes are owned objects: they live at addresses, [delete] removes them, and
    reading one that is not there is a fault ([None]). *)
From S2P Require Export SpanData.

(** ** Interfaces *)

(** [MakeRecordable] may answer no recordable; [ForceFlush] and [Shutdown] take microseconds. *)
Class SpanProcessor (P R : Type) := {
  MakeRecordable : P → P * option R;
  OnStart : P → R → SpanContext → P * R;
  OnEnd : P → R → P;
  ForceFlush : P → Z → P * bool;
  Shutdown : P → Z → P * bool;
}.

(** ** MultiRecordable

    A map from the addresses of processors to recordables, which may be null. *)
Abbreviation MultiRecordable R := (gmap positive (option R)).

Section multi_recordable.
Context {R : Type} `{Recordable R}.

Definition AddRecordable (m : MultiRecordable R) (processor : positive) (recordable : option R) : MultiRecordable R :=
  <[processor := recordable]> m.

Definition GetRecordable (m : MultiRecordable R) (processor : positive) : option R :=
  match m !! processor with Some r => r | None => None end.

Definition ReleaseRecordable (m : MultiRecordable R) (processor : positive) : option R * MultiRecordable R :=
  match m !! processor with
  | Some r => (r, delete processor m)
  | None => (None, m)
  end.

(** The setters forward to every recordable, null or not. *)
Definition multi_record (m : MultiRecordable R) (c : RecordableCall) : option (MultiRecordable R) :=
  if decide (map_Forall (λ _ r, is_Some r) m) then Some ((λ r : option R, r ← r; Some (record r c)) <$> m) else None.
End multi_recordable.

(** ** MultiSpanProcessor *)
Section multi.
Context {P R : Type} `{Recordable R} `{SpanProcessor P R}.

Record ProcessorNode := MkProcessorNode {
  value_ : positive;
  next_ : option positive;
  prev_ : option positive;
}.

(** The list, the heap its nodes are on, the processors by address, and the addresses of the
    processors that were destroyed, in order. *)
Record MultiSpanProcessor := MkMulti {
  nodes : gmap positive ProcessorNode;
  processors : gmap positive P;
  destroyed : list positive;
  head_ : option positive;
  tail_ : option positive;
  count_ : nat;
}.

Definition set_processors (s : MultiSpanProcessor) (ps : gmap positive P) : MultiSpanProcessor :=
  MkMulti (nodes s) ps (destroyed s) (head_ s) (tail_ s) (count_ s).
Definition set_nodes (s : MultiSpanProcessor) (ns : gmap positive ProcessorNode) : MultiSpanProcessor :=
  MkMulti ns (processors s) (destroyed s) (head_ s) (tail_ s) (count_ s).

(** The empty list, for processors at given addresses. *)
Definition Multi_empty (ps : gmap positive P) : MultiSpanProcessor := MkMulti ∅ ps [] None None 0.

(** [new] answers an address where no node is. *)
Definition AddProcessor (s : MultiSpanProcessor) (processor : option positive) : option MultiSpanProcessor :=
  match processor with
  | None => Some s
  | Some p =>
      let pNode := fresh (dom (nodes s)) in
      let ns := <[pNode := MkProcessorNode p None (tail_ s)]> (nodes s) in
      if 0 <? count_ s then
        t ← tail_ s; n ← ns !! t;
        let ns := <[t := MkProcessorNode (value_ n) (Some pNode) (prev_ n)]> ns in
        Some (MkMulti ns (processors s) (destroyed s) (head_ s) (Some pNode) (S (count_ s)))
      else Some (MkMulti ns (processors s) (destroyed s) (Some pNode) (Some pNode) (S (count_ s)))
  end.

(** The constructor adds the processors of a vector, null ones included. *)
Fixpoint AddProcessors (s : MultiSpanProcessor) (ps : list (option positive)) : option MultiSpanProcessor :=
  match ps with
  | [] => Some s
  | p :: ps => s ← AddProcessor s p; AddProcessors s ps
  end.
Definition MultiSpanProcessor_new (objects : gmap positive P) (ps : list (option positive)) : option MultiSpanProcessor :=
  AddProcessors (Multi_empty objects) ps.

(** [while (node != nullptr) { auto processor = node->value_.get(); ...; node = node->next_; }]
    The loops change processors and what they carry along, not the nodes. *)
Fixpoint for_each {S} (fuel : nat) (ns : gmap positive ProcessorNode)
    (body : positive → P → S → P * S) (node : option positive) (ps : gmap positive P) (st : S) : option (gmap positive P * S) :=
  match node with
  | None => Some (ps, st)
  | Some n =>
      match fuel with
      | O => None
      | Datatypes.S fuel =>
          nd ← ns !! n; p ← ps !! value_ nd;
          let '(p, st) := body (value_ nd) p st in
          for_each fuel ns body (next_ nd) (<[value_ nd := p]> ps) st
      end
  end.

Definition over {S} (s : MultiSpanProcessor) (body : positive → P → S → P * S) (st : S) : option (MultiSpanProcessor * S) :=
  '(ps, st) ← for_each (Datatypes.S (size (nodes s))) (nodes s) body (head_ s) (processors s) st;
  Some (set_processors s ps, st).

Definition Multi_MakeRecordable (s : MultiSpanProcessor) : option (MultiSpanProcessor * MultiRecordable R) :=
  over s (λ a p m, let '(p, r) := MakeRecordable p in (p, AddRecordable m a r)) ∅.

(** The recordable of a processor is changed in place. *)
Definition Multi_OnStart (s : MultiSpanProcessor) (span : MultiRecordable R) (parent_context : SpanContext)
    : option (MultiSpanProcessor * MultiRecordable R) :=
  over s (λ a p m, match GetRecordable m a with
                   | Some r => let '(p, r) := OnStart p r parent_context in (p, <[a := Some r]> m)
                   | None => (p, m)
                   end) span.

(** The multi recordable is deleted at the end, with what is left in it. *)
Definition Multi_OnEnd (s : MultiSpanProcessor) (span : MultiRecordable R) : option MultiSpanProcessor :=
  '(s, _) ← over s (λ a p m, let '(r, m) := ReleaseRecordable m a in
                             match r with Some r => (OnEnd p r, m) | None => (p, m) end) span;
  Some s.

Definition Multi_ForceFlush (s : MultiSpanProcessor) (timeout : Z) : option (MultiSpanProcessor * bool) :=
  over s (λ a p result, let '(p, b) := ForceFlush p timeout in (p, result || b)) true.

Definition Multi_Shutdown (s : MultiSpanProcessor) (timeout : Z) : option (MultiSpanProcessor * bool) :=
  over s (λ a p result, let '(p, b) := Shutdown p timeout in (p, result || b)) true.

(** [delete node]: the processor it owns goes with it. *)
Definition delete_node (s : MultiSpanProcessor) (n : positive) : option MultiSpanProcessor :=
  nd ← nodes s !! n;
  Some (MkMulti (delete n (nodes s)) (delete (value_ nd) (processors s)) (destroyed s ++ [value_ nd]) (head_ s) (tail_ s) (count_ s)).

Fixpoint cleanup_loop (fuel : nat) (node : option positive) (s : MultiSpanProcessor) : option MultiSpanProcessor :=
  match node with
  | None => Some s
  | Some n =>
      match fuel with
      | O => None
      | Datatypes.S fuel =>
          nd ← nodes s !! n;
          s ← match next_ nd with
              | Some m =>
                  s ← delete_node s m;
                  nd ← nodes s !! n;
                  Some (set_nodes s (<[n := MkProcessorNode (value_ nd) None (prev_ nd)]> (nodes s)))
              | None => Some s
              end;
          nd ← nodes s !! n;
          match prev_ nd with
          | Some p => cleanup_loop fuel (Some p) s
          | None => s ← delete_node s n; cleanup_loop fuel None s
          end
      end
  end.

Definition Cleanup (s : MultiSpanProcessor) : option MultiSpanProcessor :=
  if 0 <? count_ s then
    s ← cleanup_loop (Datatypes.S (size (nodes s))) (tail_ s) s;
    Some (MkMulti (nodes s) (processors s) (destroyed s) None None 0)
  else Some s.

(** The destructor. *)
Definition Multi_destroy (s : MultiSpanProcessor) (timeout_max : Z) : option MultiSpanProcessor :=
  '(s, _) ← Multi_Shutdown s timeout_max; Cleanup s.
End multi.

(** ** The linked list is a list *)

(** The nodes at [ns], linked both ways, own the processors at [vs]; [nxt] follows the last. *)
Fixpoint seg (nodes : gmap positive ProcessorNode) (prev : option positive) (ns vs : list positive) (nxt : option positive) : Prop :=
  match ns, vs with
  | [], [] => True
  | n :: ns', v :: vs' =>
      nodes !! n = Some (MkProcessorNode v (match ns' with m :: _ => Some m | [] => nxt end) prev) ∧
      seg nodes (Some n) ns' vs' nxt
  | _, _ => False
  end.

Lemma seg_length nodes prev ns vs nxt : seg nodes prev ns vs nxt → length ns = length vs.
Proof. revert prev vs. induction ns as [|n ns IH]; intros prev [|v vs]; try done. intros [_ H]. simpl. f_equal. by eapply IH. Qed.

Lemma seg_frame nodes nodes' prev ns vs nxt :
  (∀ n, n ∈ ns → nodes' !! n = nodes !! n) → seg nodes prev ns vs nxt → seg nodes' prev ns vs nxt.
Proof.
  revert prev vs. induction ns as [|n ns IH]; intros prev [|v vs] Hf; try done. intros [Hn H]. split.
  - rewrite Hf; [done|apply list_elem_of_here].
  - apply IH; [|done]. intros m Hm. apply Hf. by apply list_elem_of_further.
Qed.

Lemma seg_snoc nodes prev ns n vs v nxt :
  seg nodes prev (ns ++ [n]) (vs ++ [v]) nxt ↔
  seg nodes prev ns vs (Some n) ∧
  nodes !! n = Some (MkProcessorNode v nxt (match list.last ns with Some m => Some m | None => prev end)).
Proof.
  revert prev vs. induction ns as [|m ns IH]; intros prev [|w vs].
  - cbn. tauto.
  - cbn [app seg list.last]. split; [|by intros [[] _]]. intros [_ H]. by destruct vs.
  - cbn [app seg]. split; [|by intros [[] _]]. intros [_ H]. by destruct ns.
  - cbn [app seg]. rewrite IH. rewrite list.last_cons. destruct ns as [|k ns]; cbn [app].
    + cbn [list.last]. tauto.
    + destruct (list.last (k :: ns)) as [l|] eqn:E; [tauto|by apply list.last_None in E].
Qed.

Section dll.
Context {P : Type}.

Record dll (s : MultiSpanProcessor (P := P)) (ns vs : list positive) : Prop := {
  dll_seg : seg (nodes s) None ns vs None;
  dll_nodup : NoDup ns;
  dll_dom : dom (nodes s) = list_to_set ns;
  dll_head : head_ s = head ns;
  dll_tail : tail_ s = list.last ns;
  dll_count : count_ s = length ns;
}.

Lemma dll_empty objects : dll (Multi_empty objects) [] [].
Proof. split; try done. constructor. Qed.

Lemma AddProcessor_spec s ns vs v :
  dll s ns vs → ∃ s' n, AddProcessor s (Some v) = Some s' ∧ dll s' (ns ++ [n]) (vs ++ [v]) ∧
    processors s' = processors s ∧ destroyed s' = destroyed s.
Proof.
  intros [Hseg Hn Hd Hh Ht Hc]. unfold AddProcessor. set (p := fresh (dom (nodes s))).
  assert (Hp : p ∉ dom (nodes s)) by apply is_fresh. rewrite Hd, elem_of_list_to_set in Hp.
  assert (Hn' : NoDup (ns ++ [p])) by (apply list.NoDup_app; split_and!; [done|set_solver|apply NoDup_singleton]).
  rewrite Hc, Ht. destruct ns as [|n0 ns0 _] using rev_ind.
  - destruct vs; [|done]. cbn [length Nat.ltb Nat.leb list.last]. eexists _, p. split; [done|].
    split; [|done]. split; cbn [nodes head_ tail_ count_]; try done.
    + cbn. by rewrite lookup_insert_eq.
    + rewrite dom_insert_L, Hd. set_solver.
  - destruct vs as [|v0 vs0 _] using rev_ind; [by apply seg_length in Hseg; rewrite length_app in Hseg; simpl in Hseg; lia|].
    apply seg_snoc in Hseg as [Hseg Hlast].
    assert (Hne : n0 ≠ p) by (intros ->; apply Hp, elem_of_app; right; apply list_elem_of_here).
    rewrite length_app. cbn [length]. rewrite (proj2 (Nat.ltb_lt _ _)) by lia. rewrite list.last_snoc. cbn [mbind option_bind].
    rewrite lookup_insert_ne, Hlast by done. cbn [mbind option_bind value_ prev_]. eexists _, p. split; [done|].
    assert (Hn0 : n0 ∉ ns0) by (apply list.NoDup_app in Hn as (_ & Hx & _); intros Hin; by apply (Hx n0 Hin), list_elem_of_here).
    split; [|done]. split; cbn [nodes head_ tail_ count_]; [|done| | |by rewrite list.last_snoc|rewrite !length_app; simpl; lia].
    + apply seg_snoc. split; [apply seg_snoc; split|].
      * eapply seg_frame; [|exact Hseg]. intros m Hm. rewrite !lookup_insert_ne; [done| |]; intros <-; [|done].
        apply Hp, elem_of_app. by left.
      * by rewrite lookup_insert_eq.
      * rewrite lookup_insert_ne, lookup_insert_eq, list.last_snoc by done. done.
    + rewrite !dom_insert_L, Hd. set_solver.
    + rewrite Hh. by destruct ns0.
Qed.

(** The constructor takes the processors that are not null, in order. *)
Lemma AddProcessors_spec s ns vs ps :
  dll s ns vs → ∃ s' ns', AddProcessors s ps = Some s' ∧ dll s' ns' (vs ++ omap id ps) ∧
    processors s' = processors s ∧ destroyed s' = destroyed s.
Proof.
  revert s ns vs. induction ps as [|[v|] ps IH]; intros s ns vs Hs; cbn [AddProcessors omap list_omap id].
  - exists s, ns. by rewrite app_nil_r.
  - destruct (AddProcessor_spec s ns vs v Hs) as (s1 & n & -> & H1 & Hp & Hd). cbn [mbind option_bind].
    destruct (IH s1 _ _ H1) as (s' & ns' & Hrun & Hs' & Hp' & Hd'). exists s', ns'. rewrite Hrun, Hp', Hd', Hp, Hd.
    by rewrite <-(assoc_L (++)) in Hs'.
  - apply IH in Hs as (s' & ns' & ? & ? & ? & ?). by exists s', ns'.
Qed.
End dll.

(** ** The loops visit the processors in order *)
Section visit.
Context {P S : Type}.

Definition visit1 (body : positive → P → S → P * S) (st : gmap positive P * S) (a : positive) : gmap positive P * S :=
  match st.1 !! a with
  | Some p => let '(p, s) := body a p st.2 in (<[a := p]> st.1, s)
  | None => st
  end.
Definition visit (body : positive → P → S → P * S) (vs : list positive) (ps : gmap positive P) (st : S) : gmap positive P * S :=
  foldl (visit1 body) (ps, st) vs.

Lemma visit1_present body st a b : is_Some (st.1 !! b) → is_Some ((visit1 body st a).1 !! b).
Proof.
  intros H. unfold visit1. destruct (st.1 !! a) as [p|] eqn:E; [|done]. destruct (body a p st.2) as [p' s'].
  cbn [fst]. destruct (decide (a = b)) as [->|Hne]; [by rewrite lookup_insert_eq|by rewrite lookup_insert_ne].
Qed.

Lemma for_each_spec fuel nodes body prev ns vs ps st :
  seg nodes prev ns vs None → length ns < fuel → Forall (λ a, is_Some (ps !! a)) vs →
  for_each fuel nodes body (head ns) ps st = Some (visit body vs ps st).
Proof.
  revert fuel prev vs ps st. induction ns as [|n ns IH]; intros fuel prev [|v vs] ps st; try done.
  { intros _ Hf _. by destruct fuel. }
  intros [Hn Hs] Hf Hps. destruct fuel as [|fuel]; [simpl in Hf; lia|]. cbn [head for_each]. rewrite Hn.
  cbn [mbind option_bind value_ next_]. apply list.Forall_cons in Hps as [[p Hp] Hps].
  unfold visit. cbn [foldl]. unfold visit1 at 2. cbn [fst snd]. rewrite Hp. cbn [mbind option_bind].
  pose proof (λ b, visit1_present body (ps, st) v b) as Hpres. unfold visit1 in Hpres. cbn [fst snd] in Hpres. rewrite Hp in Hpres.
  destruct (body v p st) as [p' st']. cbn [fst] in Hpres.
  replace (match ns with m :: _ => Some m | [] => None end) with (head ns) by by destruct ns.
  apply (IH fuel (Some n)); [done|simpl in Hf; lia|]. eapply list.Forall_impl; [exact Hps|]. auto.
Qed.

Lemma over_spec s ns vs (body : positive → P → S → P * S) st :
  dll s ns vs → Forall (λ a, is_Some (processors s !! a)) vs →
  over s body st = Some (set_processors s (visit body vs (processors s) st).1, (visit body vs (processors s) st).2).
Proof.
  intros [Hseg Hn Hd Hh Ht Hc] Hps. unfold over. rewrite Hh.
  rewrite (for_each_spec _ _ _ None ns vs); [by destruct (visit body vs (processors s) st)|done| |done].
  rewrite <-size_dom, Hd, size_list_to_set by done. lia.
Qed.

Lemma dll_set_processors (s : MultiSpanProcessor (P := P)) ns vs ps : dll s ns vs → dll (set_processors s ps) ns vs.
Proof. by intros []. Qed.
End visit.

(** A body that looks at and changes only the entry of its own processor. *)
Section local.
Context {P X : Type} (h : P → option X → P * option X).

Definition local_body (a : positive) (p : P) (m : gmap positive X) : P * gmap positive X :=
  ((h p (m !! a)).1, partial_alter (λ _, (h p (m !! a)).2) a m).

Lemma visit_ext {S} (body body' : positive → P → S → P * S) vs ps st :
  (∀ a p s, body a p s = body' a p s) → visit body vs ps st = visit body' vs ps st.
Proof.
  intros He. unfold visit. revert ps st. induction vs as [|a vs IH]; intros ps st; [done|]. cbn [foldl].
  replace (visit1 body (ps, st) a) with (visit1 body' (ps, st) a); [by destruct (visit1 body' (ps, st) a)|].
  unfold visit1. by destruct (_ !! a); rewrite ?He.
Qed.

Lemma visit_local vs ps m a :
  NoDup vs → Forall (λ a, is_Some (ps !! a)) vs →
  let r := visit local_body vs ps m in
  if decide (a ∈ vs)
  then ∃ p, ps !! a = Some p ∧ r.1 !! a = Some (h p (m !! a)).1 ∧ r.2 !! a = (h p (m !! a)).2
  else r.1 !! a = ps !! a ∧ r.2 !! a = m !! a.
Proof.
  unfold visit. intros Hn Hps. revert ps m Hps. induction Hn as [|v vs Hin Hn IH]; intros ps m Hps.
  { rewrite decide_False; [done|]. apply not_elem_of_nil. }
  apply list.Forall_cons in Hps as [[p Hp] Hps]. cbn [foldl]. cbv zeta.
  set (ps' := <[v := (h p (m !! v)).1]> ps). set (m' := partial_alter (λ _, (h p (m !! v)).2) v m).
  assert (Hv : visit1 local_body (ps, m) v = (ps', m')) by (unfold visit1; cbn [fst snd]; by rewrite Hp). rewrite Hv. clear Hv.
  assert (Hps' : Forall (λ a, is_Some (ps' !! a)) vs).
  { eapply list.Forall_impl; [exact Hps|]. intros b Hb. subst ps'.
    destruct (decide (v = b)) as [->|Hne]; [by rewrite lookup_insert_eq|by rewrite lookup_insert_ne]. }
  specialize (IH ps' m' Hps'). cbv zeta in IH. destruct (decide (a ∈ vs)) as [Ha|Ha].
  - rewrite decide_True by by apply list_elem_of_further. assert (a ≠ v) by (intros ->; done).
    destruct IH as (q & Hq & H1 & H2). exists q. subst ps' m'. rewrite lookup_insert_ne in Hq by done.
    rewrite lookup_partial_alter_ne in H1, H2 by done. done.
  - destruct IH as [-> ->]. destruct (decide (a = v)) as [->|Hne].
    + rewrite decide_True by apply list_elem_of_here. exists p. subst ps' m'. by rewrite lookup_insert_eq, lookup_partial_alter_eq.
    + rewrite decide_False by (intros [->|?]%elem_of_cons; done). subst ps' m'.
      by rewrite lookup_insert_ne, lookup_partial_alter_ne by done.
Qed.
End local.

(** ** Spans through the processors

    What a tracer does with its processor: it starts spans, tells their recordables what happens and ends them, any number of
    them at a time. *)
Inductive span_event :=
  | SpanStarts (parent_context : SpanContext)
  | SpanRecords (span : nat) (c : RecordableCall)
  | SpanEnds (span : nat).

(** A processor and the recordables of the spans that run; spans are numbered as they start. *)
Record Tracing (S L : Type) := MkTracing { processor_ : S; live : gmap nat L; started : nat }.
Arguments MkTracing {S L}.
Arguments processor_ {S L}.
Arguments live {S L}.
Arguments started {S L}.

Section pipeline.
Context {P R : Type} `{Recordable R} `{SpanProcessor P R}.

(** One event at one processor; events of spans that are not running are skipped. *)
Definition event1 (w : Tracing P R) (e : span_event) : Tracing P R :=
  match e with
  | SpanStarts ctx =>
      let '(p, r) := MakeRecordable (processor_ w) in
      match r with
      | Some r => let '(p, r) := OnStart p r ctx in MkTracing p (<[started w := r]> (live w)) (S (started w))
      | None => MkTracing p (live w) (S (started w))
      end
  | SpanRecords h c => MkTracing (processor_ w) (alter (λ r, record r c) h (live w)) (started w)
  | SpanEnds h =>
      match live w !! h with
      | Some r => MkTracing (OnEnd (processor_ w) r) (delete h (live w)) (started w)
      | None => w
      end
  end.

(** And at the list of processors. *)
Definition multi_event (w : Tracing (MultiSpanProcessor (P := P)) (MultiRecordable R)) (e : span_event)
    : option (Tracing (MultiSpanProcessor (P := P)) (MultiRecordable R)) :=
  match e with
  | SpanStarts ctx =>
      '(s, m) ← Multi_MakeRecordable (processor_ w);
      '(s, m) ← Multi_OnStart s m ctx;
      Some (MkTracing s (<[started w := m]> (live w)) (S (started w)))
  | SpanRecords h c =>
      match live w !! h with
      | Some m => m ← multi_record m c; Some (MkTracing (processor_ w) (<[h := m]> (live w)) (started w))
      | None => Some w
      end
  | SpanEnds h =>
      match live w !! h with
      | Some m => s ← Multi_OnEnd (processor_ w) m; Some (MkTracing s (delete h (live w)) (started w))
      | None => Some w
      end
  end.

Definition make_local (p : P) (_ : option (option R)) : P * option (option R) :=
  let '(p, r) := MakeRecordable p in (p, Some r).
Definition start_local (ctx : SpanContext) (p : P) (o : option (option R)) : P * option (option R) :=
  match o with Some (Some r) => let '(p, r) := OnStart p r ctx in (p, Some (Some r)) | _ => (p, o) end.
Definition end_local (p : P) (o : option (option R)) : P * option (option R) :=
  match o with Some (Some r) => (OnEnd p r, None) | _ => (p, None) end.

Lemma multi_record_lookup (m : MultiRecordable R) c :
  map_Forall (λ _ r, is_Some r) m →
  ∃ m', multi_record m c = Some m' ∧ ∀ a, m' !! a = (λ o : option R, r ← o; Some (record r c)) <$> m !! a.
Proof.
  intros Hm. unfold multi_record. rewrite decide_True by done. eexists. split; [done|]. intros a. by rewrite lookup_fmap.
Qed.

Lemma visit_make vs ps m : visit (λ a p m, let '(p, r) := MakeRecordable p in (p, AddRecordable m a r)) vs ps m
  = visit (local_body make_local) vs ps m.
Proof. apply visit_ext. intros a p m'. unfold local_body, make_local. by destruct (MakeRecordable p). Qed.

Lemma visit_start ctx vs ps m :
  visit (λ a p m, match GetRecordable m a with
                  | Some r => let '(p, r) := OnStart p r ctx in (p, <[a := Some r]> m)
                  | None => (p, m)
                  end) vs ps m = visit (local_body (start_local ctx)) vs ps m.
Proof.
  apply visit_ext. intros a p m'. unfold local_body, start_local, GetRecordable.
  destruct (m' !! a) as [[r|]|] eqn:E; [by destruct (OnStart p r ctx)|..]; cbn [fst snd]; f_equal; symmetry; by apply partial_alter_id.
Qed.

Lemma visit_end vs ps m :
  visit (λ a p m, let '(r, m) := ReleaseRecordable m a in match r with Some r => (OnEnd p r, m) | None => (p, m) end) vs ps m
  = visit (local_body end_local) vs ps m.
Proof.
  apply visit_ext. intros a p m'. unfold local_body, end_local, ReleaseRecordable.
  destruct (m' !! a) as [[r|]|] eqn:E; [done|done|]. cbn [fst snd]. f_equal. symmetry. by apply partial_alter_id.
Qed.

Lemma visit_present {S} (body : positive → P → S → P * S) vs ps st a :
  is_Some (ps !! a) → is_Some ((visit body vs ps st).1 !! a).
Proof.
  unfold visit. revert ps st. induction vs as [|v vs IH]; intros ps st Ha; [done|]. cbn [foldl].
  pose proof (visit1_present body (ps, st) v a Ha) as Hv. destruct (visit1 body (ps, st) v) as [ps' st']. by apply IH.
Qed.

(** The list [w] over the processors [vs] against each processor by itself, which [l] takes from what it was in [objects]:
    the same spans run, and the recordable that the list holds for a span at a processor is that processor's own. *)
Record each_alone (objects : gmap positive P) (ns vs : list positive) (des : list positive)
    (w : Tracing (MultiSpanProcessor (P := P)) (MultiRecordable R)) (l : P → Tracing P R) : Prop := MkEachAlone {
  ea_objects a : a ∈ vs → is_Some (objects !! a);
  ea_list : dll (processor_ w) ns vs;
  ea_destroyed : destroyed (processor_ w) = des;
  ea_processor a p : a ∈ vs → objects !! a = Some p → processors (processor_ w) !! a = Some (processor_ (l p));
  ea_other a : a ∉ vs → processors (processor_ w) !! a = objects !! a;
  ea_started a p : a ∈ vs → objects !! a = Some p → started (l p) = started w;
  ea_live h a p : a ∈ vs → objects !! a = Some p →
    match live w !! h with
    | Some m => ∃ r, m !! a = Some (Some r) ∧ live (l p) !! h = Some r
    | None => live (l p) !! h = None
    end;
  ea_none h m a : live w !! h = Some m → a ∉ vs → m !! a = None;
}.

Lemma each_alone_some objects ns vs des w l h m :
  each_alone objects ns vs des w l → live w !! h = Some m → map_Forall (λ _ r, is_Some r) m.
Proof.
  intros Hw Hm a o Ho. destruct (decide (a ∈ vs)) as [Ha|Ha].
  - destruct (ea_objects _ _ _ _ _ _ Hw a Ha) as [p Hp]. pose proof (ea_live _ _ _ _ _ _ Hw h a p Ha Hp) as Hl. rewrite Hm in Hl. destruct Hl as (r & Hr & _). rewrite Ho in Hr.
    injection Hr as ->. by eexists.
  - by rewrite (ea_none _ _ _ _ _ _ Hw h m a Hm Ha) in Ho.
Qed.

Lemma each_alone_present objects ns vs des w l :
  each_alone objects ns vs des w l → Forall (λ a, is_Some (processors (processor_ w) !! a)) vs.
Proof. intros Hw. apply list.Forall_forall. intros a Ha.
  destruct (ea_objects _ _ _ _ _ _ Hw a Ha) as [p Hp]. rewrite (ea_processor _ _ _ _ _ _ Hw a p Ha Hp). by eexists. Qed.

(** A span starts: each processor makes its own recordable and is shown that one. *)
Lemma starts_spec s ns vs ctx :
  dll s ns vs → NoDup vs → Forall (λ a, is_Some (processors s !! a)) vs → (∀ p : P, is_Some (MakeRecordable (R := R) p).2) →
  ∃ s1 m1 s2 m2, Multi_MakeRecordable s = Some (s1, m1) ∧ Multi_OnStart s1 m1 ctx = Some (s2, m2) ∧
    dll s2 ns vs ∧ destroyed s2 = destroyed s ∧
    ∀ a, if decide (a ∈ vs)
         then ∃ p r, processors s !! a = Some p ∧ (MakeRecordable p).2 = Some r ∧
              processors s2 !! a = Some (OnStart (MakeRecordable p).1 r ctx).1 ∧
              m2 !! a = Some (Some (OnStart (MakeRecordable p).1 r ctx).2)
         else processors s2 !! a = processors s !! a ∧ m2 !! a = None.
Proof.
  intros Hs Hn Hobj' Hmake. unfold Multi_MakeRecordable. rewrite (over_spec s ns vs) by done. rewrite visit_make.
  pose proof (λ a, visit_local make_local vs (processors s) ∅ a Hn Hobj') as H1.
  pose proof (λ a, visit_present (local_body make_local) vs (processors s) ∅ a) as Hk1.
  destruct (visit (local_body make_local) vs (processors s) ∅) as [ps1 m1]. cbn [fst snd] in *.
  assert (Hobj1 : Forall (λ a, is_Some (processors (set_processors s ps1) !! a)) vs).
  { eapply list.Forall_impl; [exact Hobj'|]. exact Hk1. }
  exists (set_processors s ps1), m1. unfold Multi_OnStart.
  rewrite (over_spec (set_processors s ps1) ns vs) by (try done; by apply dll_set_processors).
  rewrite visit_start. cbn [processors set_processors] in Hobj1 |- *.
  pose proof (λ a, visit_local (start_local ctx) vs ps1 m1 a Hn Hobj1) as H2.
  destruct (visit (local_body (start_local ctx)) vs ps1 m1) as [ps2 m2]. cbn [fst snd] in *.
  eexists _, m2. split; [done|]. split; [done|]. split; [by repeat apply dll_set_processors|]. split; [done|].
  intros a. cbn [processors set_processors]. specialize (H1 a). specialize (H2 a). cbv zeta in *.
  destruct (decide (a ∈ vs)) as [Ha|Ha].
  - destruct H1 as (p & Hp0 & Hp1 & Hm1), H2 as (p1 & Hp1' & Hp2 & Hm2). rewrite Hp1 in Hp1'. injection Hp1' as <-.
    destruct (Hmake p) as [r Hr]. exists p, r. split; [done|]. split; [done|]. rewrite Hp2, Hm2, Hm1. unfold make_local.
    destruct (MakeRecordable p) as [p' r']. cbn [fst snd] in *. subst r'. cbn [start_local]. by destruct (OnStart p' r ctx).
  - destruct H1 as [H1 Hm1], H2 as [H2 Hm2]. by rewrite H2, H1, Hm2, Hm1, lookup_empty.
Qed.

(** A span ends: each processor gets the recordable that the list holds for it. *)
Lemma ends_spec s ns vs m :
  dll s ns vs → NoDup vs → Forall (λ a, is_Some (processors s !! a)) vs →
  ∃ s', Multi_OnEnd s m = Some s' ∧ dll s' ns vs ∧ destroyed s' = destroyed s ∧
    ∀ a, if decide (a ∈ vs)
         then ∃ p, processors s !! a = Some p ∧ processors s' !! a = Some (end_local p (m !! a)).1
         else processors s' !! a = processors s !! a.
Proof.
  intros Hs Hn Hobj. unfold Multi_OnEnd. rewrite (over_spec s ns vs) by done. rewrite visit_end.
  pose proof (λ a, visit_local end_local vs (processors s) m a Hn Hobj) as H1.
  destruct (visit (local_body end_local) vs (processors s) m) as [ps1 m1]. cbn [fst snd mbind option_bind] in *.
  eexists. split; [done|]. split; [by apply dll_set_processors|]. split; [done|]. intros a. cbn [processors set_processors].
  specialize (H1 a). cbv zeta in H1. destruct (decide (a ∈ vs)); [naive_solver|by destruct H1].
Qed.

Lemma multi_event_spec objects ns vs des w l e :
  NoDup vs → (∀ p : P, is_Some (MakeRecordable (R := R) p).2) → each_alone objects ns vs des w l →
  ∃ w', multi_event w e = Some w' ∧ each_alone objects ns vs des w' (λ p, event1 (l p) e).
Proof.
  intros Hn Hmake Hw. pose proof (each_alone_present _ _ _ _ _ _ Hw) as Hobj. destruct e as [ctx|h c|h]; cbn [multi_event event1].
  - destruct (starts_spec (processor_ w) ns vs ctx (ea_list _ _ _ _ _ _ Hw) Hn Hobj Hmake) as (s1 & m1 & s2 & m2 & -> & E2 & Hs2 & Hd2 & H2).
    cbn [mbind option_bind]. rewrite E2. cbn [mbind option_bind]. eexists. split; [done|].
    assert (Hev : ∀ a p0, a ∈ vs → objects !! a = Some p0 → ∃ p r, processors s2 !! a = Some p ∧ m2 !! a = Some (Some r) ∧
      event1 (l p0) (SpanStarts ctx) = MkTracing p (<[started w := r]> (live (l p0))) (S (started w))).
    { intros a p0 Ha Hp0. specialize (H2 a). rewrite decide_True in H2 by done. destruct H2 as (p & r & Hp & Hr & Hp2 & Hm2).
      rewrite (ea_processor _ _ _ _ _ _ Hw a p0 Ha Hp0) in Hp. injection Hp as Hp. rewrite <-Hp in *.
      eexists _, _. split; [exact Hp2|]. split; [exact Hm2|]. cbn [event1]. rewrite (ea_started _ _ _ _ _ _ Hw a p0 Ha Hp0).
      destruct (MakeRecordable (processor_ (l p0))) as [p' r']. cbn [fst snd] in *. subst r'. by destruct (OnStart p' r ctx). }
    cbn [event1] in Hev.
    split; cbn [processor_ live started]; try done.
    + apply (ea_objects _ _ _ _ _ _ Hw).
    + by rewrite Hd2, (ea_destroyed _ _ _ _ _ _ Hw).
    + intros a p0 Ha Hp0. destruct (Hev a p0 Ha Hp0) as (p & r & Hp & _ & ->). exact Hp.
    + intros a Ha. specialize (H2 a). rewrite decide_False in H2 by done. destruct H2 as [-> _]. by apply (ea_other _ _ _ _ _ _ Hw).
    + intros a p0 Ha Hp0. by destruct (Hev a p0 Ha Hp0) as (p & r & _ & _ & ->).
    + intros h a p0 Ha Hp0. destruct (Hev a p0 Ha Hp0) as (p & r & _ & Hm & ->). cbn [live]. destruct (decide (started w = h)) as [<-|Hne].
      * rewrite !lookup_insert_eq. eauto.
      * rewrite !lookup_insert_ne by done. by eapply (ea_live _ _ _ _ _ _ Hw).
    + intros h m a Hm Ha. destruct (decide (started w = h)) as [<-|Hne].
      * rewrite lookup_insert_eq in Hm. injection Hm as <-. specialize (H2 a). rewrite decide_False in H2 by done. by destruct H2.
      * rewrite lookup_insert_ne in Hm by done. by eapply (ea_none _ _ _ _ _ _ Hw).
  - destruct (live w !! h) as [m|] eqn:Em.
    + destruct (multi_record_lookup m c (each_alone_some _ _ _ _ _ _ _ _ Hw Em)) as (m' & -> & Hm'). cbn [mbind option_bind].
      eexists. split; [done|]. destruct Hw as [W0 W1 W2 W3 W4 W5 W6 W7]. split; cbn [processor_ live started]; try done.
      * intros h' a p0 Ha Hp0. specialize (W6 h' a p0 Ha Hp0). destruct (decide (h = h')) as [<-|Hne].
        -- rewrite lookup_insert_eq. rewrite Em in W6. destruct W6 as (r & Hr & Hl). exists (record r c).
           rewrite Hm', Hr, lookup_alter_eq, Hl. done.
        -- by rewrite lookup_insert_ne, lookup_alter_ne by done.
      * intros h' m1 a Hm1 Ha. destruct (decide (h = h')) as [<-|Hne].
        -- rewrite lookup_insert_eq in Hm1. injection Hm1 as <-. by rewrite Hm', (W7 h m a).
        -- rewrite lookup_insert_ne in Hm1 by done. by eapply W7.
    + eexists. split; [done|]. destruct Hw as [W0 W1 W2 W3 W4 W5 W6 W7]. split; cbn [processor_ live started]; try done.
      intros h' a p0 Ha Hp0. specialize (W6 h' a p0 Ha Hp0). destruct (decide (h = h')) as [<-|Hne]; [|by rewrite lookup_alter_ne].
      rewrite Em in W6 |- *. by rewrite lookup_alter_eq, W6.
  - destruct (live w !! h) as [m|] eqn:Em.
    + destruct (ends_spec (processor_ w) ns vs m (ea_list _ _ _ _ _ _ Hw) Hn Hobj) as (s' & -> & Hs' & Hd' & H').
      cbn [mbind option_bind]. eexists. split; [done|]. destruct Hw as [W0 W1 W2 W3 W4 W5 W6 W7].
      assert (Hev : ∀ a p0, a ∈ vs → objects !! a = Some p0 →
        ∃ p r, processors s' !! a = Some (OnEnd p r) ∧ live (l p0) !! h = Some r ∧ processor_ (l p0) = p).
      { intros a p0 Ha Hp0. specialize (H' a). rewrite decide_True in H' by done. destruct H' as (p & Hp & Hp').
        specialize (W6 h a p0 Ha Hp0). rewrite Em in W6. destruct W6 as (r & Hr & Hl). rewrite Hr in Hp'. cbn [end_local fst] in Hp'.
        rewrite (W3 a p0 Ha Hp0) in Hp. injection Hp as Hp. eauto. }
      split; cbn [processor_ live started]; try done.
      * by rewrite Hd', W2.
      * intros a p0 Ha Hp0. destruct (Hev a p0 Ha Hp0) as (p & r & -> & -> & <-). done.
      * intros a Ha. specialize (H' a). rewrite decide_False in H' by done. rewrite H'. by apply W4.
      * intros a p0 Ha Hp0. destruct (Hev a p0 Ha Hp0) as (p & r & _ & -> & _). cbn [started]. by eapply W5.
      * intros h' a p0 Ha Hp0. destruct (Hev a p0 Ha Hp0) as (p & r & _ & -> & _). cbn [live]. destruct (decide (h = h')) as [<-|Hne].
        -- by rewrite !lookup_delete_eq.
        -- rewrite !lookup_delete_ne by done. by eapply W6.
      * intros h' m1 a [_ Hm1]%lookup_delete_Some Ha. by eapply W7.
    + eexists. split; [done|]. destruct Hw as [W0 W1 W2 W3 W4 W5 W6 W7].
      assert (Hev : ∀ a p0, a ∈ vs → objects !! a = Some p0 → live (l p0) !! h = None).
      { intros a p0 Ha Hp0. specialize (W6 h a p0 Ha Hp0). by rewrite Em in W6. }
      assert (Hsame : ∀ a p0, a ∈ vs → objects !! a = Some p0 →
        match live (l p0) !! h with
        | Some r => MkTracing (OnEnd (processor_ (l p0)) r) (delete h (live (l p0))) (started (l p0))
        | None => l p0
        end = l p0) by (intros a p0 Ha Hp0; by rewrite (Hev a p0 Ha Hp0)).
      split; try done; intros; erewrite Hsame by done; (eauto || by apply W6).
Qed.

Lemma visit_true (f : positive → P → P * bool) vs ps :
  (visit (λ a p result, let '(p, b) := f a p in (p, result || b)) vs ps true).2 = true.
Proof.
  unfold visit. revert ps. induction vs as [|v vs IH]; intros ps; [done|]. cbn [foldl]. unfold visit1 at 2. cbn [fst snd].
  destruct (ps !! v) as [p|]; [|apply IH]. destruct (f v p) as [p' b]. cbn [orb]. apply IH.
Qed.

(** Flushing and shutting down reach every processor of the list, but what they answer is lost: the
    result starts out true and is only ever or-ed, so failure is never reported. *)
Theorem multi_flush_always_true (objects : gmap positive P) ps timeout :
  Forall (λ a, is_Some (objects !! a)) (omap id ps) →
  ∃ s s1 s2, MultiSpanProcessor_new objects ps = Some s ∧
    Multi_ForceFlush s timeout = Some (s1, true) ∧ Multi_Shutdown s timeout = Some (s2, true) ∧
    processors s1 = foldl (λ ps a, alter (λ p, (ForceFlush (R := R) p timeout).1) a ps) objects (omap id ps) ∧
    processors s2 = foldl (λ ps a, alter (λ p, (Shutdown (R := R) p timeout).1) a ps) objects (omap id ps).
Proof.
  intros Hobj. destruct (AddProcessors_spec _ [] [] ps (dll_empty objects)) as (s & ns & Hnew & Hs & Hp & _).
  rewrite app_nil_l in Hs. set (vs := omap id ps) in *. exists s.
  assert (Hobj' : Forall (λ a, is_Some (processors s !! a)) vs) by by rewrite Hp.
  assert (Halter : ∀ (f : P → P * bool) vs ps b,
    (visit (λ a p result, let '(p, b) := f p in (p, result || b)) vs ps b).1 = foldl (λ ps a, alter (λ p, (f p).1) a ps) ps vs).
  { intros f. unfold visit. clear. induction vs as [|v vs IH]; intros ps b; [done|]. cbn [foldl]. unfold visit1 at 2.
    cbn [fst snd]. destruct (ps !! v) as [p|] eqn:E.
    - assert (Ha : alter (λ p, (f p).1) v ps = <[v := (f p).1]> ps).
      { apply map_eq. intros i. destruct (decide (v = i)) as [<-|Hne];
          [by rewrite lookup_alter_eq, E, lookup_insert_eq|by rewrite lookup_alter_ne, lookup_insert_ne]. }
      rewrite Ha. destruct (f p) as [p' b']. apply IH.
    - rewrite IH. f_equal. apply map_eq. intros i. destruct (decide (v = i)) as [<-|Hne];
        [by rewrite lookup_alter_eq, E|by rewrite lookup_alter_ne]. }
  unfold Multi_ForceFlush, Multi_Shutdown. rewrite !(over_spec s ns vs) by done.
  rewrite (visit_true (λ _ p, ForceFlush p timeout)), (visit_true (λ _ p, Shutdown p timeout)).
  eexists _, _. do 3 (split; [done|]). cbn [processors set_processors]. rewrite !Halter, Hp. done.
Qed.
End pipeline.

(** ** Destruction *)
Section cleanup.
Context {P : Type}.
Implicit Types s : MultiSpanProcessor (P := P).

Lemma delete_node_spec s n nd :
  nodes s !! n = Some nd →
  delete_node s n = Some (MkMulti (delete n (nodes s)) (delete (value_ nd) (processors s)) (destroyed s ++ [value_ nd])
    (head_ s) (tail_ s) (count_ s)).
Proof. intros H. unfold delete_node. by rewrite H. Qed.

(** The loop at the node [n]: everything before it is linked, at most one node comes after it. *)
Lemma cleanup_loop_spec ns n vs v after s fuel :
  seg (nodes s) None (ns ++ [n]) (vs ++ [v]) (fst <$> after) →
  NoDup (ns ++ [n] ++ option_list (fst <$> after)) →
  dom (nodes s) = list_to_set (ns ++ [n] ++ option_list (fst <$> after)) →
  (∀ m w, after = Some (m, w) → ∃ nd, nodes s !! m = Some nd ∧ value_ nd = w) →
  length ns < fuel →
  ∃ s', cleanup_loop fuel (Some n) s = Some s' ∧ nodes s' = ∅ ∧
    destroyed s' = destroyed s ++ option_list (snd <$> after) ++ reverse (vs ++ [v]) ∧
    processors s' = foldl (λ ps a, delete a ps) (processors s) (option_list (snd <$> after) ++ reverse (vs ++ [v])).
Proof.
  revert n vs v after s fuel. induction ns as [|n0 ns IH] using rev_ind; intros n vs v after s fuel Hseg Hn Hd Ha Hf;
    (destruct fuel as [|fuel]; [lia|]); cbn [cleanup_loop]; apply seg_snoc in Hseg as [Hseg Hlast]; rewrite Hlast;
    cbn [mbind option_bind next_ value_ prev_].
  - (* the first node *)
    destruct vs; [|done]. rewrite !app_nil_l in *. destruct after as [[m w]|]; cbn [fmap option_fmap option_map fst snd] in *.
    + destruct (Ha m w eq_refl) as (nd & Hm & <-). rewrite (delete_node_spec s m nd) by done. cbn [mbind option_bind nodes].
      assert (Hne : m ≠ n) by (apply list.NoDup_cons in Hn as [Hin _]; intros ->; apply Hin, list_elem_of_here).
      rewrite lookup_delete_ne, Hlast by done. cbn [mbind option_bind nodes set_nodes]. rewrite lookup_insert_eq.
      cbn [mbind option_bind prev_ list.last]. erewrite delete_node_spec by apply lookup_insert_eq.
      cbn [mbind option_bind]. eexists. split; [by destruct fuel|].
      cbn [nodes destroyed processors value_ set_nodes]. split_and!; [|by rewrite <-(assoc_L (++))|done].
      rewrite delete_insert_eq. apply map_empty. intros i. destruct (decide (i = n)) as [->|Hi]; [by rewrite lookup_delete_eq|].
      rewrite lookup_delete_ne by done. destruct (decide (i = m)) as [->|Hi']; [by rewrite lookup_delete_eq|].
      rewrite lookup_delete_ne by done. apply not_elem_of_dom. rewrite Hd. set_solver.
    + cbn [mbind option_bind]. rewrite Hlast. cbn [mbind option_bind prev_ list.last]. erewrite delete_node_spec by done.
      cbn [mbind option_bind]. eexists. split; [by destruct fuel|]. cbn [nodes destroyed processors value_].
      split_and!; [|done|done]. apply map_empty. intros i. destruct (decide (i = n)) as [->|Hi]; [by rewrite lookup_delete_eq|].
      rewrite lookup_delete_ne by done. apply not_elem_of_dom. rewrite Hd. set_solver.
  - (* a later node: what follows it goes, and the one before is next *)
    destruct vs as [|v0 vs _] using rev_ind; [by apply seg_length in Hseg; rewrite length_app in Hseg; simpl in Hseg; lia|].
    rewrite list.last_snoc in Hlast. rewrite length_app in Hf. cbn [length] in Hf.
    assert (Hn0 : n0 ≠ n ∧ (n ∉ ns) ∧ NoDup (ns ++ [n0] ++ [n])).
    { rewrite <-!(assoc_L (++)) in Hn. rewrite !(assoc_L (++)) in Hn. apply list.NoDup_app in Hn as (Hn & _ & _).
      rewrite <-(assoc_L (++)) in Hn. split_and!; [| |done].
      - apply list.NoDup_app in Hn as (_ & _ & Hn). intros ->. apply list.NoDup_cons in Hn as [Hin _].
        apply Hin, list_elem_of_here.
      - apply list.NoDup_app in Hn as (_ & Hx & _). intros Hin. apply (Hx n Hin). apply list_elem_of_further, list_elem_of_here. }
    destruct Hn0 as (Hne0 & Hnn & Hnd).
    destruct after as [[m w]|]; cbn [fmap option_fmap option_map fst snd] in *.
    + destruct (Ha m w eq_refl) as (nd & Hm & <-). rewrite (delete_node_spec s m nd) by done. cbn [mbind option_bind nodes].
      assert (Hnm : m ∉ (ns ++ [n0]) ++ [n]).
      { rewrite (assoc_L (++)) in Hn. apply list.NoDup_app in Hn as (_ & Hx & _). intros Hin.
        apply (Hx m Hin), list_elem_of_here. }
      assert (Hne : m ≠ n) by (intros ->; apply Hnm, elem_of_app; right; apply list_elem_of_here).
      rewrite lookup_delete_ne, Hlast by done. cbn [mbind option_bind nodes set_nodes]. rewrite lookup_insert_eq.
      cbn [mbind option_bind prev_]. set (s1 := set_nodes _ _).
      destruct (IH n0 vs v0 (Some (n, v)) s1 fuel) as (s' & Hrun & Hnodes & Hdes & Hproc).
      * eapply seg_frame; [|exact Hseg]. intros x Hx. subst s1. cbn [nodes set_nodes].
        rewrite lookup_insert_ne, lookup_delete_ne; [done| |]; intros <-.
        -- apply Hnm, elem_of_app. by left.
        -- apply elem_of_app in Hx as [Hx|Hx%list_elem_of_singleton]; [done|by subst].
      * exact Hnd.
      * subst s1. cbn [nodes set_nodes]. rewrite dom_insert_L, dom_delete_L, Hd. cbn [option_list fmap option_fmap option_map fst] in *. set_solver.
      * intros x y [= <- <-]. subst s1. cbn [nodes set_nodes]. rewrite lookup_insert_eq. by eexists.
      * lia.
      * exists s'. rewrite Hrun. split_and!; [done|done| |].
        -- rewrite Hdes. subst s1. cbn [destroyed set_nodes fmap option_fmap option_map snd option_list option_rect].
           rewrite (reverse_snoc (vs ++ [v0])). by rewrite <-!(assoc_L (++)).
        -- rewrite Hproc. subst s1. cbn [processors set_nodes fmap option_fmap option_map snd option_list option_rect].
           by rewrite (reverse_snoc (vs ++ [v0])).
    + cbn [mbind option_bind]. rewrite Hlast. cbn [mbind option_bind prev_].
      destruct (IH n0 vs v0 (Some (n, v)) s fuel) as (s' & Hrun & Hnodes & Hdes & Hproc).
      * exact Hseg.
      * exact Hnd.
      * rewrite Hd. cbn [option_list fmap option_fmap option_map fst] in *. set_solver.
      * intros x y [= <- <-]. rewrite Hlast. by eexists.
      * lia.
      * exists s'. rewrite Hrun. split_and!; [done|done| |].
        -- rewrite Hdes. by rewrite (reverse_snoc (vs ++ [v0])).
        -- rewrite Hproc. by rewrite (reverse_snoc (vs ++ [v0])).
Qed.

Lemma Cleanup_spec s ns vs :
  dll s ns vs →
  ∃ s', Cleanup s = Some s' ∧ dll s' [] [] ∧ destroyed s' = destroyed s ++ reverse vs ∧
    processors s' = foldl (λ ps a, delete a ps) (processors s) (reverse vs).
Proof.
  intros Hs. pose proof Hs as [Hseg Hn Hd Hh Ht Hc]. unfold Cleanup. rewrite Hc.
  destruct ns as [|n ns _] using rev_ind; [destruct vs; [|done]|].
  - cbn [length Nat.ltb Nat.leb]. exists s. by rewrite reverse_nil, app_nil_r.
  - destruct vs as [|v vs _] using rev_ind; [by apply seg_length in Hseg; rewrite length_app in Hseg; simpl in Hseg; lia|].
    rewrite length_app. cbn [length]. rewrite (proj2 (Nat.ltb_lt _ _)) by lia. rewrite Ht, list.last_snoc.
    destruct (cleanup_loop_spec ns n vs v None s (S (size (nodes s)))) as (s' & -> & Hnodes & Hdes & Hproc).
    + exact Hseg.
    + exact Hn.
    + rewrite Hd. done.
    + done.
    + rewrite <-size_dom, Hd, size_list_to_set, length_app by done. lia.
    + cbn [mbind option_bind]. eexists. split; [done|]. cbn [destroyed processors]. split_and!; [|done|done].
      split; cbn [nodes]; try done; [constructor|by rewrite Hnodes].
Qed.
End cleanup.

(** ** The whole life of a list of processors *)
Section lifetime.
Context {P R : Type} `{Recordable R} `{SpanProcessor P R}.

(** Any events, from a list that no span uses yet. *)
Definition multi_spans (s : MultiSpanProcessor (P := P)) (es : list span_event)
    : option (Tracing (MultiSpanProcessor (P := P)) (MultiRecordable R)) :=
  foldl (λ o e, w ← o; multi_event w e) (Some (MkTracing s ∅ 0)) es.

Definition spans1 (es : list span_event) (p : P) : P := processor_ (foldl event1 (MkTracing p ∅ 0) es).

Lemma multi_events_spec objects ns vs des es w l :
  NoDup vs → (∀ p : P, is_Some (MakeRecordable (R := R) p).2) → each_alone objects ns vs des w l →
  ∃ w', foldl (λ o e, w ← o; multi_event w e) (Some w) es = Some w' ∧ each_alone objects ns vs des w' (λ p, foldl event1 (l p) es).
Proof.
  intros Hn Hm. revert w l. induction es as [|e es IH]; intros w l Hw; cbn [foldl]; [by exists w|].
  cbn [mbind option_bind]. destruct (multi_event_spec _ _ _ _ _ _ e Hn Hm Hw) as (w1 & -> & Hw1). exact (IH w1 _ Hw1).
Qed.

Lemma multi_spans_spec es s ns vs :
  dll s ns vs → NoDup vs → Forall (λ a, is_Some (processors s !! a)) vs →
  (∀ p : P, is_Some (MakeRecordable (R := R) p).2) →
  ∃ w, multi_spans s es = Some w ∧ dll (processor_ w) ns vs ∧ destroyed (processor_ w) = destroyed s ∧
    ∀ a, processors (processor_ w) !! a = if decide (a ∈ vs) then spans1 es <$> processors s !! a else processors s !! a.
Proof.
  intros Hs Hn Hp Hm. rewrite list.Forall_forall in Hp.
  destruct (multi_events_spec (processors s) ns vs (destroyed s) es (MkTracing s ∅ 0) (λ p, MkTracing p ∅ 0) Hn Hm) as (w & Hw & Hea).
  { by split. }
  exists w. split; [exact Hw|]. split; [by apply (ea_list _ _ _ _ _ _ Hea)|]. split; [by apply (ea_destroyed _ _ _ _ _ _ Hea)|].
  intros a. destruct (decide (a ∈ vs)) as [Ha|Ha]; [|by apply (ea_other _ _ _ _ _ _ Hea)].
  destruct (Hp a Ha) as [p E]. rewrite E. by apply (ea_processor _ _ _ _ _ _ Hea).
Qed.

(** C26: From its construction over any vector of processors, through any spans, one after the other or overlapping, to
    its destruction: no null or dangling pointer is followed and every loop ends; each processor of the vector sees every span
    exactly as if it were alone, in order; at the end every node has been freed and every processor
    destroyed, once, the last one first.  Processors are supposed to make a recordable whenever they are asked. *)
Theorem multi_processor_lifetime (objects : gmap positive P) ps es timeout :
  NoDup (omap id ps) → Forall (λ a, is_Some (objects !! a)) (omap id ps) →
  (∀ p : P, is_Some (MakeRecordable (R := R) p).2) →
  ∃ s1 w s3, MultiSpanProcessor_new objects ps = Some s1 ∧ multi_spans s1 es = Some w ∧
    Multi_destroy (processor_ w) timeout = Some s3 ∧
    (∀ a, processors (processor_ w) !! a = if decide (a ∈ omap id ps) then spans1 es <$> objects !! a else objects !! a) ∧
    nodes s3 = ∅ ∧ destroyed s3 = reverse (omap id ps) ∧
    (∀ a, is_Some (processors s3 !! a) ↔ is_Some (objects !! a) ∧ (a ∉ omap id ps)).
Proof.
  intros Hn Hobj Hmake. destruct (AddProcessors_spec _ [] [] ps (dll_empty objects)) as (s1 & ns & Hnew & Hs1 & Hp1 & Hd1).
  rewrite app_nil_l in Hs1. set (vs := omap id ps) in *. exists s1.
  assert (Hobj1 : Forall (λ a, is_Some (processors s1 !! a)) vs) by by rewrite Hp1.
  destruct (multi_spans_spec es s1 ns vs Hs1 Hn Hobj1 Hmake) as (w & Hrun & Hs2 & Hd2 & Hl2). exists w.
  set (s2 := processor_ w) in *.
  assert (Hobj2 : Forall (λ a, is_Some (processors s2 !! a)) vs).
  { apply list.Forall_forall. intros a Ha. rewrite Hl2, decide_True by done. rewrite list.Forall_forall in Hobj1.
    destruct (Hobj1 a Ha) as [x ->]. by eexists. }
  unfold Multi_destroy, Multi_Shutdown. rewrite (over_spec s2 ns vs) by done. cbn [mbind option_bind].
  set (body := λ a p result, _). pose proof (λ a, visit_present body vs (processors s2) true a) as Hpres.
  destruct (Cleanup_spec (set_processors s2 (visit body vs (processors s2) true).1) ns vs) as (s3 & -> & Hs3 & Hd3 & Hp3).
  { by apply dll_set_processors. }
  exists s3. split_and!; [done|done|done| | | |].
  - intros a. rewrite Hl2, Hp1. done.
  - apply dom_empty_inv_L. by rewrite (dll_dom _ _ _ Hs3).
  - rewrite Hd3. cbn [destroyed set_processors]. by rewrite Hd2, Hd1.
  - intros a. rewrite Hp3. cbn [processors set_processors].
    assert (Hdel : ∀ (vs : list positive) (m : gmap positive P), foldl (λ ps a, delete a ps) m vs !! a = if decide (a ∈ vs) then None else m !! a).
    { clear. induction vs as [|v vs IH]; intros m; cbn [foldl]; [done|]. rewrite IH.
      destruct (decide (a ∈ vs)); [by rewrite decide_True by by apply list_elem_of_further|].
      destruct (decide (a = v)) as [->|Hne]; [by rewrite decide_True, lookup_delete_eq by apply list_elem_of_here|].
      rewrite decide_False by (intros [?|?]%elem_of_cons; done). by rewrite lookup_delete_ne. }
    rewrite Hdel. destruct (decide (a ∈ reverse vs)) as [Ha|Ha]; rewrite elem_of_reverse in Ha.
    + split; [by intros []|by intros [_ ?]].
    + assert (Hsame : is_Some ((visit body vs (processors s2) true).1 !! a) ↔ is_Some (processors s2 !! a)).
      { split; [|apply Hpres]. generalize (processors s2) true. clearbody body. clear -Ha. unfold visit.
        induction vs as [|v vs IH]; intros qs b; [done|]. cbn [foldl]. intros Hin. apply not_elem_of_cons in Ha as [Hne Ha].
        destruct (visit1 body (qs, b) v) as [qs' b'] eqn:E. apply (IH Ha) in Hin. unfold visit1 in E. cbn [fst snd] in E.
        destruct (qs !! v) as [q|]; [|by injection E as <- _]. destruct (body v q b). injection E as <- _.
        by rewrite lookup_insert_ne in Hin. }
      rewrite Hsame, Hl2, decide_False, Hp1 by done. change (processors (Multi_empty objects)) with objects. naive_solver.
Qed.
End lifetime.

(** ** Processors that keep what they are given *)
#[local] Instance log_Recordable : Recordable (list RecordableCall) := { record r c := r ++ [c] }.

(** A failed flush is a fourth answer to a failed shutdown. *)
#[local] Instance log_Processor : SpanProcessor (list (list RecordableCall)) (list RecordableCall) := {
  MakeRecordable p := (p, Some []);
  OnStart p r _ := (p, r);
  OnEnd p r := p ++ [r];
  ForceFlush p _ := (p ++ [[]], false);
  Shutdown p _ := (p, false);
}.

Definition demo_objects : gmap positive (list (list RecordableCall)) := {[5%positive := []; 9%positive := []; 7%positive := []]}.

Lemma demo_vector_ok :
  NoDup (omap id [Some 9%positive; None; Some 5%positive]) ∧
  Forall (λ a, is_Some (demo_objects !! a)) (omap id [Some 9%positive; None; Some 5%positive]).
Proof.
  split; [apply (bool_decide_unpack (NoDup _)); vm_compute; exact I|].
  apply list.Forall_forall. intros a. cbn. intros [->|[->|[]%elem_of_nil]%elem_of_cons]%elem_of_cons; by eexists.
Qed.

(** Two spans that overlap: the second to start is the first to end. *)
Definition demo_spans : list span_event :=
  [SpanStarts GetInvalid; SpanRecords 0 (SetName (B "a")); SpanStarts GetInvalid; SpanRecords 1 (SetDuration 3);
   SpanEnds 1; SpanRecords 0 (SetName (B "b")); SpanEnds 0; SpanRecords 1 (SetDuration 4)].

Lemma multi_processor_lifetime_witness :
  ∃ (s1 : MultiSpanProcessor) w (s3 : MultiSpanProcessor),
    MultiSpanProcessor_new demo_objects [Some 9%positive; None; Some 5%positive] = Some s1 ∧
    multi_spans s1 demo_spans = Some w ∧ Multi_destroy (processor_ w) 100 = Some s3 ∧
    processors (processor_ w) !! 5%positive = Some [[SetDuration 3]; [SetName (B "a"); SetName (B "b")]] ∧
    destroyed s3 = [5%positive; 9%positive].
Proof.
  destruct (multi_processor_lifetime demo_objects [Some 9%positive; None; Some 5%positive] demo_spans 100
    (proj1 demo_vector_ok) (proj2 demo_vector_ok)) as (s1 & w & s3 & H1 & H2 & H3 & Hp & _ & Hd & _).
  - intros p. by eexists.
  - exists s1, w, s3. split; [exact H1|]. split; [exact H2|]. split; [exact H3|]. split; [|exact Hd].
    specialize (Hp 5%positive). rewrite decide_True in Hp by (right; left). exact Hp.
Defined.

Lemma multi_flush_always_true_witness :
  ∃ s s1 : MultiSpanProcessor, MultiSpanProcessor_new demo_objects [Some 9%positive; None; Some 5%positive] = Some s ∧
    Multi_ForceFlush s 100 = Some (s1, true) ∧ processors s1 !! 9%positive = Some [[]].
Proof.
  destruct (multi_flush_always_true demo_objects [Some 9%positive; None; Some 5%positive] 100 (proj2 demo_vector_ok))
    as (s & s1 & _ & Hs & Hf & _ & Hp & _).
  exists s, s1. split; [exact Hs|]. split; [exact Hf|]. rewrite Hp. reflexivity.
Defined.
