(* ===== verification/SpanExport.v ===== *)
(** * Exporting spans

    sdk/trace/exporter.h as an interface, simple_processor.h over it, and the in-memory exporter
    of exporters/memory/in_memory_span_exporter.h and in_memory_data.h.

    The ring buffer behind the in-memory data is the bounded queue that file CircularBuffer
    proves it to be; here it is used by one thread.  The exporter of a simple processor is not
    null: the class dereferences it without a test wherever it matters. *)
From S2P Require Export SpanProcessors.

Inductive ExportResult := kSuccess | kFailure.

Class SpanExporter (E R : Type) := {
  exporter_MakeRecordable : E → E * option R;
  Export : E → list (option R) → E * ExportResult;
  exporter_ForceFlush : E → Z → E * bool;
  exporter_Shutdown : E → Z → E * bool;
}.

(** ** SimpleSpanProcessor *)
Section simple.
Context {E R : Type} `{SpanExporter E R}.

Record SimpleSpanProcessor := MkSimple {
  exporter_ : E;
  shutdown_latch_ : bool;
}.

Definition Simple_new (exporter : E) : SimpleSpanProcessor := MkSimple exporter false.

Definition Simple_MakeRecordable (p : SimpleSpanProcessor) : SimpleSpanProcessor * option R :=
  let '(e, r) := exporter_MakeRecordable (exporter_ p) in (MkSimple e (shutdown_latch_ p), r).

Definition Simple_OnStart (p : SimpleSpanProcessor) (span : R) (parent_context : SpanContext) : SimpleSpanProcessor * R := (p, span).

(** A batch of one; what the exporter answers is dropped. *)
Definition Simple_OnEnd (p : SimpleSpanProcessor) (span : R) : SimpleSpanProcessor :=
  let '(e, _) := Export (exporter_ p) [Some span] in MkSimple e (shutdown_latch_ p).

Definition Simple_ForceFlush (p : SimpleSpanProcessor) (timeout : Z) : SimpleSpanProcessor * bool :=
  let '(e, b) := exporter_ForceFlush (R := R) (exporter_ p) timeout in (MkSimple e (shutdown_latch_ p), b).

(** [test_and_set] of the latch. *)
Definition Simple_Shutdown (p : SimpleSpanProcessor) (timeout : Z) : SimpleSpanProcessor * bool :=
  if negb (shutdown_latch_ p) then
    let '(e, b) := exporter_Shutdown (R := R) (exporter_ p) timeout in (MkSimple e true, b)
  else (p, true).

#[export] Instance Simple_SpanProcessor : SpanProcessor SimpleSpanProcessor R := {
  MakeRecordable := Simple_MakeRecordable;
  OnStart := Simple_OnStart;
  OnEnd := Simple_OnEnd;
  ForceFlush := Simple_ForceFlush;
  Shutdown := Simple_Shutdown;
}.
End simple.
Arguments SimpleSpanProcessor : clear implicits.

(** ** The in-memory exporter *)

Definition MAX_BUFFER_SIZE : nat := 100.

(** A ring buffer as the queue it is, with its bound. *)
Record InMemoryData (T : Type) := MkInMemoryData { max_size : nat; queued : list T }.
Arguments MkInMemoryData {T}.
Arguments max_size {T}.
Arguments queued {T}.

(** An object that finds the buffer full is dropped. *)
Definition InMemory_Add {T} (d : InMemoryData T) (x : T) : InMemoryData T :=
  if length (queued d) <? max_size d then MkInMemoryData (max_size d) (queued d ++ [x]) else d.

(** Everything, leaving the buffer empty. *)
Definition InMemory_Get {T} (d : InMemoryData T) : InMemoryData T * list T := (MkInMemoryData (max_size d) [], queued d).

Record InMemorySpanExporter := MkInMemory {
  data_ : InMemoryData SpanData;
  is_shutdown_ : bool;
}.

Definition InMemory_new (buffer_size : nat) : InMemorySpanExporter := MkInMemory (MkInMemoryData buffer_size []) false.

Definition InMemory_MakeRecordable (e : InMemorySpanExporter) : InMemorySpanExporter * option SpanData := (e, Some SpanData_new).

Definition InMemory_Export (e : InMemorySpanExporter) (recordables : list (option SpanData)) : InMemorySpanExporter * ExportResult :=
  if is_shutdown_ e then (e, kFailure)
  else
    (MkInMemory (foldl (λ d r, match r with Some span => InMemory_Add d span | None => d end) (data_ e) recordables)
       (is_shutdown_ e), kSuccess).

Definition InMemory_ForceFlush (e : InMemorySpanExporter) (timeout : Z) : InMemorySpanExporter * bool := (e, true).
Definition InMemory_Shutdown (e : InMemorySpanExporter) (timeout : Z) : InMemorySpanExporter * bool :=
  (MkInMemory (data_ e) true, true).

#[export] Instance InMemory_SpanExporter : SpanExporter InMemorySpanExporter SpanData := {
  exporter_MakeRecordable := InMemory_MakeRecordable;
  Export := InMemory_Export;
  exporter_ForceFlush := InMemory_ForceFlush;
  exporter_Shutdown := InMemory_Shutdown;
}.

(** ** From a span to the memory *)

Lemma InMemory_Add_take {T} n (l : list T) x : InMemory_Add (MkInMemoryData n (take n l)) x = MkInMemoryData n (take n (l ++ [x])).
Proof.
  unfold InMemory_Add. cbn [queued max_size]. rewrite length_take. destruct (Nat.ltb_spec (n `min` length l) n) as [Hlt|Hge].
  - rewrite !take_ge; [done|rewrite length_app; simpl; lia|lia].
  - rewrite take_app_le by lia. done.
Qed.

(** What spans record: the data of those that have ended, in the order they ended. *)
Definition recorded_event (w : Tracing (list SpanData) SpanData) (e : span_event) : Tracing (list SpanData) SpanData :=
  match e with
  | SpanStarts _ => MkTracing (processor_ w) (<[started w := SpanData_new]> (live w)) (S (started w))
  | SpanRecords h c => MkTracing (processor_ w) (alter (λ d, record d c) h (live w)) (started w)
  | SpanEnds h =>
      match live w !! h with
      | Some d => MkTracing (processor_ w ++ [d]) (delete h (live w)) (started w)
      | None => w
      end
  end.

Definition recorded (es : list span_event) : list SpanData := processor_ (foldl recorded_event (MkTracing [] ∅ 0) es).

Definition in_memory (n : nat) (latch : bool) (l : list SpanData) : SimpleSpanProcessor InMemorySpanExporter :=
  MkSimple (MkInMemory (MkInMemoryData n (take n l)) false) latch.

Lemma simple_event n latch (w : Tracing (list SpanData) SpanData) e :
  event1 (MkTracing (in_memory n latch (processor_ w)) (live w) (started w)) e =
    MkTracing (in_memory n latch (processor_ (recorded_event w e))) (live (recorded_event w e)) (started (recorded_event w e)).
Proof.
  destruct e as [ctx|h c|h]; [done..|]. cbn [event1 recorded_event live]. destruct (live w !! h) as [d|]; [|done].
  cbn [OnEnd Simple_SpanProcessor processor_ live started]. unfold Simple_OnEnd, in_memory.
  cbn [Export InMemory_SpanExporter exporter_ shutdown_latch_]. unfold InMemory_Export.
  cbn [is_shutdown_ data_ foldl exporter_ shutdown_latch_]. by rewrite InMemory_Add_take.
Qed.

Lemma simple_spans es n latch :
  spans1 (R := SpanData) es (in_memory n latch []) = in_memory n latch (recorded es).
Proof.
  unfold spans1, recorded.
  assert (H : ∀ w : Tracing (list SpanData) SpanData,
    foldl event1 (MkTracing (in_memory n latch (processor_ w)) (live w) (started w)) es =
    let w' := foldl recorded_event w es in MkTracing (in_memory n latch (processor_ w')) (live w') (started w')).
  { induction es as [|e es IH]; intros w; [done|]. cbn [foldl]. by rewrite simple_event, IH. }
  specialize (H (MkTracing [] ∅ 0)). cbn [processor_ live started] in H. by rewrite H.
Qed.

(** C27: Any number of simple processors with in-memory exporters behind one list, and spans one after the other or
    overlapping: each exporter ends up with what was recorded of the spans, one span data per span in the order the
    spans ended, up to its own capacity - the rest is dropped without a trace.  [OnEnd] exports each span:
    the comment of the class calls it a no-op. *)
Theorem spans_reach_memory (objects : gmap positive (SimpleSpanProcessor InMemorySpanExporter)) ps es :
  NoDup (omap id ps) →
  (∀ a, a ∈ omap id ps → ∃ n, objects !! a = Some (Simple_new (InMemory_new n))) →
  ∃ s1 w, MultiSpanProcessor_new objects ps = Some s1 ∧ multi_spans (R := SpanData) s1 es = Some w ∧
    ∀ a n, a ∈ omap id ps → objects !! a = Some (Simple_new (InMemory_new n)) →
      ∃ p, processors (processor_ w) !! a = Some p ∧ (InMemory_Get (data_ (exporter_ p))).2 = take n (recorded es).
Proof.
  intros Hn Hobj. destruct (AddProcessors_spec _ [] [] ps (dll_empty objects)) as (s1 & ns & Hnew & Hs1 & Hp1 & _).
  rewrite app_nil_l in Hs1. assert (Hobj1 : Forall (λ a, is_Some (processors s1 !! a)) (omap id ps)).
  { rewrite Hp1. apply list.Forall_forall. intros a Ha. destruct (Hobj a Ha) as [n Hn']. by eexists. }
  destruct (multi_spans_spec (R := SpanData) es s1 ns (omap id ps) Hs1 Hn Hobj1) as (w & Hrun & _ & _ & Hl); [by eexists|].
  exists s1, w. split; [done|]. split; [done|]. intros a n Ha Ho. specialize (Hl a). rewrite decide_True, Hp1 in Hl by done.
  cbn [processors Multi_empty] in Hl. rewrite Ho in Hl. cbn [fmap option_fmap option_map] in Hl. eexists. split; [exact Hl|].
  pose proof (simple_spans es n false) as Hsp. unfold in_memory in Hsp. rewrite take_nil in Hsp.
  change (Simple_new (InMemory_new n)) with (MkSimple (MkInMemory (MkInMemoryData n []) false) false). by rewrite Hsp.
Qed.

(** The span that starts first ends last; a third never ends. *)
Definition example_spans : list span_event :=
  [SpanStarts GetInvalid; SpanRecords 0 (SetName (B "outer")); SpanStarts GetInvalid; SpanRecords 1 (SetName (B "inner"));
   SpanRecords 0 (SetStatus kOk []); SpanStarts GetInvalid; SpanEnds 1; SpanEnds 0].

Lemma spans_reach_memory_witness :
  let objects : gmap positive (SimpleSpanProcessor InMemorySpanExporter) :=
    {[3%positive := Simple_new (InMemory_new 1); 4%positive := Simple_new (InMemory_new MAX_BUFFER_SIZE)]} in
  ∃ s1 w, MultiSpanProcessor_new objects [Some 4%positive; Some 3%positive] = Some s1 ∧ multi_spans (R := SpanData) s1 example_spans = Some w ∧
    ∃ p q, processors (processor_ w) !! 3%positive = Some p ∧ name_ <$> queued (data_ (exporter_ p)) = [B "inner"] ∧
           processors (processor_ w) !! 4%positive = Some q ∧ name_ <$> queued (data_ (exporter_ q)) = [B "inner"; B "outer"].
Proof.
  cbv zeta. set (objects := {[_ := _; _ := _]}).
  destruct (spans_reach_memory objects [Some 4%positive; Some 3%positive] example_spans) as (s1 & s2 & H1 & H2 & H).
  - apply (bool_decide_unpack (NoDup _)). vm_compute. exact I.
  - intros a. cbn. intros [->|[->|[]%elem_of_nil]%elem_of_cons]%elem_of_cons; by eexists.
  - exists s1, s2. split; [exact H1|]. split; [exact H2|].
    destruct (H 3%positive 1) as (p & Hp & Hq); [right; left|reflexivity|].
    destruct (H 4%positive MAX_BUFFER_SIZE) as (q & Hp' & Hq'); [left|reflexivity|].
    exists p, q. split; [exact Hp|]. split; [cbn [InMemory_Get snd] in Hq; rewrite Hq; reflexivity|].
    split; [exact Hp'|]. cbn [InMemory_Get snd] in Hq'. rewrite Hq'. reflexivity.
Defined.
