(* ===== verification/Instruments.v ===== *)
(** * Instruments and views

    sdk/metrics/instruments.h: the descriptor of an instrument, when two of them are the same, clash
    or differ, and the hash under which a meter keeps its storages; sdk/metrics/view: the predicates,
    the selectors of instruments and meters, the views and their registry.

    Compiling a regular expression and matching it are parameters; [std::hash] is one too. *)
From S2P Require Export Attributes.

(** ** Descriptors *)

Inductive InstrumentType :=
  | kCounter
  | kHistogram
  | kUpDownCounter
  | kObservableCounter
  | kObservableGauge
  | kObservableUpDownCounter
  | kGauge.

Inductive InstrumentValueType := kInt | kLong | kFloat | kDouble.

#[export] Instance InstrumentType_eq_dec : EqDecision InstrumentType.
Proof. solve_decision. Defined.
#[export] Instance InstrumentValueType_eq_dec : EqDecision InstrumentValueType.
Proof. solve_decision. Defined.

(** The number of a member of an enumeration. *)
Definition InstrumentType_number (t : InstrumentType) : Z :=
  match t with
  | kCounter => 0
  | kHistogram => 1
  | kUpDownCounter => 2
  | kObservableCounter => 3
  | kObservableGauge => 4
  | kObservableUpDownCounter => 5
  | kGauge => 6
  end.

Definition InstrumentValueType_number (t : InstrumentValueType) : Z :=
  match t with kInt => 0 | kLong => 1 | kFloat => 2 | kDouble => 3 end.

Record InstrumentDescriptor := MkDescriptor {
  name_ : bytes;
  description_ : bytes;
  unit_ : bytes;
  type_ : InstrumentType;
  value_type_ : InstrumentValueType;
}.

#[export] Instance InstrumentDescriptor_eq_dec : EqDecision InstrumentDescriptor.
Proof. solve_decision. Defined.

Definition CaseInsensitiveAsciiEquals (lhs rhs : bytes) : bool :=
  (length lhs =? length rhs) && equal_seq (λ a b, ceq (tolower a) (tolower b)) lhs rhs.

Definition IsDuplicate (lhs rhs : InstrumentDescriptor) : bool :=
  if negb (CaseInsensitiveAsciiEquals (name_ lhs) (name_ rhs)) then false
  else if negb (bool_decide (type_ lhs = type_ rhs)) || negb (bool_decide (value_type_ lhs = value_type_ rhs)) then true
  else if negb (beq (unit_ lhs) (unit_ rhs)) then true
  else if negb (beq (description_ lhs) (description_ rhs)) then true
  else false.

Definition GetInstrumentTypeString (type : InstrumentType) : bytes :=
  match type with
  | kCounter => B "Counter"
  | kUpDownCounter => B "UpDownCounter"
  | kHistogram => B "Histogram"
  | kObservableCounter => B "ObservableCounter"
  | kObservableUpDownCounter => B "ObservableUpDownCounter"
  | kObservableGauge => B "ObservableGauge"
  | kGauge => B "Gauge"
  end.

Definition GetInstrumentValueTypeString (value_type : InstrumentValueType) : bytes :=
  match value_type with
  | kInt => B "Int"
  | kLong => B "Long"
  | kFloat => B "Float"
  | kDouble => B "Double"
  end.

Definition InstrumentEqualNameCaseInsensitive (lhs rhs : InstrumentDescriptor) : bool :=
  if negb (CaseInsensitiveAsciiEquals (name_ lhs) (name_ rhs)) then false
  else if negb (bool_decide (type_ lhs = type_ rhs)) || negb (bool_decide (value_type_ lhs = value_type_ rhs)) then false
  else if negb (beq (unit_ lhs) (unit_ rhs)) then false
  else if negb (beq (description_ lhs) (description_ rhs)) then false
  else true.

Definition InstrumentDescriptorHash (hasher : hashable → Z) (d : InstrumentDescriptor) : Z :=
  let hashcode := foldl (λ seed c, GetHash hasher seed (H_char (tolower c))) 0%Z (name_ d) in
  let hashcode := GetHash hasher hashcode (H_string (description_ d)) in
  let hashcode := GetHash hasher hashcode (H_string (unit_ d)) in
  let hashcode := GetHash hasher hashcode (H_uint32 (InstrumentType_number (type_ d))) in
  GetHash hasher hashcode (H_uint32 (InstrumentValueType_number (value_type_ d))).

(** ** Which instruments are the same *)

(** Names count up to the case of their letters, everything else as it is. *)
Definition same_instrument (d d' : InstrumentDescriptor) : Prop :=
  tolower <$> name_ d = tolower <$> name_ d' ∧ type_ d = type_ d' ∧ value_type_ d = value_type_ d' ∧
  unit_ d = unit_ d' ∧ description_ d = description_ d'.

#[export] Instance same_instrument_equivalence : Equivalence same_instrument.
Proof.
  unfold same_instrument. split; [by intros d|intros d d' (?&?&?&?&?)|intros d d' d'' (?&?&?&?&?) (?&?&?&?&?)]; split_and!; congruence.
Qed.

Lemma CaseInsensitiveAsciiEquals_spec s t : CaseInsensitiveAsciiEquals s t = true ↔ tolower <$> s = tolower <$> t.
Proof.
  unfold CaseInsensitiveAsciiEquals. revert t. induction s as [|a s IH]; intros [|b t]; [done..|].
  cbn [equal_seq fmap list_fmap length]. specialize (IH t). rewrite andb_true_iff in *. rewrite andb_true_iff, ceq_true.
  change (S (length s) =? S (length t)) with (length s =? length t).
  split; [intros (Hl & Ha & Hs); f_equal; [done|by apply IH]|intros [= Ha Hs%IH]; tauto].
Qed.

(** The four tests in a row, each of which answers at once. *)
Lemma instrument_tests d d' :
  InstrumentEqualNameCaseInsensitive d d' =
    CaseInsensitiveAsciiEquals (name_ d) (name_ d') && bool_decide (type_ d = type_ d') &&
    bool_decide (value_type_ d = value_type_ d') && beq (unit_ d) (unit_ d') && beq (description_ d) (description_ d') ∧
  IsDuplicate d d' = CaseInsensitiveAsciiEquals (name_ d) (name_ d') && negb (InstrumentEqualNameCaseInsensitive d d').
Proof.
  unfold IsDuplicate, InstrumentEqualNameCaseInsensitive.
  by destruct (CaseInsensitiveAsciiEquals _ _), (bool_decide (type_ d = _)), (bool_decide (value_type_ d = _)), (beq (unit_ d) _),
    (beq (description_ d) _).
Qed.

Lemma InstrumentEqual_spec d d' : InstrumentEqualNameCaseInsensitive d d' = true ↔ same_instrument d d'.
Proof.
  rewrite (proj1 (instrument_tests d d')). unfold same_instrument.
  rewrite !andb_true_iff, !bool_decide_eq_true, !beq_true, CaseInsensitiveAsciiEquals_spec. tauto.
Qed.

Lemma hash_name_ext hasher seed s t :
  tolower <$> s = tolower <$> t →
  foldl (λ seed c, GetHash hasher seed (H_char (tolower c))) seed s =
  foldl (λ seed c, GetHash hasher seed (H_char (tolower c))) seed t.
Proof.
  revert seed t. induction s as [|a s IH]; intros seed [|b t]; [done..|]. cbn [fmap list_fmap foldl].
  intros [= Hab Hst]. rewrite Hab. by apply IH.
Qed.

#[export] Instance InstrumentDescriptorHash_proper hasher : Proper (same_instrument ==> eq) (InstrumentDescriptorHash hasher).
Proof.
  intros d d' (Hn & Ht & Hv & Hu & Hd). unfold InstrumentDescriptorHash.
  by rewrite Ht, Hv, Hu, Hd, (hash_name_ext hasher _ _ _ Hn).
Qed.

(** The comparison under which a meter keeps its storages is an equivalence, the one that
    forgets the case of names; equal descriptors have equal hashes, whatever the hash function of the
    library; and two descriptors clash exactly when their names agree and they are not equal. *)
Theorem instrument_identity hasher d d' :
  (InstrumentEqualNameCaseInsensitive d d' = true ↔ same_instrument d d') ∧
  (InstrumentEqualNameCaseInsensitive d d' = true → InstrumentDescriptorHash hasher d = InstrumentDescriptorHash hasher d') ∧
  (IsDuplicate d d' = true ↔ tolower <$> name_ d = tolower <$> name_ d' ∧ ¬ same_instrument d d') ∧
  IsDuplicate d d' = IsDuplicate d' d.
Proof.
  assert (Hdup : ∀ d d', IsDuplicate d d' = true ↔ tolower <$> name_ d = tolower <$> name_ d' ∧ ¬ same_instrument d d').
  { intros x y. by rewrite (proj2 (instrument_tests x y)), andb_true_iff, negb_true_iff, CaseInsensitiveAsciiEquals_spec,
      <-not_true_iff_false, InstrumentEqual_spec. }
  split_and!; [apply InstrumentEqual_spec| |apply Hdup|].
  - intros H%InstrumentEqual_spec. by rewrite H.
  - apply eq_true_iff_eq. rewrite !Hdup. split; intros [Hn Hs]; (split; [done|]); intros Hs'; apply Hs; by symmetry.
Qed.

(** ** Views *)

Inductive PredicateType := kPattern | kExact.

Section views.
Context {regex : Type} (regex_of : bytes → option regex) (regex_match : regex → bytes → bool).

Inductive Predicate :=
  | PatternPredicate (reg_key_ : regex)
  | ExactPredicate (pattern_ : bytes)
  | MatchEverythingPattern
  | MatchNothingPattern.

(** Both the pattern and the text matched are taken for C strings. *)
Definition Match (p : Predicate) (str : bytes) : bool :=
  match p with
  | PatternPredicate reg_key => regex_match reg_key (cstr str)
  | ExactPredicate pattern => if beq pattern str then true else false
  | MatchEverythingPattern => true
  | MatchNothingPattern => false
  end.

(** A text that is no regular expression is refused with an exception. *)
Definition GetPredicate (pattern : bytes) (type : PredicateType) : option Predicate :=
  match type with
  | kPattern => if beq pattern (B "*") then Some MatchEverythingPattern else PatternPredicate <$> regex_of (cstr pattern)
  | kExact => if beq pattern [] then Some MatchEverythingPattern else Some (ExactPredicate pattern)
  end.

Record InstrumentSelector := MkInstrumentSelector {
  instrument_name_filter_ : Predicate;
  unit_filter_ : Predicate;
  instrument_type_ : InstrumentType;
}.

Definition InstrumentSelector_new (instrument_type : InstrumentType) (name units : bytes) : option InstrumentSelector :=
  name_filter ← GetPredicate name kPattern;
  unit_filter ← GetPredicate units kExact;
  Some (MkInstrumentSelector name_filter unit_filter instrument_type).

Record MeterSelector := MkMeterSelector {
  meter_name_filter_ : Predicate;
  version_filter_ : Predicate;
  schema_filter_ : Predicate;
}.

Definition MeterSelector_new (name version schema : bytes) : option MeterSelector :=
  name_filter ← GetPredicate name kExact;
  version_filter ← GetPredicate version kExact;
  schema_filter ← GetPredicate schema kExact;
  Some (MkMeterSelector name_filter version_filter schema_filter).

Record InstrumentationScope := MkScope { scope_name : bytes; scope_version : bytes; scope_schema_url : bytes }.

Inductive AggregationType := AggDrop | AggHistogram | AggLastValue | AggSum | AggDefault | AggBase2ExponentialHistogram.

(** A view's processor of attributes is the default one or a filter over the allowed keys. *)
Record View := MkView {
  view_name_ : bytes;
  view_description_ : bytes;
  aggregation_type_ : AggregationType;
  attributes_processor_ : option (gset bytes);
}.

Definition View_new (name : bytes) : View := MkView name [] AggDefault None.

Record RegisteredView := MkRegisteredView {
  instrument_selector_ : InstrumentSelector;
  meter_selector_ : MeterSelector;
  view_ : View;
}.

Abbreviation ViewRegistry := (list RegisteredView).

Definition AddView (registered_views : ViewRegistry) (s : InstrumentSelector) (m : MeterSelector) (v : View) : ViewRegistry :=
  registered_views ++ [MkRegisteredView s m v].

Definition MatchMeter (selector : MeterSelector) (scope : InstrumentationScope) : bool :=
  Match (meter_name_filter_ selector) (scope_name scope) &&
  ((length (scope_version scope) =? 0) || Match (version_filter_ selector) (scope_version scope)) &&
  ((length (scope_schema_url scope) =? 0) || Match (schema_filter_ selector) (scope_schema_url scope)).

Definition MatchInstrument (selector : InstrumentSelector) (d : InstrumentDescriptor) : bool :=
  Match (instrument_name_filter_ selector) (name_ d) && Match (unit_filter_ selector) (unit_ d) &&
  bool_decide (instrument_type_ selector = type_ d).

Section find.
Context {S : Type} (callback : S → View → S * bool).

Fixpoint FindViews_loop (found : bool) (s : S) (views : ViewRegistry) (d : InstrumentDescriptor) (scope : InstrumentationScope)
    : S * option bool :=
  match views with
  | [] => (s, Some found)
  | rv :: views =>
      if MatchMeter (meter_selector_ rv) scope && MatchInstrument (instrument_selector_ rv) d then
        let '(s, go_on) := callback s (view_ rv) in
        if go_on : bool then FindViews_loop true s views d scope else (s, None)
      else FindViews_loop found s views d scope
  end.

Definition FindViews (registered_views : ViewRegistry) (d : InstrumentDescriptor) (scope : InstrumentationScope) (s : S) : S * bool :=
  match FindViews_loop false s registered_views d scope with
  | (s, None) => (s, false)
  | (s, Some found) =>
      if found : bool then (s, true)
      else let '(s, go_on) := callback s (View_new []) in if go_on : bool then (s, true) else (s, false)
  end.

(** What is offered to the callback, until it declines. *)
Fixpoint offer (s : S) (views : list View) : S * bool :=
  match views with
  | [] => (s, true)
  | v :: views => let '(s, go_on) := callback s v in if go_on : bool then offer s views else (s, false)
  end.

Definition selected (registered_views : ViewRegistry) (d : InstrumentDescriptor) (scope : InstrumentationScope) : list View :=
  view_ <$> List.filter (λ rv, MatchMeter (meter_selector_ rv) scope && MatchInstrument (instrument_selector_ rv) d) registered_views.

Lemma FindViews_loop_spec found s views d scope :
  FindViews_loop found s views d scope =
  match offer s (selected views d scope) with
  | (s, true) => (s, Some (found || negb (length (selected views d scope) =? 0)))
  | (s, false) => (s, None)
  end.
Proof.
  revert found s. induction views as [|rv views IH]; intros found s.
  - cbn. by rewrite orb_false_r.
  - cbn [FindViews_loop]. unfold selected in *. cbn [List.filter]. destruct (_ && _); [|apply IH].
    cbn [fmap list_fmap offer length]. destruct (callback s (view_ rv)) as [s' [|]]; [|done]. rewrite IH.
    cbn [negb Nat.eqb]. rewrite orb_true_r. by destruct (offer _ _) as [? []].
Qed.

(** The callback is offered the views whose selectors match, in the order they were added, or the
    unnamed default view when there is none, until it declines; the answer is whether it never did. *)
Theorem FindViews_spec registered_views d scope s :
  FindViews registered_views d scope s =
  offer s (match selected registered_views d scope with [] => [View_new []] | views => views end).
Proof.
  unfold FindViews. rewrite FindViews_loop_spec. destruct (selected _ _ _) as [|v vs]; [done|].
  cbn [length Nat.eqb negb orb]. by destruct (offer s (v :: vs)) as [s' []].
Qed.
End find.

(** What the filters built from texts accept. *)
Definition accepts_pattern (pattern str : bytes) : bool :=
  beq pattern (B "*") || match regex_of (cstr pattern) with Some r => regex_match r (cstr str) | None => false end.
Definition accepts_exact (pattern str : bytes) : bool := beq pattern [] || beq pattern str.

Lemma Match_exact pattern p str : GetPredicate pattern kExact = Some p → Match p str = accepts_exact pattern str.
Proof. unfold GetPredicate, accepts_exact. destruct (beq pattern []); intros [= <-]; [done|]. cbn. by destruct (beq _ _). Qed.

Lemma Match_pattern pattern p str : GetPredicate pattern kPattern = Some p → Match p str = accepts_pattern pattern str.
Proof.
  unfold GetPredicate, accepts_pattern. destruct (beq pattern _); [by intros [= <-]|].
  by destruct (regex_of _); intros [= <-].
Qed.

(** An instrument matches by its kind, its name and its unit; a meter by its name, and by its version
    and schema when it has them.  A version or schema the selector asks for is not asked of a meter
    without one. *)
Theorem selectors_spec type name units meter version schema si sm d scope :
  InstrumentSelector_new type name units = Some si → MeterSelector_new meter version schema = Some sm →
  MatchInstrument si d = accepts_pattern name (name_ d) && accepts_exact units (unit_ d) && bool_decide (type = type_ d) ∧
  MatchMeter sm scope =
    accepts_exact meter (scope_name scope) &&
    (beq (scope_version scope) [] || accepts_exact version (scope_version scope)) &&
    (beq (scope_schema_url scope) [] || accepts_exact schema (scope_schema_url scope)).
Proof.
  unfold InstrumentSelector_new, MeterSelector_new.
  destruct (GetPredicate name kPattern) as [pn|] eqn:En; [|done]. destruct (GetPredicate units kExact) as [pu|] eqn:Eu; [|done].
  destruct (GetPredicate meter kExact) as [pm|] eqn:Em; [|done]. destruct (GetPredicate version kExact) as [pv|] eqn:Ev; [|done].
  destruct (GetPredicate schema kExact) as [ps|] eqn:Es; [|done]. intros [= <-] [= <-].
  assert (Hnil : ∀ s : bytes, (length s =? 0) = beq s []) by (intros [|]; [done|by symmetry; apply beq_false]).
  unfold MatchInstrument, MatchMeter.
  cbn [instrument_name_filter_ unit_filter_ instrument_type_ meter_name_filter_ version_filter_ schema_filter_].
  by rewrite (Match_pattern _ _ _ En), (Match_exact _ _ _ Eu), (Match_exact _ _ _ Em), (Match_exact _ _ _ Ev), (Match_exact _ _ _ Es), !Hnil.
Qed.
End views.

(** The tower of selectors at work, with texts as their own regular expressions. *)
Example FindViews_example :
  let reg := match InstrumentSelector_new Some kCounter (B "rolls") [], MeterSelector_new Some (B "dice") (B "1") [] with
             | Some si, Some sm => AddView [] si sm (View_new (B "seen"))
             | _, _ => []
             end in
  let find := FindViews beq (λ (l : list bytes) v, (l ++ [view_name_ v], true)) reg in
  find (MkDescriptor (B "rolls") [] (B "1") kCounter kLong) (MkScope (B "dice") [] []) [] = ([B "seen"], true) ∧
  find (MkDescriptor (B "rolls") [] (B "1") kGauge kLong) (MkScope (B "dice") [] []) [] = ([[]], true).
Proof. split; vm_compute; reflexivity. Qed.
