(* ===== verification/DefaultAggregation.v ===== *)
(** * Which aggregation an instrument gets

    sdk/metrics/aggregation/default_aggregation.h and drop_aggregation.h: the choice by the kind of
    the view or of the instrument, the choice between the integer and the floating classes, and the copy of an
    aggregation from its point.

    The classes of aggregations are an interface: their constructors, from a configuration or from a
    point, and the point they answer. *)
From S2P Require Export Instruments.

(** ** The classes *)
Inductive AggregationClass :=
  | CDrop
  | CLongHistogram
  | CDoubleHistogram
  | CBase2ExponentialHistogram
  | CLongLastValue
  | CDoubleLastValue
  | CLongSum
  | CDoubleSum.

#[export] Instance AggregationClass_eq_dec : EqDecision AggregationClass.
Proof. solve_decision. Defined.

Section aggregations.
Context {SumPointData HistogramPointData Base2PointData LastValuePointData AggregationConfig : Type}.

Inductive PointType :=
  | PSum (p : SumPointData)
  | PHistogram (p : HistogramPointData)
  | PBase2ExponentialHistogram (p : Base2PointData)
  | PLastValue (p : LastValuePointData)
  | PDrop.

(** An object of one of the classes, as what it was constructed with. *)
Class Aggregations (A : Type) := {
  class_of : A → AggregationClass;
  DropAggregation : A;
  HistogramAggregation : bool → option AggregationConfig → A;
  HistogramAggregation_of : bool → HistogramPointData → A;
  Base2ExponentialHistogramAggregation : option AggregationConfig → A;
  Base2ExponentialHistogramAggregation_of : Base2PointData → A;
  LastValueAggregation : bool → A;
  LastValueAggregation_of : bool → LastValuePointData → A;
  SumAggregation : bool → bool → A;
  SumAggregation_of : bool → SumPointData → A;
  ToPoint : A → PointType;
}.

Context {A : Type} `{!Aggregations A}.

(** ** The choices.  The first argument of a class is whether it is the one on integers. *)

Definition is_long (d : InstrumentDescriptor) : bool := bool_decide (value_type_ d = kLong).

Definition GetDefaultAggregationType (instrument_type : InstrumentType) : AggregationType * bool :=
  match instrument_type with
  | kCounter | kObservableCounter => (AggSum, true)
  | kUpDownCounter | kObservableUpDownCounter => (AggSum, false)
  | kHistogram => (AggHistogram, false)
  | kGauge | kObservableGauge => (AggLastValue, false)
  end.

Definition CreateDefaultAggregation (d : InstrumentDescriptor) (config : option AggregationConfig) : A :=
  let '(aggr_type, is_monotonic) := GetDefaultAggregationType (type_ d) in
  match aggr_type with
  | AggSum => SumAggregation (is_long d) is_monotonic
  | AggHistogram => if is_long d then HistogramAggregation true config else HistogramAggregation false config
  | AggLastValue => LastValueAggregation (is_long d)
  | _ => DropAggregation
  end.

Definition CreateAggregation (aggregation_type : AggregationType) (d : InstrumentDescriptor) (config : option AggregationConfig) : A :=
  match aggregation_type with
  | AggDrop => DropAggregation
  | AggHistogram => if is_long d then HistogramAggregation true config else HistogramAggregation false config
  | AggBase2ExponentialHistogram => Base2ExponentialHistogramAggregation config
  | AggLastValue => if is_long d then LastValueAggregation true else LastValueAggregation false
  | AggSum =>
      let is_monotonic :=
        if bool_decide (type_ d = kUpDownCounter) || bool_decide (type_ d = kObservableUpDownCounter) ||
           bool_decide (type_ d = kHistogram) then false else true in
      if is_long d then SumAggregation true is_monotonic else SumAggregation false is_monotonic
  | AggDefault => CreateDefaultAggregation d config
  end.

(** [nostd::get<T>(point)] throws when the point is of another kind, out of a function whose callers
    are [noexcept]; the null pointer at the end is for values that are no member of the enumeration. *)
Inductive cloned := Cloned (a : A) | BadVariantAccess | NullAggregation.

Definition get_sum (p : PointType) (f : SumPointData → A) : cloned :=
  match p with PSum d => Cloned (f d) | _ => BadVariantAccess end.
Definition get_histogram (p : PointType) (f : HistogramPointData → A) : cloned :=
  match p with PHistogram d => Cloned (f d) | _ => BadVariantAccess end.
Definition get_base2 (p : PointType) (f : Base2PointData → A) : cloned :=
  match p with PBase2ExponentialHistogram d => Cloned (f d) | _ => BadVariantAccess end.
Definition get_last_value (p : PointType) (f : LastValuePointData → A) : cloned :=
  match p with PLastValue d => Cloned (f d) | _ => BadVariantAccess end.

Definition CloneAggregation (aggregation_type : AggregationType) (d : InstrumentDescriptor) (to_copy : A) : cloned :=
  let point_data := ToPoint to_copy in
  let aggregation_type :=
    match aggregation_type with AggDefault => (GetDefaultAggregationType (type_ d)).1 | _ => aggregation_type end in
  match aggregation_type with
  | AggDrop => Cloned DropAggregation
  | AggHistogram =>
      if is_long d then get_histogram point_data (HistogramAggregation_of true)
      else get_histogram point_data (HistogramAggregation_of false)
  | AggBase2ExponentialHistogram => get_base2 point_data Base2ExponentialHistogramAggregation_of
  | AggLastValue =>
      if is_long d then get_last_value point_data (LastValueAggregation_of true)
      else get_last_value point_data (LastValueAggregation_of false)
  | AggSum =>
      if is_long d then get_sum point_data (SumAggregation_of true) else get_sum point_data (SumAggregation_of false)
  | AggDefault => NullAggregation
  end.

(** ** What the choice is to be *)

(** The kind of the points of a class. *)
Definition point_of_class (c : AggregationClass) (p : PointType) : Prop :=
  match c, p with
  | CDrop, PDrop | CLongHistogram, PHistogram _ | CDoubleHistogram, PHistogram _
  | CBase2ExponentialHistogram, PBase2ExponentialHistogram _ | CLongLastValue, PLastValue _ | CDoubleLastValue, PLastValue _
  | CLongSum, PSum _ | CDoubleSum, PSum _ => True
  | _, _ => False
  end.

(** A constructor makes an object of its class, and an object answers points of the kind of its class. *)
Class AggregationsLaws := {
  class_Drop : class_of DropAggregation = CDrop;
  class_Histogram long c : class_of (HistogramAggregation long c) = if long then CLongHistogram else CDoubleHistogram;
  class_Histogram_of long p : class_of (HistogramAggregation_of long p) = if long then CLongHistogram else CDoubleHistogram;
  class_Base2 c : class_of (Base2ExponentialHistogramAggregation c) = CBase2ExponentialHistogram;
  class_Base2_of p : class_of (Base2ExponentialHistogramAggregation_of p) = CBase2ExponentialHistogram;
  class_LastValue long : class_of (LastValueAggregation long) = if long then CLongLastValue else CDoubleLastValue;
  class_LastValue_of long p : class_of (LastValueAggregation_of long p) = if long then CLongLastValue else CDoubleLastValue;
  class_Sum long m : class_of (SumAggregation long m) = if long then CLongSum else CDoubleSum;
  class_Sum_of long p : class_of (SumAggregation_of long p) = if long then CLongSum else CDoubleSum;
  ToPoint_class a : point_of_class (class_of a) (ToPoint a);
}.

(** The class for the default of the instrument, or for what its view asks. *)
Definition chosen_type (t : AggregationType) (d : InstrumentDescriptor) : AggregationType :=
  match t with
  | AggDefault =>
      match type_ d with
      | kCounter | kObservableCounter | kUpDownCounter | kObservableUpDownCounter => AggSum
      | kHistogram => AggHistogram
      | kGauge | kObservableGauge => AggLastValue
      end
  | _ => t
  end.

Definition chosen_class (t : AggregationType) (d : InstrumentDescriptor) : AggregationClass :=
  match chosen_type t d with
  | AggHistogram => if is_long d then CLongHistogram else CDoubleHistogram
  | AggBase2ExponentialHistogram => CBase2ExponentialHistogram
  | AggLastValue => if is_long d then CLongLastValue else CDoubleLastValue
  | AggSum => if is_long d then CLongSum else CDoubleSum
  | AggDrop | AggDefault => CDrop
  end.

Context `{!AggregationsLaws}.

Lemma CreateAggregation_class t d config : class_of (CreateAggregation t d config) = chosen_class t d.
Proof.
  unfold CreateAggregation, CreateDefaultAggregation, chosen_class, chosen_type.
  destruct t, (type_ d), (is_long d); cbn;
    by rewrite ?class_Drop, ?class_Histogram, ?class_Base2, ?class_LastValue, ?class_Sum.
Qed.

Lemma CloneAggregation_class t d a : class_of a = chosen_class t d → ∃ c, CloneAggregation t d a = Cloned c ∧ class_of c = class_of a.
Proof.
  intros Hc. pose proof (ToPoint_class a) as Hp. rewrite Hc in *. unfold CloneAggregation, chosen_class, chosen_type in *.
  destruct t, (type_ d), (is_long d); cbn in *; destruct (ToPoint a); cbn in *; try done; (eexists; split; [reflexivity|]);
    by rewrite ?class_Drop, ?class_Histogram_of, ?class_Base2_of, ?class_LastValue_of, ?class_Sum_of.
Qed.

(** [c] was constructed from the point that [a] answers. *)
Definition copy_of (a c : A) : Prop :=
  match ToPoint a with
  | PSum p => ∃ long, c = SumAggregation_of long p
  | PHistogram p => ∃ long, c = HistogramAggregation_of long p
  | PBase2ExponentialHistogram p => c = Base2ExponentialHistogramAggregation_of p
  | PLastValue p => ∃ long, c = LastValueAggregation_of long p
  | PDrop => c = DropAggregation
  end.

Lemma CloneAggregation_copy t d a :
  class_of a = chosen_class t d → ∃ c, CloneAggregation t d a = Cloned c ∧ class_of c = class_of a ∧ copy_of a c.
Proof.
  intros Hc. destruct (CloneAggregation_class t d a Hc) as (c & E & Hcc). exists c. split; [exact E|]. split; [exact Hcc|].
  pose proof (ToPoint_class a) as Hp. rewrite Hc in Hp. unfold copy_of, CloneAggregation, chosen_class, chosen_type in *.
  destruct t, (type_ d), (is_long d); cbn in *; destruct (ToPoint a); cbn in *; try done; injection E as <-; eauto.
Qed.

(** For every view and every instrument the aggregation created is of the class the
    specification of metrics gives, and whatever happened to it since, copying it for the same view and
    instrument neither throws nor gives a null pointer: it gives an object of the same class. *)
Theorem aggregation_types_agree t d config :
  class_of (CreateAggregation t d config) = chosen_class t d ∧
  ∀ a, class_of a = class_of (CreateAggregation t d config) →
    ∃ c, CloneAggregation t d a = Cloned c ∧ class_of c = class_of a.
Proof.
  rewrite CreateAggregation_class. split; [done|]. apply CloneAggregation_class.
Qed.
End aggregations.

(** ** At a concrete interface: aggregations as their class and last point *)

Record SimpleAggregation (T : Type) := MkSimple { simple_class : AggregationClass; simple_value : T }.
Arguments MkSimple {_}.
Arguments simple_class {_}.
Arguments simple_value {_}.

Definition simple_point {T} (a : SimpleAggregation T)
    : PointType (SumPointData := T) (HistogramPointData := T) (Base2PointData := T) (LastValuePointData := T) :=
  match simple_class a with
  | CDrop => PDrop
  | CLongHistogram | CDoubleHistogram => PHistogram (simple_value a)
  | CBase2ExponentialHistogram => PBase2ExponentialHistogram (simple_value a)
  | CLongLastValue | CDoubleLastValue => PLastValue (simple_value a)
  | CLongSum | CDoubleSum => PSum (simple_value a)
  end.

(** What a new aggregation starts with. *)
Class Zero (T : Type) := zero : T.

#[export] Instance zero_Z : Zero Z := 0%Z.

#[export] Instance simple_aggregations {T} `{Zero T} : Aggregations (AggregationConfig := unit) (SimpleAggregation T) := {|
  class_of := simple_class;
  DropAggregation := MkSimple CDrop zero;
  HistogramAggregation long _ := MkSimple (if long then CLongHistogram else CDoubleHistogram) zero;
  HistogramAggregation_of long p := MkSimple (if long then CLongHistogram else CDoubleHistogram) p;
  Base2ExponentialHistogramAggregation _ := MkSimple CBase2ExponentialHistogram zero;
  Base2ExponentialHistogramAggregation_of p := MkSimple CBase2ExponentialHistogram p;
  LastValueAggregation long := MkSimple (if long then CLongLastValue else CDoubleLastValue) zero;
  LastValueAggregation_of long p := MkSimple (if long then CLongLastValue else CDoubleLastValue) p;
  SumAggregation long _ := MkSimple (if long then CLongSum else CDoubleSum) zero;
  SumAggregation_of long p := MkSimple (if long then CLongSum else CDoubleSum) p;
  ToPoint := simple_point;
|}.

#[export] Instance simple_laws {T} `{Zero T} : AggregationsLaws (A := SimpleAggregation T).
Proof. split; try done. by intros [[] z]. Qed.

Lemma aggregation_types_agree_witness :
  let d := MkDescriptor (B "latency") [] (B "ms") kHistogram kDouble in
  CloneAggregation AggDefault d (MkSimple CDoubleHistogram 7%Z) = Cloned (MkSimple CDoubleHistogram 7%Z).
Proof.
  cbv zeta. set (d := MkDescriptor _ _ _ _ _).
  destruct (aggregation_types_agree (A := SimpleAggregation Z) AggDefault d None) as [Hcreate Hclone].
  destruct (Hclone (MkSimple CDoubleHistogram 7%Z)) as (c & Hc & _); [rewrite Hcreate; reflexivity|].
  rewrite Hc. vm_compute in Hc. by injection Hc as <-.
Defined.
