(* ===== verification/MetricStorage.v ===== *)
(** * Attributes of metrics and their storage

    sdk/metrics/state/filtered_ordered_attribute_map.h, view/attributes_processor.h,
    state/attributes_hashmap.h and the recording half of state/sync_metric_storage.h.

    Aggregations are an interface.  The constructor of a filtered map from a processor is code of a
    shared library: a measurement comes with its attributes built.  An unordered map is a list of its
    entries.  Recording is stated for one thread and, over SpinLock, for any number of them. *)
From S2P Require Export Instruments SpinLock.

Section metric_attributes.
Context (hasher : hashable → Z).

(** ** Attributes with their hash *)
Record MetricAttributes := MkMetricAttributes {
  attrs : OrderedAttributeMap;
  hash_ : Z;
}.

#[export] Instance MetricAttributes_eq_dec : EqDecision MetricAttributes.
Proof. solve_decision. Defined.

Definition UpdateHash (m : MetricAttributes) : MetricAttributes :=
  MkMetricAttributes (attrs m) (GetHashForAttributeMap hasher (attrs m)).

(** The initial value of the hash is the largest [size_t]. *)
Definition MetricAttributes_default : MetricAttributes := UpdateHash (MkMetricAttributes [] (2 ^ 64 - 1)).

Definition MetricAttributes_of (attributes : KeyValues) : MetricAttributes :=
  UpdateHash (MkMetricAttributes (OrderedAttributeMap_of attributes) (2 ^ 64 - 1)).

(** [SetAttribute] is inherited: it leaves the hash alone. *)
Definition Metric_SetAttribute (m : MetricAttributes) (key : bytes) (value : AttributeValue) : MetricAttributes :=
  MkMetricAttributes (Ordered_SetAttribute (attrs m) key value) (hash_ m).

(** [operator==]: the hashes first, then the maps, whose values are compared as values. *)
Definition MetricAttributes_eq (m other : MetricAttributes) : bool :=
  (hash_ m =? hash_ other)%Z && equal_seq (λ kv kv', beq kv.1 kv'.1 && owned_eq kv.2 kv'.2) (attrs m) (attrs other).

(** ** Processors of attributes

    A key that is passed as a view: its characters and what follows them in memory. *)
Record KeyView := MkKeyView { key_text : bytes; key_after : bytes }.

Abbreviation KeyViews := (list (KeyView * AttributeValue)).

(** [key.data()] taken for a C string. *)
Definition key_data (k : KeyView) : bytes := cstr (key_text k ++ key_after k).

(** [FilteringAttributesProcessor] over the allowed keys. *)
Definition isPresent (allowed : gset bytes) (key : KeyView) : bool := bool_decide (key_data key ∈ allowed).

Fixpoint process_loop (allowed : gset bytes) (result : MetricAttributes) (attributes : KeyViews) : MetricAttributes :=
  match attributes with
  | [] => result
  | (key, value) :: attributes =>
      process_loop allowed (if isPresent allowed key then Metric_SetAttribute result (key_text key) value else result) attributes
  end.

Definition process (allowed : gset bytes) (attributes : KeyViews) : MetricAttributes :=
  UpdateHash (process_loop allowed MetricAttributes_default attributes).

(** ** Attributes that equal themselves only

    The hash is up to date, and no double is a NaN or the negative zero. *)
Definition regular_double (bits : Z) : bool :=
  negb (is_nan bits) && (0 <=? bits)%Z && (bits <? 2 ^ 64)%Z && negb (bits =? 2 ^ 63)%Z.

Definition regular_value (o : OwnedAttributeValue) : bool :=
  match o with
  | OV_double d => regular_double d
  | OV_vec_double l => forallb regular_double l
  | _ => true
  end.

Definition regular (m : MetricAttributes) : bool :=
  (hash_ m =? GetHashForAttributeMap hasher (attrs m))%Z && forallb (λ kv, regular_value kv.2) (attrs m).

Lemma double_eq_regular a b : regular_double a = true → regular_double b = true → double_eq a b = true ↔ a = b.
Proof.
  unfold regular_double, double_eq. intros Ha Hb. bprop.
  repeat match goal with H : is_nan _ = false |- _ => rewrite H; clear H end. cbn [negb andb].
  rewrite orb_true_iff, andb_true_iff, !Z.eqb_eq. split; [|by left].
  intros [?|[Hza Hzb]]; [done|]. apply Z.mod_divide in Hza as [x ->]; [|lia]. apply Z.mod_divide in Hzb as [y ->]; [|lia].
  assert (x = 0 ∧ y = 0)%Z as [-> ->] by lia. done.
Qed.

Lemma owned_eq_regular o o' : regular_value o = true → regular_value o' = true → owned_eq o o' = true ↔ o = o'.
Proof.
  intros Ho Ho'. destruct o, o'; cbn [owned_eq]; rewrite ?bool_decide_eq_true; try done.
  - rewrite double_eq_regular by done. naive_solver.
  - rewrite (equal_seq_on _ regular_double) by (done || apply double_eq_regular). naive_solver.
Qed.

Lemma MetricAttributes_eq_regular m m' :
  regular m = true → regular m' = true → MetricAttributes_eq m m' = true ↔ m = m'.
Proof.
  destruct m as [a h], m' as [a' h']. unfold regular, MetricAttributes_eq. cbn [attrs hash_].
  intros [->%Z.eqb_eq Ha]%andb_true_iff [->%Z.eqb_eq Ha']%andb_true_iff. rewrite andb_true_iff, Z.eqb_eq.
  rewrite (equal_seq_on _ (λ kv, regular_value kv.2)); [naive_solver| |done..].
  intros [k v] [k' v'] Hv Hv'. cbn [fst snd] in *. rewrite andb_true_iff, beq_true, owned_eq_regular by done. naive_solver.
Qed.

Lemma MetricAttributes_eq_refl m : regular m = true → MetricAttributes_eq m m = true.
Proof. intros H. by apply MetricAttributes_eq_regular. Qed.

Lemma MetricAttributes_eq_ne m m' :
  regular m = true → regular m' = true → m ≠ m' → MetricAttributes_eq m m' = false.
Proof. intros H H' Hne. apply not_true_is_false. by rewrite MetricAttributes_eq_regular. Qed.

(** ** The map from attributes to aggregations *)

Definition kAggregationCardinalityLimit : nat := 2000.
Definition kOverflowAttributes : MetricAttributes := MetricAttributes_of [(B "otel.metrics.overflow", AV_bool true)].

(** An aggregation as an interface: a new one, and what it does with a value. *)
Context {A V : Type} (aggregation_callback : A) (Aggregate : A → V → A).

Record AttributesHashMap := MkHashMap {
  hash_map_ : list (MetricAttributes * A);
  attributes_limit_ : nat;
}.

Definition AttributesHashMap_new (attributes_limit : nat) : AttributesHashMap := MkHashMap [] attributes_limit.

Fixpoint find_entry (k : MetricAttributes) (l : list (MetricAttributes * A)) : option nat :=
  match l with
  | [] => None
  | (k', _) :: l => if MetricAttributes_eq k k' then Some 0 else S <$> find_entry k l
  end.

Definition hm_Get (h : AttributesHashMap) (attributes : MetricAttributes) : option A :=
  it ← find_entry attributes (hash_map_ h); e ← hash_map_ h !! it; Some e.2.
Definition hm_Has (h : AttributesHashMap) (attributes : MetricAttributes) : bool :=
  match find_entry attributes (hash_map_ h) with Some _ => true | None => false end.
Definition hm_Size (h : AttributesHashMap) : nat := length (hash_map_ h).

Definition IsOverflowAttributes (h : AttributesHashMap) : bool := attributes_limit_ h <=? hm_Size h + 1.

Definition emplace (h : AttributesHashMap) (k : MetricAttributes) (a : A) : AttributesHashMap * nat :=
  (MkHashMap (hash_map_ h ++ [(k, a)]) (attributes_limit_ h), length (hash_map_ h)).

(** A pointer to an aggregation is the place of its entry. *)
Definition GetOrSetOveflowAttributes (h : AttributesHashMap) : AttributesHashMap * nat :=
  match find_entry kOverflowAttributes (hash_map_ h) with
  | Some it => (h, it)
  | None => emplace h kOverflowAttributes aggregation_callback
  end.

Definition GetOrSetDefault (h : AttributesHashMap) (attributes : MetricAttributes) : AttributesHashMap * nat :=
  match find_entry attributes (hash_map_ h) with
  | Some it => (h, it)
  | None =>
      if IsOverflowAttributes h then GetOrSetOveflowAttributes h
      else emplace h attributes aggregation_callback
  end.

(** [hash_map_[k] = aggr] *)
Definition assign (h : AttributesHashMap) (k : MetricAttributes) (aggr : A) : AttributesHashMap :=
  match find_entry k (hash_map_ h) with
  | Some it => MkHashMap (alter (λ e, (e.1, aggr)) it (hash_map_ h)) (attributes_limit_ h)
  | None => (emplace h k aggr).1
  end.

Definition Set_ (h : AttributesHashMap) (attributes : MetricAttributes) (aggr : A) : AttributesHashMap :=
  match find_entry attributes (hash_map_ h) with
  | Some _ => assign h attributes aggr
  | None => if IsOverflowAttributes h then assign h kOverflowAttributes aggr else assign h attributes aggr
  end.

(** The iteration stops when the callback answers false. *)
Definition GetAllEnteries {S} (h : AttributesHashMap) (callback : S → MetricAttributes → A → S * bool) (s : S) : S * bool :=
  (fix go s l := match l with
                 | [] => (s, true)
                 | (k, a) :: l => let '(s, go_on) := callback s k a in if go_on : bool then go s l else (s, false)
                 end) s (hash_map_ h).

(** [...->Aggregate(value)] *)
Definition aggregate_at (h : AttributesHashMap) (it : nat) (value : V) : AttributesHashMap :=
  MkHashMap (alter (λ e, (e.1, Aggregate e.2 value)) it (hash_map_ h)) (attributes_limit_ h).

(** ** Recording *)

Record SyncMetricStorage := MkSyncStorage {
  instrument_descriptor_ : InstrumentDescriptor;
  attributes_hashmap_ : AttributesHashMap;
}.

Definition SyncMetricStorage_new (instrument_descriptor : InstrumentDescriptor) (attributes_limit : nat) : SyncMetricStorage :=
  MkSyncStorage instrument_descriptor (AttributesHashMap_new attributes_limit).

(** [RecordLong] and [RecordDouble] differ in the type of instrument they accept; without attributes
    the empty ones are used. *)
Definition Record_ (type : InstrumentValueType) (s : SyncMetricStorage) (value : V) (attributes : MetricAttributes)
    : SyncMetricStorage :=
  if negb (bool_decide (value_type_ (instrument_descriptor_ s) = type)) then s
  else
    let '(h, it) := GetOrSetDefault (attributes_hashmap_ s) attributes in
    MkSyncStorage (instrument_descriptor_ s) (aggregate_at h it value).

Definition RecordLong (s : SyncMetricStorage) (value : V) (attributes : option MetricAttributes) : SyncMetricStorage :=
  Record_ kLong s value (default MetricAttributes_default attributes).
Definition RecordDouble (s : SyncMetricStorage) (value : V) (attributes : option MetricAttributes) : SyncMetricStorage :=
  Record_ kDouble s value (default MetricAttributes_default attributes).

Lemma kOverflowAttributes_regular : regular kOverflowAttributes = true.
Proof. unfold regular, kOverflowAttributes, MetricAttributes_of, UpdateHash. cbn. by rewrite Z.eqb_refl. Qed.

Lemma find_entry_app k l l' :
  find_entry k (l ++ l') = match find_entry k l with Some i => Some i | None => Nat.add (length l) <$> find_entry k l' end.
Proof.
  induction l as [|[k' a] l IH]; cbn [find_entry app length]; [by destruct (find_entry k l')|].
  destruct (MetricAttributes_eq k k'); [done|]. rewrite IH. destruct (find_entry k l); [done|]. by destruct (find_entry k l').
Qed.

Lemma find_entry_None k l :
  regular k = true → Forall (λ k', regular k' = true) l.*1 → k ∉ l.*1 → find_entry k l = None.
Proof.
  intros Hk. induction l as [|[k' a] l IH]; [done|]. cbn [fmap list_fmap fst find_entry].
  intros [Hk' Hl]%list.Forall_cons [Hne Hin]%not_elem_of_cons. by rewrite MetricAttributes_eq_ne, IH.
Qed.

(** ** What the storage holds

    The series kept are those of the first keys seen, one fewer than the limit; a last one is for
    all other measurements. *)
Abbreviation Measurements := (list (MetricAttributes * V)).

Definition distinct (ks : list MetricAttributes) : list MetricAttributes :=
  foldl (λ l k, if bool_decide (k ∈ l) then l else l ++ [k]) [] ks.

Definition kept (limit : nat) (ms : Measurements) : list MetricAttributes := take (limit - 1) (distinct ms.*1).

Definition values_of (p : MetricAttributes → bool) (ms : Measurements) : list V := snd <$> List.filter (λ m, p m.1) ms.

Definition others (limit : nat) (ms : Measurements) : list V := values_of (λ k, bool_decide (k ∉ kept limit ms)) ms.

Definition total (vs : list V) : A := foldl Aggregate aggregation_callback vs.

Definition series (limit : nat) (ms : Measurements) : list (MetricAttributes * A) :=
  ((λ k, (k, total (values_of (λ k', bool_decide (k' = k)) ms))) <$> kept limit ms) ++
  match others limit ms with [] => [] | vs => [(kOverflowAttributes, total vs)] end.

Definition record_all (type : InstrumentValueType) (s : SyncMetricStorage) (ms : Measurements) : SyncMetricStorage :=
  foldl (λ s m, Record_ type s m.2 m.1) s ms.

(** Measurements of the type of the instrument, into a new storage. *)
Definition recorded (d : InstrumentDescriptor) (limit : nat) (ms : Measurements) : SyncMetricStorage :=
  record_all (value_type_ d) (SyncMetricStorage_new d limit) ms.

Lemma distinct_snoc ks k : distinct (ks ++ [k]) = if bool_decide (k ∈ distinct ks) then distinct ks else distinct ks ++ [k].
Proof. unfold distinct. by rewrite foldl_snoc. Qed.

Lemma elem_of_distinct k ks : k ∈ distinct ks ↔ k ∈ ks.
Proof.
  induction ks as [|k' ks IH] using rev_ind; [done|]. rewrite distinct_snoc, elem_of_app, list_elem_of_singleton, <-IH.
  case_bool_decide; [naive_solver|]. by rewrite elem_of_app, list_elem_of_singleton.
Qed.

Lemma NoDup_distinct ks : NoDup (distinct ks).
Proof.
  induction ks as [|k' ks IH] using rev_ind; [constructor|]. rewrite distinct_snoc. case_bool_decide; [done|].
  apply list.NoDup_app. split_and!; [done| |apply NoDup_singleton]. intros k Hk ->%list_elem_of_singleton. done.
Qed.

Lemma kept_subseteq limit ms : kept limit ms ⊆ ms.*1.
Proof.
  intros k Hk. apply elem_of_distinct. rewrite <-(take_drop (limit - 1) (distinct ms.*1)). apply elem_of_app. by left.
Qed.

Lemma NoDup_kept limit ms : NoDup (kept limit ms).
Proof. eapply sublist_NoDup; [apply NoDup_distinct|apply sublist_take]. Qed.

Lemma values_of_snoc p ms k v : values_of p (ms ++ [(k, v)]) = values_of p ms ++ (if p k then [v] else []).
Proof. unfold values_of. rewrite List.filter_app, fmap_app. cbn [List.filter fst]. by destruct (p k). Qed.

Lemma values_of_nil p ms : values_of p ms = [] ↔ ∀ k, k ∈ ms.*1 → p k = false.
Proof.
  induction ms as [|[k v] ms IH]; [split; [by intros _ k ?%elem_of_nil|done]|].
  unfold values_of in *. cbn [List.filter fst fmap list_fmap]. destruct (p k) eqn:E; cbn [fmap list_fmap].
  - split; [done|]. intros H. rewrite (H k) in E; [done|]. apply list_elem_of_here.
  - rewrite IH. split; [|by intros H k' Hk'; apply H, list_elem_of_further].
    intros H k' [->|Hk']%elem_of_cons; [done|by apply H].
Qed.

Lemma values_of_ext p q ms : (∀ k, k ∈ ms.*1 → p k = q k) → values_of p ms = values_of q ms.
Proof.
  induction ms as [|[k v] ms IH]; [done|]. intros H. unfold values_of in *. cbn [List.filter fst].
  rewrite (H k) by apply list_elem_of_here.
  assert (Hm : snd <$> List.filter (λ m, p m.1) ms = snd <$> List.filter (λ m, q m.1) ms)
    by (apply IH; intros k' Hk'; apply H; by apply list_elem_of_further).
  destruct (q k); cbn [fmap list_fmap]; by rewrite <-?Hm.
Qed.

(** The kept keys after one more measurement. *)
Lemma kept_snoc limit ms k v :
  kept limit (ms ++ [(k, v)]) =
  if bool_decide (k ∈ distinct ms.*1) then kept limit ms
  else if length (distinct ms.*1) <? limit - 1 then distinct ms.*1 ++ [k] else kept limit ms.
Proof.
  unfold kept. rewrite fmap_app. cbn [fmap list_fmap fst]. rewrite distinct_snoc. case_bool_decide; [done|].
  destruct (Nat.ltb_spec (length (distinct ms.*1)) (limit - 1)).
  - apply take_ge. rewrite length_app. simpl. lia.
  - by rewrite take_app_le by lia.
Qed.

Lemma others_nil limit ms : others limit ms = [] ↔ kept limit ms = distinct ms.*1.
Proof.
  unfold others. rewrite values_of_nil. split.
  - intros H. unfold kept in *. destruct (Nat.le_gt_cases (length (distinct ms.*1)) (limit - 1)); [by apply take_ge|].
    destruct (lookup_lt_is_Some_2 (distinct ms.*1) (limit - 1)) as [k Hk]; [lia|].
    assert (Hin : k ∈ ms.*1) by (apply elem_of_distinct; by apply (list_elem_of_lookup_2 _ (limit - 1))).
    apply H in Hin. apply bool_decide_eq_false, dec_stable in Hin. exfalso.
    pose proof (NoDup_distinct ms.*1) as Hnd. rewrite <-(take_drop_middle _ _ _ Hk) in Hnd.
    apply list.NoDup_app in Hnd as (_ & Hd & _). apply (Hd k); [done|apply list_elem_of_here].
  - intros Hk k Hin%elem_of_distinct. apply bool_decide_eq_false. rewrite Hk. naive_solver.
Qed.

Lemma kept_full limit ms : kept limit ms ≠ distinct ms.*1 → length (kept limit ms) = limit - 1.
Proof.
  unfold kept. intros H. rewrite length_take. destruct (Nat.le_gt_cases (length (distinct ms.*1)) (limit - 1)); [|lia].
  by rewrite take_ge in H.
Qed.

Lemma alter_middle {B} (f : B → B) l1 x l2 : alter f (length l1) (l1 ++ x :: l2) = l1 ++ f x :: l2.
Proof. rewrite alter_app_r_alt, Nat.sub_diag by lia. done. Qed.

Definition entry_of (ms : Measurements) (k : MetricAttributes) : MetricAttributes * A :=
  (k, total (values_of (λ k', bool_decide (k' = k)) ms)).

Lemma series_alt limit ms :
  series limit ms =
  (entry_of ms <$> kept limit ms) ++ match others limit ms with [] => [] | vs => [(kOverflowAttributes, total vs)] end.
Proof. done. Qed.

Lemma entries_keys ms (ks : list MetricAttributes) : (entry_of ms <$> ks).*1 = ks.
Proof. rewrite <-list_fmap_compose. by rewrite list_fmap_id. Qed.

(** A measurement of another key leaves an entry alone; one of its key is aggregated. *)
Lemma entries_snoc ms k v (ks : list MetricAttributes) : k ∉ ks → entry_of (ms ++ [(k, v)]) <$> ks = entry_of ms <$> ks.
Proof.
  intros Hk. apply list_fmap_ext. intros i k' Hk'%list_elem_of_lookup_2. unfold entry_of. rewrite values_of_snoc.
  rewrite (bool_decide_eq_false_2 (k = k')) by naive_solver. by rewrite app_nil_r.
Qed.

Lemma entry_snoc ms k v : entry_of (ms ++ [(k, v)]) k = (k, Aggregate (entry_of ms k).2 v).
Proof. unfold entry_of, total. rewrite values_of_snoc, bool_decide_eq_true_2 by done. by rewrite foldl_snoc. Qed.

Lemma series_hit limit ms k v l1 l2 :
  kept limit ms = l1 ++ k :: l2 →
  series limit (ms ++ [(k, v)]) =
  alter (λ e : MetricAttributes * A, (e.1, Aggregate e.2 v)) (length l1) (series limit ms).
Proof.
  intros Hkept. pose proof (NoDup_kept limit ms) as Hnd. rewrite Hkept in Hnd.
  apply list.NoDup_app in Hnd as (_ & Hl1 & [Hl2 _]%list.NoDup_cons).
  assert (Hin : k ∈ kept limit ms) by (rewrite Hkept; set_solver).
  assert (Hk' : kept limit (ms ++ [(k, v)]) = kept limit ms).
  { rewrite kept_snoc, bool_decide_eq_true_2; [done|]. by apply elem_of_distinct, (kept_subseteq limit). }
  assert (Hoth : others limit (ms ++ [(k, v)]) = others limit ms).
  { unfold others. rewrite Hk', values_of_snoc, (bool_decide_eq_false_2 (k ∉ _)) by naive_solver. by rewrite app_nil_r. }
  rewrite !series_alt, Hoth, Hk', Hkept, !fmap_app, <-!app_assoc. cbn [fmap list_fmap app].
  rewrite <-(length_fmap (entry_of ms) l1), alter_middle, entry_snoc.
  assert (k ∉ l1) by (intros ?; apply (Hl1 k); [done|apply list_elem_of_here]).
  by rewrite !entries_snoc by done.
Qed.

Lemma series_new limit ms k v :
  k ∉ ms.*1 → others limit ms = [] → length (kept limit ms) < limit - 1 →
  series limit (ms ++ [(k, v)]) = series limit ms ++ [(k, Aggregate aggregation_callback v)].
Proof.
  intros Hk Ho Hlen. pose proof Ho as Hd%others_nil.
  assert (Hk' : kept limit (ms ++ [(k, v)]) = kept limit ms ++ [k]).
  { rewrite kept_snoc, bool_decide_eq_false_2 by (by rewrite elem_of_distinct). rewrite <-Hd.
    by destruct (Nat.ltb_spec (length (kept limit ms)) (limit - 1)); [|lia]. }
  assert (Ho' : others limit (ms ++ [(k, v)]) = []).
  { apply others_nil. rewrite Hk', Hd, fmap_app. cbn [fmap list_fmap fst]. rewrite distinct_snoc.
    by rewrite bool_decide_eq_false_2 by (by rewrite elem_of_distinct). }
  rewrite !series_alt, Ho, Ho', Hk', fmap_app, !app_nil_r. f_equal.
  - apply entries_snoc. by intros ?%kept_subseteq.
  - cbn [fmap list_fmap]. rewrite entry_snoc. do 2 f_equal. unfold entry_of, total. cbn [snd].
    rewrite (proj2 (values_of_nil _ _)); [done|]. intros k' Hin. apply bool_decide_eq_false. by intros ->.
Qed.

Lemma series_other limit ms k v :
  k ∉ kept limit ms → (others limit ms = [] → limit - 1 ≤ length (kept limit ms)) →
  series limit (ms ++ [(k, v)]) =
  (entry_of ms <$> kept limit ms) ++ [(kOverflowAttributes, total (others limit ms ++ [v]))].
Proof.
  intros Hk Hfull.
  assert (Hk' : kept limit (ms ++ [(k, v)]) = kept limit ms).
  { rewrite kept_snoc. case_bool_decide; [done|].
    destruct (Nat.ltb_spec (length (distinct ms.*1)) (limit - 1)) as [Hlt|]; [|done]. exfalso.
    assert (Hd : kept limit ms = distinct ms.*1) by (apply take_ge; lia).
    rewrite Hd in Hfull. apply others_nil in Hd. specialize (Hfull Hd). lia. }
  assert (Ho' : others limit (ms ++ [(k, v)]) = others limit ms ++ [v]).
  { unfold others. by rewrite Hk', values_of_snoc, (bool_decide_eq_true_2 (k ∉ _)) by done. }
  rewrite series_alt, Hk', Ho', entries_snoc by done. by destruct (others limit ms).
Qed.

(** ** One measurement *)

Definition usable (k : MetricAttributes) : Prop := regular k = true ∧ k ≠ kOverflowAttributes.

Lemma entries_miss ms (ks : list MetricAttributes) k : regular k = true → Forall usable ks → k ∉ ks → find_entry k (entry_of ms <$> ks) = None.
Proof.
  intros Hk Hks Hin. apply find_entry_None; [done|rewrite entries_keys..]; [|done].
  eapply list.Forall_impl; [exact Hks|]. by intros ? [].
Qed.

Lemma kept_usable limit ms : Forall usable ms.*1 → Forall usable (kept limit ms).
Proof. rewrite !list.Forall_forall. intros H k Hk%kept_subseteq. by apply H. Qed.

Lemma overflow_not_kept limit ms : Forall usable ms.*1 → kOverflowAttributes ∉ kept limit ms.
Proof. intros H%(kept_usable limit) Hin. rewrite list.Forall_forall in H. by destruct (H _ Hin). Qed.

Lemma GetOrSetDefault_series limit ms k v :
  Forall usable ms.*1 → usable k →
  (let '(h, it) := GetOrSetDefault (MkHashMap (series limit ms) limit) k in aggregate_at h it v) =
  MkHashMap (series limit (ms ++ [(k, v)])) limit.
Proof.
  intros Hms [Hk Hko]. unfold GetOrSetDefault, aggregate_at. cbn [hash_map_ attributes_limit_].
  pose proof (kept_usable limit ms Hms) as Hkept.
  destruct (decide (k ∈ kept limit ms)) as [Hin|Hin].
  - apply list_elem_of_split in Hin as (l1 & l2 & Heq). rewrite (series_hit _ _ _ _ _ _ Heq). rewrite series_alt, Heq at 1.
    pose proof (NoDup_kept limit ms) as Hnd. rewrite Heq in Hnd, Hkept. apply list.NoDup_app in Hnd as (_ & Hl1 & _).
    apply list.Forall_app in Hkept as [Hkept _].
    rewrite fmap_app, <-app_assoc, find_entry_app, entries_miss;
      [|done|done|intros ?; apply (Hl1 k); [done|apply list_elem_of_here]].
    cbn [fmap list_fmap app find_entry entry_of]. rewrite MetricAttributes_eq_refl by done. cbn [fmap option_fmap option_map].
    by rewrite length_fmap, Nat.add_0_r.
  - assert (Hmiss : find_entry k (series limit ms) = None).
    { rewrite series_alt, find_entry_app, entries_miss by done. destruct (others limit ms); [done|].
      cbn [find_entry]. by rewrite MetricAttributes_eq_ne by (done || apply kOverflowAttributes_regular). }
    rewrite Hmiss. unfold IsOverflowAttributes, hm_Size, GetOrSetOveflowAttributes, emplace. cbn [hash_map_ attributes_limit_].
    pose proof (overflow_not_kept limit ms Hms) as Hov.
    destruct (Nat.leb_spec limit (length (series limit ms) + 1)) as [Hle|Hgt].
    + rewrite (series_other _ _ _ _ Hin).
      2:{ intros Ho. rewrite series_alt, Ho, app_nil_r, length_fmap in Hle. lia. }
      rewrite (series_alt limit ms), find_entry_app, entries_miss; [|apply kOverflowAttributes_regular|done|done].
      destruct (others limit ms) as [|o os] eqn:Ho; cbn [find_entry fmap option_fmap option_map hash_map_ attributes_limit_].
      * by rewrite app_nil_r, alter_middle.
      * rewrite MetricAttributes_eq_refl by apply kOverflowAttributes_regular. cbn [fmap option_fmap option_map].
        cbn [hash_map_ attributes_limit_]. rewrite Nat.add_0_r, alter_middle. cbn [fst snd]. unfold total. by rewrite <-foldl_snoc.
    + assert (Ho : others limit ms = []).
      { apply others_nil. destruct (decide (kept limit ms = distinct ms.*1)) as [|Hne]; [done|].
        apply kept_full in Hne. rewrite series_alt, length_app, length_fmap in Hgt. lia. }
      rewrite series_alt, Ho, app_nil_r, length_fmap in Hgt.
      assert (Hnew : k ∉ ms.*1) by (rewrite <-elem_of_distinct; by rewrite <-(proj1 (others_nil limit ms) Ho)).
      rewrite (series_new limit ms k v Hnew Ho) by lia.
      cbn [hash_map_ attributes_limit_]. by rewrite alter_middle.
Qed.

(** ** All measurements *)

Lemma recorded_series d limit ms :
  Forall usable ms.*1 → recorded d limit ms = MkSyncStorage d (MkHashMap (series limit ms) limit).
Proof.
  induction ms as [|[k v] ms IH] using rev_ind.
  { intros _. assert (Hk : kept limit [] = []) by apply take_nil.
    by rewrite series_alt, (proj2 (others_nil limit [])), Hk. }
  rewrite fmap_app. intros [Hms [Hk _]%list.Forall_cons]%list.Forall_app. unfold recorded, record_all in *. rewrite foldl_snoc, IH by done.
  unfold Record_. cbn [instrument_descriptor_ attributes_hashmap_ fst snd]. rewrite bool_decide_eq_true_2 by done. cbn [negb].
  pose proof (GetOrSetDefault_series limit ms k v Hms Hk) as Hg. destruct (GetOrSetDefault _ k) as [h it]. by rewrite Hg.
Qed.

Lemma sum_list_count (k : MetricAttributes) (f : MetricAttributes → nat) ks :
  NoDup ks →
  sum_list ((λ k', (if bool_decide (k = k') then 1 else 0) + f k') <$> ks) =
  (if bool_decide (k ∈ ks) then 1 else 0) + sum_list (f <$> ks).
Proof.
  induction ks as [|k' ks IH]; [done|]. intros [Hk' Hnd]%list.NoDup_cons. cbn [fmap list_fmap sum_list]. rewrite IH by done.
  destruct (decide (k = k')) as [->|Hne].
  - rewrite (bool_decide_eq_true_2 (k' = k')), (bool_decide_eq_false_2 (k' ∈ ks)), bool_decide_eq_true_2 by set_solver. unfold id. lia.
  - rewrite (bool_decide_eq_false_2 (k = k')), (bool_decide_ext (k ∈ k' :: ks) (k ∈ ks)) by set_solver. unfold id. lia.
Qed.

(** Nothing is lost: every measurement is in exactly one of the series. *)
Lemma series_cover limit ms :
  length ms = sum_list ((λ k, length (values_of (λ k', bool_decide (k' = k)) ms)) <$> kept limit ms) + length (others limit ms).
Proof.
  unfold others. pose proof (NoDup_kept limit ms) as Hnd. generalize (kept limit ms), Hnd. clear Hnd.
  assert (Hc : ∀ p ms, length (values_of p ms) = length (List.filter (λ m : MetricAttributes * V, p m.1) ms))
    by (intros; unfold values_of; apply length_fmap).
  intros ks Hnd. induction ms as [|[k v] ms IH].
  - unfold values_of. simpl. induction ks; [done|]. apply list.NoDup_cons in Hnd as [_ Hnd]. simpl in *. auto.
  - change ((k, v) :: ms) with ([(k, v)] ++ ms). rewrite length_app, IH. cbn [length].
    assert (Hone : ∀ p, length (values_of p ([(k, v)] ++ ms)) = (if p k then 1 else 0) + length (values_of p ms)).
    { intros p. unfold values_of. cbn [app List.filter fst]. by destruct (p k). }
    assert (Hs : (λ k0, length (values_of (λ k', bool_decide (k' = k0)) ([(k, v)] ++ ms))) <$> ks =
                 (λ k0, (if bool_decide (k = k0) then 1 else 0) + length (values_of (λ k', bool_decide (k' = k0)) ms)) <$> ks)
      by (apply list_fmap_ext; intros; apply Hone).
    rewrite Hone, Hs.
    rewrite sum_list_count by done.
    destruct (decide (k ∈ ks)); [rewrite bool_decide_eq_true_2, bool_decide_eq_false_2 by naive_solver
      |rewrite bool_decide_eq_false_2, bool_decide_eq_true_2 by done]; lia.
Qed.

(** Whatever was recorded, the storage holds one series for each of the first distinct sets of
    attributes, one fewer than the limit, with exactly the values of that set in their order, and a
    last one with those of all other sets: no measurement is lost or counted twice, and there are
    never more series than the limit. *)
Theorem storage_series d limit ms :
  Forall usable ms.*1 →
  let h := attributes_hashmap_ (recorded d limit ms) in
  hash_map_ h = series limit ms ∧
  hm_Size h ≤ Nat.max limit 1 ∧
  (∀ k, k ∈ kept limit ms → hm_Get h k = Some (total (values_of (λ k', bool_decide (k' = k)) ms))) ∧
  length ms = sum_list ((λ k, length (values_of (λ k', bool_decide (k' = k)) ms)) <$> kept limit ms) + length (others limit ms).
Proof.
  intros Hms h. unfold h. rewrite recorded_series by done. cbn [attributes_hashmap_ hash_map_].
  split_and!; [done| | |apply series_cover].
  - unfold hm_Size. cbn [hash_map_]. rewrite series_alt, length_app, length_fmap. unfold kept at 1. rewrite length_take.
    destruct (others limit ms); cbn [length]; lia.
  - intros k Hk. pose proof (kept_usable limit ms Hms) as Hu. pose proof (NoDup_kept limit ms) as Hnd. unfold hm_Get. cbn [hash_map_].
    apply list_elem_of_split in Hk as (l1 & l2 & Heq). rewrite series_alt, Heq in *.
    apply list.NoDup_app in Hnd as (_ & Hl1 & _). apply list.Forall_app in Hu as [Hu1 [[Hk _] _]%list.Forall_cons].
    rewrite fmap_app, <-app_assoc, find_entry_app, entries_miss;
      [|done|done|intros ?; apply (Hl1 k); [done|apply list_elem_of_here]].
    cbn [fmap list_fmap app find_entry entry_of]. rewrite MetricAttributes_eq_refl by done.
    cbn [fmap option_fmap option_map mbind option_bind]. by rewrite Nat.add_0_r, list_lookup_middle.
Qed.

(** ** Recording from several threads

    A record takes the lock, finds or makes the entry, aggregates into it, and gives the lock back. *)

Definition record_find (m : MetricAttributes * V) (h : AttributesHashMap) : AttributesHashMap * nat := GetOrSetDefault h m.1.
Definition record_aggregate (m : MetricAttributes * V) (it : nat) (h : AttributesHashMap) : AttributesHashMap :=
  aggregate_at h it m.2.

Lemma whole_series limit ms :
  Forall usable ms.*1 →
  foldl (whole record_find record_aggregate) (AttributesHashMap_new limit) ms = MkHashMap (series limit ms) limit.
Proof.
  intros Hms. pose proof (recorded_series (MkDescriptor [] [] [] kCounter kLong) limit ms Hms) as H.
  unfold recorded, SyncMetricStorage_new in H.
  assert (Hf : ∀ d h, attributes_hashmap_ (record_all (value_type_ d) (MkSyncStorage d h) ms) =
    foldl (whole record_find record_aggregate) h ms).
  { clear. induction ms as [|m ms IH]; [done|]. intros d h. unfold record_all in *. cbn [foldl]. rewrite <-(IH d).
    unfold Record_. cbn [instrument_descriptor_ attributes_hashmap_]. rewrite bool_decide_eq_true_2 by done. cbn [negb].
    unfold whole, record_find, record_aggregate. by destruct (GetOrSetDefault h m.1). }
  rewrite <-(Hf (MkDescriptor [] [] [] kCounter kLong)), H. done.
Qed.

Lemma of_thread_elem t (e : MetricAttributes * V) h : (t, e) ∈ h → e ∈ of_thread t h.
Proof.
  intros Hin. unfold of_thread. apply list_elem_of_fmap. exists (t, e). split; [done|].
  apply list_elem_of_In, List.filter_In. split; [by apply list_elem_of_In|]. apply Nat.eqb_refl.
Qed.

(** C28: Any number of threads recording into one storage under the spin lock, in any interleaving of
    their atomic steps: when all have finished the storage holds the series of all their measurements
    in some order that keeps the order of each thread. *)
Theorem concurrent_records limit (programs : gmap nat Measurements) w :
  (∀ t ms, programs !! t = Some ms → Forall usable ms.*1) →
  rtc (client_step record_find record_aggregate) (start (AttributesHashMap_new limit) programs) w → finished w →
  ∃ order : list (nat * (MetricAttributes * V)),
    hash_map_ (object w) = series limit order.*2 ∧
    ∀ t, of_thread t order = default [] (programs !! t).
Proof.
  intros Hus Hr Hfin. destruct (sections_atomic _ _ _ _ _ Hr Hfin) as [Hobj Hof]. exists (history w).
  split; [|done]. rewrite Hobj, whole_series; [done|]. apply list.Forall_forall. intros k Hk.
  apply list_elem_of_fmap in Hk as (e & -> & He). apply list_elem_of_fmap in He as ([t e'] & -> & He). cbn [snd].
  apply of_thread_elem in He. rewrite Hof in He. destruct (programs !! t) as [ms|] eqn:Hp; [|by apply elem_of_nil in He].
  specialize (Hus t ms Hp). rewrite list.Forall_forall in Hus. apply Hus, list_elem_of_fmap. by exists e'.
Qed.

(** ** Filtering *)

(** The characters of a key end where a C string would. *)
Definition terminated (k : KeyView) : Prop := no_nul (key_text k) ∧ head (key_after k) = Some NUL.

Definition texts (attributes : KeyViews) : KeyValues := (λ kv, (key_text kv.1, kv.2)) <$> attributes.

Definition allowed_only (allowed : gset bytes) (kvs : KeyValues) : KeyValues :=
  List.filter (λ kv, bool_decide (kv.1 ∈ allowed)) kvs.

Lemma key_data_terminated k : terminated k → key_data k = key_text k.
Proof.
  destruct k as [t [|c r]]; intros [Ht Hh]; [done|]. injection Hh as ->. unfold key_data. cbn [key_text key_after].
  rewrite <-(cstr_id t Ht) at 2. by apply take_while_stop.
Qed.

Lemma process_loop_spec allowed attributes m :
  Forall (λ kv, terminated kv.1) attributes →
  process_loop allowed m attributes =
  foldl (λ m kv, Metric_SetAttribute m kv.1 kv.2) m (allowed_only allowed (texts attributes)).
Proof.
  intros H. revert m. induction H as [|[k v] attributes Hk _ IH]; intros m; [done|].
  cbn [process_loop texts fmap list_fmap allowed_only List.filter fst snd]. unfold isPresent.
  rewrite key_data_terminated by done. rewrite IH. by destruct (bool_decide _).
Qed.

Lemma Metric_SetAttribute_fold kvs m :
  attrs (foldl (λ m kv, Metric_SetAttribute m kv.1 kv.2) m kvs) = foldl (λ m kv, Ordered_SetAttribute m kv.1 kv.2) (attrs m) kvs.
Proof. revert m. induction kvs as [|kv kvs IH]; intros m; [done|]. cbn [foldl]. by rewrite IH. Qed.

Lemma last_value_allowed allowed kvs k :
  last_value k (allowed_only allowed kvs) = if bool_decide (k ∈ allowed) then last_value k kvs else None.
Proof.
  induction kvs as [|[k' v] kvs IH] using rev_ind; [by case_bool_decide|]. unfold last_value, allowed_only in *.
  rewrite List.filter_app, foldl_snoc. cbn [List.filter fst snd]. destruct (beq k k') eqn:E.
  - apply beq_true in E as <-. case_bool_decide; [rewrite foldl_snoc; cbn [fst snd]; by rewrite beq_refl|].
    by rewrite app_nil_r.
  - rewrite <-IH. destruct (bool_decide (k' ∈ allowed)); [rewrite foldl_snoc; cbn [fst snd]; by rewrite E|].
    by rewrite app_nil_r.
Qed.

(** With terminated keys the filtering processor keeps exactly the attributes with an allowed key
    and brings the hash up to date; so two measurements that agree on the allowed keys get equal
    attributes, and the same series. *)
Theorem process_spec allowed attributes :
  Forall (λ kv, terminated kv.1) attributes →
  process allowed attributes = MetricAttributes_of (allowed_only allowed (texts attributes)) ∧
  (∀ k, om_find k (attrs (process allowed attributes)) =
        if bool_decide (k ∈ allowed) then last_value k (texts attributes) else None) ∧
  (∀ attributes', Forall (λ kv, terminated kv.1) attributes' →
     (∀ k, k ∈ allowed → last_value k (texts attributes) = last_value k (texts attributes')) →
     process allowed attributes = process allowed attributes').
Proof.
  assert (Heq : ∀ l, Forall (λ kv, terminated kv.1) l →
    process allowed l = MetricAttributes_of (allowed_only allowed (texts l))).
  { intros l Hl. unfold process, MetricAttributes_of, UpdateHash, OrderedAttributeMap_of. cbn [attrs].
    by rewrite process_loop_spec, Metric_SetAttribute_fold, ForEachKeyValue_all. }
  intros H. split_and!; [by apply Heq| |].
  - intros k. rewrite Heq by done. cbn [attrs MetricAttributes_of UpdateHash].
    by rewrite OrderedAttributeMap_of_find, last_value_allowed.
  - intros attributes' H' Hl. rewrite !Heq by done. unfold MetricAttributes_of. do 2 f_equal.
    apply OrderedAttributeMap_of_ext. intros k. rewrite !last_value_allowed. case_bool_decide; [by apply Hl|done].
Qed.
End metric_attributes.

(** ** At concrete inputs *)

Definition example_hasher (x : hashable) : Z :=
  match x with
  | H_string s => foldl (λ h c, (h * 31 + code c) mod 2 ^ 64)%Z 7%Z s
  | H_bool b => if b then 1 else 0
  | H_char c => code c
  | H_int32 z | H_uint32 z | H_int64 z | H_uint64 z | H_uint8 z | H_double z => z
  end%Z.

Definition example_attributes (s : string) : MetricAttributes := MetricAttributes_of example_hasher [(B "route", AV_string (B s))].

Definition example_descriptor : InstrumentDescriptor := MkDescriptor (B "rolls") [] (B "1") kCounter kLong.

Lemma storage_series_witness :
  let ms := [(example_attributes "/a", 1%Z); (example_attributes "/b", 2%Z); (example_attributes "/c", 4%Z);
             (example_attributes "/a", 8%Z); (example_attributes "/d", 16%Z)] in
  Forall (usable example_hasher) ms.*1 ∧
  hash_map_ (attributes_hashmap_ (recorded example_hasher 0%Z Z.add example_descriptor 3 ms)) =
  [(example_attributes "/a", 9%Z); (example_attributes "/b", 2%Z); (kOverflowAttributes example_hasher, 20%Z)].
Proof.
  cbv zeta. match goal with |- Forall ?P (fmap ?f ?l) ∧ _ => set (ms := l) end.
  assert (Hms : Forall (usable example_hasher) ms.*1).
  { unfold ms. cbn [fmap list_fmap fst]. repeat (apply list.Forall_cons; split); [..|constructor];
      (split; [vm_compute; reflexivity|apply (bool_decide_unpack (_ ≠ _)); vm_compute; exact I]). }
  split; [exact Hms|].
  destruct (storage_series example_hasher 0%Z Z.add example_descriptor 3 ms Hms) as (Hs & _). rewrite Hs. vm_compute. reflexivity.
Defined.

(** Two threads: the second spins while the first is inside. *)
Lemma concurrent_records_witness :
  let a := example_attributes "/a" in
  let programs : gmap nat (list (MetricAttributes * Z)) := {[0 := [(a, 1%Z)]; 1 := [(a, 2%Z)]]} in
  let schedule := [0; 1; 0; 1; 0; 1; 0; 1; 0; 1; 1; 1; 1; 1] in
  ∃ w order, run_schedule (record_find example_hasher 0%Z) (record_aggregate Z.add) (start (AttributesHashMap_new 3) programs) schedule = Some w ∧
    finished w ∧ hash_map_ (object w) = series example_hasher 0%Z Z.add 3 order.*2 ∧
    of_thread 0 order = [(a, 1%Z)] ∧ of_thread 1 order = [(a, 2%Z)].
Proof.
  cbv zeta. set (a := example_attributes "/a"). set (programs := {[0 := _; 1 := _]} : gmap nat _).
  destruct (run_schedule _ _ _ _) as [w|] eqn:E; [|vm_compute in E; discriminate E].
  assert (Hfin : finished w).
  { assert (Hth : threads w = {[0 := Outside []; 1 := Outside []]})
      by (vm_compute in E; injection E as <-; vm_compute; reflexivity).
    intros t th Ht. rewrite Hth in Ht. apply lookup_insert_Some in Ht as [[_ <-]|[_ Ht]]; [done|].
    by apply lookup_singleton_Some in Ht as [_ <-]. }
  destruct (concurrent_records example_hasher 0%Z Z.add 3 programs w) as (order & Ho & Hof).
  - intros t ms Ht. assert (ms = [(a, 1%Z)] ∨ ms = [(a, 2%Z)]) as [-> | ->].
    { unfold programs in Ht. apply lookup_insert_Some in Ht as [[_ <-]|[_ Ht]]; [by left|].
      apply lookup_singleton_Some in Ht as [_ <-]. by right. }
    all: apply list.Forall_singleton; split; [vm_compute; reflexivity|apply (bool_decide_unpack (_ ≠ _)); vm_compute; exact I].
  - exact (run_schedule_rtc _ _ _ _ _ E).
  - exact Hfin.
  - exists w, order. split_and!; [done|exact Hfin|exact Ho|exact (Hof 0)|exact (Hof 1)].
Defined.

Lemma process_spec_witness :
  let kvs := [(MkKeyView (B "user") [NUL], AV_int32 1); (MkKeyView (B "route") [NUL], AV_int32 2)] in
  Forall (λ kv : KeyView * AttributeValue, terminated kv.1) kvs ∧
  process example_hasher {[B "route"]} kvs = MetricAttributes_of example_hasher [(B "route", AV_int32 2)].
Proof.
  cbv zeta. match goal with |- Forall _ ?l ∧ _ => set (kvs := l) end.
  assert (H : Forall (λ kv : KeyView * AttributeValue, terminated kv.1) kvs).
  { repeat (apply list.Forall_cons; split); [..|constructor];
      (split; [by apply no_nulb_spec|reflexivity]). }
  split; [exact H|]. destruct (process_spec example_hasher {[B "route"]} kvs H) as (Hp & _). rewrite Hp. vm_compute. reflexivity.
Defined.

(** A key that is a part of a longer text is not found: its characters are taken up to the next NUL. *)
Example unterminated_key_dropped :
  attrs (process example_hasher {[B "route"]} [(MkKeyView (B "route") (B "=/a" ++ [NUL]), AV_int32 2)]) = [].
Proof. vm_compute. reflexivity. Qed.
