(* ===== verification/Exemplar.v ===== *)
(** * Exemplar reservoirs

    sdk/metrics/exemplar: the cells that keep a measurement with its span, the reservoirs of a fixed
    number of cells, the selectors that choose a cell at random or by the bucket of a histogram, and
    the choice of a reservoir for an instrument.  All of it is compiled with the exemplar preview only.

    Random numbers and times are arguments.  A double is its 64 bits; an access outside a vector, a
    null pointer followed and a division by zero are the error [None]. *)
From S2P Require Export Context MetricStorage.

(** ** Doubles *)

(** [<=] on doubles, false when one is a NaN: the bits in the order of the values. *)
Definition double_key (bits : Z) : Z := if (bits <? 2 ^ 63)%Z then bits else (2 ^ 63 - bits)%Z.
Definition double_le (a b : Z) : bool := negb (is_nan a) && negb (is_nan b) && (double_key a <=? double_key b)%Z.

(** The conversion of an integer: its 53 highest bits, rounded to the nearest, ties to even. *)
Definition double_of_nonneg (m : Z) : Z :=
  if (m =? 0)%Z then 0%Z
  else
    let e := Z.log2 m in
    let q :=
      if (e <=? 52)%Z then Z.shiftl m (52 - e)
      else
        let s := (e - 52)%Z in
        let q := Z.shiftr m s in
        let r := (m mod 2 ^ s)%Z in
        let half := (2 ^ (s - 1))%Z in
        if (half <? r)%Z || ((r =? half)%Z && Z.odd q) then (q + 1)%Z else q in
    ((e + 1023) * 2 ^ 52 + (q - 2 ^ 52))%Z.
Definition double_of_int64 (z : Z) : Z := if (z <? 0)%Z then (2 ^ 63 + double_of_nonneg (- z))%Z else double_of_nonneg z.

Example double_of_int64_examples :
  double_of_int64 1 = (1023 * 2 ^ 52)%Z ∧ double_of_int64 (-2) = (2 ^ 63 + 1024 * 2 ^ 52)%Z ∧
  double_of_int64 (2 ^ 53 + 1) = double_of_int64 (2 ^ 53) ∧ double_of_int64 (2 ^ 63 - 1) = double_of_nonneg (2 ^ 63).
Proof. split_and!; vm_compute; reflexivity. Qed.

Section exemplars.
Context (hasher : hashable → Z).

(** ** Cells *)

Inductive cell_value := VLong (z : Z) | VDouble (bits : Z).

Record ReservoirCell := MkCell {
  context_ : option SpanContext;
  value_ : cell_value;
  record_time_ : Z;
  attributes_ : MetricAttributes;
}.

Definition ReservoirCell_new : ReservoirCell := MkCell None (VLong 0) 0 (MetricAttributes_default hasher).

(** What an exemplar shows: its span, its time, the attributes that the point lacks, and a sum. *)
Record ExemplarData := MkExemplar {
  ex_context : SpanContext;
  ex_time : Z;
  ex_attributes : MetricAttributes;
  ex_sum : cell_value;
}.

Record Measurement := MkMeasurement {
  m_value : cell_value;
  m_attributes : MetricAttributes;
  m_context : Context;
  m_now : Z;
}.

(** [RecordLongMeasurement] and [RecordDoubleMeasurement] differ in the type of the value only. *)
Definition RecordMeasurement (m : Measurement) (c : ReservoirCell) : ReservoirCell :=
  let current_ctx := GetContext (GetSpan (m_context m)) in
  MkCell (if SpanContext_IsValid current_ctx then Some current_ctx else context_ c) (m_value m) (m_now m) (m_attributes m).

(** [reset] leaves the span and the attributes. *)
Definition reset (c : ReservoirCell) : ReservoirCell := MkCell (context_ c) (VDouble 0) 0 (attributes_ c).

Definition filtered (original metric_point : MetricAttributes) : MetricAttributes :=
  UpdateHash hasher (MkMetricAttributes (foldl (λ res kv, om_erase kv.1 res) (attrs original) (attrs metric_point)) (hash_ original)).

(** [GetAndResetLong] and [GetAndResetDouble]: a value of the other type is shown as the default sum. *)
Definition GetAndReset (long : bool) (point_attributes : MetricAttributes) (c : ReservoirCell) : ReservoirCell * option ExemplarData :=
  match context_ c with
  | None => (c, None)
  | Some context =>
      let sum :=
        match long, value_ c with
        | true, VLong z => VLong z
        | false, VDouble d => VDouble d
        | _, _ => VLong 0
        end in
      (reset c, Some (MkExemplar context (record_time_ c) (filtered (attributes_ c) point_attributes) sum))
  end.

(** ** Selectors *)

Inductive Selector :=
  | SimpleFixedSizeCellSelector (measurements_seen_ size_ : Z)
  | HistogramCellSelector (boundaries_ : list Z).

(** [static_cast<int>] of a [size_t]: its 32 low bits, signed. *)
Definition to_int (z : Z) : Z := let w := (z mod 2 ^ 32)%Z in if (w <? 2 ^ 31)%Z then w else (w - 2 ^ 32)%Z.

Definition as_double (v : cell_value) : Z := match v with VLong z => double_of_int64 z | VDouble d => d end.

(** The index and the selector afterwards; the random number is used when the cells are full. *)
Definition ReservoirCellIndexFor (s : Selector) (value : cell_value) (random : Z) : option (Selector * Z) :=
  match s with
  | SimpleFixedSizeCellSelector measurement_num size =>
      let s' := SimpleFixedSizeCellSelector ((measurement_num + 1) mod 2 ^ 64) size in
      if (measurement_num <? size)%Z then Some (s', to_int measurement_num)
      else if (measurement_num =? 0)%Z then None
      else
        let random_index := (random mod measurement_num)%Z in
        Some (s', to_int (if (random_index <? size)%Z then random_index else 2 ^ 64 - 1))
  | HistogramCellSelector boundaries =>
      let i := match index_of (λ b, double_le (as_double value) b) boundaries with Some i => i | None => length boundaries end in
      Some (s, to_int (Z.of_nat i))
  end.

(** ** Reservoirs *)

Record FixedSizeExemplarReservoir := MkReservoir {
  storage_ : list ReservoirCell;
  reservoir_cell_selector_ : option Selector;
  map_and_reset_cell_ : option bool;
}.

Definition FixedSize_new (size : nat) (selector : option Selector) (map_and_reset : option bool) : FixedSizeExemplarReservoir :=
  MkReservoir (replicate size ReservoirCell_new) selector map_and_reset.

Definition AlignedHistogram_new (size : nat) (selector : option Selector) (map_and_reset : option bool) : FixedSizeExemplarReservoir :=
  FixedSize_new (size + 1) selector map_and_reset.

Definition OfferMeasurement (random : Z) (r : FixedSizeExemplarReservoir) (m : Measurement) : option FixedSizeExemplarReservoir :=
  match reservoir_cell_selector_ r with
  | None => Some r
  | Some s =>
      si ← ReservoirCellIndexFor s (m_value m) random;
      let '(s', idx) := si in
      if negb (idx =? -1)%Z then
        if (idx <? 0)%Z || (Z.of_nat (length (storage_ r)) <=? idx)%Z then None
        else Some (MkReservoir (alter (RecordMeasurement m) (Z.to_nat idx) (storage_ r)) (Some s') (map_and_reset_cell_ r))
      else Some (MkReservoir (storage_ r) (Some s') (map_and_reset_cell_ r))
  end.

(** [for (auto reservoirCell : storage_)] works on copies: the cells of the reservoir stay. *)
Definition CollectAndReset (r : FixedSizeExemplarReservoir) (point_attributes : MetricAttributes)
    : FixedSizeExemplarReservoir * list (option ExemplarData) :=
  match reservoir_cell_selector_ r with
  | None => (r, [])
  | Some _ =>
      match map_and_reset_cell_ r with
      | None => (MkReservoir (storage_ r) None None, [])
      | Some long =>
          (MkReservoir (storage_ r) None (Some long), (λ c, (GetAndReset long point_attributes c).2) <$> storage_ r)
      end
  end.

(** ** The reservoir of an instrument *)

Definition kDefaultSimpleReservoirSize : nat := 1.
Definition kMaxBase2ExponentialHistogramReservoirSize : nat := 20.

Inductive AggregationConfig :=
  | HistogramAggregationConfig (boundaries_ : list Z)
  | Base2ExponentialHistogramAggregationConfig (max_buckets_ : nat).

Definition GetMapAndResetCellMethod (d : InstrumentDescriptor) : bool := bool_decide (value_type_ d = kLong).

(** The configuration is cast to the one of the kind of aggregation and followed; it may be null.  A
    configuration of another kind is not given. *)
Definition GetSimpleFixedReservoirDefaultSize (agg_type : AggregationType) (agg_config : option AggregationConfig) : option nat :=
  match agg_type with
  | AggBase2ExponentialHistogram =>
      match agg_config with
      | Some (Base2ExponentialHistogramAggregationConfig max_buckets) =>
          Some (Nat.min kMaxBase2ExponentialHistogramReservoirSize max_buckets)
      | _ => None
      end
  | _ => Some kDefaultSimpleReservoirSize
  end.

Definition GetSimpleFixedSizeCellSelector (size : nat) : Selector := SimpleFixedSizeCellSelector 0 (Z.of_nat size).

Definition GetExemplarReservoir (agg_type : AggregationType) (agg_config : option AggregationConfig) (d : InstrumentDescriptor)
    : option FixedSizeExemplarReservoir :=
  let simple :=
    size ← GetSimpleFixedReservoirDefaultSize agg_type agg_config;
    Some (FixedSize_new size (Some (GetSimpleFixedSizeCellSelector kDefaultSimpleReservoirSize)) (Some (GetMapAndResetCellMethod d))) in
  match agg_type, agg_config with
  | AggHistogram, Some (HistogramAggregationConfig boundaries) =>
      if 1 <? length boundaries then
        Some (AlignedHistogram_new (length boundaries) (Some (HistogramCellSelector boundaries)) (Some (GetMapAndResetCellMethod d)))
      else simple
  | _, _ => simple
  end.

(** ** Offering *)

Fixpoint offer_all (r : FixedSizeExemplarReservoir) (ms : list (Z * Measurement)) : option FixedSizeExemplarReservoir :=
  match ms with
  | [] => Some r
  | (random, m) :: ms => r ← OfferMeasurement random r m; offer_all r ms
  end.

(** A reservoir whose selector chooses among its cells. *)
Definition selector_fits (r : FixedSizeExemplarReservoir) : Prop :=
  match reservoir_cell_selector_ r with
  | None => True
  | Some (SimpleFixedSizeCellSelector seen size) =>
      (0 ≤ seen < 2 ^ 64 ∧ 0 < size ≤ Z.of_nat (length (storage_ r)) ∧ size < 2 ^ 31)%Z
  | Some (HistogramCellSelector boundaries) =>
      length boundaries < length (storage_ r) ∧ (Z.of_nat (length boundaries) < 2 ^ 31)%Z
  end.

Lemma to_int_small z : (0 ≤ z < 2 ^ 31)%Z → to_int z = z.
Proof. intros H. unfold to_int. rewrite Z.mod_small by lia. by destruct (Z.ltb_spec z (2 ^ 31)); [|lia]. Qed.

Lemma to_int_npos : to_int (2 ^ 64 - 1) = (-1)%Z.
Proof. reflexivity. Qed.

Lemma OfferMeasurement_fits random r m :
  selector_fits r → ∃ r', OfferMeasurement random r m = Some r' ∧ selector_fits r'.
Proof.
  unfold selector_fits, OfferMeasurement. destruct r as [cells [[seen size|bs]|] mr]; cbn [reservoir_cell_selector_ storage_ map_and_reset_cell_];
    [| |by eexists].
  - intros (Hseen & Hsize & Hint). cbn [ReservoirCellIndexFor].
    assert (Hnext : (0 ≤ (seen + 1) mod 2 ^ 64 < 2 ^ 64)%Z) by (apply Z.mod_pos_bound; lia).
    assert (Hin : ∀ z, (0 ≤ z < size)%Z → (z =? -1)%Z = false ∧ (z <? 0)%Z || (Z.of_nat (length cells) <=? z)%Z = false).
    { intros z Hz. split; [apply Z.eqb_neq; lia|]. apply orb_false_iff. split; [apply Z.ltb_ge|apply Z.leb_gt]; lia. }
    assert (Hfits : ∀ cells' : list ReservoirCell, length cells' = length cells → (0 ≤ (seen + 1) mod 2 ^ 64 < 2 ^ 64 ∧ 0 < size ≤ Z.of_nat (length cells') ∧ size < 2 ^ 31)%Z)
      by (intros cells' ->; done).
    destruct (Z.ltb_spec seen size) as [Hlt|Hge].
    + cbn [mbind option_bind]. rewrite to_int_small by lia. destruct (Hin seen) as [-> ->]; [lia|]. cbn [negb].
      eexists. split; [done|]. apply Hfits, length_alter.
    + destruct (Z.eqb_spec seen 0) as [->|Hne]; [lia|]. cbn [mbind option_bind].
      pose proof (Z.mod_pos_bound random seen ltac:(lia)) as Hr. destruct (Z.ltb_spec (random mod seen) size) as [Hrs|Hrs].
      * rewrite to_int_small by lia. destruct (Hin (random mod seen)%Z) as [-> ->]; [lia|]. cbn [negb].
        eexists. split; [done|]. apply Hfits, length_alter.
      * rewrite to_int_npos. cbn [Z.eqb negb Pos.eqb]. eexists. split; [done|]. by apply Hfits.
  - intros [Hlen Hint]. cbn [ReservoirCellIndexFor mbind option_bind].
    set (i := match index_of _ bs with Some i => i | None => length bs end).
    assert (Hi : i ≤ length bs) by (unfold i; destruct (index_of _ bs) eqn:E; [apply index_of_lt in E; lia|lia]).
    rewrite to_int_small by lia. rewrite (proj2 (Z.eqb_neq _ _)) by lia. cbn [negb].
    rewrite (proj2 (Z.ltb_ge _ _)), (proj2 (Z.leb_gt _ _)) by lia. cbn [orb]. eexists. split; [done|].
    cbn [reservoir_cell_selector_ storage_]. by rewrite length_alter.
Qed.

Lemma offer_all_fits r ms : selector_fits r → ∃ r', offer_all r ms = Some r' ∧ selector_fits r'.
Proof.
  revert r. induction ms as [|[random m] ms IH]; intros r Hr; [by exists r|]. cbn [offer_all].
  destruct (OfferMeasurement_fits random r m Hr) as (r1 & -> & Hr1). by apply IH.
Qed.

(** Reservoirs made for instruments choose among their cells, but for a base-2 histogram configured
    with no buckets. *)
Lemma GetExemplarReservoir_fits agg_type agg_config d r :
  (∀ bs, agg_config = Some (HistogramAggregationConfig bs) → (Z.of_nat (length bs) < 2 ^ 31)%Z) →
  agg_config ≠ Some (Base2ExponentialHistogramAggregationConfig 0) →
  GetExemplarReservoir agg_type agg_config d = Some r → selector_fits r.
Proof.
  intros Hbs Hb2 Hr.
  assert (Hsimple : ∀ size, 0 < size →
    selector_fits (FixedSize_new size (Some (GetSimpleFixedSizeCellSelector kDefaultSimpleReservoirSize)) (Some (GetMapAndResetCellMethod d)))).
  { intros size Hs. unfold selector_fits, FixedSize_new, GetSimpleFixedSizeCellSelector, kDefaultSimpleReservoirSize.
    cbn [reservoir_cell_selector_ storage_]. rewrite length_replicate. lia. }
  assert (Hdef : ∀ t size, GetSimpleFixedReservoirDefaultSize t agg_config = Some size → 0 < size).
  { intros t size. unfold GetSimpleFixedReservoirDefaultSize. destruct t; try (by intros [= <-]; unfold kDefaultSimpleReservoirSize; lia).
    destruct agg_config as [[bs|n]|]; try done. intros [= <-]. destruct n; [done|]. unfold kMaxBase2ExponentialHistogramReservoirSize. lia. }
  assert (Hcase : ∀ t, (size ← GetSimpleFixedReservoirDefaultSize t agg_config;
     Some (FixedSize_new size (Some (GetSimpleFixedSizeCellSelector kDefaultSimpleReservoirSize)) (Some (GetMapAndResetCellMethod d)))) = Some r →
     selector_fits r).
  { intros t Ht. destruct (GetSimpleFixedReservoirDefaultSize t agg_config) as [size|] eqn:E; [|done]. injection Ht as <-. by eapply Hsimple, Hdef. }
  unfold GetExemplarReservoir in Hr. destruct agg_type; try by apply Hcase in Hr.
  destruct agg_config as [[bs|n]|]; try by apply Hcase in Hr. destruct (1 <? length bs); [|by apply Hcase in Hr].
  injection Hr as <-. specialize (Hbs bs eq_refl). unfold selector_fits, AlignedHistogram_new, FixedSize_new.
  cbn [reservoir_cell_selector_ storage_]. rewrite length_replicate. lia.
Qed.

(** Offering changes neither the number of cells nor what the reservoir is. *)
Definition same_shape (r r' : FixedSizeExemplarReservoir) : Prop :=
  length (storage_ r') = length (storage_ r) ∧ map_and_reset_cell_ r' = map_and_reset_cell_ r ∧
  (is_Some (reservoir_cell_selector_ r) → is_Some (reservoir_cell_selector_ r')).

Lemma OfferMeasurement_shape random r m r' : OfferMeasurement random r m = Some r' → same_shape r r'.
Proof.
  unfold OfferMeasurement, same_shape. destruct (reservoir_cell_selector_ r) as [s|] eqn:Hs; [|intros [= <-]; by rewrite Hs].
  destruct (ReservoirCellIndexFor _ _ _) as [[s' idx]|]; [|done]. cbn [mbind option_bind].
  destruct (negb _); [destruct (_ || _)|]; intros [= <-]; cbn [storage_ map_and_reset_cell_ reservoir_cell_selector_]; rewrite ?length_alter;
    split_and!; eauto.
Qed.

Lemma offer_all_shape r ms r' : offer_all r ms = Some r' → same_shape r r'.
Proof.
  revert r. induction ms as [|[random m] ms IH]; intros r; cbn [offer_all]; [intros [= <-]; by split_and!|].
  destruct (OfferMeasurement random r m) as [r1|] eqn:E; [|done]. cbn [mbind option_bind]. intros H.
  destruct (OfferMeasurement_shape _ _ _ _ E) as (H1 & H2 & H3), (IH r1 H) as (H4 & H5 & H6).
  split_and!; [by rewrite H4|by rewrite H5|tauto].
Qed.

Lemma GetExemplarReservoir_shape agg_type agg_config d r :
  GetExemplarReservoir agg_type agg_config d = Some r →
  is_Some (reservoir_cell_selector_ r) ∧ map_and_reset_cell_ r = Some (GetMapAndResetCellMethod d).
Proof.
  unfold GetExemplarReservoir. intros Hr.
  assert (Hcase : ∀ o : option nat, (size ← o;
     Some (FixedSize_new size (Some (GetSimpleFixedSizeCellSelector kDefaultSimpleReservoirSize)) (Some (GetMapAndResetCellMethod d)))) = Some r →
     is_Some (reservoir_cell_selector_ r) ∧ map_and_reset_cell_ r = Some (GetMapAndResetCellMethod d)).
  { intros [size|] H; [|done]. injection H as <-. split; [by eexists|done]. }
  destruct agg_type; try by apply Hcase in Hr. destruct agg_config as [[bs|n]|]; try by apply Hcase in Hr.
  destruct (1 <? length bs); [|by apply Hcase in Hr]. injection Hr as <-. split; [by eexists|done].
Qed.

(** A reservoir made for an instrument - of a configuration of its kind with at least one bucket -
    takes any measurements with any random numbers without an access outside its cells or a division
    by zero; collecting then gives one result for each cell. *)
Theorem reservoir_safe agg_type agg_config d r ms p :
  (∀ bs, agg_config = Some (HistogramAggregationConfig bs) → (Z.of_nat (length bs) < 2 ^ 31)%Z) →
  agg_config ≠ Some (Base2ExponentialHistogramAggregationConfig 0) →
  GetExemplarReservoir agg_type agg_config d = Some r →
  ∃ r', offer_all r ms = Some r' ∧ selector_fits r' ∧ length (CollectAndReset r' p).2 = length (storage_ r).
Proof.
  intros Hbs Hb2 Hr. destruct (GetExemplarReservoir_shape _ _ _ _ Hr) as [Hsel Hmap].
  apply GetExemplarReservoir_fits in Hr; [|done..]. destruct (offer_all_fits r ms Hr) as (r' & Ho & Hf).
  exists r'. split_and!; [done..|]. destruct (offer_all_shape _ _ _ Ho) as (Hl & Hm & Hs). destruct (Hs Hsel) as [s Hs'].
  unfold CollectAndReset. rewrite Hs', Hm, Hmap. cbn [snd]. by rewrite length_fmap.
Qed.

(** ** After a collection *)

(** A collection is the last: the reservoir gives up its selector, after which every measurement is
    ignored and every collection is empty. *)
Theorem reservoir_collects_once r p ms p' :
  let r' := (CollectAndReset r p).1 in offer_all r' ms = Some r' ∧ CollectAndReset r' p' = (r', []).
Proof.
  cbv zeta. assert (Hs : reservoir_cell_selector_ (CollectAndReset r p).1 = None).
  { unfold CollectAndReset. destruct (reservoir_cell_selector_ r) eqn:E; [|done]. by destruct (map_and_reset_cell_ r). }
  set (r' := (CollectAndReset r p).1) in *. clearbody r'. split.
  - induction ms as [|[random m] ms IH]; [done|]. cbn [offer_all]. unfold OfferMeasurement. by rewrite Hs.
  - unfold CollectAndReset. by rewrite Hs.
Qed.

(** ** Exemplars of the buckets of a histogram *)

Definition bucket (boundaries : list Z) (m : Measurement) : nat :=
  match index_of (λ b, double_le (as_double (m_value m)) b) boundaries with Some i => i | None => length boundaries end.

Definition in_bucket (boundaries : list Z) (i : nat) (ms : list Measurement) : list Measurement :=
  List.filter (λ m, bucket boundaries m =? i) ms.

(** What the measurements of a cell leave of them: the values of the last, under the span of the last
    that had one. *)
Definition valid_span (m : Measurement) : option SpanContext :=
  let c := GetContext (GetSpan (m_context m)) in if SpanContext_IsValid c then Some c else None.

Definition exemplar_of (long : bool) (p : MetricAttributes) (ms : list Measurement) : option ExemplarData :=
  context ← list.last (omap valid_span ms); m ← list.last ms;
  Some (MkExemplar context (m_now m) (filtered (m_attributes m) p)
    (match long, m_value m with true, VLong z => VLong z | false, VDouble d => VDouble d | _, _ => VLong 0 end)).

Definition cell_of (ms : list Measurement) : ReservoirCell := foldl (λ c m, RecordMeasurement m c) ReservoirCell_new ms.

Lemma bucket_le bs m : bucket bs m ≤ length bs.
Proof. unfold bucket. destruct (index_of _ bs) eqn:E; [apply index_of_lt in E|]; lia. Qed.

Lemma cell_of_context ms : context_ (cell_of ms) = list.last (omap valid_span ms).
Proof.
  induction ms as [|m ms IH] using rev_ind; [done|]. unfold cell_of in *. rewrite foldl_snoc. cbn [RecordMeasurement context_].
  rewrite IH, omap_app. unfold valid_span at 3. cbn [omap list_omap]. destruct (SpanContext_IsValid _); [|by rewrite app_nil_r].
  by rewrite list.last_snoc.
Qed.

Lemma GetAndReset_cell long p ms : (GetAndReset long p (cell_of ms)).2 = exemplar_of long p ms.
Proof.
  unfold GetAndReset, exemplar_of. rewrite cell_of_context. destruct (list.last (omap valid_span ms)) as [c|] eqn:E; [|done].
  cbn [mbind option_bind snd]. induction ms as [|m ms _] using rev_ind; [done|]. rewrite list.last_snoc.
  unfold cell_of. by rewrite foldl_snoc.
Qed.

Definition histogram_cells (bs : list Z) (ms : list Measurement) : list ReservoirCell :=
  (λ i, cell_of (in_bucket bs i ms)) <$> seq 0 (length bs + 1).

(** A measurement goes to the cell of its bucket. *)
Lemma histogram_cells_snoc bs ms m :
  histogram_cells bs (ms ++ [m]) = alter (RecordMeasurement m) (bucket bs m) (histogram_cells bs ms).
Proof.
  apply list_eq. intros i. unfold histogram_cells. rewrite list_lookup_fmap. unfold in_bucket.
  destruct (decide (i = bucket bs m)) as [->|Hne].
  - rewrite list_lookup_alter_eq, list_lookup_fmap. rewrite lookup_seq_lt by (pose proof (bucket_le bs m); lia).
    cbn [fmap option_fmap option_map]. rewrite Nat.add_0_l, List.filter_app. cbn [List.filter]. rewrite Nat.eqb_refl.
    unfold cell_of. by rewrite foldl_snoc.
  - rewrite list_lookup_alter_ne, list_lookup_fmap by done. destruct (seq 0 (length bs + 1) !! i) as [j|] eqn:Hj; [|done].
    apply lookup_seq in Hj as [-> _]. cbn [fmap option_fmap option_map]. rewrite Nat.add_0_l, List.filter_app. cbn [List.filter].
    destruct (Nat.eqb_spec (bucket bs m) i); [congruence|]. by rewrite app_nil_r.
Qed.

Lemma offer_histogram bs random r m :
  (Z.of_nat (length bs) < 2 ^ 31)%Z → reservoir_cell_selector_ r = Some (HistogramCellSelector bs) →
  length (storage_ r) = length bs + 1 →
  OfferMeasurement random r m =
  Some (MkReservoir (alter (RecordMeasurement m) (bucket bs m) (storage_ r)) (Some (HistogramCellSelector bs)) (map_and_reset_cell_ r)).
Proof.
  intros Hint Hs Hl. unfold OfferMeasurement. rewrite Hs. cbn [ReservoirCellIndexFor mbind option_bind].
  fold (bucket bs m). pose proof (bucket_le bs m) as Hb. rewrite to_int_small by lia. rewrite (proj2 (Z.eqb_neq _ _)) by lia. cbn [negb].
  rewrite (proj2 (Z.ltb_ge _ _)), (proj2 (Z.leb_gt _ _)) by lia. cbn [orb]. by rewrite Nat2Z.id.
Qed.

Lemma offer_all_histogram bs mr ms :
  (Z.of_nat (length bs) < 2 ^ 31)%Z →
  offer_all (AlignedHistogram_new (length bs) (Some (HistogramCellSelector bs)) mr) ms =
  Some (MkReservoir (histogram_cells bs ms.*2) (Some (HistogramCellSelector bs)) mr).
Proof.
  intros Hint.
  assert (Hall : ∀ before ms, offer_all (MkReservoir (histogram_cells bs before) (Some (HistogramCellSelector bs)) mr) ms =
    Some (MkReservoir (histogram_cells bs (before ++ ms.*2)) (Some (HistogramCellSelector bs)) mr)).
  { intros l ms'. revert l. induction ms' as [|[random m] ms' IH]; intros l; [by rewrite app_nil_r|].
    cbn [offer_all]. rewrite (offer_histogram bs) by (try done; unfold histogram_cells; cbn [storage_]; by rewrite length_fmap, length_seq).
    cbn [mbind option_bind storage_ map_and_reset_cell_]. rewrite <-histogram_cells_snoc, IH. cbn [fmap list_fmap snd]. by rewrite <-app_assoc. }
  rewrite <-(app_nil_l ms.*2), <-Hall. f_equal. unfold AlignedHistogram_new, FixedSize_new. f_equal.
  unfold histogram_cells, in_bucket. cbn [List.filter]. unfold cell_of. cbn [foldl].
  apply list_eq. intros i. rewrite list_lookup_fmap. destruct (Nat.lt_ge_cases i (length bs + 1)).
  - by rewrite lookup_seq_lt, lookup_replicate_2.
  - rewrite lookup_seq_ge by done. apply lookup_ge_None. by rewrite length_replicate.
Qed.

(** The reservoir made for a histogram with at least two boundaries collects, for each bucket, what
    the measurements of that bucket leave: value, time and attributes of the last of them, under the
    span of the last that had a valid one, and nothing when none had. *)
Theorem histogram_exemplars bs d ms p :
  1 < length bs → (Z.of_nat (length bs) < 2 ^ 31)%Z →
  ∃ r r', GetExemplarReservoir AggHistogram (Some (HistogramAggregationConfig bs)) d = Some r ∧
    offer_all r ms = Some r' ∧
    (CollectAndReset r' p).2 =
      (λ i, exemplar_of (GetMapAndResetCellMethod d) p (in_bucket bs i ms.*2)) <$> seq 0 (length bs + 1).
Proof.
  intros Hlen Hint. unfold GetExemplarReservoir. destruct (Nat.ltb_spec 1 (length bs)); [|lia].
  eexists _, _. split; [done|]. split; [by apply offer_all_histogram|]. unfold CollectAndReset.
  cbn [reservoir_cell_selector_ map_and_reset_cell_ storage_ snd]. unfold histogram_cells. rewrite <-list_fmap_compose.
  apply list_fmap_ext. intros i j _. apply GetAndReset_cell.
Qed.
End exemplars.

(** ** At concrete inputs *)

Definition example_span : SpanContext :=
  MkSpanContext (MkTraceId (replicate 16 1%Z)) (MkSpanId (replicate 8 2%Z)) (MkTraceFlags 1) false
    (trace_state_ (SpanContext_invalid false false)).

Definition example_measurement (span : bool) (value : Z) : Measurement :=
  MkMeasurement (VLong value) (MetricAttributes_default example_hasher)
    (if span then SetSpan Context_default (DefaultSpan example_span) else Context_default) 5.

Definition one : Z := double_of_int64 1.
Definition ten : Z := double_of_int64 10.

Lemma reservoir_safe_witness :
  let d := example_descriptor in
  ∃ r, GetExemplarReservoir example_hasher AggBase2ExponentialHistogram (Some (Base2ExponentialHistogramAggregationConfig 4)) d = Some r ∧
    ∃ r', offer_all r [(3%Z, example_measurement true 7); (8%Z, example_measurement false 9)] = Some r' ∧ selector_fits r' ∧
      length (CollectAndReset example_hasher r' (MetricAttributes_default example_hasher)).2 = 4.
Proof.
  cbv zeta. eexists. split; [reflexivity|].
  apply (reservoir_safe example_hasher AggBase2ExponentialHistogram (Some (Base2ExponentialHistogramAggregationConfig 4)) example_descriptor);
    [intros bs [=]|intros [=]|reflexivity].
Defined.

Lemma histogram_exemplars_witness :
  let bs := [one; ten] in
  let ms := [(0%Z, example_measurement true 1); (0%Z, example_measurement true 20); (0%Z, example_measurement false 30)] in
  ∃ r r', GetExemplarReservoir example_hasher AggHistogram (Some (HistogramAggregationConfig bs)) example_descriptor = Some r ∧
    offer_all r ms = Some r' ∧
    (option_map ex_sum <$> (CollectAndReset example_hasher r' (MetricAttributes_default example_hasher)).2) =
    [Some (VLong 1); None; Some (VLong 30)].
Proof.
  cbv zeta. set (bs := [one; ten]). match goal with |- context [offer_all _ ?l] => set (ms := l) end.
  assert (Hl : 1 < length bs) by (cbn; lia). assert (Hint : (Z.of_nat (length bs) < 2 ^ 31)%Z) by (cbn [length bs]; lia).
  destruct (histogram_exemplars example_hasher bs example_descriptor ms (MetricAttributes_default example_hasher) Hl Hint)
    as (r & r' & Hr & Hr' & Hc).
  exists r, r'. split_and!; [exact Hr|exact Hr'|]. rewrite Hc. vm_compute. reflexivity.
Defined.

(** A value is shown under the span of an earlier measurement of its bucket, when it has none itself. *)
Example span_of_another :
  option_map ex_context (exemplar_of example_hasher true (MetricAttributes_default example_hasher)
    [example_measurement true 1; example_measurement false 30]) = Some example_span.
Proof. vm_compute. reflexivity. Qed.

(** Without a configuration the reservoir of a base-2 histogram follows a null pointer; with no buckets
    its selector chooses a cell that is not there; with twenty only the first is ever used. *)
Example base2_reservoirs :
  GetExemplarReservoir example_hasher AggBase2ExponentialHistogram None example_descriptor = None ∧
  (r ← GetExemplarReservoir example_hasher AggBase2ExponentialHistogram (Some (Base2ExponentialHistogramAggregationConfig 0)) example_descriptor;
   offer_all r [(0%Z, example_measurement true 1)]) = None ∧
  (r ← GetExemplarReservoir example_hasher AggBase2ExponentialHistogram (Some (Base2ExponentialHistogramAggregationConfig 160)) example_descriptor;
   r' ← offer_all r [(1%Z, example_measurement true 1); (2%Z, example_measurement true 2); (3%Z, example_measurement true 3)];
   Some (length (storage_ r'), length (omap context_ (storage_ r')))) = Some (20, 1).
Proof. split_and!; vm_compute; reflexivity. Qed.

(** The first measurement after the cells are full always takes a place: the random number is reduced
    modulo the measurements before it, without itself. *)
Lemma first_full_always_kept size random :
  (0 < size < 2 ^ 31)%Z →
  ReservoirCellIndexFor (SimpleFixedSizeCellSelector size size) (VLong 0) random =
  Some (SimpleFixedSizeCellSelector (size + 1) size, random mod size)%Z.
Proof.
  intros H. cbn [ReservoirCellIndexFor]. rewrite (proj2 (Z.ltb_ge _ _)), (proj2 (Z.eqb_neq _ _)) by lia.
  pose proof (Z.mod_pos_bound random size ltac:(lia)). rewrite (proj2 (Z.ltb_lt _ _)), to_int_small, (Z.mod_small (size + 1)) by lia. done.
Qed.
