(* ===== verification/HistogramData.v ===== *)
(** * The data points of histograms

    sdk/metrics/data/point_data.h and the templates of sdk/metrics/aggregation/histogram_aggregation.h: merging two
    histograms, the difference of a histogram and a later one, and the search for the bucket of a value.
    The classes that call them are in a shared library.

    A double is its 64 bits and is added as IEEE 754 says (Stdlib's SpecFloat); std::variant, std::min,
    std::max and std::lower_bound are written out. *)
From Stdlib Require SpecFloat.
From Stdlib Require Import Sorted.
From S2P Require Export Exemplar Timestamp.

(** ** Numbers *)

(** What goes wrong: an index outside a vector, a variant read at another type, a signed overflow. *)
Inductive fault := OutOfBounds | BadVariantAccess | SignedOverflow.

Abbreviation result := (sum fault).

#[local] Instance result_ret : MRet result := λ A a, inr a.
#[local] Instance result_bind : MBind result := λ A C k r, match r with inl e => inl e | inr a => k a end.

Definition or_fault {A} (e : fault) (o : option A) : result A := match o with Some a => inr a | None => inl e end.

Definition sf_of_bits (bits : Z) : SpecFloat.spec_float :=
  let s := (2 ^ 63 <=? bits)%Z in
  let exponent := ((bits / 2 ^ 52) mod 2 ^ 11)%Z in
  let mantissa := (bits mod 2 ^ 52)%Z in
  if (exponent =? 0)%Z then
    match mantissa with Zpos m => SpecFloat.S754_finite s m (-1074) | _ => SpecFloat.S754_zero s end
  else if (exponent =? 2047)%Z then
    if (mantissa =? 0)%Z then SpecFloat.S754_infinity s else SpecFloat.S754_nan
  else SpecFloat.S754_finite s (Z.to_pos (mantissa + 2 ^ 52)) (exponent - 1075).

Definition bits_of_sf (f : SpecFloat.spec_float) : Z :=
  let sign (s : bool) := if s then (2 ^ 63)%Z else 0%Z in
  match f with
  | SpecFloat.S754_zero s => sign s
  | SpecFloat.S754_infinity s => (sign s + 2047 * 2 ^ 52)%Z
  | SpecFloat.S754_nan => (2047 * 2 ^ 52 + 2 ^ 51)%Z
  | SpecFloat.S754_finite s m e =>
      if (Zpos m <? 2 ^ 52)%Z then (sign s + Zpos m)%Z else (sign s + (e + 1075) * 2 ^ 52 + (Zpos m - 2 ^ 52))%Z
  end.

Definition double_add (a b : Z) : Z := bits_of_sf (SpecFloat.SFadd 53 1024 (sf_of_bits a) (sf_of_bits b)).

Definition double_lt (a b : Z) : bool := negb (is_nan a) && negb (is_nan b) && (double_key a <? double_key b)%Z.

(** [int64_t] and [double], the types that the templates are used at; ValueType is the variant of both, [cell_value]. *)
Inductive numeric := TLong | TDouble.

Definition get_ (T : numeric) (v : cell_value) : result Z :=
  match T, v with
  | TLong, VLong z | TDouble, VDouble z => mret z
  | _, _ => inl BadVariantAccess
  end.

Definition value_of (T : numeric) (z : Z) : cell_value := match T with TLong => VLong z | TDouble => VDouble z end.

Definition add (T : numeric) (a b : Z) : result Z :=
  match T with TLong => or_fault SignedOverflow (int64 (a + b)) | TDouble => mret (double_add a b) end.

Definition less (T : numeric) (a b : Z) : bool := match T with TLong => (a <? b)%Z | TDouble => double_lt a b end.

Definition std_min (T : numeric) (a b : Z) : Z := if less T b a then b else a.
Definition std_max (T : numeric) (a b : Z) : Z := if less T a b then b else a.

(** ** The data point *)

Record HistogramPointData := MkHistogram {
  hp_boundaries : list Z;
  hp_sum : cell_value;
  hp_min : cell_value;
  hp_max : cell_value;
  hp_counts : list Z;
  hp_count : Z;
  hp_record_min_max : bool;
}.

(** The loops over [current.counts_]: each index must be within the three vectors. *)
Fixpoint combine_counts (f : Z → Z → Z) (current other into : list Z) : result (list Z) :=
  match current, other, into with
  | [], _, _ => mret into
  | c :: current, o :: other, _ :: into => rest ← combine_counts f current other into; mret (f c o :: rest)
  | _, _, _ => inl OutOfBounds
  end.

Definition HistogramMerge (T : numeric) (current delta merge : HistogramPointData) : result HistogramPointData :=
  counts ← combine_counts (λ c d, u64 (c + d)) (hp_counts current) (hp_counts delta) (hp_counts merge);
  s1 ← get_ T (hp_sum current); s2 ← get_ T (hp_sum delta); s ← add T s1 s2;
  let merge := MkHistogram (hp_boundaries current) (value_of T s) (hp_min merge) (hp_max merge) counts
                 (u64 (hp_count current + hp_count delta)) (hp_record_min_max current && hp_record_min_max delta) in
  if hp_record_min_max merge then
    m1 ← get_ T (hp_min current); m2 ← get_ T (hp_min delta);
    x1 ← get_ T (hp_max current); x2 ← get_ T (hp_max delta);
    mret (MkHistogram (hp_boundaries merge) (hp_sum merge) (value_of T (std_min T m1 m2)) (value_of T (std_max T x1 x2))
            (hp_counts merge) (hp_count merge) (hp_record_min_max merge))
  else mret merge.

Definition HistogramDiff (current next diff : HistogramPointData) : result HistogramPointData :=
  counts ← combine_counts (λ c n, u64 (n - c)) (hp_counts current) (hp_counts next) (hp_counts diff);
  mret (MkHistogram (hp_boundaries current) (hp_sum diff) (hp_min diff) (hp_max diff) counts
          (u64 (hp_count next - hp_count current)) false).

(** ** The search for a bucket *)

(** std::lower_bound: halving the range of [len] elements from [first]; [len] iterations are enough. *)
Fixpoint lower_bound_loop (below : Z → bool) (l : list Z) (fuel first len : nat) : nat :=
  match fuel with
  | 0 => first
  | S fuel =>
      if len =? 0 then first
      else
        let half := len / 2 in
        let middle := first + half in
        if below (nth middle l 0%Z)
        then lower_bound_loop below l fuel (S middle) (len - half - 1)
        else lower_bound_loop below l fuel first half
  end.

Definition lower_bound (below : Z → bool) (l : list Z) : nat := lower_bound_loop below l (length l) 0 (length l).

(** [*it < value]: an integer is converted to double first. *)
Definition BucketBinarySearch (value : cell_value) (boundaries : list Z) : nat :=
  lower_bound (λ b, double_lt b (as_double value)) boundaries.

Example bucket_examples :
  let bs := double_of_int64 <$> [0; 5; 10; 25]%Z in
  (λ z, BucketBinarySearch (VLong z) bs) <$> [-1; 0; 1; 5; 6; 10; 11; 25; 26]%Z = [0; 0; 1; 1; 2; 2; 3; 3; 4].
Proof. by vm_compute. Qed.

Example double_add_examples :
  double_add (double_of_int64 1) (double_of_int64 2) = double_of_int64 3 ∧
  double_add (double_of_int64 (2 ^ 53)) (double_of_int64 1) = double_of_int64 (2 ^ 53) ∧
  double_add (double_of_int64 5) (double_of_int64 (-5)) = 0%Z ∧
  double_add 1 1 = 2%Z ∧ double_add (2047 * 2 ^ 52) (2 ^ 63 + 2047 * 2 ^ 52) = (2047 * 2 ^ 52 + 2 ^ 51)%Z.
Proof. split_and!; by vm_compute. Qed.

(** ** The search *)

Section search.
Context (below : Z → bool) (l : list Z).

(** What comes after an element that is not below is not below either. *)
Definition partitioned : Prop := ∀ i j, i ≤ j → j < length l → below (nth j l 0%Z) = true → below (nth i l 0%Z) = true.

Lemma lower_bound_loop_range fuel first len :
  first + len ≤ length l → len ≤ fuel → first ≤ lower_bound_loop below l fuel first len ≤ first + len.
Proof.
  revert first len. induction fuel as [|fuel IH]; intros first len H Hf; cbn [lower_bound_loop]; [lia|].
  destruct (Nat.eqb_spec len 0); [lia|]. pose proof (Nat.div_lt len 2 ltac:(lia) ltac:(lia)) as Hd.
  destruct (below (nth (first + len / 2) l 0%Z)).
  - specialize (IH (S (first + len / 2)) (len - len / 2 - 1) ltac:(lia) ltac:(lia)). lia.
  - specialize (IH first (len / 2) ltac:(lia) ltac:(lia)). lia.
Qed.

Lemma lower_bound_loop_spec fuel first len :
  partitioned → first + len ≤ length l → len ≤ fuel →
  (∀ i, i < first → below (nth i l 0%Z) = true) → (∀ i, first + len ≤ i → i < length l → below (nth i l 0%Z) = false) →
  let n := lower_bound_loop below l fuel first len in
  (∀ i, i < n → below (nth i l 0%Z) = true) ∧ (∀ i, n ≤ i → i < length l → below (nth i l 0%Z) = false).
Proof.
  intros Hp. revert first len. induction fuel as [|fuel IH]; intros first len H Hf Hlo Hhi; cbn [lower_bound_loop].
  { split; [done|]. intros i Hi. apply Hhi. lia. }
  destruct (Nat.eqb_spec len 0) as [->|Hn]; [split; [done|]; intros i Hi; apply Hhi; lia|].
  pose proof (Nat.div_lt len 2 ltac:(lia) ltac:(lia)) as Hd.
  destruct (below (nth (first + len / 2) l 0%Z)) eqn:E; apply IH; try lia.
  - intros i Hi. apply (Hp i (first + len / 2)); [lia|lia|done].
  - intros i Hi. apply Hhi. lia.
  - done.
  - intros i Hi Hl. destruct (below (nth i l 0%Z)) eqn:Ei; [|done].
    rewrite (Hp (first + len / 2) i ltac:(lia) Hl Ei) in E. done.
Qed.

(** Halving finds what going through the elements finds. *)
Lemma lower_bound_index :
  partitioned → lower_bound below l = match index_of (λ x, negb (below x)) l with Some i => i | None => length l end.
Proof.
  intros Hp. pose proof (lower_bound_loop_range (length l) 0 (length l) ltac:(lia) ltac:(lia)) as Hr.
  destruct (lower_bound_loop_spec (length l) 0 (length l) Hp ltac:(lia) ltac:(lia) ltac:(lia) ltac:(lia)) as [Hlo Hhi].
  fold (lower_bound below l) in *. cbn [Nat.add] in *. set (n := lower_bound below l) in *. clearbody n.
  destruct (index_of _ l) as [k|] eqn:E.
  - apply index_of_Some in E as (l1 & x & l2 & El & <- & Hx & Hl1). apply negb_true_iff in Hx.
    rewrite El in Hlo, Hhi, Hr. rewrite length_app in *. cbn [length] in *.
    destruct (lt_eq_lt_dec n (length l1)) as [[Hlt| ->]|Hgt]; [|done|].
    + destruct (lookup_lt_is_Some_2 l1 n Hlt) as [y Hy]. rewrite list.Forall_lookup in Hl1. specialize (Hl1 n y Hy).
      apply negb_false_iff in Hl1. specialize (Hhi n ltac:(lia) ltac:(lia)). rewrite app_nth1 in Hhi by done.
      rewrite (nth_lookup_Some l1 n 0%Z y Hy) in Hhi. congruence.
    + specialize (Hlo (length l1) Hgt). rewrite app_nth2, Nat.sub_diag in Hlo by lia. cbn in Hlo. congruence.
  - apply index_of_None in E. destruct (decide (n = length l)) as [|Hn]; [done|]. exfalso.
    destruct (lookup_lt_is_Some_2 l n ltac:(lia)) as [y Hy]. rewrite list.Forall_lookup in E. specialize (E n y Hy).
    apply negb_false_iff in E. specialize (Hhi n ltac:(lia) ltac:(lia)). rewrite (nth_lookup_Some l n 0%Z y Hy) in Hhi. congruence.
Qed.
End search.

(** Boundaries as the SDK wants them: ascending, none of them a NaN. *)
Definition boundaries_ok (bs : list Z) : Prop :=
  StronglySorted (λ x y, double_key x ≤ double_key y)%Z bs ∧ Forall (λ x, is_nan x = false) bs.

Lemma sorted_nth bs i j :
  StronglySorted (λ x y, double_key x ≤ double_key y)%Z bs → i ≤ j → j < length bs →
  (double_key (nth i bs 0) ≤ double_key (nth j bs 0))%Z.
Proof.
  intros Hs. revert i j. induction Hs as [|x bs Hs IH Hx]; intros i j Hij Hj; cbn [length] in *; [lia|].
  destruct j as [|j]; [by replace i with 0 by lia|]. destruct i as [|i]; cbn [nth].
  - rewrite list.Forall_lookup in Hx. destruct (lookup_lt_is_Some_2 bs j ltac:(lia)) as [y Hy].
    rewrite (nth_lookup_Some bs j 0%Z y Hy). by eapply Hx.
  - apply IH; lia.
Qed.

Lemma partitioned_boundaries bs v : boundaries_ok bs → partitioned (λ b, double_lt b v) bs.
Proof.
  intros [Hs Hn] i j Hij Hj. unfold double_lt. rewrite !andb_true_iff, !negb_true_iff, !Z.ltb_lt.
  intros [[_ Hv] Hlt]. pose proof (sorted_nth bs i j Hs Hij Hj). split_and!; [|done|lia].
  rewrite list.Forall_lookup in Hn. destruct (lookup_lt_is_Some_2 bs i ltac:(lia)) as [y Hy].
  rewrite (nth_lookup_Some bs i 0%Z y Hy). by eapply Hn.
Qed.

Lemma not_below b v : is_nan b = false → is_nan v = false → negb (double_lt b v) = double_le v b.
Proof. intros Hb Hv. unfold double_lt, double_le. rewrite Hb, Hv. cbn [negb andb]. by rewrite Z.leb_antisym. Qed.

Lemma index_of_ext {A} (p q : A → bool) l : Forall (λ x, p x = q x) l → index_of p l = index_of q l.
Proof. induction 1 as [|x l Hx _ IH]; [done|]. cbn [index_of]. by rewrite Hx, IH. Qed.

(** C30: The bucket that halving finds is the one that a linear search finds: for ascending boundaries without NaN and
    a value that is a number, the values of bucket i are above boundary i - 1 and not above boundary i, and a
    measurement is counted in the bucket whose exemplar cell it goes to. *)
Theorem bucket_search_spec bs value random :
  boundaries_ok bs → is_nan (as_double value) = false →
  let i := BucketBinarySearch value bs in
  i ≤ length bs ∧
  (∀ j b, bs !! j = Some b → double_lt b (as_double value) = bool_decide (j < i)) ∧
  ReservoirCellIndexFor (HistogramCellSelector bs) value random = Some (HistogramCellSelector bs, to_int (Z.of_nat i)) ∧
  ∀ m, m_value m = value → bucket bs m = i.
Proof.
  intros Hb Hv i. pose proof (partitioned_boundaries bs (as_double value) Hb) as Hp.
  pose proof (lower_bound_loop_range (λ b, double_lt b (as_double value)) bs (length bs) 0 (length bs) ltac:(lia) ltac:(lia)) as Hr.
  destruct (lower_bound_loop_spec _ bs (length bs) 0 (length bs) Hp ltac:(lia) ltac:(lia) ltac:(lia) ltac:(lia)) as [Hlo Hhi].
  assert (Hi : i = match index_of (λ b, double_le (as_double value) b) bs with Some i => i | None => length bs end).
  { unfold i, BucketBinarySearch. rewrite (lower_bound_index _ _ Hp). erewrite index_of_ext; [done|].
    eapply list.Forall_impl; [exact (proj2 Hb)|]. intros b Hnb. by apply not_below. }
  split; [apply Hr|]. split; [|split].
  - intros j b Hj. rewrite <-(nth_lookup_Some bs j 0%Z b Hj). pose proof (lookup_lt_Some _ _ _ Hj).
    case_bool_decide as Hji; [by apply Hlo|]. apply Hhi; [apply Nat.nlt_ge, Hji|done].
  - cbn [ReservoirCellIndexFor]. by rewrite Hi.
  - intros m <-. unfold bucket. by rewrite Hi.
Qed.

Lemma bucket_search_spec_witness :
  let bs := double_of_int64 <$> [0; 5; 10]%Z in
  BucketBinarySearch (VLong 7) bs = 2 ∧ BucketBinarySearch (VLong 7) bs ≤ length bs.
Proof.
  cbv zeta. split; [by vm_compute|].
  refine (proj1 (bucket_search_spec _ (VLong 7) 0 _ _)); [|by vm_compute].
  split; repeat constructor; by vm_compute.
Defined.

(** Without the hypotheses: a NaN is counted in the first bucket and its exemplar kept for the last; an integer that
    no double is equal to is compared after rounding, and can be counted below a boundary that it is above. *)
Example bucket_of_nan :
  let bs := double_of_int64 <$> [0; 5]%Z in let nan := VDouble (2047 * 2 ^ 52 + 1) in
  BucketBinarySearch nan bs = 0 ∧ ReservoirCellIndexFor (HistogramCellSelector bs) nan 0 = Some (HistogramCellSelector bs, 2%Z).
Proof. split; by vm_compute. Qed.

Example bucket_of_rounded : BucketBinarySearch (VLong (2 ^ 53 + 1)) [double_of_int64 (2 ^ 53)] = 0.
Proof. by vm_compute. Qed.

(** ** Merging and subtracting *)

(** The loops go wrong exactly when another vector is shorter. *)
Lemma combine_counts_spec f cs os ms :
  match combine_counts f cs os ms with
  | inr rs => length cs ≤ length os ∧ length cs ≤ length ms ∧ rs = zip_with f cs os ++ drop (length cs) ms
  | inl e => e = OutOfBounds ∧ (length os < length cs ∨ length ms < length cs)
  end.
Proof.
  revert os ms. induction cs as [|c cs IH]; intros [|o os] [|m ms]; cbn [combine_counts length zip_with app drop]; try (split; [done|lia]);
    try (split_and!; [lia..|done]).
  specialize (IH os ms). destruct (combine_counts f cs os ms) as [e|rs]; cbn [mbind result_bind mret result_ret].
  - destruct IH as [-> ?]. split; [done|lia].
  - destruct IH as (? & ? & ->). split_and!; [lia..|done].
Qed.

Lemma combine_counts_same f cs os ms :
  length os = length cs → length ms = length cs → combine_counts f cs os ms = inr (zip_with f cs os).
Proof.
  intros H1 H2. pose proof (combine_counts_spec f cs os ms) as H. destruct (combine_counts f cs os ms) as [e|rs].
  - destruct H as [_ H]. lia.
  - destruct H as (_ & _ & ->). by rewrite drop_ge, app_nil_r by lia.
Qed.

(** The histogram of measurements: one count for each bucket, modulo 2^64. *)
Definition counted (bs : list Z) (vs : list cell_value) (i : nat) : nat :=
  length (List.filter (λ v, BucketBinarySearch v bs =? i) vs).

Definition counts_of (bs : list Z) (vs : list cell_value) : list Z :=
  (λ i, u64 (Z.of_nat (counted bs vs i))) <$> seq 0 (S (length bs)).

Lemma counts_of_length bs vs : length (counts_of bs vs) = S (length bs).
Proof. unfold counts_of. by rewrite length_fmap, length_seq. Qed.

Lemma counted_app bs vs ws i : counted bs (vs ++ ws) i = counted bs vs i + counted bs ws i.
Proof. unfold counted. by rewrite List.filter_app, length_app. Qed.

Lemma zip_with_fmap {A} (f : Z → Z → Z) (g h : A → Z) l : zip_with f (g <$> l) (h <$> l) = (λ x, f (g x) (h x)) <$> l.
Proof. induction l as [|x l IH]; [done|]. cbn. by rewrite IH. Qed.

Lemma u64_add_mod a b : u64 (u64 a + u64 b) = u64 (a + b).
Proof. unfold u64. by rewrite <-Zplus_mod. Qed.

Lemma u64_sub_mod a b : u64 (u64 a - u64 b) = u64 (a - b).
Proof. unfold u64. by rewrite <-Zminus_mod. Qed.

Lemma counts_add bs vs ws : zip_with (λ c d, u64 (c + d)) (counts_of bs vs) (counts_of bs ws) = counts_of bs (vs ++ ws).
Proof.
  unfold counts_of. rewrite zip_with_fmap. apply list_fmap_ext. intros _ i _. cbn.
  by rewrite u64_add_mod, counted_app, Nat2Z.inj_add.
Qed.

Lemma counts_sub bs vs ws : zip_with (λ c n, u64 (n - c)) (counts_of bs vs) (counts_of bs (vs ++ ws)) = counts_of bs ws.
Proof.
  unfold counts_of. rewrite zip_with_fmap. apply list_fmap_ext. intros _ i _. cbn.
  rewrite u64_sub_mod, counted_app, Nat2Z.inj_add. f_equal. lia.
Qed.

(** The buckets and the count of [p] are those of [vs]. *)
Record counts_describe (p : HistogramPointData) (bs : list Z) (vs : list cell_value) : Prop := MkDescribe {
  cd_boundaries : hp_boundaries p = bs;
  cd_counts : hp_counts p = counts_of bs vs;
  cd_count : hp_count p = u64 (Z.of_nat (length vs));
}.

Definition total (zs : list Z) : Z := foldr Z.add 0%Z zs.
Definition smallest (zs : list Z) : Z := foldr Z.min INT64_MAX zs.
Definition greatest (zs : list Z) : Z := foldr Z.max INT64_MIN zs.

(** All of [p] is that of the integers [zs], with the extremes if they are recorded. *)
Record describes (p : HistogramPointData) (bs : list Z) (zs : list Z) : Prop := MkDescribes {
  de_counts : counts_describe p bs (VLong <$> zs);
  de_sum : hp_sum p = VLong (total zs);
  de_extremes : hp_record_min_max p = true → hp_min p = VLong (smallest zs) ∧ hp_max p = VLong (greatest zs);
}.

(** A histogram with room for the counts. *)
Definition sized (bs : list Z) (p : HistogramPointData) : Prop := length (hp_counts p) = S (length bs).

Lemma merge_counts T cur delta merge bs vs ws s1 s2 s :
  counts_describe cur bs vs → counts_describe delta bs ws → sized bs merge →
  get_ T (hp_sum cur) = inr s1 → get_ T (hp_sum delta) = inr s2 → add T s1 s2 = inr s →
  hp_record_min_max cur && hp_record_min_max delta = false →
  ∃ m, HistogramMerge T cur delta merge = inr m ∧ counts_describe m bs (vs ++ ws) ∧ hp_sum m = value_of T s ∧
    hp_record_min_max m = false ∧ hp_min m = hp_min merge ∧ hp_max m = hp_max merge.
Proof.
  intros [B1 C1 N1] [B2 C2 N2] Hm H1 H2 Hs Hr. unfold HistogramMerge.
  rewrite combine_counts_same by (rewrite ?C1, ?C2, ?counts_of_length; done).
  cbn [mbind result_bind]. rewrite H1, H2. cbn [mbind result_bind]. rewrite Hs. cbn [mbind result_bind]. rewrite Hr. cbn.
  eexists. split; [done|]. split; [|done]. split; [done| |]; cbn.
  - by rewrite C1, C2, counts_add.
  - by rewrite N1, N2, u64_add_mod, length_app, Nat2Z.inj_add.
Qed.

Lemma total_app xs ys : total (xs ++ ys) = (total xs + total ys)%Z.
Proof. unfold total. induction xs as [|x xs IH]; cbn; [done|]. rewrite IH. lia. Qed.

Lemma smallest_app xs ys : smallest (xs ++ ys) = Z.min (smallest xs) (smallest ys).
Proof.
  unfold smallest. induction xs as [|x xs IH]; cbn; [|rewrite IH; lia].
  assert (H : (foldr Z.min INT64_MAX ys ≤ INT64_MAX)%Z) by (clear; induction ys; cbn; lia). lia.
Qed.

Lemma greatest_app xs ys : greatest (xs ++ ys) = Z.max (greatest xs) (greatest ys).
Proof.
  unfold greatest. induction xs as [|x xs IH]; cbn; [|rewrite IH; lia].
  assert (H : (INT64_MIN ≤ foldr Z.max INT64_MIN ys)%Z) by (clear; induction ys; cbn; lia). lia.
Qed.

Lemma std_min_long a b : std_min TLong a b = Z.min a b.
Proof. unfold std_min. cbn. destruct (Z.ltb_spec b a); lia. Qed.

Lemma std_max_long a b : std_max TLong a b = Z.max a b.
Proof. unfold std_max. cbn. destruct (Z.ltb_spec a b); lia. Qed.

(** The histograms of two collection intervals merge to the histogram of both. *)
Lemma merge_describes cur delta merge bs xs ys :
  describes cur bs xs → describes delta bs ys → sized bs merge → int64 (total xs + total ys) = Some (total xs + total ys)%Z →
  ∃ m, HistogramMerge TLong cur delta merge = inr m ∧ describes m bs (xs ++ ys) ∧
    hp_record_min_max m = hp_record_min_max cur && hp_record_min_max delta.
Proof.
  intros [D1 S1 E1] [D2 S2 E2] Hm Hs. destruct (hp_record_min_max cur && hp_record_min_max delta) eqn:Hr.
  - apply andb_prop in Hr as [R1 R2]. destruct (E1 R1) as [m1 x1], (E2 R2) as [m2 x2].
    destruct D1 as [B1 C1 N1], D2 as [B2 C2 N2]. unfold HistogramMerge.
    rewrite combine_counts_same by (rewrite ?C1, ?C2, ?counts_of_length; done).
    rewrite S1, S2, R1, R2. cbn [mbind result_bind get_ mret result_ret add or_fault]. rewrite Hs.
    cbn [mbind result_bind or_fault andb hp_record_min_max]. rewrite m1, m2, x1, x2.
    cbn [mbind result_bind get_ mret result_ret]. eexists. split; [done|]. split; [|done].
    split; cbn; [split; cbn; [done| |]| |].
    + by rewrite C1, C2, counts_add, fmap_app.
    + by rewrite N1, N2, u64_add_mod, !length_fmap, length_app, Nat2Z.inj_add.
    + by rewrite total_app.
    + intros _. by rewrite std_min_long, std_max_long, smallest_app, greatest_app.
  - destruct (merge_counts TLong cur delta merge bs _ _ (total xs) (total ys) (total xs + total ys) D1 D2 Hm) as (m & E & Hd & Hsum & Hrec & _);
      [by rewrite S1|by rewrite S2|cbn; by rewrite Hs|done|].
    exists m. split; [done|]. split; [|done]. split; [by rewrite fmap_app|by rewrite Hsum, total_app|by rewrite Hrec].
Qed.

(** The difference of a histogram and a later one has the buckets and the count of what came in between; its sum and its
    extremes are what was there, and it does not record extremes. *)
Lemma diff_describes cur next diff bs vs ws :
  counts_describe cur bs vs → counts_describe next bs (vs ++ ws) → sized bs diff →
  ∃ d, HistogramDiff cur next diff = inr d ∧ counts_describe d bs ws ∧ hp_sum d = hp_sum diff ∧ hp_record_min_max d = false ∧
    hp_min d = hp_min diff ∧ hp_max d = hp_max diff.
Proof.
  intros [B1 C1 N1] [B2 C2 N2] Hd. unfold HistogramDiff.
  rewrite combine_counts_same by (rewrite ?C1, ?C2, ?counts_of_length; done). cbn [mbind result_bind mret result_ret].
  eexists. split; [done|]. split; [|done]. split; [done| |]; cbn.
  - by rewrite C1, C2, counts_sub.
  - rewrite N1, N2, u64_sub_mod, length_app, Nat2Z.inj_add. f_equal. lia.
Qed.

(** C31: Histograms of integer measurements over the same boundaries.  Merging those of two intervals gives that of both
    (buckets and counts modulo 2^64, sum, extremes).  The difference of a histogram and a later one has the buckets and the
    count of what came in between; its sum and its extremes are those the new object had, and it records no extremes.
    Merged back, it restores the boundaries, the buckets and the count of the later histogram and nothing else: the sum is the
    earlier one's plus whatever the new object had, the extremes are those of the object merged into, and
    extremes are no longer recorded. *)
Theorem histogram_merge_diff cur next delta merge diff bs xs ys s0 :
  describes cur bs xs → describes delta bs ys → describes next bs (xs ++ ys) → sized bs merge → sized bs diff →
  hp_sum diff = VLong s0 →
  int64 (total xs + total ys) = Some (total xs + total ys)%Z → int64 (total xs + s0) = Some (total xs + s0)%Z →
  (∃ m, HistogramMerge TLong cur delta merge = inr m ∧ describes m bs (xs ++ ys) ∧
     hp_record_min_max m = hp_record_min_max cur && hp_record_min_max delta) ∧
  ∃ d m, HistogramDiff cur next diff = inr d ∧ counts_describe d bs (VLong <$> ys) ∧ hp_sum d = VLong s0 ∧
    hp_record_min_max d = false ∧ hp_min d = hp_min diff ∧ hp_max d = hp_max diff ∧
    HistogramMerge TLong cur d merge = inr m ∧
    hp_boundaries m = hp_boundaries next ∧ hp_counts m = hp_counts next ∧ hp_count m = hp_count next ∧
    (hp_sum m = hp_sum next ↔ s0 = total ys) ∧
    hp_record_min_max m = false ∧ hp_min m = hp_min merge ∧ hp_max m = hp_max merge.
Proof.
  intros Hcur Hdelta Hnext Hm Hd Hs0 Hsum Hsum0. split; [by apply merge_describes|].
  destruct Hnext as [Dn Sn _]. rewrite fmap_app in Dn.
  destruct (diff_describes _ _ _ _ _ _ (de_counts _ _ _ Hcur) Dn Hd) as (d & Ed & Hdes & Hds & Hdr & Hdm).
  destruct (merge_counts TLong cur d merge bs _ _ (total xs) s0 (total xs + s0) (de_counts _ _ _ Hcur) Hdes Hm)
    as (m & Em & Hm' & Hms & Hmr & Hmm).
  { by rewrite (de_sum _ _ _ Hcur). }
  { by rewrite Hds, Hs0. }
  { cbn. by rewrite Hsum0. }
  { rewrite Hdr. apply andb_false_r. }
  exists d, m. destruct Hm' as [Bm Cm Nm], Dn as [Bn Cn Nn], Hdm as [Hd1 Hd2], Hmm as [Hm1 Hm2].
  split_and!; try done; try congruence. rewrite Hms, Sn, total_app. cbn. split; [intros [= H]; lia|intros ->; done].
Qed.

Definition histogram_of (bs zs : list Z) : HistogramPointData :=
  MkHistogram bs (VLong (total zs)) (VLong (smallest zs)) (VLong (greatest zs)) (counts_of bs (VLong <$> zs))
    (u64 (Z.of_nat (length (VLong <$> zs)))) true.

Lemma histogram_of_describes bs zs : describes (histogram_of bs zs) bs zs.
Proof. by repeat split. Qed.

Definition example_bounds : list Z := double_of_int64 <$> [0; 10]%Z.

Lemma histogram_merge_diff_witness :
  let new := histogram_of example_bounds [] in
  ∃ d m, HistogramDiff (histogram_of example_bounds [3; 20]%Z) (histogram_of example_bounds ([3; 20] ++ [7])%Z) new = inr d ∧
    HistogramMerge TLong (histogram_of example_bounds [3; 20]%Z) d new = inr m ∧ (hp_sum m = VLong 30 ↔ 0%Z = 7%Z) ∧
    hp_record_min_max m = false ∧ hp_min m = VLong INT64_MAX ∧ hp_max m = VLong INT64_MIN.
Proof.
  cbv zeta. destruct (histogram_merge_diff (histogram_of example_bounds [3; 20]%Z) (histogram_of example_bounds ([3; 20] ++ [7])%Z)
    (histogram_of example_bounds [7]%Z) (histogram_of example_bounds []) (histogram_of example_bounds []) example_bounds [3; 20]%Z [7]%Z 0)
    as (_ & d & m & E1 & _ & _ & _ & _ & _ & E2 & _ & _ & _ & H & Hr & Hmin & Hmax).
  1-3: apply histogram_of_describes.
  1-5: done.
  by exists d, m.
Defined.
