(* ===== verification/AsyncStorage.v ===== *)
(** * Storages of asynchronous instruments

    sdk/metrics/state/async_metric_storage.h, sdk/metrics/observer_result.h and
    state/multi_metric_storage.h: observations are running totals; the storage keeps the last total of
    every set of attributes and hands out the differences.

    The classes of aggregations are the interface of DefaultAggregation, whose choice and copy the storage
    calls; what they do with a measurement, their difference and their merging are code of a shared
    library, so they are parameters. *)
From S2P Require Export MetricStorage DefaultAggregation.
From S2P Require HistogramData.

(** ** The storages of one instrument, each for one of its views *)
Section multi_storage.
Context {St Me : Type} (RecordOne : St → Me → St).

Definition AddStorage (storages_ : list St) (storage : St) : list St := storages_ ++ [storage].
Definition Multi_Record (storages_ : list St) (m : Me) : list St := (λ s, RecordOne s m) <$> storages_.

(** Each storage sees every measurement. *)
Lemma Multi_Record_each storages_ ms :
  foldl Multi_Record storages_ ms = (λ s, foldl RecordOne s ms) <$> storages_.
Proof.
  revert storages_. induction ms as [|m ms IH]; intros ss; cbn [foldl]; [by rewrite list_fmap_id|].
  rewrite IH. unfold Multi_Record. by rewrite <-list_fmap_compose.
Qed.
End multi_storage.

Section async_storage.
Context (hasher : hashable → Z).
Context {SumPointData HistogramPointData Base2PointData LastValuePointData AggregationConfig A V : Type}.
Context `{!Aggregations (SumPointData := SumPointData) (HistogramPointData := HistogramPointData)
  (Base2PointData := Base2PointData) (LastValuePointData := LastValuePointData) (AggregationConfig := AggregationConfig) A}.
Context (Aggregate : A → V → A) (Diff : A → A → A).

Abbreviation Set_ := (MetricStorage.Set_ hasher).
Abbreviation regular := (MetricStorage.regular hasher).
Abbreviation usable := (MetricStorage.usable hasher).

(** ** What the callbacks of an instrument observe

    [data_[attributes] = value], in the order of the first observation. *)
Fixpoint Observe (data_ : list (MetricAttributes * V)) (attributes : MetricAttributes) (value : V)
    : list (MetricAttributes * V) :=
  match data_ with
  | [] => [(attributes, value)]
  | (k, v) :: data_ =>
      if MetricAttributes_eq attributes k then (k, value) :: data_ else (k, v) :: Observe data_ attributes value
  end.

(** ** The storage *)
Record AsyncMetricStorage := MkAsyncStorage {
  async_descriptor_ : InstrumentDescriptor;
  async_aggregation_type_ : AggregationType;
  cumulative_hash_map_ : AttributesHashMap (A := A);
  delta_hash_map_ : AttributesHashMap (A := A);
}.

Definition AsyncMetricStorage_new (d : InstrumentDescriptor) (t : AggregationType) : AsyncMetricStorage :=
  MkAsyncStorage d t (AttributesHashMap_new kAggregationCardinalityLimit) (AttributesHashMap_new kAggregationCardinalityLimit).

(** The aggregation of one observation: made without the configuration of the view. *)
Definition observed (t : AggregationType) (d : InstrumentDescriptor) (value : V) : A :=
  Aggregate (CreateAggregation t d None) value.

(** [None] when copying throws, out of a [noexcept] function, or answers a null pointer. *)
Definition Async_measurement (s : AsyncMetricStorage) (measurement : MetricAttributes * V) : option AsyncMetricStorage :=
  let t := async_aggregation_type_ s in
  let d := async_descriptor_ s in
  let aggr := observed t d measurement.2 in
  match hm_Get (cumulative_hash_map_ s) measurement.1 with
  | Some prev =>
      let delta := Diff prev aggr in
      Some (MkAsyncStorage d t (Set_ (cumulative_hash_map_ s) measurement.1 aggr)
        (Set_ (delta_hash_map_ s) measurement.1 delta))
  | None =>
      match CloneAggregation t d aggr with
      | Cloned clone =>
          Some (MkAsyncStorage d t (Set_ (cumulative_hash_map_ s) measurement.1 clone)
            (Set_ (delta_hash_map_ s) measurement.1 aggr))
      | _ => None
      end
  end.

Definition Async_measurements (s : AsyncMetricStorage) (measurements : list (MetricAttributes * V)) : option AsyncMetricStorage :=
  foldl (λ o m, s ← o; Async_measurement s m) (Some s) measurements.

(** [RecordLong] and [RecordDouble]: measurements come in some order of the unordered map. *)
Definition Async_Record (type : InstrumentValueType) (s : AsyncMetricStorage) (measurements : list (MetricAttributes * V))
    : option AsyncMetricStorage :=
  if negb (bool_decide (value_type_ (async_descriptor_ s) = type)) then Some s
  else Async_measurements s measurements.

(** [Collect] takes the differences out, for the temporal storage. *)
Definition Async_Collect (s : AsyncMetricStorage) : AsyncMetricStorage * AttributesHashMap (A := A) :=
  (MkAsyncStorage (async_descriptor_ s) (async_aggregation_type_ s) (cumulative_hash_map_ s)
     (AttributesHashMap_new kAggregationCardinalityLimit), delta_hash_map_ s).

(** A reader observes and then collects. *)
Definition observe_and_collect (s : AsyncMetricStorage) (measurements : list (MetricAttributes * V))
    : option (AsyncMetricStorage * AttributesHashMap (A := A)) :=
  Async_Collect <$> Async_Record (value_type_ (async_descriptor_ s)) s measurements.

Fixpoint rounds (s : AsyncMetricStorage) (rs : list (list (MetricAttributes * V)))
    : option (AsyncMetricStorage * list (AttributesHashMap (A := A))) :=
  match rs with
  | [] => Some (s, [])
  | r :: rs =>
      '(s, delta) ← observe_and_collect s r;
      '(s, deltas) ← rounds s rs;
      Some (s, delta :: deltas)
  end.

(** ** Hash maps as finite maps

    With regular keys an entry is found by equality. *)
Fixpoint assoc {B} (k : MetricAttributes) (l : list (MetricAttributes * B)) : option B :=
  match l with
  | [] => None
  | (k', a) :: l => if decide (k = k') then Some a else assoc k l
  end.

Definition regular_keys (h : AttributesHashMap (A := A)) : Prop := Forall (λ k, regular k = true) (hash_map_ h).*1.

Lemma find_entry_assoc k (l : list (MetricAttributes * A)) :
  regular k = true → Forall (λ k', regular k' = true) l.*1 →
  match find_entry k l with
  | Some i => ∃ a, l !! i = Some (k, a) ∧ assoc k l = Some a
  | None => assoc k l = None
  end.
Proof.
  intros Hk. induction l as [|[k' a] l IH]; [done|]. cbn [fmap list_fmap fst]. intros [Hk' Hl]%list.Forall_cons.
  cbn [find_entry assoc]. destruct (decide (k = k')) as [<-|Hne].
  - rewrite (MetricAttributes_eq_refl hasher) by done. by exists a.
  - rewrite (MetricAttributes_eq_ne hasher) by done. specialize (IH Hl). by destruct (find_entry k l).
Qed.

Lemma Get_assoc h k : regular k = true → regular_keys h → hm_Get h k = assoc k (hash_map_ h).
Proof.
  intros Hk Hh. pose proof (find_entry_assoc k _ Hk Hh) as H. unfold hm_Get.
  destruct (find_entry k _) as [i|]; [|done]. destruct H as (a & Hi & ->). cbn [mbind option_bind]. by rewrite Hi.
Qed.

Lemma assoc_app {B} k (l l' : list (MetricAttributes * B)) :
  assoc k (l ++ l') = match assoc k l with Some a => Some a | None => assoc k l' end.
Proof. induction l as [|[k' a] l IH]; [done|]. cbn [app assoc]. by destruct (decide (k = k')). Qed.

Lemma assoc_None {B} k (l : list (MetricAttributes * B)) : assoc k l = None ↔ k ∉ l.*1.
Proof.
  induction l as [|[k' a] l IH]; [split; [by intros _ ?%elem_of_nil|done]|]. cbn [assoc fmap list_fmap fst].
  rewrite not_elem_of_cons. destruct (decide (k = k')); [naive_solver|]. rewrite IH. naive_solver.
Qed.

Lemma assoc_alter k k' a (l : list (MetricAttributes * A)) i b :
  NoDup l.*1 → l !! i = Some (k, b) →
  assoc k' (alter (λ e, (e.1, a)) i l) = if decide (k' = k) then Some a else assoc k' l.
Proof.
  revert i. induction l as [|[k1 a1] l IH]; intros [|i]; [done..| |]; cbn [fmap list_fmap fst]; intros [Hk1 Hnd]%list.NoDup_cons.
  - intros [= -> ->]. cbn. destruct (decide (k' = k)) as [->|]; [done|]. done.
  - intros Hi. cbn [lookup list_lookup] in Hi. change (alter ?f (S i) (?x :: l)) with (x :: alter f i l). cbn [assoc].
    destruct (decide (k' = k1)) as [->|]; [|by apply IH]. destruct (decide (k1 = k)) as [->|]; [|done].
    destruct Hk1. apply list_elem_of_fmap. exists (k, b). split; [done|]. by eapply list_elem_of_lookup_2.
Qed.

Lemma alter_keys {B} (l : list (MetricAttributes * B)) i a : (alter (λ e, (e.1, a)) i l).*1 = l.*1.
Proof. revert i. induction l as [|e l IH]; intros [|i]; [done..|]. cbn. f_equal. apply IH. Qed.

(** ** Below the limit

    [U] has all the sets of attributes that are ever observed. *)
Section universe.
Context (U : list MetricAttributes) (HU : Forall usable U) (Hsize : length U < kAggregationCardinalityLimit).

Record fits (h : AttributesHashMap (A := A)) : Prop := MkFits {
  fits_nodup : NoDup (hash_map_ h).*1;
  fits_keys : (hash_map_ h).*1 ⊆ U;
  fits_limit : attributes_limit_ h = kAggregationCardinalityLimit;
}.

Lemma fits_new : fits (AttributesHashMap_new kAggregationCardinalityLimit).
Proof. split; [constructor|by intros ? ?%elem_of_nil|done]. Qed.

Lemma usable_regular k : k ∈ U → regular k = true.
Proof. intros Hk. rewrite list.Forall_forall in HU. by destruct (HU k Hk). Qed.

Lemma fits_regular h : fits h → regular_keys h.
Proof. intros [_ Hk _]. apply list.Forall_forall. intros k ?%Hk. by apply usable_regular. Qed.

Lemma fits_get h k : fits h → k ∈ U → hm_Get h k = assoc k (hash_map_ h).
Proof. intros Hf Hk. apply (Get_assoc h k); [by apply usable_regular|by apply fits_regular]. Qed.

Lemma Set_fits h k a :
  fits h → k ∈ U →
  fits (Set_ h k a) ∧ ∀ k', assoc k' (hash_map_ (Set_ h k a)) = if decide (k' = k) then Some a else assoc k' (hash_map_ h).
Proof.
  intros Hf Hk. pose proof (find_entry_assoc k _ (usable_regular k Hk) (fits_regular h Hf)) as Hfind.
  unfold MetricStorage.Set_, assign, emplace, IsOverflowAttributes, hm_Size. destruct (find_entry k (hash_map_ h)) as [i|].
  - destruct Hfind as (b & Hi & _). destruct Hf as [Hnd Hsub Hl]. cbn [hash_map_]. split.
    + by split; cbn [hash_map_ attributes_limit_]; rewrite ?alter_keys.
    + intros k'. by apply (assoc_alter k k' a _ i b).
  - destruct Hf as [Hnd Hsub Hl]. assert (Hnew : k ∉ (hash_map_ h).*1) by by apply assoc_None.
    assert (Hnd' : NoDup ((hash_map_ h).*1 ++ [k])).
    { apply list.NoDup_app. split_and!; [done| |apply NoDup_singleton]. by intros x Hx ->%list_elem_of_singleton. }
    assert (Hsub' : (hash_map_ h).*1 ++ [k] ⊆ U) by (intros x [?%Hsub| ->%list_elem_of_singleton]%elem_of_app; done).
    assert (Hlen : length ((hash_map_ h).*1 ++ [k]) ≤ length U) by (apply submseteq_length, NoDup_submseteq; [done|exact Hsub']).
    rewrite length_app, length_fmap in Hlen. cbn [length] in Hlen. rewrite Hl.
    destruct (Nat.leb_spec kAggregationCardinalityLimit (length (hash_map_ h) + 1)); [lia|]. cbn [fst hash_map_]. split.
    + split; cbn [hash_map_ attributes_limit_]; [by rewrite fmap_app..|done].
    + intros k'. rewrite assoc_app. cbn [assoc]. destruct (decide (k' = k)) as [->|]; [by rewrite Hfind|].
      by destruct (assoc k' _).
Qed.

(** ** Rounds of observing and collecting *)

(** What adds up: a view [obs] of aggregations in which merging a total with the difference to a later one gives the later
    one, and which a copy keeps.  [ok] is what aggregations of the storage have in common. *)
Context {O : Type} (Merge : A → A → A) (t : AggregationType) (d : InstrumentDescriptor) (ok : A → Prop) (obs : A → O).

Record additive : Prop := MkAdditive {
  add_class a : ok a → class_of a = chosen_class t d;
  add_new v : ok (observed t d v);
  add_copy a c : ok a → copy_of a c → class_of c = class_of a → ok c ∧ obs c = obs a;
  add_merge p q c : ok p → ok q → ok c → obs p = obs q → ok (Merge p (Diff q c)) ∧ obs (Merge p (Diff q c)) = obs c;
}.

Context `{!AggregationsLaws (A := A)} (Hadd : additive).

(** What the temporal storage is to make of the differences of one set of attributes. *)
Definition add_up (acc : option A) (deltas : list (AttributesHashMap (A := A))) (k : MetricAttributes) : option A :=
  foldl (λ acc delta, match hm_Get delta k with
                      | Some x => Some (match acc with Some p => Merge p x | None => x end)
                      | None => acc
                      end) acc deltas.

(** The last total observed. *)
Fixpoint latest (k : MetricAttributes) (rs : list (list (MetricAttributes * V))) : option V :=
  match rs with
  | [] => None
  | r :: rs => match latest k rs with Some v => Some v | None => assoc k r end
  end.

(** An unordered map has every key once. *)
Definition measurements_ok (r : list (MetricAttributes * V)) : Prop := NoDup r.*1 ∧ r.*1 ⊆ U.

(** The storage between two rounds or within one. *)
Record storage_ok (s : AsyncMetricStorage) : Prop := MkStorageOk {
  so_descriptor : async_descriptor_ s = d;
  so_type : async_aggregation_type_ s = t;
  so_cumulative : fits (cumulative_hash_map_ s);
  so_delta : fits (delta_hash_map_ s);
  so_entries k a : assoc k (hash_map_ (cumulative_hash_map_ s)) = Some a → ok a;
}.

(** One measurement of a set of attributes that was not yet measured in this round. *)
Lemma measurement_spec s k v :
  storage_ok s → k ∈ U →
  ∃ s' c, Async_measurement s (k, v) = Some s' ∧ storage_ok s' ∧ ok c ∧ obs c = obs (observed t d v) ∧
    (∀ k', assoc k' (hash_map_ (cumulative_hash_map_ s')) = if decide (k' = k) then Some c else assoc k' (hash_map_ (cumulative_hash_map_ s))) ∧
    (∀ k', assoc k' (hash_map_ (delta_hash_map_ s')) =
       if decide (k' = k) then Some (match assoc k (hash_map_ (cumulative_hash_map_ s)) with Some p => Diff p (observed t d v) | None => observed t d v end)
       else assoc k' (hash_map_ (delta_hash_map_ s))).
Proof.
  intros [Hd Ht Hc Hdl He] Hk. pose proof (add_new Hadd v) as Hv. unfold Async_measurement. cbn [fst snd]. rewrite Hd, Ht, fits_get by done.
  assert (Hset : ∀ c x, ok c → obs c = obs (observed t d v) →
    storage_ok (MkAsyncStorage d t (Set_ (cumulative_hash_map_ s) k c) (Set_ (delta_hash_map_ s) k x)) ∧
    (∀ k', assoc k' (hash_map_ (Set_ (cumulative_hash_map_ s) k c)) = if decide (k' = k) then Some c else assoc k' (hash_map_ (cumulative_hash_map_ s))) ∧
    (∀ k', assoc k' (hash_map_ (Set_ (delta_hash_map_ s) k x)) = if decide (k' = k) then Some x else assoc k' (hash_map_ (delta_hash_map_ s)))).
  { intros c x Hok _. destruct (Set_fits _ k c Hc Hk) as [F1 L1], (Set_fits _ k x Hdl Hk) as [F2 L2].
    split; [|by split]. split; cbn [async_descriptor_ async_aggregation_type_ cumulative_hash_map_ delta_hash_map_]; try done.
    intros k' a. rewrite L1. destruct (decide (k' = k)); [by intros [= <-]|]. apply He. }
  destruct (assoc k (hash_map_ (cumulative_hash_map_ s))) as [p|] eqn:Ek.
  - destruct (Hset (observed t d v) (Diff p (observed t d v)) Hv eq_refl) as (H1 & H2 & H3). eexists _, _. by split_and!.
  - destruct (CloneAggregation_copy t d (observed t d v) (add_class Hadd _ Hv)) as (c & -> & Hcc & Hcopy).
    destruct (add_copy Hadd _ _ Hv Hcopy Hcc) as [Hok Hobs]. destruct (Hset c (observed t d v) Hok Hobs) as (H1 & H2 & H3).
    eexists _, _. by split_and!.
Qed.

(** The measurements of a round. *)
Lemma round_spec s r :
  storage_ok s → hash_map_ (delta_hash_map_ s) = [] → measurements_ok r →
  ∃ s', Async_measurements s r = Some s' ∧ storage_ok s' ∧ ∀ k,
    match assoc k r with
    | Some v =>
        (∃ c, assoc k (hash_map_ (cumulative_hash_map_ s')) = Some c ∧ ok c ∧ obs c = obs (observed t d v)) ∧
        assoc k (hash_map_ (delta_hash_map_ s')) =
          Some (match assoc k (hash_map_ (cumulative_hash_map_ s)) with Some p => Diff p (observed t d v) | None => observed t d v end)
    | None => assoc k (hash_map_ (cumulative_hash_map_ s')) = assoc k (hash_map_ (cumulative_hash_map_ s)) ∧
              assoc k (hash_map_ (delta_hash_map_ s')) = None
    end.
Proof.
  intros Hs Hempty Hr. unfold Async_measurements. induction r as [|[k v] r IH] using rev_ind.
  { exists s. split; [done|]. split; [done|]. intros k. cbn [assoc]. by rewrite Hempty. }
  destruct Hr as [Hnd Hsub]. rewrite fmap_app in Hnd, Hsub. apply list.NoDup_app in Hnd as (Hnd & Hk & _).
  assert (Hkr : assoc k r = None) by (apply assoc_None; intros Hin; apply (Hk k Hin), list_elem_of_here).
  destruct IH as (s1 & E1 & Hs1 & H1); [split; [done|set_solver]|].
  assert (HkU : k ∈ U) by (apply Hsub; set_solver). rewrite foldl_snoc, E1. cbn [mbind option_bind].
  destruct (measurement_spec s1 k v Hs1 HkU) as (s2 & c & -> & Hs2 & Hc & Hobs & Hcum & Hdel).
  exists s2. split; [done|]. split; [done|]. intros k'. specialize (H1 k'). rewrite assoc_app, Hcum, Hdel. cbn [assoc].
  destruct (decide (k' = k)) as [->|Hne].
  - rewrite Hkr in *. destruct H1 as [-> _]. split; [by exists c|done].
  - by destruct (assoc k' r).
Qed.

(** Both absent, or equal in the view. *)
Definition same (o o' : option A) : Prop :=
  match o, o' with
  | Some p, Some q => ok p ∧ ok q ∧ obs p = obs q
  | None, None => True
  | _, _ => False
  end.

Lemma same_obs o o' : same o o' → obs <$> o = obs <$> o'.
Proof. destruct o, o'; cbn; try done. by intros (_ & _ & ->). Qed.

Lemma rounds_spec s rs :
  storage_ok s → hash_map_ (delta_hash_map_ s) = [] → Forall measurements_ok rs →
  ∃ s' deltas, rounds s rs = Some (s', deltas) ∧ ∀ k acc, k ∈ U → same acc (hm_Get (cumulative_hash_map_ s) k) →
    same (add_up acc deltas k) (hm_Get (cumulative_hash_map_ s') k) ∧
    obs <$> hm_Get (cumulative_hash_map_ s') k =
      match latest k rs with Some v => Some (obs (observed t d v)) | None => obs <$> hm_Get (cumulative_hash_map_ s) k end.
Proof.
  intros Hs He Hrs. revert s Hs He. induction Hrs as [|r rs Hr _ IH]; intros s Hs He; [by exists s, []|].
  cbn [rounds]. unfold observe_and_collect, Async_Record. rewrite bool_decide_eq_true_2 by done. cbn [negb].
  destruct (round_spec s r Hs He Hr) as (s1 & -> & Hs1 & H1). cbn [fmap option_fmap option_map mbind option_bind]. unfold Async_Collect.
  destruct (IH (MkAsyncStorage (async_descriptor_ s1) (async_aggregation_type_ s1) (cumulative_hash_map_ s1) (AttributesHashMap_new kAggregationCardinalityLimit)))
    as (s' & deltas & -> & H); [|done|].
  { destruct Hs1. split; try done. apply fits_new. }
  exists s', (delta_hash_map_ s1 :: deltas). split; [done|]. intros k acc HkU Hacc. specialize (H1 k).
  assert (Hstep : same (match hm_Get (delta_hash_map_ s1) k with
                        | Some x => Some (match acc with Some p => Merge p x | None => x end)
                        | None => acc end) (hm_Get (cumulative_hash_map_ s1) k)).
  { rewrite (fits_get _ k (so_cumulative _ Hs) HkU) in Hacc.
    rewrite (fits_get _ k (so_delta _ Hs1) HkU), (fits_get _ k (so_cumulative _ Hs1) HkU).
    destruct (assoc k r) as [v|]; [|by destruct H1 as [-> ->]]. destruct H1 as [(c & -> & Hc & Ho) ->].
    destruct acc as [p|], (assoc k (hash_map_ (cumulative_hash_map_ s))) as [q|] eqn:Eq; try done; cbn [same] in *.
    - destruct Hacc as (Hp & Hq & Hpq). destruct (add_merge Hadd p q (observed t d v) Hp Hq (add_new Hadd v) Hpq) as [Hok ->].
      by rewrite Ho.
    - split; [apply (add_new Hadd)|]. by rewrite Ho. }
  destruct (H k _ HkU Hstep) as [Hadd' Hlast]. split; [exact Hadd'|]. rewrite Hlast. cbn [cumulative_hash_map_ latest].
  destruct (latest k rs); [done|]. rewrite (fits_get _ k (so_cumulative _ Hs1) HkU), (fits_get _ k (so_cumulative _ Hs) HkU).
  destruct (assoc k r) as [v|]; [|by destruct H1 as [-> _]]. destruct H1 as [(c & -> & _ & Ho) _]. cbn. by rewrite Ho.
Qed.

(** C29: Below the limit on sets of attributes, whatever is observed and collected, in however many rounds: no
    copy throws, and the differences handed out for each set of attributes add up to the total last observed, in every view of
    the aggregations that merging and copying respect.  Sums of integers are such a view, and the buckets and
    the count of histograms; the sum and the extremes of histograms are not (their difference does not have them), nor are
    sums of doubles, which round. *)
Theorem async_deltas_add_up rs :
  Forall measurements_ok rs →
  ∃ s deltas, rounds (AsyncMetricStorage_new d t) rs = Some (s, deltas) ∧ ∀ k, k ∈ U →
    obs <$> add_up None deltas k = (λ v, obs (observed t d v)) <$> latest k rs ∧
    obs <$> hm_Get (cumulative_hash_map_ s) k = (λ v, obs (observed t d v)) <$> latest k rs.
Proof.
  intros Hrs. destruct (rounds_spec (AsyncMetricStorage_new d t) rs) as (s & deltas & E & H); [|done|done|].
  { split; try done; apply fits_new. }
  exists s, deltas. split; [done|]. intros k Hk. destruct (H k None Hk I) as [Hsame Hlast]. rewrite (same_obs _ _ Hsame), Hlast.
  by destruct (latest k rs).
Qed.
End universe.

(** ** At the limit *)

Lemma Set_empty limit k (a : A) : 1 < limit → Set_ (AttributesHashMap_new limit) k a = MkHashMap [(k, a)] limit.
Proof.
  intros Hl. unfold MetricStorage.Set_, assign, emplace, AttributesHashMap_new, IsOverflowAttributes, hm_Size.
  cbn [hash_map_ attributes_limit_ find_entry length app fst]. by destruct (Nat.leb_spec limit (0 + 1)); [lia|].
Qed.

Record full_without (k : MetricAttributes) (h : AttributesHashMap (A := A)) : Prop := MkFullWithout {
  full_overflow : IsOverflowAttributes h = true;
  full_regular : regular_keys h;
  full_absent : k ∉ (hash_map_ h).*1;
}.

Lemma assign_keys (h : AttributesHashMap (A := A)) k a : (hash_map_ (assign h k a)).*1 = (hash_map_ h).*1 ∨ (hash_map_ (assign h k a)).*1 = (hash_map_ h).*1 ++ [k].
Proof.
  unfold assign, emplace. destruct (find_entry k (hash_map_ h)); cbn [hash_map_ fst]; [left; apply alter_keys|right].
  by rewrite fmap_app.
Qed.

Lemma full_without_get k (h : AttributesHashMap (A := A)) : usable k → full_without k h → hm_Get h k = None.
Proof.
  intros [Hk _] [_ Hreg Habs]. unfold hm_Get. by rewrite (find_entry_None hasher).
Qed.

Lemma full_without_set k (h : AttributesHashMap (A := A)) a : usable k → full_without k h → full_without k (Set_ h k a).
Proof.
  intros [Hk Hko] [Hfull Hreg Habs]. unfold MetricStorage.Set_. rewrite (find_entry_None hasher), Hfull by done.
  pose proof (assign_keys h (kOverflowAttributes hasher) a) as Hkeys. split.
  - unfold IsOverflowAttributes, hm_Size in *. apply Nat.leb_le in Hfull. apply Nat.leb_le.
    assert (Hl : attributes_limit_ (assign h (kOverflowAttributes hasher) a) = attributes_limit_ h)
      by (unfold assign; by destruct (find_entry _ _)).
    rewrite Hl, <-(length_fmap fst (hash_map_ (assign _ _ _))). rewrite <-(length_fmap fst (hash_map_ h)) in Hfull.
    destruct Hkeys as [-> | ->]; rewrite ?length_app; lia.
  - unfold regular_keys in *. destruct Hkeys as [-> | ->]; [done|]. apply list.Forall_app. split; [done|].
    apply list.Forall_singleton, kOverflowAttributes_regular.
  - destruct Hkeys as [-> | ->]; [done|]. rewrite not_elem_of_app, list_elem_of_singleton. done.
Qed.

(** A set of attributes that came after the limit has no entry of its own, is never found, and so
    is taken for new in every round: each of its totals is handed out whole, as if it were a
    difference. *)
Theorem async_overflow_restarts `{!AggregationsLaws (A := A)} s k vs :
  let observed := observed (async_aggregation_type_ s) (async_descriptor_ s) in
  usable k → full_without k (cumulative_hash_map_ s) →
  delta_hash_map_ s = AttributesHashMap_new kAggregationCardinalityLimit →
  (∀ v, class_of (observed v) = chosen_class (async_aggregation_type_ s) (async_descriptor_ s)) →
  ∃ s' deltas, rounds s ((λ v, [(k, v)]) <$> vs) = Some (s', deltas) ∧
    (λ delta, hm_Get delta k) <$> deltas = (λ v, Some (observed v)) <$> vs.
Proof.
  cbv zeta. intros Hk. revert s. induction vs as [|v vs IH]; intros s Hf Hd Hc; [by exists s, []|]. rewrite !fmap_cons. cbn [rounds].
  unfold observe_and_collect, Async_Record, Async_measurements. rewrite bool_decide_eq_true_2 by done.
  cbn [negb foldl mbind option_bind]. unfold Async_measurement. cbn [fst snd]. rewrite full_without_get by done. rewrite Hd.
  destruct (CloneAggregation_class (async_aggregation_type_ s) (async_descriptor_ s) _ (Hc v)) as (c & -> & _).
  cbn [fmap option_fmap option_map mbind option_bind]. unfold Async_Collect.
  cbn [async_descriptor_ async_aggregation_type_ cumulative_hash_map_ delta_hash_map_].
  destruct (IH (MkAsyncStorage (async_descriptor_ s) (async_aggregation_type_ s) (Set_ (cumulative_hash_map_ s) k c)
    (AttributesHashMap_new kAggregationCardinalityLimit))) as (s' & deltas & E & Hv); [by apply full_without_set|done|done|].
  rewrite E. cbn [mbind option_bind].
  eexists s', _. split; [done|]. rewrite fmap_cons. f_equal; [|exact Hv].
  rewrite Set_empty by (apply (bool_decide_unpack (_ < _)); vm_compute; exact I). unfold hm_Get. cbn [hash_map_ find_entry].
  by rewrite (MetricAttributes_eq_refl hasher) by apply Hk.
Qed.
End async_storage.

(** ** Sums of integers *)

Definition sum_aggregate (a : SimpleAggregation Z) (v : Z) : SimpleAggregation Z := MkSimple (simple_class a) (simple_value a + v)%Z.
Definition sum_diff (p c : SimpleAggregation Z) : SimpleAggregation Z := MkSimple (simple_class p) (simple_value c - simple_value p)%Z.
Definition sum_merge (p x : SimpleAggregation Z) : SimpleAggregation Z := MkSimple (simple_class p) (simple_value p + simple_value x)%Z.
Definition sum_ok (a : SimpleAggregation Z) : Prop := simple_class a = CLongSum.

Lemma sums_additive d : is_long d = true → additive sum_aggregate sum_diff sum_merge AggSum d sum_ok simple_value.
Proof.
  intros Hd. split.
  - intros [c v] Hc. cbn in *. subst. unfold chosen_class. cbn. by rewrite Hd.
  - intros v. unfold observed, CreateAggregation, sum_ok. by rewrite Hd.
  - intros [c v] c' Ha Hcopy Hcl. unfold copy_of, sum_ok in *. cbn in Ha, Hcl. subst c. cbn in Hcopy. destruct Hcopy as [long ->]. by destruct long.
  - intros [cp p] [cq q] [cc c] Hp _ _. cbn in *. intros ->. split; [done|lia].
Qed.

(** ** The buckets and the count of histograms *)
Import HistogramData.

Section histograms.
Context (boundaries : list Z).

Definition empty_histogram : HistogramPointData :=
  MkHistogram boundaries (VLong 0) (VLong INT64_MAX) (VLong INT64_MIN) (replicate (S (length boundaries)) 0%Z) 0 true.

#[local] Instance zero_histogram : Zero HistogramPointData := empty_histogram.

(** A histogram of one measurement. *)
Definition histogram_of_one (v : Z) : HistogramPointData :=
  MkHistogram boundaries (VLong v) (VLong v) (VLong v)
    ((λ i, if decide (i = BucketBinarySearch (VLong v) boundaries) then 1%Z else 0%Z) <$> seq 0 (S (length boundaries))) 1 true.

(** Where merging goes wrong, at a sum that overflows, the histogram is kept. *)
Definition or_keep (p : HistogramPointData) (r : fault + HistogramPointData) : HistogramPointData :=
  match r with inr m => m | inl _ => p end.

Definition histogram_merge (p x : SimpleAggregation HistogramPointData) : SimpleAggregation HistogramPointData :=
  MkSimple (simple_class p) (or_keep (simple_value p) (HistogramMerge TLong (simple_value p) (simple_value x) empty_histogram)).
Definition histogram_diff (p c : SimpleAggregation HistogramPointData) : SimpleAggregation HistogramPointData :=
  MkSimple (simple_class p) (or_keep (simple_value p) (HistogramDiff (simple_value p) (simple_value c) empty_histogram)).
Definition histogram_aggregate (a : SimpleAggregation HistogramPointData) (v : Z) : SimpleAggregation HistogramPointData :=
  histogram_merge a (MkSimple (simple_class a) (histogram_of_one v)).

Record histogram_ok (a : SimpleAggregation HistogramPointData) : Prop := MkHistogramOk {
  ho_class : simple_class a = CLongHistogram;
  ho_length : length (hp_counts (simple_value a)) = S (length boundaries);
  ho_counts : Forall (λ c, u64 c = c) (hp_counts (simple_value a));
  ho_count : u64 (hp_count (simple_value a)) = hp_count (simple_value a);
  ho_sum : ∃ z, hp_sum (simple_value a) = VLong z ∧ int64 z = Some z;
}.

Definition histogram_counts (a : SimpleAggregation HistogramPointData) : list Z * Z :=
  (hp_counts (simple_value a), hp_count (simple_value a)).

Lemma int64_Some z z' : int64 z = Some z' → z' = z ∧ int64 z' = Some z'.
Proof. unfold int64. destruct (_ && _) eqn:E; [|done]. intros [= <-]. by rewrite E. Qed.

Lemma u64_idem z : u64 (u64 z) = u64 z.
Proof. unfold u64. by rewrite Zmod_mod. Qed.

Lemma u64_zip (f : Z → Z → Z) xs ys : Forall (λ c, u64 c = c) (zip_with (λ x y, u64 (f x y)) xs ys).
Proof. revert ys. induction xs as [|x xs IH]; intros [|y ys]; cbn; constructor; [apply u64_idem|apply IH]. Qed.

Lemma add_back xs ys :
  length xs = length ys → Forall (λ c, u64 c = c) ys →
  zip_with (λ c d, u64 (c + d)) xs (zip_with (λ c n, u64 (n - c)) xs ys) = ys.
Proof.
  intros Hl Hy. revert xs Hl. induction Hy as [|y ys Hy _ IH]; intros [|x xs] Hl; cbn in *; try done. f_equal; [|apply IH; lia].
  rewrite <-Hy at 2. unfold u64. rewrite Zplus_mod_idemp_r. f_equal. lia.
Qed.

(** Merging keeps what histograms have in common, whether or not it goes through. *)
Lemma histogram_merge_ok p x :
  histogram_ok p → length (hp_counts (simple_value x)) = S (length boundaries) → (∃ z, hp_sum (simple_value x) = VLong z) →
  histogram_ok (histogram_merge p x).
Proof.
  intros Hp Hxl (zx & Hzx). pose proof Hp as [Hc Hl Hcs Hn (z & Hz & Hi)]. unfold histogram_merge.
  destruct (HistogramMerge TLong (simple_value p) (simple_value x) empty_histogram) as [e|m] eqn:E; [by destruct p|].
  unfold HistogramMerge in E.
  rewrite combine_counts_same in E by (cbn [empty_histogram hp_counts]; rewrite ?length_replicate; congruence).
  rewrite Hz, Hzx in E. cbn [mbind result_bind get_ mret result_ret add or_fault] in E.
  destruct (int64 (z + zx)) as [zs|] eqn:Es; [|done]. apply int64_Some in Es as [-> Hs].
  assert (Hm : hp_counts m = zip_with (λ c d, u64 (c + d)) (hp_counts (simple_value p)) (hp_counts (simple_value x)) ∧
    hp_count m = u64 (hp_count (simple_value p) + hp_count (simple_value x)) ∧ hp_sum m = VLong (z + zx)).
  { cbn in E. repeat (case_match; cbn in E; try discriminate E); by injection E as <-. }
  destruct Hm as (Hmc & Hmn & Hms). split; cbn [simple_class simple_value or_keep].
  - exact Hc.
  - rewrite Hmc, length_zip_with. lia.
  - rewrite Hmc. apply u64_zip.
  - rewrite Hmn. apply u64_idem.
  - exists (z + zx)%Z. by rewrite Hms.
Qed.

Lemma histogram_diff_run q c :
  histogram_ok q → histogram_ok c →
  let d := simple_value (histogram_diff q c) in
  hp_counts d = zip_with (λ c n, u64 (n - c)) (hp_counts (simple_value q)) (hp_counts (simple_value c)) ∧
  hp_count d = u64 (hp_count (simple_value c) - hp_count (simple_value q)) ∧ hp_sum d = VLong 0 ∧ hp_record_min_max d = false.
Proof.
  intros [_ Hlq _ _ _] [_ Hlc _ _ _]. unfold histogram_diff, HistogramDiff.
  by rewrite combine_counts_same by (cbn [empty_histogram hp_counts]; rewrite ?length_replicate; congruence).
Qed.

(** What merging the difference back restores: the buckets and the count. *)
Lemma histogram_merge_diff_counts p q c :
  histogram_ok p → histogram_ok q → histogram_ok c → histogram_counts p = histogram_counts q →
  histogram_ok (histogram_merge p (histogram_diff q c)) ∧
  histogram_counts (histogram_merge p (histogram_diff q c)) = histogram_counts c.
Proof.
  intros Hp Hq Hc [= Hpc Hpn]. destruct (histogram_diff_run q c Hq Hc) as (Dc & Dn & Ds & Dr).
  set (d := histogram_diff q c) in *. pose proof Hp as [_ Hlp _ _ (z & Hz & Hi)]. pose proof Hq as [_ Hlq _ _ _].
  pose proof Hc as [_ Hlc Hcc Hcn _].
  assert (Hdl : length (hp_counts (simple_value d)) = S (length boundaries)) by (rewrite Dc, length_zip_with; lia).
  split; [apply histogram_merge_ok; [done|exact Hdl|by exists 0%Z]|].
  unfold histogram_counts, histogram_merge, HistogramMerge.
  rewrite combine_counts_same by (cbn [empty_histogram hp_counts]; rewrite ?length_replicate; congruence).
  rewrite Hz, Ds, Dr. cbn [mbind result_bind get_ mret result_ret add or_fault]. rewrite Z.add_0_r, Hi.
  cbn [mbind result_bind or_fault hp_record_min_max simple_value or_keep]. rewrite andb_false_r.
  cbn [mret result_ret or_keep hp_counts hp_count]. f_equal.
  - rewrite Dc, Hpc. apply add_back; [congruence|exact Hcc].
  - rewrite Dn, Hpn. transitivity (u64 (hp_count (simple_value c))); [|exact Hcn].
    unfold u64. rewrite Zplus_mod_idemp_r. f_equal. lia.
Qed.

Lemma histograms_additive d :
  is_long d = true →
  additive histogram_aggregate histogram_diff histogram_merge AggHistogram d histogram_ok histogram_counts.
Proof.
  intros Hd. split.
  - intros a [Hc _ _ _ _]. cbn. rewrite Hc. unfold chosen_class. cbn. by rewrite Hd.
  - intros v. unfold observed, CreateAggregation. rewrite Hd. apply histogram_merge_ok.
    + change (HistogramAggregation true None) with (MkSimple CLongHistogram empty_histogram). split.
      * done.
      * apply length_replicate.
      * apply list.Forall_replicate. by vm_compute.
      * by vm_compute.
      * by exists 0%Z.
    + cbn [simple_value histogram_of_one hp_counts]. by rewrite length_fmap, length_seq.
    + by exists v.
  - intros [c v] c' Ha Hcopy Hcl. pose proof (ho_class _ Ha) as Hc. cbn in Hc. subst c. unfold copy_of in Hcopy. cbn in Hcopy. destruct Hcopy as [long ->].
    by destruct long.
  - apply histogram_merge_diff_counts.
Qed.
End histograms.

(** ** At concrete inputs *)

Definition example_universe : list MetricAttributes := [example_attributes "/a"; example_attributes "/b"].

Definition example_rounds : list (list (MetricAttributes * Z)) :=
  [[(example_attributes "/a", 3%Z)]; [(example_attributes "/b", 5%Z); (example_attributes "/a", 10%Z)]; []].

Lemma example_universe_ok :
  Forall (usable example_hasher) example_universe ∧ length example_universe < kAggregationCardinalityLimit ∧
  Forall (measurements_ok example_universe) example_rounds.
Proof.
  split; [|split].
  - repeat (apply list.Forall_cons; split); [..|constructor];
      (split; [vm_compute; reflexivity|apply (bool_decide_unpack (_ ≠ _)); vm_compute; exact I]).
  - apply (bool_decide_unpack (_ < _)); vm_compute; exact I.
  - repeat (apply list.Forall_cons; split); [..|constructor];
      (split; [apply (bool_decide_unpack (NoDup _)); vm_compute; exact I|apply (bool_decide_unpack (_ ⊆ _)); vm_compute; exact I]).
Qed.

(** Sums of integers, and the buckets of histograms of the source's merging and difference. *)
Lemma async_deltas_add_up_witness :
  let k := example_attributes "/a" in
  (∃ s deltas, rounds example_hasher sum_aggregate sum_diff (AsyncMetricStorage_new example_descriptor AggSum) example_rounds = Some (s, deltas) ∧
     simple_value <$> add_up sum_merge None deltas k = Some 10%Z) ∧
  let bs := double_of_int64 <$> [0; 5; 20]%Z in
  ∃ s deltas,
    rounds (Aggregations0 := simple_aggregations (H := zero_histogram bs)) example_hasher
      (histogram_aggregate bs) (histogram_diff bs) (AsyncMetricStorage_new example_descriptor AggHistogram) example_rounds = Some (s, deltas) ∧
    histogram_counts <$> add_up (histogram_merge bs) None deltas k = Some ([0; 0; 1; 0], 1)%Z.
Proof.
  cbv zeta. destruct example_universe_ok as (HU & Hsize & Hrs). set (bs := double_of_int64 <$> [0; 5; 20]%Z). split.
  - destruct (async_deltas_add_up example_hasher sum_aggregate sum_diff example_universe HU Hsize sum_merge AggSum example_descriptor
      sum_ok simple_value (sums_additive example_descriptor eq_refl) example_rounds Hrs) as (s & deltas & E & H).
    exists s, deltas. split; [exact E|]. destruct (H (example_attributes "/a")) as [Ha _]; [apply list_elem_of_here|].
    rewrite Ha. vm_compute. reflexivity.
  - destruct (async_deltas_add_up example_hasher (histogram_aggregate bs) (histogram_diff bs) example_universe HU Hsize
      (histogram_merge bs) AggHistogram example_descriptor (histogram_ok bs) histogram_counts
      (histograms_additive bs example_descriptor eq_refl) example_rounds Hrs) as (s & deltas & E & H).
    exists s, deltas. split; [exact E|]. destruct (H (example_attributes "/a")) as [Ha _]; [apply list_elem_of_here|].
    rewrite Ha. vm_compute. reflexivity.
Defined.

Lemma async_overflow_restarts_witness :
  let s := MkAsyncStorage example_descriptor AggSum (MkHashMap [(example_attributes "/a", MkSimple CLongSum 1%Z)] 2)
             (AttributesHashMap_new kAggregationCardinalityLimit) in
  full_without example_hasher (example_attributes "/b") (cumulative_hash_map_ s) ∧
  ∃ s' deltas, rounds example_hasher sum_aggregate sum_diff s ((λ v, [(example_attributes "/b", v)]) <$> [3; 10; 12]%Z) = Some (s', deltas) ∧
    (λ d, simple_value <$> hm_Get d (example_attributes "/b")) <$> deltas = [Some 3; Some 10; Some 12]%Z.
Proof.
  cbv zeta. set (s := MkAsyncStorage _ _ _ _).
  assert (Hk : usable example_hasher (example_attributes "/b"))
    by (split; [vm_compute; reflexivity|apply (bool_decide_unpack (_ ≠ _)); vm_compute; exact I]).
  assert (Hf : full_without example_hasher (example_attributes "/b") (cumulative_hash_map_ s)).
  { split; [vm_compute; reflexivity| |apply (bool_decide_unpack (_ ∉ _)); vm_compute; exact I].
    apply list.Forall_singleton. vm_compute. reflexivity. }
  split; [exact Hf|].
  destruct (async_overflow_restarts example_hasher sum_aggregate sum_diff s (example_attributes "/b") [3; 10; 12]%Z Hk Hf eq_refl)
    as (s' & deltas & E & H); [done|]. exists s', deltas. split; [exact E|].
  transitivity ((λ o : option (SimpleAggregation Z), simple_value <$> o) <$> ((λ d, hm_Get d (example_attributes "/b")) <$> deltas));
    [by rewrite <-list_fmap_compose|]. rewrite H. vm_compute. reflexivity.
Defined.
