(* ===== verification/ExpHistogram.v ===== *)
(** * Points of exponential histograms

    OT/sdk/metrics/data/point_data.h, Base2ExponentialHistogramPointData, and the parts of the counters of
    OT/sdk/metrics/data/circular_buffer.h that are in the header.  A point owns its two counters through unique pointers and
    writes its copy operations out; here the counters live on a heap, and a program over any number of points is shown to see
    values - with one exception, the copy of a point whose counters were moved away. *)
From S2P Require Export RefCount Attributes.

(** ** Counters *)

Definition kNullIndex : Z := (- 2 ^ 31)%Z.

(** The alternatives of the backing array hold numbers of one, two, four and eight bytes. *)
Record AdaptingCircularBufferCounter := MkCounter {
  start_index_ : Z;
  end_index_ : Z;
  base_index_ : Z;
  width_ : nat;
  backing_ : list Z;
}.

Definition Counter_new (max_size : nat) : AdaptingCircularBufferCounter :=
  MkCounter kNullIndex kNullIndex kNullIndex 1 (replicate max_size 0%Z).
Definition StartIndex (c : AdaptingCircularBufferCounter) : Z := start_index_ c.
Definition EndIndex (c : AdaptingCircularBufferCounter) : Z := end_index_ c.
Definition Counter_Empty (c : AdaptingCircularBufferCounter) : bool := (base_index_ c =? kNullIndex)%Z.

(** ** Points *)

(** The members that are numbers, doubles as their bits. *)
Record PointNumbers := MkPointNumbers {
  b2_sum_ : Z; b2_min_ : Z; b2_max_ : Z; b2_zero_threshold_ : Z; b2_count_ : Z; b2_zero_count_ : Z; b2_max_buckets_ : Z;
  b2_scale_ : Z; b2_record_min_max_ : bool;
}.
Definition PointNumbers_default : PointNumbers := MkPointNumbers 0 0 0 0 0 0 0 0 true.

Record Base2Point := MkBase2Point { numbers : PointNumbers; positive_buckets_ : option nat; negative_buckets_ : option nat }.

Abbreviation counter_heap := (gmap nat AdaptingCircularBufferCounter).

Definition make_unique (c : AdaptingCircularBufferCounter) (h : counter_heap) : counter_heap * nat :=
  let a := fresh (dom h) in (<[a := c]> h, a).

(** The destructor of a unique pointer, and of what it held before an assignment. *)
Definition delete_counter (p : option nat) (h : counter_heap) : counter_heap := match p with None => h | Some a => delete a h end.

(** The default constructor. *)
Definition Base2Point_new (h : counter_heap) : counter_heap * Base2Point :=
  let '(h, a) := make_unique (Counter_new 0) h in
  let '(h, b) := make_unique (Counter_new 0) h in (h, MkBase2Point PointNumbers_default (Some a) (Some b)).

(** Assigning a new counter, the copy of the one another pointer points to; [None]: that pointer dangles. *)
Definition assign_copy (this_buckets : option nat) (a : nat) (h : counter_heap) : option (counter_heap * option nat) :=
  c ← h !! a; let '(h, b) := make_unique c h in Some (delete_counter this_buckets h, Some b).

(** The copy constructor: the numbers are copied; both pointers first get their default initialisers. *)
Definition copy_construct (other : Base2Point) (h : counter_heap) : option (counter_heap * Base2Point) :=
  let '(h, a) := make_unique (Counter_new 0) h in
  let '(h, b) := make_unique (Counter_new 0) h in
  '(h, pos) ← match positive_buckets_ other with Some o => assign_copy (Some a) o h | None => Some (h, Some a) end;
  '(h, neg) ← match negative_buckets_ other with Some o => assign_copy (Some b) o h | None => Some (h, Some b) end;
  Some (h, MkBase2Point (numbers other) pos neg).

(** The copy assignment between different points. *)
Definition assign_buckets (this_buckets other_buckets : option nat) (h : counter_heap) : option (counter_heap * option nat) :=
  match other_buckets with Some o => assign_copy this_buckets o h | None => Some (delete_counter this_buckets h, None) end.
Definition copy_assign (this other : Base2Point) (h : counter_heap) : option (counter_heap * Base2Point) :=
  '(h, pos) ← assign_buckets (positive_buckets_ this) (positive_buckets_ other) h;
  '(h, neg) ← assign_buckets (negative_buckets_ this) (negative_buckets_ other) h;
  Some (h, MkBase2Point (numbers other) pos neg).

(** Moving takes the counters and leaves null pointers. *)
Definition moved_from (other : Base2Point) : Base2Point := MkBase2Point (numbers other) None None.
Definition release_buckets (this : Base2Point) (h : counter_heap) : counter_heap :=
  delete_counter (negative_buckets_ this) (delete_counter (positive_buckets_ this) h).

(** ** Programs over points *)

(** Increment and Clear of a counter, which are defined elsewhere, are any function of it; so are the assignments to the
    public members that are numbers. *)
Inductive point_op :=
  | NewPoint (v : nat) | CopyNew (v other : nat) | CopyAssign (v other : nat) | MoveNew (v other : nat) | MoveAssign (v other : nat)
  | DestroyPoint (v : nat) | SetNumbers (v : nat) (n : PointNumbers)
  | ChangeCounter (v : nat) (positive : bool) (f : AdaptingCircularBufferCounter → AdaptingCircularBufferCounter).

Record Points := MkPoints { counters : counter_heap; points : gmap nat Base2Point }.

Definition buckets (positive : bool) (p : Base2Point) : option nat := if positive then positive_buckets_ p else negative_buckets_ p.

(** [None]: a variable that is not there (or already is), or a null or dangling pointer followed. *)
Definition point_step (s : Points) (o : point_op) : option Points :=
  let h := counters s in
  match o with
  | NewPoint v =>
      guard (points s !! v = None);;
      let '(h, p) := Base2Point_new h in Some (MkPoints h (<[v := p]> (points s)))
  | CopyNew v other =>
      guard (points s !! v = None);; q ← points s !! other;
      '(h, p) ← copy_construct q h; Some (MkPoints h (<[v := p]> (points s)))
  | CopyAssign v other =>
      p ← points s !! v; q ← points s !! other;
      if decide (v = other) then Some s else '(h, p) ← copy_assign p q h; Some (MkPoints h (<[v := p]> (points s)))
  | MoveNew v other =>
      guard (points s !! v = None);; q ← points s !! other;
      Some (MkPoints h (<[v := q]> (<[other := moved_from q]> (points s))))
  | MoveAssign v other =>
      p ← points s !! v; q ← points s !! other;
      if decide (v = other) then Some s
      else Some (MkPoints (release_buckets p h) (<[v := q]> (<[other := moved_from q]> (points s))))
  | DestroyPoint v => p ← points s !! v; Some (MkPoints (release_buckets p h) (delete v (points s)))
  | SetNumbers v n => p ← points s !! v; Some (MkPoints h (<[v := MkBase2Point n (positive_buckets_ p) (negative_buckets_ p)]> (points s)))
  | ChangeCounter v positive f =>
      p ← points s !! v; a ← buckets positive p; c ← h !! a; Some (MkPoints (<[a := f c]> h) (points s))
  end.

(** ** The values they are meant to be *)

(** A point as a value: its numbers and its counters, which a moved-from point lacks. *)
Record PointValue := MkPointValue {
  value_numbers : PointNumbers; value_positive : option AdaptingCircularBufferCounter; value_negative : option AdaptingCircularBufferCounter;
}.

Definition value_moved (x : PointValue) : PointValue := MkPointValue (value_numbers x) None None.
(** What the copy constructor makes of a counter that is not there. *)
Definition or_empty (c : option AdaptingCircularBufferCounter) : option AdaptingCircularBufferCounter := Some (default (Counter_new 0) c).
Definition value_copied (x : PointValue) : PointValue :=
  MkPointValue (value_numbers x) (or_empty (value_positive x)) (or_empty (value_negative x)).

Definition value_step (w : gmap nat PointValue) (o : point_op) : option (gmap nat PointValue) :=
  match o with
  | NewPoint v => guard (w !! v = None);; Some (<[v := MkPointValue PointNumbers_default (Some (Counter_new 0)) (Some (Counter_new 0))]> w)
  | CopyNew v other => guard (w !! v = None);; x ← w !! other; Some (<[v := value_copied x]> w)
  | CopyAssign v other => _ ← w !! v; x ← w !! other; Some (<[v := x]> w)
  | MoveNew v other => guard (w !! v = None);; x ← w !! other; Some (<[v := x]> (<[other := value_moved x]> w))
  | MoveAssign v other => _ ← w !! v; x ← w !! other; Some (if decide (v = other) then w else <[v := x]> (<[other := value_moved x]> w))
  | DestroyPoint v => _ ← w !! v; Some (delete v w)
  | SetNumbers v n => x ← w !! v; Some (<[v := MkPointValue n (value_positive x) (value_negative x)]> w)
  | ChangeCounter v positive f =>
      x ← w !! v;
      if positive then c ← value_positive x; Some (<[v := MkPointValue (value_numbers x) (Some (f c)) (value_negative x)]> w)
      else c ← value_negative x; Some (<[v := MkPointValue (value_numbers x) (value_positive x) (Some (f c))]> w)
  end.

(** ** The heap behind the values *)

Definition option_rep (h : counter_heap) (a : option nat) (c : option AdaptingCircularBufferCounter) : Prop :=
  match a, c with Some a, Some c => h !! a = Some c | None, None => True | _, _ => False end.

Definition rep (h : counter_heap) (p : Base2Point) (x : PointValue) : Prop :=
  numbers p = value_numbers x ∧ option_rep h (positive_buckets_ p) (value_positive x) ∧ option_rep h (negative_buckets_ p) (value_negative x).

Definition pointers (p : Base2Point) : list nat := option_list (positive_buckets_ p) ++ option_list (negative_buckets_ p).
Definition refs (vars : gmap nat Base2Point) : list nat := map_to_list vars ≫= λ vp, pointers vp.2.

(** In the middle of an operation: the counters alive are those of the variables and those in [extra], each owned once. *)
Record tidy (vars : gmap nat Base2Point) (w : gmap nat PointValue) (h : counter_heap) (extra : list nat) : Prop := MkTidy {
  td_nodup : NoDup (refs vars ++ extra);
  td_dom : ∀ a, is_Some (h !! a) ↔ a ∈ refs vars ++ extra;
  td_rep : ∀ v, match vars !! v, w !! v with Some p, Some x => rep h p x | None, None => True | _, _ => False end;
}.

#[export] Instance tidy_proper vars w h : Proper ((≡ₚ) ==> iff) (tidy vars w h).
Proof. intros l l' H. split; intros [H1 H2 H3]; split; try done; [by rewrite <-H|intros a; by rewrite H2, H|by rewrite H|intros a; by rewrite H2, H]. Qed.

Lemma refs_insert vars v p : vars !! v = None → refs (<[v := p]> vars) ≡ₚ pointers p ++ refs vars.
Proof. intros H. unfold refs. by rewrite map_to_list_insert. Qed.

Lemma refs_delete vars v p : vars !! v = Some p → refs vars ≡ₚ pointers p ++ refs (delete v vars).
Proof. intros H. unfold refs. by rewrite <-(map_to_list_delete vars v p H). Qed.

Lemma refs_elem vars v p a : vars !! v = Some p → a ∈ pointers p → a ∈ refs vars.
Proof. intros H Ha. rewrite (refs_delete vars v p H), elem_of_app. by left. Qed.

Lemma option_rep_stable h h' a c : (∀ b, b ∈ option_list a → h' !! b = h !! b) → option_rep h a c → option_rep h' a c.
Proof. intros Hb. destruct a as [a|], c as [c|]; try done. cbn in *. intros <-. apply Hb. by left. Qed.

Lemma rep_stable h h' p x : (∀ a, a ∈ pointers p → h' !! a = h !! a) → rep h p x → rep h' p x.
Proof.
  intros Ha (Hn & Hp & Hg). unfold pointers in Ha. split_and!; [done|..]; (eapply option_rep_stable; [|done]); intros; apply Ha; set_solver.
Qed.

(** Opening a variable and closing it again. *)
Lemma tidy_take vars w h extra v p :
  tidy vars w h extra → vars !! v = Some p →
  ∃ x, w !! v = Some x ∧ rep h p x ∧ tidy (delete v vars) (delete v w) h (pointers p ++ extra).
Proof.
  intros [H1 H2 H3] E. pose proof (H3 v) as Hv. rewrite E in Hv. destruct (w !! v) as [x|] eqn:Ew; [|done]. exists x. split_and!; [done..|].
  assert (Hr : refs vars ++ extra ≡ₚ refs (delete v vars) ++ pointers p ++ extra)
    by (rewrite (refs_delete vars v p E), (assoc_L (++)); f_equiv; apply Permutation_app_comm).
  split; [by rewrite <-Hr|intros a; by rewrite H2, Hr|]. intros u. destruct (decide (u = v)) as [->|Hn]; [by rewrite !lookup_delete_eq|].
  rewrite !lookup_delete_ne by done. apply H3.
Qed.

Lemma tidy_put vars w h extra v p x :
  tidy vars w h (pointers p ++ extra) → vars !! v = None → rep h p x → tidy (<[v := p]> vars) (<[v := x]> w) h extra.
Proof.
  intros [H1 H2 H3] E Hx.
  assert (Hr : refs (<[v := p]> vars) ++ extra ≡ₚ refs vars ++ pointers p ++ extra)
    by (rewrite (refs_insert vars v p E), (assoc_L (++)); f_equiv; apply Permutation_app_comm).
  split; [by rewrite Hr|intros a; by rewrite H2, Hr|]. intros u. destruct (decide (u = v)) as [->|Hn]; [by rewrite !lookup_insert_eq|].
  rewrite !lookup_insert_ne by done. apply H3.
Qed.

Lemma tidy_out vars w h extra v : tidy vars w h extra → vars !! v = None ↔ w !! v = None.
Proof. intros [_ _ H]. specialize (H v). by destruct (vars !! v), (w !! v). Qed.

Lemma tidy_fresh vars w h extra : tidy vars w h extra → fresh (dom h) ∉ refs vars ++ extra.
Proof. intros Ht Hin%(td_dom _ _ _ _ Ht). apply elem_of_dom in Hin. by apply (is_fresh (dom h)). Qed.

Lemma tidy_reps vars w h h' extra :
  tidy vars w h extra → (∀ a, a ∈ refs vars → h' !! a = h !! a) →
  ∀ v, match vars !! v, w !! v with Some p, Some x => rep h' p x | None, None => True | _, _ => False end.
Proof.
  intros [_ _ H] Ha v. specialize (H v). destruct (vars !! v) as [p|] eqn:E, (w !! v) as [x|]; try done. eapply rep_stable; [|done].
  intros a Hin. apply Ha. by eapply refs_elem.
Qed.

Lemma tidy_make vars w h extra c :
  tidy vars w h extra →
  tidy vars w (make_unique c h).1 ((make_unique c h).2 :: extra) ∧
  (make_unique c h).1 !! (make_unique c h).2 = Some c ∧ ∀ a, is_Some (h !! a) → (make_unique c h).1 !! a = h !! a.
Proof.
  intros Ht. pose proof (tidy_fresh _ _ _ _ Ht) as Hf. unfold make_unique. cbn [fst snd]. set (b := fresh (dom h)) in *.
  assert (Hr : refs vars ++ b :: extra ≡ₚ b :: refs vars ++ extra) by (by rewrite Permutation_middle).
  assert (Hne : ∀ a, a ∈ refs vars ++ extra → <[b := c]> h !! a = h !! a) by (intros a Ha; apply lookup_insert_ne; by intros <-).
  split_and!; [|apply lookup_insert_eq|intros a Ha; apply Hne; by apply (td_dom _ _ _ _ Ht)]. split.
  - rewrite Hr. constructor; [done|apply Ht].
  - intros a. rewrite Hr, elem_of_cons. destruct (decide (a = b)) as [->|Hn]; [rewrite lookup_insert_eq; naive_solver|].
    rewrite lookup_insert_ne by done. rewrite (td_dom _ _ _ _ Ht). naive_solver.
  - eapply tidy_reps; [done|]. intros a Ha. apply Hne. rewrite elem_of_app. by left.
Qed.

Lemma tidy_delete vars w h extra p :
  tidy vars w h (option_list p ++ extra) → tidy vars w (delete_counter p h) extra ∧ (∀ a, a ∉ option_list p → delete_counter p h !! a = h !! a).
Proof.
  destruct p as [b|]; cbn [delete_counter option_list app]; [|done]. intros Ht.
  assert (Hr : refs vars ++ b :: extra ≡ₚ b :: refs vars ++ extra) by (by rewrite Permutation_middle).
  pose proof (td_nodup _ _ _ _ Ht) as Hn. rewrite Hr in Hn. apply list.NoDup_cons in Hn as [Hb Hn].
  assert (Hne : ∀ a, a ∉ [b] → delete b h !! a = h !! a) by (intros a Ha; apply lookup_delete_ne; set_solver). split; [|done]. split; [done| |].
  - intros a. destruct (decide (a = b)) as [->|Hab]; [rewrite lookup_delete_eq; split; [by intros [? ?]|done]|].
    rewrite lookup_delete_ne by done. rewrite (td_dom _ _ _ _ Ht), Hr, elem_of_cons. naive_solver.
  - eapply tidy_reps; [done|]. intros a Ha. apply Hne. intros ->%list_elem_of_singleton. apply Hb. rewrite elem_of_app. by left.
Qed.

Lemma assign_copy_spec vars w h extra this a c :
  tidy vars w h (option_list this ++ extra) → h !! a = Some c →
  ∃ h' b, assign_copy this a h = Some (h', Some b) ∧ tidy vars w h' (b :: extra) ∧ h' !! b = Some c ∧
    ∀ x, is_Some (h !! x) → x ∉ option_list this → h' !! x = h !! x.
Proof.
  intros Ht Ha. unfold assign_copy. rewrite Ha. cbn [mbind option_bind]. destruct (make_unique c h) as [h1 b] eqn:E.
  destruct (tidy_make _ _ _ _ c Ht) as (Ht1 & Hb & Hk). rewrite E in *. cbn [fst snd] in *. rewrite Permutation_middle in Ht1.
  destruct (tidy_delete _ _ _ _ _ Ht1) as [Ht2 Hd]. exists (delete_counter this h1), b. split_and!; [done..| |].
  - rewrite Hd; [done|]. pose proof (td_nodup _ _ _ _ Ht1) as Hn. apply list.NoDup_app in Hn as (_ & _ & (_ & Hn & _)%list.NoDup_app).
    intros Hin. apply (Hn b Hin). by left.
  - intros x Hx Hout. rewrite Hd by done. by apply Hk.
Qed.

Lemma assign_buckets_spec vars w h extra this o c :
  tidy vars w h (option_list this ++ extra) → option_rep h o c →
  ∃ h' p, assign_buckets this o h = Some (h', p) ∧ tidy vars w h' (option_list p ++ extra) ∧ option_rep h' p c ∧
    ∀ x, is_Some (h !! x) → x ∉ option_list this → h' !! x = h !! x.
Proof.
  intros Ht Hc. unfold assign_buckets. destruct o as [a|], c as [c|]; try done; cbn [option_rep] in Hc.
  - destruct (assign_copy_spec _ _ _ _ _ _ _ Ht Hc) as (h' & b & -> & Ht' & Hb & Hk). by exists h', (Some b).
  - destruct (tidy_delete _ _ _ _ _ Ht) as [Ht' Hd]. exists (delete_counter this h), None. split_and!; auto.
Qed.

(** The same on a pointer that holds its default initialiser. *)
Lemma init_buckets_spec vars w h extra a o c :
  tidy vars w h (a :: extra) → h !! a = Some (Counter_new 0) → option_rep h o c →
  ∃ h' b, match o with Some o => assign_copy (Some a) o h | None => Some (h, Some a) end = Some (h', Some b) ∧
    tidy vars w h' (b :: extra) ∧ option_rep h' (Some b) (or_empty c) ∧ ∀ x, is_Some (h !! x) → x ≠ a → h' !! x = h !! x.
Proof.
  intros Ht Ha Hc. destruct o as [o|], c as [c|]; try done; cbn [option_rep or_empty default] in *.
  - destruct (assign_copy_spec _ _ _ _ (Some a) _ _ Ht Hc) as (h' & b & -> & Ht' & Hb & Hk). exists h', b. split_and!; [done..|].
    intros x Hx Hne. apply Hk; [done|]. by intros ?%list_elem_of_singleton.
  - by exists h, a.
Qed.

(** What is represented stays so when its counters are not touched. *)
Lemma rep_alive vars w h extra p x a : tidy vars w h extra → rep h p x → a ∈ pointers p → is_Some (h !! a).
Proof.
  intros _ (_ & Hp & Hn). unfold pointers. rewrite elem_of_app.
  intros [Ha|Ha]; [destruct (positive_buckets_ p), (value_positive x)|destruct (negative_buckets_ p), (value_negative x)]; try done; cbn in *;
    try (apply list_elem_of_singleton in Ha as ->; eauto); by apply not_elem_of_nil in Ha.
Qed.

Lemma option_rep_keep h h' o c : (∀ a, is_Some (h !! a) → h' !! a = h !! a) → option_rep h o c → option_rep h' o c.
Proof. intros Hk. destruct o as [a|], c as [c|]; try done. cbn. intros Ha. rewrite Hk; [done|eauto]. Qed.

Lemma copy_construct_spec vars w h extra q x :
  tidy vars w h extra → rep h q x →
  ∃ h' p, copy_construct q h = Some (h', p) ∧ tidy vars w h' (pointers p ++ extra) ∧ rep h' p (value_copied x).
Proof.
  intros Ht (Hn & Hp & Hg). unfold copy_construct.
  destruct (make_unique (Counter_new 0) h) as [h1 a] eqn:E1. destruct (tidy_make _ _ _ _ (Counter_new 0) Ht) as (Ht1 & Ha & Hk1).
  rewrite E1 in *. cbn [fst snd] in *. destruct (make_unique (Counter_new 0) h1) as [h2 b] eqn:E2.
  destruct (tidy_make _ _ _ _ (Counter_new 0) Ht1) as (Ht2 & Hb & Hk2). rewrite E2 in *. cbn [fst snd] in *.
  assert (Hk : ∀ x, is_Some (h !! x) → h2 !! x = h !! x) by (intros y Hy; rewrite Hk2, Hk1 by (rewrite ?Hk1; done); done).
  assert (Hnew : h !! a = None ∧ h1 !! b = None) by (unfold make_unique in *; injection E1 as _ <-; injection E2 as _ <-; split; apply not_elem_of_dom, is_fresh).
  assert (Hab : a ≠ b) by (intros ->; destruct Hnew as [_ H]; by rewrite H in Ha).
  rewrite (Permutation_swap a b extra) in Ht2. rewrite <-(Hk2 a) in Ha by eauto.
  destruct (init_buckets_spec _ _ _ _ _ _ _ Ht2 Ha (option_rep_keep _ _ _ _ Hk Hp)) as (h3 & a' & -> & Ht3 & Hp' & Hk3). cbn [mbind option_bind].
  rewrite <-(Hk3 b) in Hb by eauto. rewrite (Permutation_swap b a' extra) in Ht3.
  assert (Hg' : option_rep h3 (negative_buckets_ q) (value_negative x)).
  { apply (option_rep_keep h); [|done]. intros y Hy. rewrite Hk3, Hk by (rewrite ?Hk; first [done|intros ->; destruct Hnew as [H _]; rewrite H in Hy; by destruct Hy]). done. }
  destruct (init_buckets_spec _ _ _ _ _ _ _ Ht3 Hb Hg') as (h4 & b' & -> & Ht4 & Hn' & Hk4). cbn [mbind option_bind].
  eexists _, _. split; [done|]. unfold pointers. cbn [option_list app positive_buckets_ negative_buckets_].
  split; [by rewrite (Permutation_swap b' a' extra)|]. split_and!; [done| |done]. cbn [value_copied value_positive positive_buckets_].
  cbn [option_rep or_empty] in *. rewrite Hk4; [done|by eauto|]. intros ->. pose proof (td_nodup _ _ _ _ Ht3) as Hd.
  apply list.NoDup_app in Hd as (_ & _ & [Hd _]%list.NoDup_cons). apply Hd. by left.
Qed.

Lemma copy_assign_spec vars w h extra p q x :
  tidy vars w h (pointers p ++ extra) → rep h q x → (∀ a, a ∈ pointers q → a ∉ pointers p) →
  ∃ h' p', copy_assign p q h = Some (h', p') ∧ tidy vars w h' (pointers p' ++ extra) ∧ rep h' p' x.
Proof.
  intros Ht Hq Hd. destruct Hq as (Hn & Hp & Hg). unfold copy_assign, pointers in *. rewrite <-(assoc_L (++)) in Ht.
  destruct (assign_buckets_spec _ _ _ _ _ _ _ Ht Hp) as (h1 & a & -> & Ht1 & Ha & Hk1). cbn [mbind option_bind].
  assert (Hg' : option_rep h1 (negative_buckets_ q) (value_negative x)).
  { destruct (negative_buckets_ q) as [b|] eqn:Eb, (value_negative x) as [c|] eqn:Ec; try done. cbn in *. rewrite Hk1; [done|by eauto|].
    intros Hin. apply (Hd b); rewrite elem_of_app; [right; by left|by left]. }
  rewrite (Permutation_app_swap_app (option_list a)) in Ht1.
  destruct (assign_buckets_spec _ _ _ _ _ _ _ Ht1 Hg') as (h2 & b & -> & Ht2 & Hb & Hk2). cbn [mbind option_bind].
  eexists _, _. split; [done|]. cbn [positive_buckets_ negative_buckets_]. rewrite <-(assoc_L (++)). split; [by rewrite (Permutation_app_swap_app (option_list a))|].
  split_and!; [done| |done]. cbn [positive_buckets_]. destruct a as [a|], (value_positive x) as [c|]; try done. cbn in *. rewrite Hk2; [done|by eauto|].
  pose proof (td_nodup _ _ _ _ Ht1) as Hnd. apply list.NoDup_app in Hnd as (_ & _ & (_ & Hnd & _)%list.NoDup_app). intros Hin. apply (Hnd a Hin). by left.
Qed.

Lemma release_buckets_spec vars w h extra p :
  tidy vars w h (pointers p ++ extra) → tidy vars w (release_buckets p h) extra ∧ ∀ a, a ∉ pointers p → release_buckets p h !! a = h !! a.
Proof.
  unfold pointers, release_buckets. rewrite <-(assoc_L (++)). intros Ht. destruct (tidy_delete _ _ _ _ _ Ht) as [Ht1 H1].
  destruct (tidy_delete _ _ _ _ _ Ht1) as [Ht2 H2]. split; [done|]. intros a Ha%not_elem_of_app. rewrite H2, H1; naive_solver.
Qed.

(** ** The simulation *)

(** Both sides stop, or both go on and correspond. *)
Definition agrees (r : option Points) (w : option (gmap nat PointValue)) : Prop :=
  match r, w with Some s, Some w => tidy (points s) w (counters s) [] | None, None => True | _, _ => False end.

Lemma tidy_look vars w h extra v : tidy vars w h extra → (∃ p x, vars !! v = Some p ∧ w !! v = Some x ∧ rep h p x) ∨ (vars !! v = None ∧ w !! v = None).
Proof. intros [_ _ H]. specialize (H v). destruct (vars !! v), (w !! v); naive_solver. Qed.

(** Replacing the point of a variable, once it is open. *)
Lemma tidy_replace vars w h v p x : tidy (delete v vars) (delete v w) h (pointers p ++ []) → rep h p x → tidy (<[v := p]> vars) (<[v := x]> w) h [].
Proof. intros Ht Hx. rewrite <-(insert_delete_eq vars), <-(insert_delete_eq w). apply tidy_put; [done|apply lookup_delete_eq|done]. Qed.

Lemma copy_new_agrees s w v other : tidy (points s) w (counters s) [] → agrees (point_step s (CopyNew v other)) (value_step w (CopyNew v other)).
Proof.
  intros Ht. cbn [point_step value_step]. destruct (tidy_look _ _ _ _ v Ht) as [(p & x & -> & -> & _)|[Ev Ew]]; [done|].
  rewrite Ev, Ew, !option_guard_True by done. cbn [mbind option_bind]. destruct (tidy_look _ _ _ _ other Ht) as [(q & y & -> & -> & Hq)|[-> ->]]; [|done]. cbn [mbind option_bind].
  destruct (copy_construct_spec _ _ _ _ _ _ Ht Hq) as (h' & p' & -> & Ht' & Hp). cbn. by apply tidy_put.
Qed.

Lemma copy_assign_agrees s w v other : tidy (points s) w (counters s) [] → agrees (point_step s (CopyAssign v other)) (value_step w (CopyAssign v other)).
Proof.
  intros Ht. cbn [point_step value_step]. destruct (tidy_look _ _ _ _ v Ht) as [(p & x & Ep & Ew & Hp)|[-> ->]]; [|done].
  destruct (tidy_look _ _ _ _ other Ht) as [(q & y & Eq & Ew' & Hq)|[-> ->]]; [|by rewrite Ep, Ew].
  rewrite Ep, Ew, Eq, Ew'. cbn [mbind option_bind]. destruct (decide (v = other)) as [->|Hn].
  - rewrite Ew in Ew'. injection Ew' as <-. cbn. by rewrite insert_id.
  - destruct (tidy_take _ _ _ _ _ _ Ht Ep) as (_ & _ & _ & Ht').
    assert (Hd : ∀ a, a ∈ pointers q → a ∉ pointers p).
    { intros a Ha Ha'. pose proof (td_nodup _ _ _ _ Ht') as Hnd. apply list.NoDup_app in Hnd as (_ & Hnd & _). apply (Hnd a).
      - apply (refs_elem _ other q); [|done]. by rewrite lookup_delete_ne.
      - rewrite elem_of_app. by left. }
    destruct (copy_assign_spec _ _ _ _ _ _ _ Ht' Hq Hd) as (h' & p' & -> & Ht2 & Hp'). cbn. by apply tidy_replace.
Qed.

(** The moved-from point keeps its numbers and owns nothing. *)
Lemma move_agrees vars w h v other q y :
  v ≠ other → tidy vars w h [] → vars !! v = None → vars !! other = Some q → w !! other = Some y →
  tidy (<[v := q]> (<[other := moved_from q]> vars)) (<[v := y]> (<[other := value_moved y]> w)) h [].
Proof.
  intros Hn Ht Ev Eq Ey. destruct (tidy_take _ _ _ _ _ _ Ht Eq) as (y' & Ey' & Hq & Ht'). rewrite Ey in Ey'. injection Ey' as <-.
  apply tidy_put; [|by rewrite lookup_insert_ne|done]. rewrite <-(insert_delete_eq vars), <-(insert_delete_eq w).
  apply tidy_put; [done|apply lookup_delete_eq|]. destruct Hq as (Hq & _). by split_and!.
Qed.

Lemma move_assign_agrees s w v other : tidy (points s) w (counters s) [] → agrees (point_step s (MoveAssign v other)) (value_step w (MoveAssign v other)).
Proof.
  intros Ht. cbn [point_step value_step]. destruct (tidy_look _ _ _ _ v Ht) as [(p & x & Ep & Ew & Hp)|[-> ->]]; [|done].
  destruct (tidy_look _ _ _ _ other Ht) as [(q & y & Eq & Ew' & Hq)|[-> ->]]; [|by rewrite Ep, Ew].
  rewrite Ep, Ew, Eq, Ew'. cbn [mbind option_bind]. destruct (decide (v = other)) as [->|Hn]; [done|]. cbn [agrees points counters].
  destruct (tidy_take _ _ _ _ _ _ Ht Ep) as (_ & _ & _ & Ht'). destruct (release_buckets_spec _ _ _ _ _ Ht') as [Hr _].
  pose proof (move_agrees (delete v (points s)) (delete v w) (release_buckets p (counters s)) v other q y Hn Hr) as Hm.
  rewrite !lookup_delete_eq, !lookup_delete_ne in Hm by done. specialize (Hm eq_refl Eq Ew').
  rewrite <-!(delete_insert_ne _ v other), !insert_delete_eq in Hm by done. done.
Qed.

Lemma change_agrees s w v positive f : tidy (points s) w (counters s) [] → agrees (point_step s (ChangeCounter v positive f)) (value_step w (ChangeCounter v positive f)).
Proof.
  intros Ht. cbn [point_step value_step]. destruct (tidy_look _ _ _ _ v Ht) as [(p & x & Ep & Ew & Hp)|[-> ->]]; [|done]. rewrite Ep, Ew. cbn [mbind option_bind].
  destruct (tidy_take _ _ _ _ _ _ Ht Ep) as (_ & _ & _ & Ht').
  assert (Hchange : ∀ a c x', a ∈ pointers p → rep (<[a := f c]> (counters s)) p x' → tidy (points s) (<[v := x']> w) (<[a := f c]> (counters s)) []).
  { intros a c x' Ha Hx. rewrite <-(insert_id (points s) v p Ep). apply tidy_replace; [|done]. pose proof (td_nodup _ _ _ _ Ht') as Hnd.
    apply list.NoDup_app in Hnd as (_ & Hnd & _). split; [by apply Ht'| |].
    - intros b. rewrite <-(td_dom _ _ _ _ Ht'). destruct (decide (b = a)) as [->|Hb]; [|by rewrite lookup_insert_ne].
      rewrite lookup_insert_eq, (td_dom _ _ _ _ Ht'). split; [intros _; set_solver|eauto].
    - eapply tidy_reps; [done|]. intros b Hb. apply lookup_insert_ne. intros <-. apply (Hnd a Hb). rewrite elem_of_app. by left. }
  pose proof (td_nodup _ _ _ _ Ht') as Hnd. apply list.NoDup_app in Hnd as (_ & _ & (Hnd & _ & _)%list.NoDup_app).
  destruct Hp as (Hn & Hp & Hg). unfold pointers in *. apply list.NoDup_app in Hnd as (_ & Hdis & _).
  destruct positive; cbn [buckets].
  - destruct (positive_buckets_ p) as [a|] eqn:Ea, (value_positive x) as [c|] eqn:Ec; try done. cbn in *. rewrite Hp. cbn.
    apply Hchange; [by left|]. split_and!; cbn; [done|rewrite Ea; cbn; apply lookup_insert_eq|]. eapply option_rep_stable; [|done].
    intros b Hb. apply lookup_insert_ne. intros <-. apply (Hdis a); [by left|done].
  - destruct (negative_buckets_ p) as [a|] eqn:Ea, (value_negative x) as [c|] eqn:Ec; try done. cbn in *. rewrite Hg. cbn.
    apply Hchange; [rewrite elem_of_app; right; by left|]. split_and!; cbn; [done| |rewrite Ea; cbn; apply lookup_insert_eq]. eapply option_rep_stable; [|done].
    intros b Hb. apply lookup_insert_ne. intros <-. apply (Hdis a); [done|by left].
Qed.

Lemma point_step_agrees s w o : tidy (points s) w (counters s) [] → agrees (point_step s o) (value_step w o).
Proof.
  intros Ht. destruct o as [v|v other|v other|v other|v other|v|v n|v positive f];
    [|by apply copy_new_agrees|by apply copy_assign_agrees| |by apply move_assign_agrees| | |by apply change_agrees]; cbn [point_step value_step].
  - destruct (tidy_look _ _ _ _ v Ht) as [(p & x & -> & -> & _)|[Ev Ew]]; [done|]. rewrite Ev, Ew, !option_guard_True by done. cbn [mbind option_bind].
    unfold Base2Point_new. destruct (make_unique (Counter_new 0) (counters s)) as [h1 a] eqn:E1. destruct (tidy_make _ _ _ _ (Counter_new 0) Ht) as (Ht1 & Ha & _).
    rewrite E1 in *. cbn [fst snd] in *. destruct (make_unique (Counter_new 0) h1) as [h2 b] eqn:E2.
    destruct (tidy_make _ _ _ _ (Counter_new 0) Ht1) as (Ht2 & Hb & Hk2). rewrite E2 in *. cbn [fst snd] in *. cbn.
    apply tidy_put; [change (pointers _ ++ []) with [a; b]; by rewrite (Permutation_swap b a [])|done|]. split_and!; [done| |done]. cbn. by rewrite Hk2 by eauto.
  - destruct (tidy_look _ _ _ _ v Ht) as [(p & x & -> & -> & _)|[Ev Ew]]; [done|]. rewrite Ev, Ew, !option_guard_True by done. cbn [mbind option_bind].
    destruct (tidy_look _ _ _ _ other Ht) as [(q & y & Eq & Ey & _)|[-> ->]]; [|done]. rewrite Eq, Ey. cbn.
    apply move_agrees; try done. intros ->. by rewrite Ev in Eq.
  - destruct (tidy_look _ _ _ _ v Ht) as [(p & x & Ep & Ew & _)|[-> ->]]; [|done]. rewrite Ep, Ew. cbn.
    destruct (tidy_take _ _ _ _ _ _ Ht Ep) as (_ & _ & _ & Ht'). exact (proj1 (release_buckets_spec _ _ _ _ _ Ht')).
  - destruct (tidy_look _ _ _ _ v Ht) as [(p & x & Ep & Ew & Hp)|[-> ->]]; [|done]. rewrite Ep, Ew. cbn.
    destruct (tidy_take _ _ _ _ _ _ Ht Ep) as (_ & _ & _ & Ht'). apply tidy_replace; [done|]. destruct Hp as (_ & Hp). split; [done|]. exact Hp.
Qed.

Definition run_points (s : Points) (ops : list point_op) : option Points := foldl (λ s o, s ← s; point_step s o) (Some s) ops.
Definition run_values (w : gmap nat PointValue) (ops : list point_op) : option (gmap nat PointValue) := foldl (λ w o, w ← w; value_step w o) (Some w) ops.

Lemma run_agrees ops r w : agrees r w → agrees (foldl (λ s o, s ← s; point_step s o) r ops) (foldl (λ w o, w ← w; value_step w o) w ops).
Proof.
  revert r w. induction ops as [|o ops IH]; intros r w H; [done|]. cbn [foldl]. apply IH. destruct r as [s|], w as [w|]; try done. by apply point_step_agrees.
Qed.

(** What a program sees of a point. *)
Definition seen (h : counter_heap) (p : Base2Point) : PointValue :=
  MkPointValue (numbers p) (positive_buckets_ p ≫= (h !!.)) (negative_buckets_ p ≫= (h !!.)).

Lemma rep_seen h p x : rep h p x → seen h p = x.
Proof.
  intros (Hn & Hp & Hg). destruct x as [n a b]. unfold seen. cbn in *. f_equal; [done|..].
  - destruct (positive_buckets_ p), a; try done; cbn in *; by rewrite Hp.
  - destruct (negative_buckets_ p), b; try done; cbn in *; by rewrite Hg.
Qed.

(** C32: Any program over points - created, copied, assigned, moved, changed through the counters, destroyed - behaves as if points
    were values: it follows a null pointer exactly when the value lacks the counter, no counter is shared or freed twice, and
    the counters alive are those of the points alive, so none is left when the points are gone. *)
Theorem points_are_values ops :
  match run_points (MkPoints ∅ ∅) ops, run_values ∅ ops with
  | Some s, Some w =>
      seen (counters s) <$> points s = w ∧ NoDup (refs (points s)) ∧ (∀ a, is_Some (counters s !! a) ↔ a ∈ refs (points s)) ∧
      (points s = ∅ → counters s = ∅)
  | None, None => True
  | _, _ => False
  end.
Proof.
  assert (H0 : agrees (Some (MkPoints ∅ ∅)) (Some ∅)).
  { split; cbn; [constructor| |by intros v; rewrite !lookup_empty]. intros a. rewrite lookup_empty. split; [by intros [? ?]|by intros ?%not_elem_of_nil]. }
  pose proof (run_agrees ops _ _ H0) as H. unfold run_points, run_values. destruct (foldl _ (Some (MkPoints _ _)) ops) as [s|], (foldl _ (Some ∅) ops) as [w|]; try done.
  pose proof H as [H1 H2 H3]. rewrite app_nil_r in *. split_and!; [|done..|].
  - apply map_eq. intros v. rewrite lookup_fmap. specialize (H3 v). destruct (points s !! v), (w !! v); try done. cbn. f_equal. by apply rep_seen.
  - intros E. apply map_eq. intros a. rewrite lookup_empty. apply eq_None_not_Some. rewrite H2, E. unfold refs. rewrite map_to_list_empty. apply not_elem_of_nil.
Qed.

(** Copying a point whose counters were moved away makes empty counters, where assigning it leaves none: the copy can be used
    and the assigned point follows a null pointer. *)
Example copies_of_moved :
  let moved := [NewPoint 0; MoveNew 1 0; NewPoint 3] in
  is_Some (run_points (MkPoints ∅ ∅) (moved ++ [CopyNew 2 0; ChangeCounter 2 true id])) ∧
  run_points (MkPoints ∅ ∅) (moved ++ [CopyAssign 3 0; ChangeCounter 3 true id]) = None.
Proof. vm_compute. split; [eauto|done]. Qed.
